(* ===== verification/_CoqProject ===== *)
-Q . S2P
Prelude.v
Protocol.v
Errors.v
GoStrings.v
Config.v
Callbacks.v
RetainedWeight.v
Wire.v
VarintTheory.v
EnvelopeTheory.v
CompressionTheory.v
ProvisionTheory.v
ByteBudget.v
ResourceBudgets.v
DeferredRing.v
Queue.v
QueueInvariant.v
QueueTheory.v
Endpoints.v
Identifiers.v
Message.v
MessageJSON.v
Delivery.v
BatchWorker.v
Provisioning.v
Pending.v
Writer.v
Connection.v
ConnectionTheory.v
Construct.v
NativeDecode.v
NativeLimits.v
NativeCodec.v
NativeTheory.v
SendPath.v
DeveloperCodec.v
DeveloperTheory.v
EndToEnd.v
DnsSelect.v
DnsResolver.v
DnsFlights.v
DnsLookup.v
Lifecycle.v
LifecycleInvariant.v
LifecycleSteps.v
LifecycleToken.v
LifecycleTheory.v
Rest.v
RestTheory.v
ServerConfig.v
ServerTheory.v
IntegrationDemo.v
DemoMain.v
Health.v
