(* ===== verification/Prelude.v ===== *)
(** * Go IM SDK: verification library

    The repository is a Go SDK for the Easemob instant-messaging service.  A
    Client logs in over a WebSocket connection to an msync endpoint
    chosen by a DNS document, synchronises its queues (one per conversation or
    group) by pulling batches after NOTICEs, hands the messages to the
    application, sends messages and waits for their ACKs, and reconnects when the
    connection is lost.  This library translates the logic of the SDK, package
    sdk and internal/protocol, into Gallina functions and step relations and
    proves what makes it correct.

    ** How the parts interact

    [New] makes a Client (Construct, Config).  Login resolves candidates through the
    shared resolver (DnsResolver, DnsSelect), dials them (Endpoints, Construct) and
    performs the PROVISION handshake (Provisioning); the lifecycle of the Client
    (Lifecycle) installs the run, watches it, reconnects, logs out and closes, and
    tells the application through its dispatcher (Callbacks).

    A frame from the network is admitted by the decode budget of the process
    (ResourceBudgets, on the estimate of Wire), decompressed (Wire), decoded
    by the native codec (NativeDecode, NativeCodec) and dispatched by the reader of
    the run (Connection).  A NOTICE goes to [startQueue] (Queue), which makes the
    queue active or defers it in the ring (DeferredRing); pull workers send the
    pulls through the writer of the run (Writer); a Sync batch is weighed
    (RetainedWeight), charged to two budgets (ResourceBudgets, ByteBudget) and given
    to a batch worker, which delivers its messages (Delivery, Message, MessageJSON)
    and then advances the queue.  A Send shows the application what it will send,
    encodes its frame (SendPath), registers in the pending table (Pending), with an
    id of Identifiers, and is woken by the ACK.  The heartbeat (Connection)
    ends a run whose server is silent.  When a run dies with an error (Errors), the
    reconnect asks the resolver again.  [Close] waits for the DNS requests the
    Client joined (DnsFlights).  REST operations (Rest) use the session of the
    Client.

    ** The files

    - Prelude (this file): machine integers with their wrap-around, the [result]
      type of Go's (value, error) pairs, list lemmas, shared tactics, the hint
      database [gosdk].
    - Protocol: internal/protocol/model.go, limits.go, codec.go.  The wire
      structures as records with the fields of the Go structs; Go enumerations
      stay integers.  A nil pointer is [None]; a slice keeps its capacity where
      the code reads it.
    - Errors: sdk/errors.go, [shouldRotateEndpoint] of endpoint_pool.go,
      [isTerminal].  An error is a tree of wrapped errors; errors.Is and
      errors.As walk it.
    - GoStrings: the functions of Go's packages strings, strconv and net that the
      SDK uses, for byte strings.
    - Config: the configuration and the enumerations of sdk/client.go,
      [applyDefaultsAndValidate].
    - Callbacks: the callback dispatcher of client.go ([emitAt],
      [publishTerminalCallbackLocked], [claimTerminalCallback], [dispatchEvents]),
      a step per critical section, select and call of the application.
    - RetainedWeight: [SyncRetainedWeight] of model.go, against the unbounded
      [ideal_weight].
    - Wire: nativecodec/envelope.go, provision_action.go.  VarintTheory,
      EnvelopeTheory, CompressionTheory and ProvisionTheory hold its theorems:
      the specification is a list of wire fields ([parses]).
    - ByteBudget: sdk/byte_budget.go.  A store of budgets; a blocked [Acquire] is
      a thread whose steps are its critical sections and its select.
    - ResourceBudgets: sdk/resource_budgets.go, decode_admission.go.
    - DeferredRing, Queue: sdk/queue.go, lines 1-610.  A [connectionRun] is the Go
      struct, with a heap of queue states shared by the map, the ring, the channel
      of pulls and the workers; [queueStep] interleaves one critical section at a
      time.  QueueInvariant proves its invariant, QueueTheory what follows.
    - Endpoints: sdk/endpoint_pool.go; [connectLoginCandidates],
      [connectWithRedirects], [redirectURL], [reconnectDelay] of connection.go and
      the choice of endpoints of [reconnect].
    - Identifiers: sdk/traceid.go, [nextMessageID] of client.go,
      [tokenExpiryTime] of connection.go, [parseRetryAfter] of rest.go.
    - Message, MessageJSON: sdk/message.go, message_json.go.
    - Delivery: [processMetas], [deliverMessage], [handleStatistic] of queue.go.
      BatchWorker: [batchWorker], which joins the scheduler and the delivery: a
      worker receives a job, begins it or drops it, and finishes it, in any
      interleaving with the steps of the scheduler.  The number of workers is not
      bounded; a pool of four has fewer interleavings.
    - Pending: [completeACK], [cancelPending], [Send] of queue.go: a step per
      critical section and channel operation.
    - Provisioning: the interface to the codec (class [FrameCodec], of
      protocol/codec.go), [login], [tryProvision], [parseProvisionState] of
      connection.go.
    - Writer: [sendFrame] and [writePump] of connection.go.
    - Connection: [readPump], [decodeAndDispatch], [dispatch], [heartbeat],
      [sendUnread]; ConnectionTheory holds its theorems, [refines] relates a frame
      to the steps of Queue and Pending.
    - Construct: [New], [dial]: the states the others start from.
    - NativeDecode, NativeCodec: internal/protocol/nativecodec/codec.go, the two
      directions of the cgo adapter; the instance of [FrameCodec] and the
      [MessageCodec] it gives.  NativeLimits has the specification [reads] of the
      decoder and its limits, NativeTheory the round trip of messages.
    - SendPath: [Send] of queue.go up to its registration, [buildSendMeta] of
      message.go.
    - DeveloperCodec: internal/protocol/native/native_darwin_arm64.go, the adapter
      for local builds (Module [Developer]; [None] is a crash), and the choice of
      a codec by codec_native.go and codec_unsupported.go.  DeveloperTheory
      compares it with the release adapter.
    - EndToEnd: a NOTICE, a batch and an ACK through codec, reader, scheduler,
      delivery and pending table.
    - DnsSelect, DnsResolver: sdk/dns.go.  DnsFlights: [trackDNSFlight],
      [waitPendingDNSFlights] of endpoint_pool.go.  DnsLookup: the composition
      [resolveCachedEndpointCandidates], for the clients of a process.
    - Lifecycle: Login, Logout, Close, [monitor], [reconnect], the token warning and
      the session state of connection.go and client.go: a step relation whose
      threads are the goroutines ([pc]) and whose shared state is the [world].
      LifecycleInvariant has the assertion of each thread, LifecycleSteps that every
      step keeps them (rely and guarantee), LifecycleToken what happens to the token
      and what a closed Client refuses, LifecycleTheory the properties.
    - Rest, RestTheory: sdk/rest.go.
    - ServerConfig, ServerTheory: cmd/server/main.go.  IntegrationDemo: the parsers
      of cmd/integration-demo/main.go.  DemoMain: its [main], a script of calls
      ([script], a tree of calls and what follows each answer), and what its
      callbacks log.
    - Health: [Health] and the accessors of client.go.

    ** What is proved

    - The lifecycle, under every interleaving: one owner at a time and no panic
      ([lifecycle_exclusive]); the Client agrees with its login state
      ([client_consistent], [login_state_machine], [health_consistent]); no
      connection leaks and every session is supervised; Close is complete and
      terminates, also for the DNS requests it waits for, and no Login, Logout or
      reconnect begins after it ([UpdateToken] alone is not refused); callbacks keep
      their order and no terminal bundle is lost.
    - A connection: dispatch refines the scheduler and the pending table; a failure
      to read ends the run and tells every Send; a silent server is detected; frames
      are written in order.
    - The codec: decoding is exactly the admissible frames, faithfully copied; a
      message within the limits and without a NUL survives if the library decodes
      what it made of its body to what it was given ([library_keeps_body]); the two
      adapters of the library decode alike, once a frame is decompressed and up to
      fields the developer's does not read ([adapters_decode_alike]), and encode
      alike ([adapters_encode_alike]).
    - The scanner of envelopes is a refinement of the wire format
      ([scanEnvelope_refines], [readVarint_appendVarint], [scanLoop_terminates]);
      decompression accepts and yields exactly what it should
      ([decompress_correct]); the admission estimate and the action version are
      correct on field lists.
    - Memory: the retained weight is exact and conservative; budgets and
      reservations balance under every interleaving, and no wake-up is lost.
    - Queues: [queue_never_stuck], [startQueue_schedules],
      [finish_batch_advances] (with its one exception, a full channel of pulls),
      [queue_capacity], [queue_accounting]; from the bytes of a NOTICE to its
      scheduled pull, [notice_end_to_end], and from the bytes of a batch through the
      workers to the handler, [batch_end_to_end]: while the run lasts, no job is
      dropped.
    - Delivery: each message of a batch once, in order, in at most three attempts.
    - Sends: never a blocked reader, never a foreign answer, no lost ACK while ids
      are distinct; from the request of a Send to the message its receiver sees,
      which is the one the sender announced ([send_end_to_end]), and from the bytes
      of an ACK to what the Send returns ([ack_end_to_end]).
    - Endpoints and DNS: rounds, redirects and login terminate and choose as
      documented; the resolver stays within its bounds; endpoints cannot be
      forged by the document; lookups of different clients do not mix
      ([lookups_isolated]) and no load outlives its Client
      ([close_waits_for_loads]).
    - Messages: the receiver sees what [NewOutgoingMessage] describes; the
      extension list is independent of the map order; JSON round trips.
    - REST: at most one request per operation is handed to the HTTP client, with
      exactly the headers of the session, an exact criterion of success, one
      report per failure; what is sent decodes to what was given.
    - cmd/server: tokens obey the policy for secrets; quoted values round trip.
      cmd/integration-demo: a run creates one Client, works only in the session, logs
      out before it closes ([demo_lifecycle]), and ends ([behaves_total]).
    - Nine theorems state behaviours that depart from the intent of the code or
      of a comment: [unsolicited_batches_fill_the_channel],
      [parseRetryAfter_wraps], [asUint64_admits_two64], [stuckHandlers_balance],
      [reused_id_loses_ack], [readBounded_over],
      [demo_accepts_what_the_server_refuses], [resource_in_bytes], [nul_is_cut].

    ** Fuel

    Loops that are not structural take fuel.  [scanLoop] and [upsertLoop] take
    the length of the data, each turn consuming a byte at least; [readVarint]
    is bounded by ten bytes as in the code; [promoteLoop] takes the length of
    the ring and one, each turn popping an element; [redirectLoop] takes
    [maxRedirectHops] + 2 turns and [connectWithRedirects_correct] shows that
    more change nothing; [loginLoop] one turn per candidate and one; [evict] one
    per cached entry; [cooldownLoop] one per failure; [waitClock] is the wait
    for a clock to move, and the theorems about [next] say when it ends;
    [unquoteLoop] the length of the text and one, each turn reading a byte at least.

    ** Parameters

    What is not under the repository is a parameter: the native library (the record
    [nativeLibrary], with zlib's inflate), the parser of encoding/json from bytes
    to values, formatting of floats, [%q], url.Parse, the checks of
    http.NewRequest and the HTTP client, http.ParseTime, the clock, files and the
    environment, the network (the outcome of a dial, of a read, of a write), the
    answers of contexts, the choices of selects and what handlers do, the logger
    slog.Default returns; for the developer's adapter also the capacity [append] leaves a slice with.  Components
    that call the codec are proved against its interface ([FrameCodec],
    [MessageCodec]).  Where net/url, strconv and encoding/json have rules that the
    SDK depends on (which Go type a value decodes into, how a host, a path segment
    or a form is escaped, what a quoted string means) these are definitions.
    strings.ToLower is applied to ASCII only: the strings it is compared with
    are ASCII, and no other character lowers to one of theirs.

    ** What is not modelled

    - The WebSocket and HTTP transports, logging and telemetry sinks: input and
      output.
    - The callbacks of cmd/integration-demo that only log a connection event or the
      expiry of a token, and the parsing of its flags by package flag.
    - The native library itself and the memory of C buffers; panics it might raise
      are not modelled in [processMetas].
    - nativecodec/unsupported.go, which only stops a build by a failed assertion.
    - Go's memory model below the mutexes: a critical section is one step. *)
From stdpp Require Export prelude gmap strings pretty.
From Stdlib Require Export ZArith Lia.

#[global] Open Scope Z_scope.

Create HintDb gosdk discriminated.

(** ** Machine integers

    A Go [uint64] is a [Z] in [0, 2^64); an [int64] (and [int], the targets are
    64-bit) is a [Z] in [-2^63, 2^63).  Arithmetic that may wrap is written
    with [u64] and [i64]. *)

Definition two64 : Z := 2 ^ 64.
Definition max_uint64 : Z := two64 - 1.
Definition max_int64 : Z := 2 ^ 63 - 1.
Definition min_int64 : Z := - 2 ^ 63.

Definition u64 (z : Z) : Z := z mod two64.
Definition i64 (z : Z) : Z := (z + 2 ^ 63) mod two64 - 2 ^ 63.

Definition in_u64 (z : Z) : Prop := 0 <= z <= max_uint64.
Definition in_i64 (z : Z) : Prop := min_int64 <= z <= max_int64.

Lemma two64_val : two64 = 18446744073709551616.
Proof. reflexivity. Qed.
Lemma max_uint64_val : max_uint64 = 18446744073709551615.
Proof. reflexivity. Qed.
Lemma max_int64_val : max_int64 = 9223372036854775807.
Proof. reflexivity. Qed.
Lemma min_int64_val : min_int64 = -9223372036854775808.
Proof. reflexivity. Qed.

(** Turns the integer bounds into literals, then calls [lia]. *)
Ltac word_lia :=
  unfold in_u64, in_i64 in *;
  rewrite ?max_uint64_val, ?max_int64_val, ?min_int64_val, ?two64_val in *; lia.

Lemma u64_id z : in_u64 z -> u64 z = z.
Proof. intros H. unfold u64. apply Z.mod_small. word_lia. Qed.

Lemma i64_id z : in_i64 z -> i64 z = z.
Proof.
  intros H. unfold i64. rewrite Z.mod_small; [lia|].
  rewrite two64_val. unfold in_i64 in H. rewrite min_int64_val, max_int64_val in H. lia.
Qed.

Definition i32 (z : Z) : Z := (z + 2 ^ 31) mod 2 ^ 32 - 2 ^ 31.

Lemma i32_id z : - 2 ^ 31 <= z < 2 ^ 31 -> i32 z = z.
Proof. intros H. unfold i32. rewrite Z.mod_small; lia. Qed.

Lemma u64_range z : in_u64 (u64 z).
Proof.
  unfold u64, in_u64, max_uint64. pose proof (Z.mod_pos_bound z two64).
  rewrite two64_val in *. lia.
Qed.

(** Packing two fields of a word. *)
Lemma shiftl_lor_add a n b : 0 <= n -> 0 <= b < 2 ^ n -> Z.lor (Z.shiftl a n) b = a * 2 ^ n + b.
Proof.
  intros Hn Hb. rewrite <- Z.shiftl_mul_pow2 by done. symmetry. apply Z.add_nocarry_lor.
  apply Z.bits_inj'. intros i Hi. rewrite Z.land_spec, Z.bits_0, andb_false_iff.
  destruct (Z.lt_ge_cases i n) as [Hlt|Hge].
  - left. by apply Z.shiftl_spec_low.
  - right. rewrite <- (Z.mod_small b (2 ^ n)) by done. by apply Z.mod_pow2_bits_high.
Qed.

(** Rounding up to a multiple, without any machine bound. *)
Definition round_up (q v : Z) : Z := q * ((v + q - 1) / q).

Lemma round_up_ge q v : 0 < q -> v <= round_up q v.
Proof. intros Hq. unfold round_up. pose proof (Z.div_mod (v + q - 1) q).
  pose proof (Z.mod_pos_bound (v + q - 1) q Hq). lia. Qed.

Lemma round_up_lt q v : 0 < q -> round_up q v < v + q.
Proof. intros Hq. unfold round_up. pose proof (Z.div_mod (v + q - 1) q).
  pose proof (Z.mod_pos_bound (v + q - 1) q Hq). lia. Qed.

Lemma round_up_mono q v w : 0 < q -> v <= w -> round_up q v <= round_up q w.
Proof.
  intros Hq Hvw. unfold round_up. apply Z.mul_le_mono_nonneg_l; [lia|].
  apply Z.div_le_mono; lia.
Qed.

Lemma round_up_divide q v : (q | round_up q v).
Proof. unfold round_up. apply Z.divide_factor_l. Qed.

(** The form the sources use: [v] when the remainder is zero and
    [v + (q - v mod q)] otherwise. *)
Lemma round_up_spec q v :
  0 < q -> round_up q v = if v mod q =? 0 then v else v + (q - v mod q).
Proof.
  intros Hq. unfold round_up.
  pose proof (Z.div_mod v q ltac:(lia)) as Hd.
  pose proof (Z.mod_pos_bound v q Hq) as Hb.
  destruct (Z.eqb_spec (v mod q) 0) as [H0|H0].
  - replace (v + q - 1) with (q - 1 + (v / q) * q) by lia.
    rewrite Z.div_add by lia. rewrite Z.div_small by lia. lia.
  - replace (v + q - 1) with ((v mod q - 1) + (v / q + 1) * q) by lia.
    rewrite Z.div_add by lia. rewrite Z.div_small by lia. lia.
Qed.

(** ** Bytes and strings *)

Abbreviation bytes := (list Z) (only parsing).

Definition byte_ok (b : Z) : Prop := 0 <= b < 256.
Definition bytes_ok (l : bytes) : Prop := Forall byte_ok l.

Definition zlen {A} (l : list A) : Z := Z.of_nat (length l).

(** Go [len] of a string: its number of bytes. *)
Definition slen (s : string) : Z := Z.of_nat (String.length s).

Definition byte_of_ascii (c : Ascii.ascii) : Z := Z.of_N (Ascii.N_of_ascii c).
Definition bytes_of_string (s : string) : bytes := map byte_of_ascii (String.list_ascii_of_string s).

Lemma zlen_nonneg {A} (l : list A) : 0 <= zlen l.
Proof. unfold zlen. lia. Qed.
Lemma slen_nonneg s : 0 <= slen s.
Proof. unfold slen. lia. Qed.
#[export] Hint Resolve zlen_nonneg slen_nonneg : gosdk.

Lemma zlen_app {A} (l k : list A) : zlen (l ++ k) = zlen l + zlen k.
Proof. unfold zlen. rewrite length_app. lia. Qed.

Lemma zlen_cons {A} (x : A) l : zlen (x :: l) = 1 + zlen l.
Proof. unfold zlen. rewrite length_cons. lia. Qed.

Lemma byte_of_ascii_ok c : byte_ok (byte_of_ascii c).
Proof. unfold byte_ok, byte_of_ascii. pose proof (Ascii.N_ascii_bounded c). lia. Qed.

Lemma bytes_of_string_ok s : bytes_ok (bytes_of_string s).
Proof.
  unfold bytes_of_string. apply Forall_map, Forall_true. apply byte_of_ascii_ok.
Qed.

Lemma length_bytes_of_string s : length (bytes_of_string s) = String.length s.
Proof. unfold bytes_of_string. rewrite length_map. induction s; simpl; congruence. Qed.

(** A Go slice expression [l[a:b]]. *)
Definition slice {A} (a b : nat) (l : list A) : list A := take (b - a) (drop a l).

Lemma slice_app_mid {A} (l1 l2 l3 : list A) :
  slice (length l1) (length l1 + length l2) (l1 ++ l2 ++ l3) = l2.
Proof.
  unfold slice. rewrite drop_app_length. replace (_ - _)%nat with (length l2) by lia.
  apply take_app_length.
Qed.

Lemma length_slice {A} (a b : nat) (l : list A) :
  (a <= b)%nat -> (b <= length l)%nat -> length (slice a b l) = (b - a)%nat.
Proof. intros. unfold slice. rewrite length_take, length_drop. lia. Qed.

Lemma slice_split {A} (a b : nat) (l : list A) :
  (a <= b)%nat -> (b <= length l)%nat -> l = take a l ++ slice a b l ++ drop b l.
Proof.
  intros Hab Hb. unfold slice. rewrite <- (take_drop a l) at 1. f_equal.
  rewrite <- (take_drop (b - a) (drop a l)) at 1. f_equal.
  rewrite drop_drop. f_equal. lia.
Qed.

(** ** Sums *)

Definition zsum (l : list Z) : Z := foldr Z.add 0 l.
Arguments zsum : simpl never.

Lemma zsum_app l k : zsum (l ++ k) = zsum l + zsum k.
Proof. induction l; [done|]. unfold zsum in *. simpl. lia. Qed.

Lemma zsum_cons x l : zsum (x :: l) = x + zsum l.
Proof. reflexivity. Qed.

Lemma zsum_nonneg l : Forall (fun x => 0 <= x) l -> 0 <= zsum l.
Proof. induction 1; unfold zsum in *; simpl; lia. Qed.

Lemma zsum_perm l k : l ≡ₚ k -> zsum l = zsum k.
Proof. induction 1; unfold zsum in *; simpl; lia. Qed.

Lemma zsum_map_insert {A} (f : A -> Z) (l : list A) i x y :
  l !! i = Some x -> zsum (map f (<[i := y]> l)) = zsum (map f l) - f x + f y.
Proof.
  revert i. induction l as [|a l IH]; intros [|i] H; try done; simpl.
  - injection H as ->. rewrite !zsum_cons. lia.
  - rewrite !zsum_cons, (IH _ H). lia.
Qed.

Lemma zsum_map_le {A} (f : A -> Z) (l : list A) i x :
  Forall (fun a => 0 <= f a) l -> l !! i = Some x -> f x <= zsum (map f l).
Proof.
  intros Hf. revert i. induction Hf as [|a l Ha Hf IH]; intros [|i] H; try done; simpl; rewrite zsum_cons.
  - injection H as ->. assert (0 <= zsum (map f l)) by (by apply zsum_nonneg, Forall_map). lia.
  - specialize (IH _ H). lia.
Qed.

Lemma zsum_concat_map {A} (f : A -> list Z) (xs : list A) :
  zsum (concat (map f xs)) = zsum (map (fun x => zsum (f x)) xs).
Proof. induction xs; simpl; [done|]. rewrite zsum_app, !zsum_cons. lia. Qed.

(** ** Tactics *)

(** Splits the innermost boolean test of the goal or of a hypothesis and
    turns the test into a proposition. *)
Ltac case_bool :=
  match goal with
  | |- context [if ?b then _ else _] =>
      lazymatch b with context [if _ then _ else _] => fail | _ => destruct b eqn:? end
  | H : context [if ?b then _ else _] |- _ =>
      lazymatch b with context [if _ then _ else _] => fail | _ => destruct b eqn:? end
  end.

(** Reflects the boolean comparisons of the context. *)
Ltac breflect :=
  repeat match goal with
  | H : (_ && _) = true |- _ => apply andb_true_iff in H; destruct H
  | H : (_ && _) = false |- _ => apply andb_false_iff in H; destruct H
  | H : (_ || _) = true |- _ => apply orb_true_iff in H; destruct H
  | H : (_ || _) = false |- _ => apply orb_false_iff in H; destruct H
  | H : negb _ = true |- _ => apply negb_true_iff in H
  | H : negb _ = false |- _ => apply negb_false_iff in H
  | H : (_ =? _) = true |- _ => apply Z.eqb_eq in H
  | H : (_ =? _) = false |- _ => apply Z.eqb_neq in H
  | H : (_ <? _) = true |- _ => apply Z.ltb_lt in H
  | H : (_ <? _) = false |- _ => apply Z.ltb_ge in H
  | H : (_ <=? _) = true |- _ => apply Z.leb_le in H
  | H : (_ <=? _) = false |- _ => apply Z.leb_gt in H
  | H : (_ >? _) = true |- _ => rewrite Z.gtb_ltb in H; apply Z.ltb_lt in H
  | H : (_ >? _) = false |- _ => rewrite Z.gtb_ltb in H; apply Z.ltb_ge in H
  | H : (_ >=? _) = true |- _ => rewrite Z.geb_leb in H; apply Z.leb_le in H
  | H : (_ >=? _) = false |- _ => rewrite Z.geb_leb in H; apply Z.leb_gt in H
  | H : (_ <? _)%nat = true |- _ => apply Nat.ltb_lt in H
  | H : (_ <? _)%nat = false |- _ => apply Nat.ltb_ge in H
  | H : (_ <=? _)%nat = true |- _ => apply Nat.leb_le in H
  | H : (_ <=? _)%nat = false |- _ => apply Nat.leb_gt in H
  | H : (_ =? _)%nat = true |- _ => apply Nat.eqb_eq in H
  | H : (_ =? _)%nat = false |- _ => apply Nat.eqb_neq in H
  | H : String.eqb _ _ = true |- _ => apply String.eqb_eq in H
  | H : String.eqb _ _ = false |- _ => apply String.eqb_neq in H
  | H : bool_decide _ = true |- _ => apply bool_decide_eq_true in H
  | H : bool_decide _ = false |- _ => apply bool_decide_eq_false in H
  end.
