(* ===== verification/Protocol.v ===== *)
(** * The protobuf-independent wire boundary

    internal/protocol/model.go and limits.go: the owned Go values that cross
    the codec boundary, the protocol limits, and the identity of queues.  Go
    integer enumerations stay integers ([Z]) with named constants, because a
    peer can send a value outside the named ones. *)
From S2P Require Import Prelude.
From Stdlib Require Import SpecFloat.

(** ** limits.go *)

Definition MaxCodecInputBytes : Z := Z.shiftl 16 20.
Definition MaxSyncMetas : Z := 256.
Definition MaxSyncPayloadBytes : Z := Z.shiftl 2 20.
Definition MaxSyncStringBytes : Z := Z.shiftl 1 20.
Definition MaxSyncDirectedUsers : Z := 1024.
Definition MaxSyncRetainedWeight : Z := Z.shiftl 8 20.
Definition MaxJIDComponentBytes : Z := Z.shiftl 4 10.
Definition MaxJIDBytes : Z := Z.shiftl 16 10.
Definition MaxFrameCollectionItems : Z := 4096.
Definition ActionVersion : string := "v5.1".

(** ** Enumerations *)

Definition CommandSync : Z := 0.
Definition CommandUnread : Z := 1.
Definition CommandNotice : Z := 2.
Definition CommandProvision : Z := 3.
Definition CommandLogout : Z := 4.

Definition NamespaceStatistic : Z := 0.
Definition NamespaceChat : Z := 1.

Definition RouteAll : Z := 0.
Definition RouteOnline : Z := 1.
Definition RouteDirect : Z := 2.

Definition StatusOK : Z := 0.
Definition StatusRedirect : Z := 5.

Definition MessageChat : Z := 1.
Definition MessageGroupChat : Z := 2.

Definition ContentText : Z := 0.
Definition ContentCommand : Z := 6.
Definition ContentCustom : Z := 7.

Definition StatisticInformation : Z := 0.
Definition StatisticUserRemoved : Z := 1.
Definition StatisticUserLoginAnotherDevice : Z := 2.
Definition StatisticUserKickedByChangePassword : Z := 3.
Definition StatisticUserKickedByOtherDevice : Z := 4.

(** The declared kinds of a wire key/value; [KVOther] stands for every other
    integer a peer may send. *)
Inductive KeyValueKind :=
| KVBool | KVInt | KVUint | KVLong | KVFloat | KVDouble | KVString | KVJSONString
| KVOther (n : Z).

(** ** Slices

    A Go slice is its elements and the capacity of its backing array; the nil
    slice has no element and capacity 0. *)
Record gslice (A : Type) := GSlice { sl_elems : list A; sl_cap : Z }.
Arguments GSlice {A} _ _.
Arguments sl_elems {A} _.
Arguments sl_cap {A} _.

Definition nil_slice {A} : gslice A := GSlice [] 0.

(** What the runtime guarantees of a slice: the length is at most the
    capacity, which is an [int]. *)
Definition slice_ok {A} (s : gslice A) : Prop := zlen (sl_elems s) <= sl_cap s <= max_int64.

(** ** Structs *)

Record JID := mkJID {
  j_AppKey : string; j_Name : string; j_Domain : string; j_ClientResource : string }.

#[export] Instance JID_eq_dec : EqDecision JID.
Proof. solve_decision. Defined.

Definition JID_ID (j : JID) : string :=
  j_AppKey j +:+ "/" +:+ j_Name j +:+ "/" +:+ j_Domain j +:+ "/" +:+ j_ClientResource j.

Definition JID_BareID (j : JID) : string :=
  j_AppKey j +:+ "/" +:+ j_Name j +:+ "/" +:+ j_Domain j.

Record RedirectInfo := mkRedirectInfo { ri_Host : string; ri_Port : Z }.

#[export] Instance RedirectInfo_eq_dec : EqDecision RedirectInfo.
Proof. solve_decision. Defined.

Record Status := mkStatus {
  st_Code : Z; st_Reason : string; st_Redirects : gslice RedirectInfo }.

Record KeyValue := mkKeyValue {
  kv_Key : string; kv_Kind : KeyValueKind; kv_Bool : bool; kv_Int64 : Z;
  kv_Uint64 : Z; kv_Float : spec_float; kv_Double : spec_float; kv_String : string }.

Record Meta := mkMeta {
  m_ID : Z; m_From : JID; m_To : JID; m_Timestamp : Z; m_Namespace : Z;
  m_Payload : gslice Z; m_Route : Z; m_Ext : gslice KeyValue;
  m_DirectedUsers : gslice string; m_ExpireTime : Z; m_LocalTimestamp : Z;
  m_Environment : string; m_Attributes : gslice Z }.

Record ProvisionRequest := mkProvisionRequest {
  pq_User : JID; pq_SDKVersion : string; pq_Resource : string; pq_AuthToken : bytes }.

Record LogoutRequest := mkLogoutRequest { lq_SessionID : string; lq_Reason : string }.

Record Provision := mkProvision {
  pv_Status : option Status; pv_SessionID : string; pv_AuthToken : bytes }.

Record Unread := mkUnread {
  un_Status : option Status; un_Queues : list JID; un_Timestamp : Z }.

Record SyncRequest := mkSyncRequest {
  sr_Meta : option Meta; sr_Key : Z; sr_Queue : option JID }.

Record Sync := mkSync {
  sy_Status : option Status; sy_MetaID : Z; sy_ServerID : Z; sy_Metas : gslice Meta;
  sy_NextKey : Z; sy_Queue : option JID; sy_IsLast : bool; sy_Timestamp : Z }.

Record Logout := mkLogout { lo_Status : option Status }.

Record Frame := mkFrame {
  fr_Command : Z; fr_TraceID : Z; fr_Provision : option Provision;
  fr_Unread : option Unread; fr_Notice : option JID; fr_Sync : option Sync;
  fr_Logout : option Logout }.

Record Content := mkContent {
  ct_Kind : Z; ct_Text : string; ct_Action : string; ct_Params : list KeyValue;
  ct_Event : string; ct_CustomExts : list KeyValue; ct_RawPayload : bytes }.

Record MessageBody := mkMessageBody {
  mb_Kind : Z; mb_From : JID; mb_To : JID; mb_Contents : list Content;
  mb_Ext : list KeyValue }.

Record Statistic := mkStatistic {
  sc_Operation : Z; sc_ReplaceDeviceName : string; sc_SessionID : string;
  sc_Reason : string }.

(** The tiers of codec.go's [DecodeAdmissionClass]; the estimator's zero value
    (returned beside an error) is not a tier. *)
Inductive DecodeAdmissionClass :=
| DecodeAdmissionTiny | DecodeAdmissionSmall | DecodeAdmissionLarge
| DecodeAdmissionCompressed | DecodeAdmissionAmbiguous.
