(* ===== verification/Errors.v ===== *)
(** * Errors

    sdk/errors.go: the error values of the SDK, how they wrap each other, and
    the classification of protocol statuses and network failures. *)
From Stdlib Require Import String.
From S2P Require Import Prelude Protocol.
Local Open Scope string_scope.
Local Open Scope Z_scope.

Inductive ErrorCode :=
| ErrNone
| ErrDNS | ErrStreamClosed | ErrTLSFailed | ErrTimeout | ErrHandshake | ErrIO
| ErrNotConnected | ErrNotLoggedIn | ErrAlreadyLoggedIn | ErrClientClosed
| ErrWriteBackpressure | ErrInvalidToken | ErrTokenExpired | ErrUserNotFound
| ErrUserForbidden | ErrPermissionDenied | ErrAppActiveLimit | ErrBindAnotherDevice
| ErrTooManyDevices | ErrResourceChanged | ErrAuthentication | ErrProtocol
| ErrProtocolLimit | ErrRedirectLoop | ErrRedirectLimit | ErrHandlerFailed
| ErrHandlerBacklog | ErrCallbackBacklog | ErrKickedChangePass
| ErrSendOutcomeUnknown | ErrMessageIDExhausted.

#[export] Instance ErrorCode_eq_dec : EqDecision ErrorCode.
Proof. solve_decision. Defined.

Definition ErrorCode_string (c : ErrorCode) : string :=
  match c with
  | ErrNone => ""
  | ErrDNS => "DNS_ERROR" | ErrStreamClosed => "STREAM_CLOSED"
  | ErrTLSFailed => "TLS_FAILED" | ErrTimeout => "TIMEOUT"
  | ErrHandshake => "HANDSHAKE_ERROR" | ErrIO => "IO_ERROR"
  | ErrNotConnected => "NOT_CONNECTED" | ErrNotLoggedIn => "NOT_LOGGED_IN"
  | ErrAlreadyLoggedIn => "ALREADY_LOGGED_IN" | ErrClientClosed => "CLIENT_CLOSED"
  | ErrWriteBackpressure => "WRITE_BACKPRESSURE" | ErrInvalidToken => "INVALID_TOKEN"
  | ErrTokenExpired => "TOKEN_EXPIRED" | ErrUserNotFound => "USER_NOT_FOUND"
  | ErrUserForbidden => "IM_FORBIDDEN" | ErrPermissionDenied => "PERMISSION_DENIED"
  | ErrAppActiveLimit => "APP_ACTIVE_LIMIT"
  | ErrBindAnotherDevice => "USER_BIND_ANOTHER_DEVICE"
  | ErrTooManyDevices => "USER_LOGIN_TOO_MANY_DEVICES"
  | ErrResourceChanged => "USER_DEVICE_CHANGED"
  | ErrAuthentication => "AUTHENTICATION_FAILED" | ErrProtocol => "PROTOCOL_ERROR"
  | ErrProtocolLimit => "PROTOCOL_LIMIT" | ErrRedirectLoop => "REDIRECT_LOOP"
  | ErrRedirectLimit => "REDIRECT_LIMIT" | ErrHandlerFailed => "HANDLER_FAILED"
  | ErrHandlerBacklog => "HANDLER_BACKLOG" | ErrCallbackBacklog => "CALLBACK_BACKLOG"
  | ErrKickedChangePass => "KICKED_BY_PASSWORD_CHANGE"
  | ErrSendOutcomeUnknown => "SEND_OUTCOME_UNKNOWN"
  | ErrMessageIDExhausted => "MESSAGE_ID_EXHAUSTED"
  end.

(** Sentinel values compared with [errors.Is]. *)
Inductive sentinel :=
| ErrLimitExceeded          (* protocol.ErrLimitExceeded *)
| errByteBudgetInvariant    (* sdk/byte_budget.go *)
| ContextCanceled | ContextDeadlineExceeded
| NetErrClosed.

#[export] Instance sentinel_eq_dec : EqDecision sentinel.
Proof. solve_decision. Defined.

Definition sentinel_string (s : sentinel) : string :=
  match s with
  | ErrLimitExceeded => "protocol limit exceeded"
  | errByteBudgetInvariant => "byte budget invariant violation"
  | ContextCanceled => "context canceled"
  | ContextDeadlineExceeded => "context deadline exceeded"
  | NetErrClosed => "use of closed network connection"
  end.

(** The concrete type of an error value made by a library: what
    [errors.As] can observe of it. *)
Record libtype := mkLibtype {
  lt_netError : bool;            (* implements net.Error *)
  lt_timeout : bool;             (* its Timeout() *)
  lt_dns : bool;                 (* *net.DNSError *)
  lt_tls : bool;                 (* x509.UnknownAuthorityError, x509.HostnameError or tls.RecordHeaderError *)
}.

#[export] Instance libtype_eq_dec : EqDecision libtype.
Proof. solve_decision. Defined.

(** An error value.  [EWrap] is [fmt.Errorf] with one [%w]; its message is the
    rendered text.  [EJoin] is [errors.Join] of one or two errors. *)
Inductive goerror :=
| EPlain (msg : string)
| ESentinel (s : sentinel)
| EWrap (msg : string) (cause : goerror)
| EJoin (first : goerror) (second : option goerror)
| ESDK (Code : ErrorCode) (Operation Reason : string) (StatusCode HTTPStatus : Z)
       (Cause : option goerror)
| ERedirect (info : list RedirectInfo)
| ELib (t : libtype) (msg : string) (cause : option goerror).

(** ** Results

    A Go function returning [(T, error)]. *)
Inductive result (A : Type) := Ok (a : A) | Err (e : goerror).
Arguments Ok {A} _.
Arguments Err {A} _.

#[export] Instance result_ret : MRet result := fun _ a => Ok a.
#[export] Instance result_bind : MBind result := fun _ _ f r =>
  match r with Ok a => f a | Err e => Err e end.

Definition is_ok {A} (r : result A) : bool := match r with Ok _ => true | Err _ => false end.

Lemma bind_Ok {A B} (r : result A) (f : A -> result B) b :
  (r ≫= f) = Ok b -> exists a, r = Ok a /\ f a = Ok b.
Proof. destruct r as [a|e]; simpl; [eauto|discriminate]. Qed.

(** Reduces the monad and the boolean connectives and nothing else. *)
Ltac rsimpl := cbn [mbind result_bind mret result_ret negb orb andb fst snd is_ok].

(** Inverts a chain of binds that ends in [Ok]. *)
Ltac inv_ok :=
  repeat match goal with
  | H : (_ ≫= _) = Ok _ |- _ =>
      let a := fresh "v" in let E := fresh "Hv" in
      apply bind_Ok in H; destruct H as (a & E & H)
  | H : Ok _ = Ok _ |- _ => injection H as H; subst
  | H : Err _ = Ok _ |- _ => discriminate H
  | H : mret _ = Ok _ |- _ => unfold mret, result_ret in H
  | H : (if _ then Err _ else _) = Ok _ |- _ => case_bool; [discriminate H|]
  | x : (_ * _)%type |- _ => destruct x
  end.

(** ** strings.Contains and strings.ToLower *)

Definition strings_Contains (s sub : string) : bool :=
  match String.index 0 sub s with Some _ => true | None => false end.

Definition lower_ascii (c : Ascii.ascii) : Ascii.ascii :=
  let n := Ascii.N_of_ascii c in
  if ((65 <=? n) && (n <=? 90))%N then Ascii.ascii_of_N (n + 32)%N else c.

Fixpoint strings_ToLower (s : string) : string :=
  match s with
  | EmptyString => EmptyString
  | String c s => String (lower_ascii c) (strings_ToLower s)
  end.

(** ** Rendering: SDKError.Error and the other Error methods *)

Fixpoint Error (e : goerror) : string :=
  match e with
  | EPlain msg => msg
  | ESentinel s => sentinel_string s
  | EWrap msg _ => msg
  | EJoin a None => Error a
  | EJoin a (Some b) => Error a ++ String (Ascii.ascii_of_nat 10) "" ++ Error b
  | ESDK code op reason _ _ _ =>
      let msg := ErrorCode_string code in
      let msg := if String.eqb op "" then msg else op ++ ": " ++ msg in
      if String.eqb reason "" then msg else msg ++ ": " ++ reason
  | ERedirect _ => "server redirect"
  | ELib _ msg _ => msg
  end.

(** ** errors.Is, errors.As

    [find_in_chain p e] is the first error, in the depth-first order of the
    [errors] package, for which [p] answers. *)
Fixpoint find_in_chain {A} (p : goerror -> option A) (e : goerror) : option A :=
  match p e with
  | Some a => Some a
  | None =>
      match e with
      | EPlain _ | ESentinel _ | ERedirect _ => None
      | EWrap _ c => find_in_chain p c
      | EJoin a None => find_in_chain p a
      | EJoin a (Some b) =>
          match find_in_chain p a with Some x => Some x | None => find_in_chain p b end
      | ESDK _ _ _ _ _ (Some c) | ELib _ _ (Some c) => find_in_chain p c
      | ESDK _ _ _ _ _ None | ELib _ _ None => None
      end
  end.

Definition errors_Is (s : sentinel) (e : goerror) : bool :=
  match find_in_chain
          (fun e => match e with
                    | ESentinel s' => if decide (s = s') then Some tt else None
                    | _ => None end) e
  with Some _ => true | None => false end.

Definition errors_As_SDKError (e : goerror) : option goerror :=
  find_in_chain (fun e => match e with ESDK _ _ _ _ _ _ => Some e | _ => None end) e.

Definition errors_As_redirect (e : goerror) : option (list RedirectInfo) :=
  find_in_chain (fun e => match e with ERedirect i => Some i | _ => None end) e.

Definition errors_As_lib (p : libtype -> bool) (e : goerror) : option libtype :=
  find_in_chain (fun e => match e with
                          | ELib t _ _ => if p t then Some t else None
                          | _ => None end) e.

(** [errors.As] into a [net.Error], then its [Timeout]: besides the library
    errors, [context.DeadlineExceeded] (a timeout) and [net.ErrClosed] (not
    one) implement the interface. *)
Definition errors_As_netTimeout (e : goerror) : bool :=
  match find_in_chain
          (fun e => match e with
                    | ELib t _ _ => if lt_netError t then Some (lt_timeout t) else None
                    | ESentinel ContextDeadlineExceeded => Some true
                    | ESentinel NetErrClosed => Some false
                    | _ => None end) e
  with Some b => b | None => false end.

(** ** errors.go *)

Definition errorCode (err : option goerror) : ErrorCode :=
  match err ≫= errors_As_SDKError with
  | Some (ESDK c _ _ _ _ _) => c
  | _ => ErrNone
  end.

Definition newError (code : ErrorCode) (op reason : string) : goerror :=
  ESDK code op reason 0 0 None.

Definition wrapError (code : ErrorCode) (op : string) (cause : goerror) : goerror :=
  ESDK code op (Error cause) 0 0 (Some cause).

(** [errors.Join]: nil when every argument is nil. *)
Definition errors_Join (a b : option goerror) : option goerror :=
  match a, b with
  | None, None => None
  | Some a, b => Some (EJoin a b)
  | None, Some b => Some (EJoin b None)
  end.

Definition mentions (err : goerror) (sub : string) : bool :=
  strings_Contains (strings_ToLower (Error err)) sub.

Definition is_some {A} (o : option A) : bool := match o with Some _ => true | None => false end.

Definition classifyNetworkError (op : string) (err : option goerror) : option goerror :=
  match err with
  | None => None
  | Some err =>
      if is_some (errors_As_SDKError err) then Some err else
      if is_some (errors_As_redirect err) then Some err else
      let code :=
        if errors_Is ContextDeadlineExceeded err || errors_As_netTimeout err then ErrTimeout
        else if is_some (errors_As_lib lt_dns err) then ErrDNS
        else if is_some (errors_As_lib lt_tls err) || (mentions err "tls" || mentions err "certificate")
        then ErrTLSFailed
        else if errors_Is NetErrClosed err || mentions err "eof" || mentions err "close"
        then ErrStreamClosed
        else ErrIO in
      Some (ESDK code op "" 0 0 (Some err))
  end.

Definition appLimitReasons : list string :=
  ["Sorry, the app month live count limit"; "Sorry, the app day live count limit";
   "Sorry, the app online count limit"].

Definition protocolErrorCode (status : Z) (reason : string) : ErrorCode :=
  if status =? 1 then
    if strings_Contains reason "Sorry, token expired" then ErrTokenExpired
    else if strings_Contains reason "Sorry, token or password does not match login info" then ErrInvalidToken
    else if strings_Contains reason "Sorry, user not found" then ErrUserNotFound
    else ErrAuthentication
  else if status =? 6 then ErrTokenExpired
  else if bool_decide (status ∈ [2; 3; 4; 16; 17; 18]) then ErrAuthentication
  else if status =? 7 then
    if existsb (strings_Contains reason) appLimitReasons then ErrAppActiveLimit else ErrPermissionDenied
  else if status =? 11 then ErrBindAnotherDevice
  else if status =? 12 then ErrUserForbidden
  else if status =? 13 then ErrTooManyDevices
  else if status =? 20 then ErrResourceChanged
  else ErrProtocol.

Definition protocolError (op : string) (status : Z) (reason : string) : goerror :=
  ESDK (protocolErrorCode status reason) op reason status 0 None.

(** connection.go: failures after which the session ends instead of reconnecting. *)
Definition isTerminal (err : option goerror) : bool :=
  match errorCode err with
  | ErrTokenExpired | ErrInvalidToken | ErrUserForbidden | ErrBindAnotherDevice
  | ErrTooManyDevices | ErrResourceChanged | ErrAuthentication | ErrPermissionDenied
  | ErrAppActiveLimit | ErrUserNotFound | ErrKickedChangePass | ErrProtocolLimit => true
  | _ => false
  end.

(** endpoint_pool.go: failures local to one endpoint. *)
Definition shouldRotateEndpoint (err : option goerror) : bool :=
  match errorCode err with
  | ErrIO | ErrTimeout | ErrTLSFailed | ErrStreamClosed | ErrDNS | ErrHandshake => true
  | _ => false
  end.

(** ** Classification theorems *)

Lemma classify_Some op e : exists e', classifyNetworkError op (Some e) = Some e'.
Proof. unfold classifyNetworkError. repeat case_bool; eauto. Qed.

Lemma find_in_chain_self {A} (p : goerror -> option A) e a :
  p e = Some a -> find_in_chain p e = Some a.
Proof. intros H. destruct e; simpl; rewrite H; reflexivity. Qed.

(** Classifying a second time, under any operation name, changes nothing: the
    first classification is what reaches the caller however many layers
    ([writePump], [fail], [login]) classify the error again. *)
Theorem classifyNetworkError_idempotent op op' err :
  classifyNetworkError op' (classifyNetworkError op err) = classifyNetworkError op err.
Proof.
  destruct err as [e|]; [|reflexivity].
  unfold classifyNetworkError at 2 3.
  destruct (is_some (errors_As_SDKError e)) eqn:E1; [simpl; rewrite E1; reflexivity|].
  destruct (is_some (errors_As_redirect e)) eqn:E2; [simpl; rewrite E1, E2; reflexivity|].
  reflexivity.
Qed.

(** The statuses that end the session. *)
Definition terminalStatuses : list Z := [1; 2; 3; 4; 6; 7; 11; 12; 13; 16; 17; 18; 20].

Lemma errorCode_ESDK c op r s h k : errorCode (Some (ESDK c op r s h k)) = c.
Proof. unfold errorCode, errors_As_SDKError. simpl. destruct k; reflexivity. Qed.

Theorem protocolError_terminal op status reason :
  isTerminal (Some (protocolError op status reason)) = bool_decide (status ∈ terminalStatuses).
Proof.
  unfold isTerminal, protocolError. rewrite errorCode_ESDK.
  unfold protocolErrorCode, terminalStatuses.
  repeat case_bool; breflect; subst; try reflexivity;
    symmetry; first [apply bool_decide_eq_true | apply bool_decide_eq_false]; set_solver.
Qed.

Lemma rotating_not_terminal err : shouldRotateEndpoint err = true -> isTerminal err = false.
Proof. unfold isTerminal, shouldRotateEndpoint. destruct (errorCode err); congruence. Qed.

(** No failure both ends the session and asks for another endpoint. *)
Theorem terminal_never_rotates err :
  isTerminal err = true -> shouldRotateEndpoint err = false.
Proof. unfold isTerminal, shouldRotateEndpoint. destruct (errorCode err); congruence. Qed.

Lemma terminal_never_rotates_witness :
  shouldRotateEndpoint (Some (newError ErrTokenExpired "login" "")) = false.
Proof. apply (terminal_never_rotates (Some (newError ErrTokenExpired "login" ""))). reflexivity. Defined.
