(* ===== verification/GoStrings.v ===== *)
(** * The string functions of Go's standard library the SDK uses

    strings.TrimSpace, Trim, TrimSuffix, TrimRight, Cut, Split, ContainsAny,
    strconv.ParseInt and Atoi (base 10), strconv.ParseUint, net.ParseIP and
    net.JoinHostPort, on byte strings. *)
From Stdlib Require Import String Ascii.
From S2P Require Import Prelude.
Local Open Scope string_scope.
Local Open Scope Z_scope.

Abbreviation chars := (list ascii) (only parsing).

Definition explode (s : string) : chars := list_ascii_of_string s.
Definition implode (l : chars) : string := string_of_list_ascii l.

Lemma implode_explode s : implode (explode s) = s.
Proof. apply string_of_list_ascii_of_string. Qed.
Lemma explode_implode l : explode (implode l) = l.
Proof. apply list_ascii_of_string_of_list_ascii. Qed.
Lemma explode_app s t : explode (s ++ t) = (explode s ++ explode t)%list.
Proof. induction s as [|c s IH]; [done|]. simpl. unfold explode in *. simpl. by rewrite IH. Qed.
Lemma implode_app l k : implode (l ++ k)%list = implode l ++ implode k.
Proof. induction l as [|c l IH]; [done|]. unfold implode in *. simpl. by rewrite IH. Qed.

(** ** strings.TrimSpace

    A white-space rune is one byte (ASCII), or the two or three bytes of its
    UTF-8 encoding: U+0085, U+00A0; U+1680, U+2000..200A, U+2028, U+2029,
    U+202F, U+205F, U+3000. *)
Definition space1 (a : ascii) : bool :=
  let a := byte_of_ascii a in ((9 <=? a) && (a <=? 13)) || (a =? 32).

Definition space2 (a b : ascii) : bool :=
  let a := byte_of_ascii a in let b := byte_of_ascii b in
  (a =? 194) && ((b =? 133) || (b =? 160)).

Definition space3 (a b c : ascii) : bool :=
  let a := byte_of_ascii a in let b := byte_of_ascii b in let c := byte_of_ascii c in
  ((a =? 225) && (b =? 154) && (c =? 128)) ||
  ((a =? 226) && (b =? 128) && (((128 <=? c) && (c <=? 138)) || (c =? 168) || (c =? 169) || (c =? 175))) ||
  ((a =? 226) && (b =? 129) && (c =? 159)) ||
  ((a =? 227) && (b =? 128) && (c =? 128)).

Fixpoint trimLeftSpace (l : chars) : chars :=
  match l with
  | [] => []
  | a :: l1 =>
      if space1 a then trimLeftSpace l1 else
      match l1 with
      | [] => l
      | b :: l2 =>
          if space2 a b then trimLeftSpace l2 else
          match l2 with
          | [] => l
          | c :: l3 => if space3 a b c then trimLeftSpace l3 else l
          end
      end
  end.

(** The same from the right end; the argument is reversed. *)
Fixpoint trimRightSpace (l : chars) : chars :=
  match l with
  | [] => []
  | a :: l1 =>
      if space1 a then trimRightSpace l1 else
      match l1 with
      | [] => l
      | b :: l2 =>
          if space2 b a then trimRightSpace l2 else
          match l2 with
          | [] => l
          | c :: l3 => if space3 c b a then trimRightSpace l3 else l
          end
      end
  end.

Definition strings_TrimSpace (s : string) : string :=
  implode (rev (trimRightSpace (rev (trimLeftSpace (explode s))))).

(** ** Character sets *)

Definition mem_char (c : ascii) (set : string) : bool := existsb (Ascii.eqb c) (explode set).

(** [strings.ContainsAny] with an ASCII set. *)
Definition strings_ContainsAny (s set : string) : bool := existsb (fun c => mem_char c set) (explode s).

Fixpoint trimLeftSet (set : string) (l : chars) : chars :=
  match l with
  | c :: k => if mem_char c set then trimLeftSet set k else l
  | [] => []
  end.

(** [strings.Trim], [strings.TrimRight] with an ASCII cutset. *)
Definition strings_Trim (s set : string) : string :=
  implode (rev (trimLeftSet set (rev (trimLeftSet set (explode s))))).

Definition strings_TrimRight (s set : string) : string :=
  implode (rev (trimLeftSet set (rev (explode s)))).

(** [strings.TrimSuffix] with a suffix of one byte. *)
Definition strings_TrimSuffix (s : string) (c : ascii) : string :=
  match rev (explode s) with
  | d :: l => if Ascii.eqb d c then implode (rev l) else s
  | [] => s
  end.

(** [strings.Split] and [strings.Cut] with a separator of one byte. *)
Fixpoint splitChars (c : ascii) (l : chars) : list chars :=
  match l with
  | [] => [[]]
  | d :: l =>
      match splitChars c l with
      | w :: ws => if Ascii.eqb d c then [] :: w :: ws else (d :: w) :: ws
      | [] => [[d]]
      end
  end.

Definition strings_Split (s : string) (c : ascii) : list string := map implode (splitChars c (explode s)).

Fixpoint cutChars (c : ascii) (l : chars) : option (chars * chars) :=
  match l with
  | [] => None
  | d :: l =>
      if Ascii.eqb d c then Some ([], l)
      else match cutChars c l with Some (a, b) => Some (d :: a, b) | None => None end
  end.

(** The parts before and after the first separator, and whether there is one. *)
Definition strings_Cut (s : string) (c : ascii) : string * string * bool :=
  match cutChars c (explode s) with
  | Some (a, b) => (implode a, implode b, true)
  | None => (s, "", false)
  end.

(** ** strconv *)

Definition digit (c : ascii) : option Z :=
  let a := byte_of_ascii c in if (48 <=? a) && (a <=? 57) then Some (a - 48) else None.

Fixpoint digitsValue (l : chars) (acc : Z) : option Z :=
  match l with
  | [] => Some acc
  | c :: l => d ← digit c; digitsValue l (acc * 10 + d)
  end.

(** A non-empty run of decimal digits. *)
Definition unsignedValue (l : chars) : option Z :=
  match l with [] => None | _ => digitsValue l 0 end.

(** [strconv.ParseInt(s, 10, 64)], and [strconv.Atoi]: the value when the
    error is nil. *)
Definition strconv_ParseInt (s : string) : option Z :=
  let '(neg, l) :=
    match explode s with
    | c :: k => if Ascii.eqb c "+" then (false, k) else if Ascii.eqb c "-" then (true, k) else (false, c :: k)
    | [] => (false, [])
    end in
  v ← unsignedValue l;
  if (negb neg && (2 ^ 63 <=? v)) || (neg && (2 ^ 63 <? v)) then None
  else Some (if neg : bool then - v else v).

(** [strconv.ParseUint(s, 10, 64)]. *)
Definition strconv_ParseUint (s : string) : option Z :=
  v ← unsignedValue (explode s); if two64 <=? v then None else Some v.

(** [strconv.FormatUint(n, 10)] and [FormatInt]: at most twenty digits. *)
Definition digitChar (d : Z) : ascii := ascii_of_N (Z.to_N (48 + d)).

Fixpoint formatDigits (fuel : nat) (n : Z) (acc : chars) : chars :=
  match fuel with
  | O => acc
  | S fuel =>
      let acc := digitChar (n mod 10) :: acc in
      if n <? 10 then acc else formatDigits fuel (n / 10) acc
  end.

Definition strconv_FormatUint (n : Z) : string := implode (formatDigits 20 n []).

Definition strconv_FormatInt (n : Z) : string :=
  if n <? 0 then String "-" (strconv_FormatUint (- n)) else strconv_FormatUint n.

(** ** net.ParseIP *)

(** A decimal octet: no leading zero, at most 255. *)
Definition ipv4Octet (l : chars) : bool :=
  match l with
  | [] => false
  | c :: k =>
      match unsignedValue l with
      | Some v => (v <=? 255) && (match k with [] => true | _ => negb (Ascii.eqb c "0") end)
      | None => false
      end
  end.

Definition isIPv4 (l : chars) : bool :=
  let parts := splitChars "." l in (length parts =? 4)%nat && forallb ipv4Octet parts.

Definition hexDigit (c : ascii) : bool :=
  let a := byte_of_ascii c in
  ((48 <=? a) && (a <=? 57)) || ((97 <=? a) && (a <=? 102)) || ((65 <=? a) && (a <=? 70)).

Definition hexGroup (l : chars) : bool :=
  (1 <=? length l)%nat && (length l <=? 4)%nat && forallb hexDigit l.

(** The number of 16-bit groups of a colon-separated list whose last group may
    be a dotted IPv4 address; [None] when a group is malformed. *)
Fixpoint ipv6Groups (ps : list chars) : option nat :=
  match ps with
  | [] => Some 0%nat
  | [p] => if hexGroup p then Some 1%nat else if isIPv4 p then Some 2%nat else None
  | p :: ps => if hexGroup p then S <$> ipv6Groups ps else None
  end.

(** The part before a ["::"] has no dotted address. *)
Definition ipv6Head (ps : list chars) : option nat :=
  if forallb hexGroup ps then Some (length ps) else None.

(** Splits at the first empty group between two colons. *)
Fixpoint splitEmpty (ps : list chars) : list chars * option (list chars) :=
  match ps with
  | [] => ([], None)
  | [] :: ps => ([], Some ps)
  | p :: ps => let '(a, b) := splitEmpty ps in (p :: a, b)
  end.

(** An IPv6 address without a zone: eight groups, or fewer around one
    ["::"] that stands for at least one group. *)
Definition isIPv6 (l : chars) : bool :=
  match splitChars ":" l with
  | [] | [_] => false
  | [[]; []] => false                             (* ":" *)
  | [] :: [] :: [[]] => true                      (* "::" *)
  | [] :: [] :: tail =>                           (* "::tail" *)
      match ipv6Groups tail with Some n => (n <=? 7)%nat | None => false end
  | ps =>
      match splitEmpty ps with
      | (_, None) => match ipv6Groups ps with Some n => (n =? 8)%nat | None => false end
      | ([], Some _) => false                     (* a single leading colon *)
      | (head, Some [[]]) =>                      (* "head::" *)
          match ipv6Head head with Some n => (n <=? 7)%nat | None => false end
      | (head, Some []) => false                  (* a single trailing colon *)
      | (head, Some tail) =>
          match ipv6Head head, ipv6Groups tail with
          | Some n, Some m => (n + m <=? 7)%nat
          | _, _ => false
          end
      end
  end.

(** Whether [net.ParseIP] gives an address. *)
Definition net_ParseIP (s : string) : bool :=
  let l := explode s in if mem_char ":" s then isIPv6 l else isIPv4 l.

(** [net.JoinHostPort]. *)
Definition net_JoinHostPort (host port : string) : string :=
  if mem_char ":" host then "[" ++ host ++ "]:" ++ port else host ++ ":" ++ port.

Example ip1 : map net_ParseIP ["1.2.3.4"; "01.2.3.4"; "1.2.3"; "::"; "::1"; "1::"; "fe80::1:2"; "1:2:3:4:5:6:7:8";
   "1:2:3:4:5:6:7"; "::ffff:1.2.3.4"; "1:2:3:4:5:6:7::"; "1:2:3:4:5:6:7:8::"; ":1"; "1:"; "1::2::3"; "256.1.1.1"; ":::"; "1:2:3:4:5:6:1.2.3.4"; "12345::"; ""; ":"]
  = [true; false; false; true; true; true; true; true; false; true; true; false; false; false; false; false; false; true; false; false; false].
Proof. reflexivity. Qed.

(** ** Lemmas *)

Lemma digit_range c d : digit c = Some d -> 0 <= d <= 9.
Proof. unfold digit. case_bool; [|done]. intros [= <-]. breflect. lia. Qed.

Lemma digitsValue_ge l acc v : 0 <= acc -> digitsValue l acc = Some v -> acc <= v.
Proof.
  revert acc. induction l as [|c l IH]; intros acc Ha H; simpl in H; [injection H as <-; lia|].
  destruct (digit c) as [d|] eqn:E; [|done]. simpl in H. pose proof (digit_range _ _ E).
  apply IH in H; lia.
Qed.

Lemma ParseInt_range s v : strconv_ParseInt s = Some v -> in_i64 v.
Proof.
  unfold strconv_ParseInt.
  assert (G : forall (neg : bool) l,
    (v ← unsignedValue l; if (negb neg && (2 ^ 63 <=? v)) || (neg && (2 ^ 63 <? v)) then None
      else Some (if neg then - v else v)) = Some v -> in_i64 v).
  { intros neg l H. destruct (unsignedValue l) as [w|] eqn:E; [|done]. simpl in H.
    assert (0 <= w) by (destruct l; [done|]; by apply digitsValue_ge in E).
    destruct (_ || _) eqn:B; [done|]. injection H as <-.
    destruct neg; simpl in B; breflect; word_lia. }
  destruct (explode s) as [|c l]; [apply G|].
  destruct (Ascii.eqb c "+"); [apply G|]. destruct (Ascii.eqb c "-"); apply G.
Qed.

Lemma splitChars_nonempty c l : splitChars c l <> [].
Proof. destruct l; simpl; [done|]. destruct (splitChars c l); [done|]. by destruct (Ascii.eqb _ _). Qed.

Lemma mem_char_spec c set : mem_char c set = true <-> c ∈ explode set.
Proof.
  unfold mem_char. rewrite existsb_exists. split.
  - intros (d & Hd & He). apply Ascii.eqb_eq in He as ->. by apply list_elem_of_In.
  - intros H. exists c. split; [by apply list_elem_of_In|]. apply Ascii.eqb_refl.
Qed.

Lemma digit_digitChar d : 0 <= d <= 9 -> digit (digitChar d) = Some d.
Proof.
  intros H. assert (d = 0 \/ d = 1 \/ d = 2 \/ d = 3 \/ d = 4 \/ d = 5 \/ d = 6 \/ d = 7 \/ d = 8 \/ d = 9) as Hd by lia.
  repeat (destruct Hd as [->|Hd]; [reflexivity|]). by subst.
Qed.

Lemma formatDigits_value fuel n acc base :
  0 <= n < 10 ^ Z.of_nat fuel -> (0 < fuel)%nat -> base = 0 ->
  digitsValue (formatDigits fuel n acc) base = digitsValue acc n.
Proof.
  revert n acc. induction fuel as [|fuel IH]; intros n acc Hn Hf ->; [lia|].
  cbn [formatDigits]. destruct (Z.ltb_spec n 10) as [Hlt|Hge].
  - rewrite Z.mod_small by lia. simpl. by rewrite digit_digitChar by lia.
  - destruct fuel as [|fuel]; [simpl in Hn; lia|].
    rewrite IH; [| |lia|done].
    + cbn [digitsValue]. pose proof (Z.mod_pos_bound n 10 ltac:(lia)).
      rewrite digit_digitChar by lia. simpl. f_equal. pose proof (Z.div_mod n 10 ltac:(lia)). lia.
    + split; [apply Z.div_pos; lia|]. apply Z.div_lt_upper_bound; [lia|].
      rewrite <- Z.pow_succ_r by lia. rewrite <- Nat2Z.inj_succ. lia.
Qed.

Lemma formatDigits_nonempty fuel n acc : (0 < fuel)%nat -> formatDigits fuel n acc <> [].
Proof.
  revert n acc. induction fuel as [|fuel IH]; intros n acc H; [lia|]. simpl.
  destruct (n <? 10); [done|]. destruct fuel; [done|]. apply IH. lia.
Qed.

Lemma formatDigits_head fuel n acc c l :
  (0 < fuel)%nat -> 0 <= n -> formatDigits fuel n acc = c :: l -> is_Some (digit c).
Proof.
  revert n acc. induction fuel as [|fuel IH]; intros n acc Hf Hn H; [lia|]. cbn [formatDigits] in H.
  assert (is_Some (digit (digitChar (n mod 10)))) as Hd.
  { pose proof (Z.mod_pos_bound n 10 ltac:(lia)). rewrite digit_digitChar by lia. eauto. }
  destruct (n <? 10); [by injection H as <- _|]. destruct fuel as [|fuel]; [by injection H as <- _|].
  apply IH in H; [done|lia|]. apply Z.div_pos; lia.
Qed.

Lemma unsignedValue_format n : 0 <= n < 10 ^ 20 -> unsignedValue (explode (strconv_FormatUint n)) = Some n.
Proof.
  intros H. unfold strconv_FormatUint. rewrite explode_implode. unfold unsignedValue.
  pose proof (formatDigits_nonempty 20 n [] ltac:(lia)) as Hne.
  destruct (formatDigits 20 n []) as [|c l] eqn:E; [done|]. rewrite <- E.
  rewrite formatDigits_value by (try done; lia). done.
Qed.

(** Parsing what was formatted gives the number back. *)
Lemma ParseUint_FormatUint n : in_u64 n -> strconv_ParseUint (strconv_FormatUint n) = Some n.
Proof.
  intros H. unfold strconv_ParseUint. rewrite unsignedValue_format by word_lia. simpl.
  destruct (Z.leb_spec two64 n); [word_lia|done].
Qed.

Lemma ParseInt_FormatInt n : in_i64 n -> strconv_ParseInt (strconv_FormatInt n) = Some n.
Proof.
  intros H. unfold strconv_ParseInt, strconv_FormatInt.
  destruct (Z.ltb_spec n 0) as [Hlt|Hge].
  - change (explode (String "-" (strconv_FormatUint (- n)))) with ("-"%char :: explode (strconv_FormatUint (- n))).
    cbn [Ascii.eqb Bool.eqb]. rewrite unsignedValue_format by word_lia. simpl.
    destruct (Z.ltb_spec (2 ^ 63) (- n)); [word_lia|]. f_equal. lia.
  - assert (unsignedValue (explode (strconv_FormatUint n)) = Some n) as Hv by (apply unsignedValue_format; word_lia).
    destruct (explode (strconv_FormatUint n)) as [|c l] eqn:E; [done|].
    assert (is_Some (digit c)) as Hc.
    { unfold strconv_FormatUint in E. rewrite explode_implode in E. by eapply formatDigits_head in E; [|lia|]. }
    destruct (Ascii.eqb_spec c "+") as [->|_]; [by destruct Hc|].
    destruct (Ascii.eqb_spec c "-") as [->|_]; [by destruct Hc|].
    cbv beta iota. rewrite Hv. simpl. destruct (Z.leb_spec (2 ^ 63) n); [word_lia|done].
Qed.

(** Strings of ASCII bytes. *)
Definition is_ascii (s : string) : bool := forallb (fun c => byte_of_ascii c <? 128) (explode s).

Lemma digitChar_ascii d : 0 <= d <= 9 -> byte_of_ascii (digitChar d) <? 128 = true.
Proof.
  intros H. unfold digitChar, byte_of_ascii. rewrite N_ascii_embedding by lia. apply Z.ltb_lt. lia.
Qed.

Lemma formatDigits_forall (P : ascii -> bool) fuel n acc :
  (forall d, 0 <= d <= 9 -> P (digitChar d) = true) ->
  0 <= n -> forallb P acc = true -> forallb P (formatDigits fuel n acc) = true.
Proof.
  intros HP. revert n acc. induction fuel as [|fuel IH]; intros n acc Hn Ha; [done|]. cbn [formatDigits].
  pose proof (Z.mod_pos_bound n 10 ltac:(lia)).
  assert (forallb P (digitChar (n mod 10) :: acc) = true) as Ha'.
  { cbn [forallb]. rewrite HP by lia. done. }
  destruct (n <? 10); [done|]. apply IH; [apply Z.div_pos; lia|done].
Qed.

Lemma FormatUint_ascii n : 0 <= n -> is_ascii (strconv_FormatUint n) = true.
Proof. intros H. unfold is_ascii, strconv_FormatUint. rewrite explode_implode. by apply formatDigits_forall; [apply digitChar_ascii|..]. Qed.

Lemma FormatInt_ascii n : is_ascii (strconv_FormatInt n) = true.
Proof.
  unfold strconv_FormatInt. destruct (Z.ltb_spec n 0); [|by apply FormatUint_ascii].
  unfold is_ascii. change (explode (String "-" ?s)) with ("-"%char :: explode s).
  cbn [forallb]. rewrite andb_true_iff. split; [reflexivity|]. apply FormatUint_ascii. lia.
Qed.

(** ** Splitting at a character *)

Definition without (c : ascii) (l : chars) : bool := forallb (fun d => negb (Ascii.eqb d c)) l.

Lemma splitChars_without c l : without c l = true -> splitChars c l = [l].
Proof.
  induction l as [|d l IH]; [done|]. simpl. intros [Hd Hl]%andb_true_iff. rewrite (IH Hl).
  by destruct (Ascii.eqb d c).
Qed.

Lemma splitChars_cons c l k : without c l = true -> splitChars c (l ++ c :: k)%list = l :: splitChars c k.
Proof.
  induction l as [|d l IH]; simpl.
  - intros _. rewrite Ascii.eqb_refl. destruct (splitChars c k) eqn:E; [by apply splitChars_nonempty in E|done].
  - intros [Hd Hl]%andb_true_iff. rewrite (IH Hl). by destruct (Ascii.eqb d c).
Qed.

Lemma cutChars_without c l k : without c l = true -> cutChars c (l ++ c :: k)%list = Some (l, k).
Proof.
  induction l as [|d l IH]; simpl; [by rewrite Ascii.eqb_refl|].
  intros [Hd Hl]%andb_true_iff. rewrite (IH Hl). by destruct (Ascii.eqb d c).
Qed.

(** ** Trimming text whose ends are ASCII *)

Definition solid (c : ascii) : bool := (byte_of_ascii c <? 128) && negb (space1 c).

Lemma ascii_not c n : byte_of_ascii c < 128 -> 128 <= n -> (byte_of_ascii c =? n) = false.
Proof. intros. apply Z.eqb_neq. lia. Qed.

Lemma trimLeftSpace_solid c l : solid c = true -> trimLeftSpace (c :: l) = c :: l.
Proof.
  intros [H1%Z.ltb_lt H2%negb_true_iff]%andb_true_iff. simpl. rewrite H2. destruct l as [|d l]; [done|].
  unfold space2. rewrite (ascii_not c) by lia. destruct l as [|e l]; [done|].
  unfold space3. by rewrite !(ascii_not c) by lia.
Qed.

Lemma trimRightSpace_solid c l : solid c = true -> trimRightSpace (c :: l) = c :: l.
Proof.
  intros [H1%Z.ltb_lt H2%negb_true_iff]%andb_true_iff. simpl. rewrite H2. destruct l as [|d l]; [done|].
  unfold space2. rewrite !(ascii_not c) by lia. rewrite andb_false_r. destruct l as [|e l]; [done|].
  unfold space3. rewrite !(ascii_not c) by lia. destruct (Z.leb_spec 128 (byte_of_ascii c)); [lia|]. by rewrite !andb_false_r.
Qed.

(** Spaces around a text that starts and ends with a solid character. *)
Lemma TrimSpace_solid n m a l b : solid a = true -> solid b = true ->
  strings_TrimSpace (implode (repeat " "%char n ++ (a :: l ++ [b]) ++ repeat " "%char m)%list) = implode (a :: l ++ [b]).
Proof.
  intros Ha Hb. unfold strings_TrimSpace. rewrite explode_implode. f_equal.
  assert (forall k l, trimLeftSpace (repeat " "%char k ++ l)%list = trimLeftSpace l) as HL by (intros k l'; induction k; [done|exact IHk]).
  assert (forall k l, trimRightSpace (repeat " "%char k ++ l)%list = trimRightSpace l) as HR by (intros k l'; induction k; [done|exact IHk]).
  assert (forall k, rev (repeat " "%char k) = repeat " "%char k) as Hrev.
  { induction k as [|k IH]; [done|]. simpl. rewrite IH. clear. induction k as [|k IH]; [done|]. simpl. by rewrite IH. }
  rewrite HL. change ((a :: l ++ [b]) ++ ?r)%list with (a :: ((l ++ [b]) ++ r))%list. rewrite trimLeftSpace_solid by done.
  change (a :: (l ++ [b]) ++ ?r)%list with ((a :: l ++ [b]) ++ r)%list.
  rewrite rev_app_distr, Hrev, HR. change (a :: l ++ [b])%list with ((a :: l) ++ [b])%list.
  rewrite rev_app_distr. cbn [rev app]. rewrite trimRightSpace_solid by done.
  change (b :: rev l ++ [a])%list with ([b] ++ rev (a :: l))%list. by rewrite rev_app_distr, rev_involutive.
Qed.
