(* ===== verification/Config.v ===== *)
(** * The configuration of a Client

    sdk/client.go: the values of [Config] that [New] checks, the constants of
    the SDK, the login and connection states and their names. *)
From Stdlib Require Import String Ascii.
From S2P Require Import Prelude Errors GoStrings.
Local Open Scope string_scope.
Local Open Scope Z_scope.

(** ** States *)

Inductive LoginState :=
| LoginStateLogout | LoginStateLoggingIn | LoginStateLoggedIn | LoginStateReconnecting.

Inductive ConnState :=
| ConnStateDisconnected | ConnStateConnecting | ConnStateConnected | ConnStateReconnecting.

#[export] Instance LoginState_eq_dec : EqDecision LoginState.
Proof. solve_decision. Defined.
#[export] Instance ConnState_eq_dec : EqDecision ConnState.
Proof. solve_decision. Defined.

(** Both types are [int]s: the methods render every [int]. *)
Definition LoginState_int (s : LoginState) : Z :=
  match s with
  | LoginStateLogout => 0 | LoginStateLoggingIn => 1 | LoginStateLoggedIn => 2 | LoginStateReconnecting => 3
  end.

Definition ConnState_int (s : ConnState) : Z :=
  match s with
  | ConnStateDisconnected => 0 | ConnStateConnecting => 1 | ConnStateConnected => 2 | ConnStateReconnecting => 3
  end.

Definition LoginState_String (s : Z) : string :=
  if s =? LoginState_int LoginStateLogout then "logout"
  else if s =? LoginState_int LoginStateLoggingIn then "logging_in"
  else if s =? LoginState_int LoginStateLoggedIn then "logged_in"
  else if s =? LoginState_int LoginStateReconnecting then "reconnecting"
  else "login_state(" ++ strconv_FormatInt s ++ ")".

Definition ConnState_String (s : Z) : string :=
  if s =? ConnState_int ConnStateDisconnected then "disconnected"
  else if s =? ConnState_int ConnStateConnecting then "connecting"
  else if s =? ConnState_int ConnStateConnected then "connected"
  else if s =? ConnState_int ConnStateReconnecting then "reconnecting"
  else "conn_state(" ++ strconv_FormatInt s ++ ")".

(** ** Constants *)

Definition sdkVersion : string := "5.0".
Definition userAgent : string := "goIMSDK/" ++ sdkVersion.
Definition resourcePrefix : string := "go-server-imsdk-".
Definition maxResourceLength : Z := 128.

Definition time_Second : Z := 1000000000.
Definition heartbeatInterval : Z := 120 * time_Second.
Definition heartbeatTimeout : Z := 240 * time_Second.
Definition tokenExpiryWarningBefore : Z := 5 * 60 * time_Second.
Definition writeQueueSize : nat := 256.

(** ** applyDefaultsAndValidate

    The fields it reads and writes: a nil handler is [false], a [*slog.Logger] is
    its identity, [None] when nil. *)
Record Config := mkConfig {
  cf_AppKey : string; cf_Domain : string; cf_Resource : string; cf_MessageHandler : bool; cf_Logger : option nat }.

(** log.go; [slogDefault] is what [slog.Default] of the standard library returns,
    which is never nil. *)
Definition defaultLogger (slogDefault : nat) : option nat := Some slogDefault.

Definition applyDefaultsAndValidate (slogDefault : nat) (c : Config) : result Config :=
  let domain := if String.eqb (cf_Domain c) "" then "easemob.com" else cf_Domain c in
  let logger := match cf_Logger c with None => defaultLogger slogDefault | l => l end in
  if negb (cf_MessageHandler c) then Err (EPlain "MessageHandler is required") else
  if String.eqb (cf_AppKey c) "" || String.eqb (cf_Resource c) ""
  then Err (EPlain "AppKey and Resource are required") else
  let resource := resourcePrefix ++ cf_Resource c in
  if (slen resource >? maxResourceLength) || strings_ContainsAny resource (implode (map ascii_of_nat [32; 9; 13; 10; 47; 64]%nat))
  then Err (EPlain "Resource with SDK prefix must be 1-128 characters without whitespace, '/', '@'") else
  let bad := Err (EPlain "AppKey must have org#app form") in
  let '(org, app, ok) := strings_Cut (cf_AppKey c) "#" in
  if negb ok || String.eqb org "" || String.eqb app "" || strings_ContainsAny app "#"
     || strings_ContainsAny (org ++ app) (implode (map ascii_of_nat [32; 9; 13; 10; 47]%nat))
  then bad
  else Ok (mkConfig (cf_AppKey c) domain resource (cf_MessageHandler c) logger).

(** ** What it accepts *)

(** No byte of [s] is in [set]. *)
Definition avoids (s set : string) : Prop := forall c, c ∈ explode s -> mem_char c set = false.

Definition blanks : string := implode (map ascii_of_nat [32; 9; 13; 10]%nat).

Lemma ContainsAny_avoids s set : strings_ContainsAny s set = false <-> avoids s set.
Proof.
  unfold strings_ContainsAny, avoids. induction (explode s) as [|c l IH]; simpl.
  - split; [intros _ c Hc; by apply not_elem_of_nil in Hc|done].
  - rewrite orb_false_iff, IH. setoid_rewrite elem_of_cons. naive_solver.
Qed.

Lemma avoids_app s t set : avoids (s ++ t) set <-> avoids s set /\ avoids t set.
Proof. unfold avoids. rewrite explode_app. setoid_rewrite elem_of_app. naive_solver. Qed.

Lemma mem_char_app c s t : mem_char c (s ++ t) = mem_char c s || mem_char c t.
Proof. unfold mem_char. by rewrite explode_app, existsb_app. Qed.

Lemma avoids_set s set set' : avoids s (set ++ set') <-> avoids s set /\ avoids s set'.
Proof. unfold avoids. setoid_rewrite mem_char_app. setoid_rewrite orb_false_iff. naive_solver. Qed.

Lemma cutChars_spec c l a b :
  cutChars c l = Some (a, b) <-> l = (a ++ c :: b)%list /\ c ∉ a.
Proof.
  revert a b. induction l as [|d l IH]; intros a b; simpl.
  - split; [done|]. intros [H _]. by destruct a.
  - destruct (Ascii.eqb_spec d c) as [->|Hd].
    + split; [intros [= <- <-]; split; [done|apply not_elem_of_nil]|].
      intros [H Hc]. destruct a as [|x a]; [by injection H as ->|]. injection H as -> _. set_solver.
    + destruct (cutChars c l) as [[a' b']|] eqn:E.
      * split.
        -- intros [= <- <-]. destruct (proj1 (IH a' b') eq_refl) as [-> Hc]. split; [done|]. set_solver.
        -- intros [H Hc]. destruct a as [|x a]; [by injection H as -> _|]. injection H as -> H.
           assert (Some (a', b') = Some (a, b)) as [= -> ->] by (apply IH; split; [done|set_solver]). done.
      * split; [done|]. intros [H Hc]. destruct a as [|x a]; [by injection H as -> _|]. injection H as -> H.
        assert (None = Some (a, b)) by (apply IH; split; [done|set_solver]). done.
Qed.

Lemma avoids_one s c : avoids s (String c "") <-> c ∉ explode s.
Proof.
  unfold avoids, mem_char. simpl. split.
  - intros H Hc. specialize (H _ Hc). by rewrite Ascii.eqb_refl in H.
  - intros H d Hd. destruct (Ascii.eqb_spec d c) as [->|]; [done|reflexivity].
Qed.

Lemma Cut_spec s c a b :
  strings_Cut s c = (a, b, true) <-> s = a ++ String c b /\ avoids a (String c "").
Proof.
  unfold strings_Cut. rewrite avoids_one. destruct (cutChars c (explode s)) as [[a' b']|] eqn:E; split.
  - intros [= <- <-]. apply cutChars_spec in E as [E Hc]. rewrite explode_implode. split; [|done].
    rewrite <- (implode_explode s), E, implode_app. done.
  - intros [-> Hc]. rewrite explode_app in E. simpl in E.
    assert (Some (a', b') = Some (explode a, explode b)) as [= -> ->]
      by (rewrite <- E; apply cutChars_spec; done).
    by rewrite !implode_explode.
  - done.
  - intros [-> Hc]. rewrite explode_app in E. simpl in E.
    assert (None = Some (explode a, explode b)) by (rewrite <- E; apply cutChars_spec; done). done.
Qed.

Lemma prefix_ok : avoids resourcePrefix (blanks ++ "/@").
Proof. apply ContainsAny_avoids. reflexivity. Qed.

Lemma slen_app s t : slen (s ++ t) = slen s + slen t.
Proof.
  unfold slen. rewrite <- Nat2Z.inj_add. f_equal. induction s as [|c s IH]; [done|]. simpl. by rewrite IH.
Qed.

Lemma resource_accepted r :
  (r <> "" /\ slen (resourcePrefix ++ r) <= maxResourceLength /\ avoids (resourcePrefix ++ r) (blanks ++ "/@")) <->
  1 <= slen r <= 112 /\ avoids r (blanks ++ "/@").
Proof.
  rewrite avoids_app, slen_app. change (slen resourcePrefix) with 16. unfold maxResourceLength.
  pose proof prefix_ok. assert (r <> "" <-> 1 <= slen r).
  { destruct r; unfold slen; simpl; split; (lia || done). }
  intuition lia.
Qed.

Lemma appKey_accepted k :
  (let '(org, app, ok) := strings_Cut k "#" in
   ok = true /\ org <> "" /\ app <> "" /\ avoids app "#" /\ avoids (org ++ app) (blanks ++ "/")) <->
  exists org app, k = org ++ "#" ++ app /\ org <> "" /\ app <> "" /\
    avoids org (blanks ++ "/#") /\ avoids app (blanks ++ "/#").
Proof.
  assert (Hset : forall s, avoids s (blanks ++ "/#") <-> avoids s (blanks ++ "/") /\ avoids s "#").
  { intros s. change (blanks ++ "/#") with ((blanks ++ "/") ++ "#"). apply avoids_set. }
  split.
  - destruct (strings_Cut k "#") as [[org app] ok] eqn:E. intros (-> & Ho & Ha & H1 & H2).
    apply Cut_spec in E as [-> Hc]. apply avoids_app in H2 as [H2 H3].
    exists org, app. rewrite !Hset. done.
  - intros (org & app & -> & Ho & Ha & H1 & H2). apply Hset in H1 as [H1 H3], H2 as [H2 H4].
    rewrite (proj2 (Cut_spec _ "#" org app)) by done. rewrite avoids_app. done.
Qed.

(** C36. A configuration is accepted exactly when it has a handler, a resource of 1
    to 112 bytes none of which is a space, a tab, CR, LF, [/] or [@], and an app key
    [org#app] whose two parts are not empty and hold no space, tab, CR, LF, [/] or
    other [#]; only the resource, which gets the SDK's prefix, and the domain and
    the logger, when they are not set, are then changed. *)
Theorem applyDefaultsAndValidate_correct slogDefault c c' :
  applyDefaultsAndValidate slogDefault c = Ok c' <->
  cf_MessageHandler c = true /\
  (1 <= slen (cf_Resource c) <= 112 /\ avoids (cf_Resource c) (blanks ++ "/@")) /\
  (exists org app, cf_AppKey c = org ++ "#" ++ app /\ org <> "" /\ app <> "" /\
     avoids org (blanks ++ "/#") /\ avoids app (blanks ++ "/#")) /\
  c' = mkConfig (cf_AppKey c) (if String.eqb (cf_Domain c) "" then "easemob.com" else cf_Domain c)
         (resourcePrefix ++ cf_Resource c) true
         (match cf_Logger c with None => Some slogDefault | Some l => Some l end).
Proof.
  rewrite <- resource_accepted, <- appKey_accepted. unfold applyDefaultsAndValidate, defaultLogger.
  replace (match cf_Logger c with None => Some slogDefault | Some l => Some l end)
    with (match cf_Logger c with None => Some slogDefault | l => l end) by (by destruct (cf_Logger c)).
  change (implode (map ascii_of_nat [32; 9; 13; 10; 47; 64]%nat)) with (blanks ++ "/@").
  change (implode (map ascii_of_nat [32; 9; 13; 10; 47]%nat)) with (blanks ++ "/").
  destruct (strings_Cut (cf_AppKey c) "#") as [[org app] ok] eqn:E.
  rewrite <- !ContainsAny_avoids.
  destruct (cf_MessageHandler c); cbn [negb]; [|naive_solver].
  destruct (String.eqb_spec (cf_Resource c) ""); [rewrite orb_true_r; naive_solver|].
  destruct (String.eqb_spec (cf_AppKey c) "") as [Hk|Hk].
  { rewrite Hk in E. injection E as <- <- <-. simpl. naive_solver. }
  cbn [orb]. rewrite Z.gtb_ltb.
  destruct (Z.ltb_spec maxResourceLength (slen (resourcePrefix ++ cf_Resource c))); [cbn [orb]; split; [done|lia]|].
  destruct (strings_ContainsAny (resourcePrefix ++ cf_Resource c) _); [naive_solver|].
  destruct ok; [|naive_solver]. cbn [orb negb].
  destruct (String.eqb_spec org ""); [naive_solver|]. destruct (String.eqb_spec app ""); [naive_solver|].
  destruct (strings_ContainsAny app _); [naive_solver|]. destruct (strings_ContainsAny (org ++ app) _); naive_solver.
Qed.

(** The length is counted in bytes, and only the four ASCII blanks are refused: a
    resource of 57 two-byte characters is refused for its length, one with a
    no-break space (the bytes 194, 160) is accepted. *)
Example resource_in_bytes :
  (exists e, applyDefaultsAndValidate 0 (mkConfig "o#a" "d" (implode (concat (repeat (map ascii_of_nat [195; 169]%nat) 57))) true None)
     = Err e) /\
  (exists c', applyDefaultsAndValidate 0 (mkConfig "o#a" "d" (implode (map ascii_of_nat [97; 194; 160; 98]%nat)) true None) = Ok c' /\
     cf_Logger c' = Some 0%nat).
Proof. split; eexists; [vm_compute; reflexivity|split; vm_compute; reflexivity]. Qed.
