(* ===== verification/Callbacks.v ===== *)
(** * The callbacks of a Client

    sdk/client.go: the queue of best-effort events ([emit], [emitAt]), the
    sticky slot of the terminal notification ([publishTerminalCallbackLocked],
    [claimTerminalCallback], [signalTerminalCallback]) and the one goroutine
    that calls the application ([dispatchEvents]).

    [callbackState] is the part of the Client these functions share.  A
    critical section of [Client.mu], and each operation on a channel outside of
    one, is a step; what the application does inside a callback is not seen. *)
From Stdlib Require Import String Sorted.
From S2P Require Import Prelude Errors Config.
Local Open Scope string_scope.
Local Open Scope Z_scope.

(** The callbacks that are not nil. *)
Record callbacks := mkCallbacks {
  cb_connection : bool; cb_disconnect : bool; cb_tokenExpired : bool; cb_tokenWillExpire : bool }.

(** The closures the SDK enqueues. *)
Inductive callbackFn :=
| FnConnection (userID : string) (state : ConnState)
| FnTokenWillExpire (userID : string) (expiresAt sessionGeneration : Z).

(** [eventFn]: the closure and the epoch it was emitted at. *)
Record eventFn := mkEvent { ev_epoch : Z; ev_fn : callbackFn }.

Record terminalCallbackEvent := mkTerminal {
  te_userID : string; te_err : option goerror;
  te_tokenExpired : bool; te_disconnect : bool; te_connection : bool }.

(** A call of the application. *)
Inductive appCall :=
| CallTokenExpired (userID : string)
| CallDisconnect (userID : string) (err : option goerror)
| CallConnection (userID : string) (state : ConnState)
| CallTokenWillExpire (userID : string) (expiresAt : Z).

(** [invoke]; a panic is recovered, so every call is made. *)
Definition invoke (e : terminalCallbackEvent) : list appCall :=
  ((if te_tokenExpired e then [CallTokenExpired (te_userID e)] else []) ++
   (if te_disconnect e then [CallDisconnect (te_userID e) (te_err e)] else []) ++
   (if te_connection e then [CallConnection (te_userID e) ConnStateDisconnected] else []))%list.

(** [cs_closed] is both [Client.closed] and the end of [lifetimeCtx], which
    happen in one critical section. *)
Record callbackState := mkCallbackState {
  cs_closed : bool;
  cs_terminalCallback : option terminalCallbackEvent;
  cs_terminalWake : bool;
  cs_callbackEpoch : Z;
  cs_events : list eventFn;
  cs_callbackDrops : Z }.

Definition newCallbackState : callbackState := mkCallbackState false None false 0 [] 0.

Definition set_closed b s := mkCallbackState b (cs_terminalCallback s) (cs_terminalWake s) (cs_callbackEpoch s) (cs_events s) (cs_callbackDrops s).
Definition set_terminal t s := mkCallbackState (cs_closed s) t (cs_terminalWake s) (cs_callbackEpoch s) (cs_events s) (cs_callbackDrops s).
Definition set_wake b s := mkCallbackState (cs_closed s) (cs_terminalCallback s) b (cs_callbackEpoch s) (cs_events s) (cs_callbackDrops s).
Definition set_epoch e s := mkCallbackState (cs_closed s) (cs_terminalCallback s) (cs_terminalWake s) e (cs_events s) (cs_callbackDrops s).
Definition set_events l s := mkCallbackState (cs_closed s) (cs_terminalCallback s) (cs_terminalWake s) (cs_callbackEpoch s) l (cs_callbackDrops s).
Definition add_drops n s := mkCallbackState (cs_closed s) (cs_terminalCallback s) (cs_terminalWake s) (cs_callbackEpoch s) (cs_events s) (u64 (cs_callbackDrops s + n)).

(** [c.callbackEpoch++] *)
Definition bumpEpoch (s : callbackState) : callbackState := set_epoch (u64 (cs_callbackEpoch s + 1)) s.

Definition publishTerminalCallbackLocked (userID : string) (err : option goerror) (cb : callbacks) (s : callbackState)
  : bool * callbackState :=
  if cs_closed s || is_some (cs_terminalCallback s) then (false, s) else
  let tokenExpired := bool_decide (errorCode err = ErrTokenExpired) && cb_tokenExpired cb in
  if negb tokenExpired && negb (cb_disconnect cb) && negb (cb_connection cb) then (false, s) else
  (true, set_terminal (Some (mkTerminal userID err tokenExpired (cb_disconnect cb) (cb_connection cb))) s).

(** The send on the channel of capacity one, or nothing. *)
Definition signalTerminalCallback (s : callbackState) : callbackState := set_wake true s.

Definition claimTerminalCallback (s : callbackState) : option terminalCallbackEvent * callbackState :=
  match cs_terminalCallback s with
  | None => (None, s)
  | Some e => (Some e, add_drops (zlen (cs_events s)) (set_terminal None (set_events [] s)))
  end.

(** The critical section of [emitAt]; before it, a closed Client returns too.
    The receive on [lifetimeCtx.Done] in the select cannot be ready here. *)
Definition emitAt (epoch : Z) (fn : callbackFn) (s : callbackState) : callbackState :=
  if cs_closed s then s else
  if is_some (cs_terminalCallback s) || negb (cs_callbackEpoch s =? epoch) then add_drops 1 s else
  if (length (cs_events s) <? writeQueueSize)%nat
  then set_events (cs_events s ++ [mkEvent epoch fn]) s
  else add_drops 1 s.

(** ** The dispatcher

    The flag says that [lifetimeCtx] was seen done: the dispatcher drains what
    is left and returns. *)
Inductive dispatcherPC :=
| DispClaim (draining : bool)                              (* the head of the loop *)
| DispInvoke (draining : bool) (e : terminalCallbackEvent)
| DispSelect (draining : bool)
| DispEvent (draining : bool) (ev : eventFn)               (* eventFn, before its check *)
| DispCall (draining : bool) (ev : eventFn)                (* fn(), the check passed *)
| DispReturned.

(** What a select or the application chooses: which ready case, and whether the
    condition of a token warning holds when it runs. *)
Inductive dispChoice := ChooseWake | ChooseEvent | ChooseDone | ChooseDefault | NoChoice (current : bool).

(** The calls of one event: those of a terminal bundle claimed at an epoch, or of
    an event emitted at an epoch. *)
Inductive logEntry :=
| LogTerminal (epoch : Z) (calls : list appCall)
| LogEvent (epoch : Z) (call : appCall).

Record dispatcher := mkDispatcher { dp_pc : dispatcherPC; dp_claimed : Z; dp_log : list logEntry }.

Definition callFn (current : bool) (fn : callbackFn) : option appCall :=
  match fn with
  | FnConnection u st => Some (CallConnection u st)
  | FnTokenWillExpire u exp _ => if current then Some (CallTokenWillExpire u exp) else None
  end.

(** [None] when the choice is not possible in that state. *)
Definition dispatchStep (ch : dispChoice) (s : callbackState) (d : dispatcher) : option (callbackState * dispatcher) :=
  let go pc := mkDispatcher pc (dp_claimed d) (dp_log d) in
  match dp_pc d, ch with
  | DispClaim b, NoChoice _ =>
      match claimTerminalCallback s with
      | (Some e, s') => Some (s', mkDispatcher (DispInvoke b e) (cs_callbackEpoch s) (dp_log d))
      | (None, s') => Some (s', go (DispSelect b))
      end
  | DispInvoke b e, NoChoice _ =>
      Some (s, mkDispatcher (DispClaim b) (dp_claimed d) (dp_log d ++ [LogTerminal (dp_claimed d) (invoke e)]))
  | DispSelect b, ChooseWake =>
      if cs_terminalWake s then Some (set_wake false s, go (DispClaim b)) else None
  | DispSelect b, ChooseEvent =>
      match cs_events s with
      | ev :: l => Some (set_events l s, go (DispEvent b ev))
      | [] => None
      end
  | DispSelect false, ChooseDone => if cs_closed s then Some (s, go (DispClaim true)) else None
  | DispSelect true, ChooseDefault =>
      match cs_events s with
      | [] => if cs_terminalWake s then None else Some (s, go DispReturned)
      | _ => None
      end
  | DispEvent b ev, NoChoice _ =>
      if cs_callbackEpoch s =? ev_epoch ev then Some (s, go (DispCall b ev))
      else Some (add_drops 1 s, go (DispClaim b))
  | DispCall b ev, NoChoice current =>
      Some (s, mkDispatcher (DispClaim b) (dp_claimed d)
                 (dp_log d ++ match callFn current (ev_fn ev) with Some c => [LogEvent (ev_epoch ev) c] | None => [] end))
  | _, _ => None
  end.

(** ** The system: the dispatcher and whoever emits

    [cb_signals] counts the publishers between their critical section and
    [signalTerminalCallback]; [cb_published] is the number of bundles published. *)
Record callbackSys := mkCallbackSys {
  sy_state : callbackState; sy_disp : dispatcher; sy_signals : nat; sy_published : nat }.

Inductive callbackOp :=
| OpEmitAt (epoch : Z) (fn : callbackFn)
| OpTerminal (userID : string) (err : option goerror)   (* recordTerminal: the epoch and the publication *)
| OpSignal
| OpBump                                                (* Logout and its detached form *)
| OpClose
| OpDispatch (ch : dispChoice).

Definition callbackStep (cb : callbacks) (s : callbackSys) (op : callbackOp) : option callbackSys :=
  let with_state st := mkCallbackSys st (sy_disp s) (sy_signals s) (sy_published s) in
  match op with
  | OpEmitAt epoch fn => Some (with_state (emitAt epoch fn (sy_state s)))
  | OpTerminal u err =>
      if cs_closed (sy_state s) then Some s else
      match publishTerminalCallbackLocked u err cb (bumpEpoch (sy_state s)) with
      | (true, st) => Some (mkCallbackSys st (sy_disp s) (S (sy_signals s)) (S (sy_published s)))
      | (false, st) => Some (with_state st)
      end
  | OpSignal =>
      match sy_signals s with
      | S n => Some (mkCallbackSys (signalTerminalCallback (sy_state s)) (sy_disp s) n (sy_published s))
      | O => None
      end
  | OpBump => Some (with_state (bumpEpoch (sy_state s)))
  | OpClose => Some (with_state (set_closed true (sy_state s)))
  | OpDispatch ch =>
      match dispatchStep ch (sy_state s) (sy_disp s) with
      | Some (st, d) => Some (mkCallbackSys st d (sy_signals s) (sy_published s))
      | None => None
      end
  end.

Fixpoint callbackRun (cb : callbacks) (s : callbackSys) (ops : list callbackOp) : option callbackSys :=
  match ops with
  | [] => Some s
  | op :: ops => s' ← callbackStep cb s op; callbackRun cb s' ops
  end.

Definition startCallbacks : callbackSys :=
  mkCallbackSys newCallbackState (mkDispatcher (DispClaim false) 0 []) 0 0.

(** ** Order of the calls

    A mark is an entry without its calls: whether it is a terminal bundle, and
    its epoch. *)
Definition mark : Type := bool * Z.

Definition entryMark (l : logEntry) : mark :=
  match l with LogTerminal e _ => (true, e) | LogEvent e _ => (false, e) end.

(** [a] may come before [b]: epochs do not decrease, and a terminal bundle comes
    after no entry of its own epoch. *)
Definition before (a b : mark) : Prop := snd a <= snd b /\ (fst b = true -> snd a < snd b).

Definition inflight (d : dispatcher) : list mark :=
  match dp_pc d with
  | DispInvoke _ _ => [(true, dp_claimed d)]
  | DispEvent _ ev | DispCall _ ev => [(false, ev_epoch ev)]
  | _ => []
  end.

(** What was delivered, is being delivered and is queued, in that order. *)
Definition marks (st : callbackState) (d : dispatcher) : list mark :=
  (map entryMark (dp_log d) ++ inflight d ++ map (fun ev => (false, ev_epoch ev)) (cs_events st))%list.

Record ordered (n : nat) (st : callbackState) (d : dispatcher) : Prop := {
  od_sorted : StronglySorted before (marks st d);
  od_epoch : 0 <= cs_callbackEpoch st <= Z.of_nat n;
  od_past : Forall (fun m => snd m <= cs_callbackEpoch st) (marks st d);
  od_pending : is_Some (cs_terminalCallback st) -> Forall (fun m => snd m < cs_callbackEpoch st) (marks st d) }.

Lemma Forall_sublist {A} (P : A -> Prop) l k : sublist l k -> Forall P k -> Forall P l.
Proof. induction 1; rewrite ?Forall_cons; naive_solver. Qed.

Lemma StronglySorted_sublist {A} (R : A -> A -> Prop) l k : sublist l k -> StronglySorted R k -> StronglySorted R l.
Proof.
  intros Hs H. revert l Hs. induction H as [|x k Hk IH Hx]; intros l Hs.
  - apply sublist_nil_r in Hs as ->. constructor.
  - apply sublist_cons_r in Hs as [Hs|(l' & -> & Hs)]; [auto|]. constructor; [auto|]. eapply Forall_sublist; [exact Hs|done].
Qed.

Lemma sorted_snoc l m :
  StronglySorted before l -> Forall (fun x => snd x <= snd m) l -> (fst m = true -> Forall (fun x => snd x < snd m) l) ->
  StronglySorted before (l ++ [m])%list.
Proof.
  intros Hl Hle Hlt. induction Hl as [|x l Hl IH Hx]; simpl; [repeat constructor|].
  apply Forall_cons in Hle as [H1 H2]. constructor.
  - apply IH; [done|]. intros Hm. specialize (Hlt Hm). by apply Forall_cons in Hlt as [??].
  - apply Forall_app. split; [done|]. apply Forall_singleton. split; [done|].
    intros Hm. specialize (Hlt Hm). by apply Forall_cons in Hlt as [??].
Qed.

(** Forgetting marks keeps the order. *)
Lemma ordered_sublist n st d st' d' :
  ordered n st d -> sublist (marks st' d') (marks st d) -> cs_callbackEpoch st' = cs_callbackEpoch st ->
  (is_Some (cs_terminalCallback st') -> is_Some (cs_terminalCallback st)) -> ordered n st' d'.
Proof.
  intros [H1 H2 H3 H4] Hs He Ht. split; rewrite ?He.
  - by eapply StronglySorted_sublist.
  - done.
  - eapply Forall_sublist; [exact Hs|done].
  - intros H. eapply Forall_sublist; [exact Hs|by apply H4, Ht].
Qed.

Lemma bump_epoch n st d : Z.of_nat n < max_uint64 -> ordered n st d -> u64 (cs_callbackEpoch st + 1) = cs_callbackEpoch st + 1.
Proof. intros Hn H. pose proof (od_epoch _ _ _ H). apply u64_id. word_lia. Qed.

(** After a new epoch everything is in the past. *)
Lemma ordered_bump n st d st' :
  Z.of_nat n < max_uint64 -> ordered n st d -> cs_events st' = cs_events st ->
  cs_callbackEpoch st' = u64 (cs_callbackEpoch st + 1) -> ordered (S n) st' d.
Proof.
  intros Hn H He Hc. pose proof H as [H1 H2 H3 H4]. rewrite (bump_epoch _ _ _ Hn H) in Hc.
  assert (marks st' d = marks st d) as Hm by (unfold marks; by rewrite He).
  split; rewrite ?Hm, ?Hc; [done|lia| |intros _]; (eapply Forall_impl; [exact H3|]); simpl; lia.
Qed.

Lemma ordered_emit n epoch fn st d : ordered n st d -> ordered n (emitAt epoch fn st) d.
Proof.
  intros H. unfold emitAt. destruct (cs_closed st); [done|].
  destruct (cs_terminalCallback st) eqn:Et; cbn [is_some orb]; [by apply (ordered_sublist n st d)|].
  destruct (Z.eqb_spec (cs_callbackEpoch st) epoch) as [<-|]; cbn [negb]; [|by apply (ordered_sublist n st d)].
  destruct (_ <? _)%nat; [|by apply (ordered_sublist n st d)].
  destruct H as [H1 H2 H3 H4].
  assert (marks (set_events (cs_events st ++ [mkEvent (cs_callbackEpoch st) fn]) st) d = marks st d ++ [(false, cs_callbackEpoch st)])%list as Hm
    by (unfold marks; simpl; by rewrite map_app, !app_assoc).
  split; rewrite ?Hm; simpl.
  - by apply sorted_snoc.
  - done.
  - apply Forall_app. split; [done|]. apply Forall_singleton. simpl. lia.
  - rewrite Et. by intros [? ?].
Qed.

Lemma ordered_dispatch n ch st d st' d' :
  ordered n st d -> dispatchStep ch st d = Some (st', d') -> ordered n st' d'.
Proof.
  intros H Hs. unfold dispatchStep in Hs. destruct d as [pc cl log]. cbn [dp_pc dp_claimed dp_log] in Hs.
  assert (Hsub : forall a b c : list mark, sublist (a ++ c)%list (a ++ b ++ c)%list).
  { intros. apply sublist_app; [done|]. by apply sublist_inserts_l. }
  destruct pc as [b|b e|[]|b ev|b ev|], ch as [| | | |cur]; try done.
  - unfold claimTerminalCallback in Hs. destruct (cs_terminalCallback st) as [e|] eqn:Et; injection Hs as <- <-.
    + destruct H as [H1 H2 H3 H4]. rewrite Et in H4. specialize (H4 (mk_is_Some _ _ eq_refl)).
      unfold marks, inflight in *. simpl in *. rewrite ?app_nil_r.
      apply Forall_app in H3 as [H3 _], H4 as [H4 _].
      split; unfold marks, inflight; simpl; rewrite ?app_nil_r.
      * apply sorted_snoc; [|done|done]. eapply StronglySorted_sublist; [|exact H1]. by apply sublist_inserts_r.
      * done.
      * apply Forall_app. split; [done|]. apply Forall_singleton. simpl. lia.
      * by intros [? ?].
    + by apply (ordered_sublist n st (mkDispatcher (DispClaim b) cl log)).
  - injection Hs as <- <-. apply (ordered_sublist n st (mkDispatcher (DispInvoke b e) cl log)); try done.
    unfold marks, inflight. simpl. by rewrite map_app, <- app_assoc.
  - destruct (cs_terminalWake st); [|done]. injection Hs as <- <-.
    by apply (ordered_sublist n st (mkDispatcher (DispSelect true) cl log)).
  - destruct (cs_events st) as [|ev l] eqn:E; [done|]. injection Hs as <- <-.
    apply (ordered_sublist n st (mkDispatcher (DispSelect true) cl log)); try done.
    unfold marks, inflight. simpl. by rewrite E.
  - destruct (cs_events st); [|done]. destruct (cs_terminalWake st); [done|]. injection Hs as <- <-.
    by apply (ordered_sublist n st (mkDispatcher (DispSelect true) cl log)).
  - destruct (cs_terminalWake st); [|done]. injection Hs as <- <-.
    by apply (ordered_sublist n st (mkDispatcher (DispSelect false) cl log)).
  - destruct (cs_events st) as [|ev l] eqn:E; [done|]. injection Hs as <- <-.
    apply (ordered_sublist n st (mkDispatcher (DispSelect false) cl log)); try done.
    unfold marks, inflight. simpl. by rewrite E.
  - destruct (cs_closed st); [|done]. injection Hs as <- <-.
    by apply (ordered_sublist n st (mkDispatcher (DispSelect false) cl log)).
  - destruct (_ =? _); injection Hs as <- <-; [by apply (ordered_sublist n st (mkDispatcher (DispEvent b ev) cl log))|].
    apply (ordered_sublist n st (mkDispatcher (DispEvent b ev) cl log)); try done. apply (Hsub _ [_]).
  - injection Hs as <- <-. apply (ordered_sublist n st (mkDispatcher (DispCall b ev) cl log)); try done.
    unfold marks, inflight. simpl. destruct (callFn cur (ev_fn ev)); simpl.
    + by rewrite map_app, <- app_assoc.
    + rewrite app_nil_r. apply (Hsub _ [_]).
Qed.

Lemma ordered_step cb n s op s' :
  Z.of_nat n < max_uint64 -> ordered n (sy_state s) (sy_disp s) -> callbackStep cb s op = Some s' ->
  ordered (S n) (sy_state s') (sy_disp s').
Proof.
  intros Hn H Hs. assert (Hup : forall st d, ordered n st d -> ordered (S n) st d).
  { intros st d [H1 H2 H3 H4]. split; try done. lia. }
  destruct op; cbn [callbackStep] in Hs.
  - injection Hs as <-. by apply Hup, ordered_emit.
  - destruct (cs_closed (sy_state s)) eqn:Ecl; [injection Hs as <-; by apply Hup|].
    unfold publishTerminalCallbackLocked in Hs. simpl in Hs. rewrite Ecl in Hs. cbn [orb] in Hs.
    destruct (is_some _); [injection Hs as <-; by apply (ordered_bump n (sy_state s))|].
    destruct (_ && _ && _); injection Hs as <-; by apply (ordered_bump n (sy_state s)).
  - destruct (sy_signals s); [done|]. injection Hs as <-. by apply Hup, (ordered_sublist n (sy_state s) (sy_disp s)).
  - injection Hs as <-. by apply (ordered_bump n (sy_state s)).
  - injection Hs as <-. by apply Hup, (ordered_sublist n (sy_state s) (sy_disp s)).
  - destruct (dispatchStep _ _ _) as [[st d]|] eqn:E; [|done]. injection Hs as <-.
    by eapply Hup, ordered_dispatch.
Qed.

Lemma ordered_run cb ops n s s' :
  Z.of_nat (n + length ops) <= max_uint64 -> ordered n (sy_state s) (sy_disp s) -> callbackRun cb s ops = Some s' ->
  ordered (n + length ops) (sy_state s') (sy_disp s').
Proof.
  revert n s. induction ops as [|op ops IH]; intros n s Hn H Hr; simpl in *.
  - injection Hr as <-. by rewrite Nat.add_0_r.
  - destruct (callbackStep cb s op) as [s1|] eqn:E; [|done]. simpl in Hr.
    rewrite <- Nat.add_succ_comm. apply (IH _ s1); [lia| |done]. eapply ordered_step; [lia|done|done].
Qed.

Lemma callbackRun_app cb s ops1 ops2 :
  callbackRun cb s (ops1 ++ ops2) = callbackRun cb s ops1 ≫= fun s' => callbackRun cb s' ops2.
Proof. revert s. induction ops1 as [|op ops1 IH]; intros s; simpl; [done|]. destruct (callbackStep cb s op); simpl; auto. Qed.

Lemma ordered_start : ordered 0 (sy_state startCallbacks) (sy_disp startCallbacks).
Proof. split; simpl; try constructor; try done. Qed.

Lemma ordered_log cb ops s :
  Z.of_nat (length ops) <= max_uint64 -> callbackRun cb startCallbacks ops = Some s ->
  StronglySorted before (map entryMark (dp_log (sy_disp s))).
Proof.
  intros Hn Hr. pose proof (ordered_run _ _ 0 _ _ Hn ordered_start Hr) as [H _ _ _].
  eapply StronglySorted_sublist; [|exact H]. by apply sublist_inserts_r.
Qed.

(** Whatever the interleaving of emissions, terminal transitions, logouts and the
    close: the application sees the events in the order of their epochs, and a
    terminal bundle after every event of earlier epochs and before every later
    one.  So no connection state of a session reaches the application after the
    end of that session was notified. *)
Theorem callbacks_ordered cb ops s :
  Z.of_nat (length ops) <= max_uint64 -> callbackRun cb startCallbacks ops = Some s ->
  StronglySorted before (map entryMark (dp_log (sy_disp s))).
Proof. apply ordered_log. Qed.

(** ** Delivery of the terminal bundle *)

Definition is_terminal (l : logEntry) : bool := match l with LogTerminal _ _ => true | LogEvent _ _ => false end.

Definition draining (pc : dispatcherPC) : bool :=
  match pc with
  | DispClaim b | DispInvoke b _ | DispSelect b | DispEvent b _ | DispCall b _ => b
  | DispReturned => true
  end.

(** Bundles delivered, being delivered and waiting. *)
Definition accounted (s : callbackSys) : nat :=
  length (filter is_terminal (dp_log (sy_disp s))) +
  match dp_pc (sy_disp s) with DispInvoke _ _ => 1 | _ => 0 end +
  match cs_terminalCallback (sy_state s) with Some _ => 1 | None => 0 end.

Record awake (s : callbackSys) : Prop := {
  aw_count : accounted s = sy_published s;
  aw_draining : draining (dp_pc (sy_disp s)) = true -> cs_closed (sy_state s) = true;
  aw_select : forall b, dp_pc (sy_disp s) = DispSelect b -> is_Some (cs_terminalCallback (sy_state s)) ->
    b = false /\ (cs_terminalWake (sy_state s) = true \/ (0 < sy_signals s)%nat);
  aw_returned : dp_pc (sy_disp s) = DispReturned -> cs_terminalCallback (sy_state s) = None }.

Lemma emitAt_slot epoch fn st :
  cs_terminalCallback (emitAt epoch fn st) = cs_terminalCallback st /\
  cs_terminalWake (emitAt epoch fn st) = cs_terminalWake st /\ cs_closed (emitAt epoch fn st) = cs_closed st.
Proof. unfold emitAt. repeat case_bool; done. Qed.

Lemma publish_slot u err cb st :
  match publishTerminalCallbackLocked u err cb st with
  | (true, st') => cs_closed st = false /\ cs_terminalCallback st = None /\ (exists e, st' = set_terminal (Some e) st)
  | (false, st') => st' = st
  end.
Proof.
  unfold publishTerminalCallbackLocked. destruct (cs_closed st); [done|]. cbn [orb].
  destruct (cs_terminalCallback st) eqn:E; [done|]. cbn [is_some]. destruct (_ && _ && _); eauto.
Qed.

Lemma awake_dispatch ch s st d :
  awake s -> dispatchStep ch (sy_state s) (sy_disp s) = Some (st, d) ->
  awake (mkCallbackSys st d (sy_signals s) (sy_published s)).
Proof.
  intros [H1 H2 H3 H4] Hs. destruct s as [[cl t w ep evs dr] [pc ce log] sg pb]. unfold accounted in *. simpl in *.
  destruct pc as [b|b e|[]|b ev|b ev|], ch as [| | | |cur]; cbn in Hs; try done.
  - destruct t as [e|]; injection Hs as <- <-; split; unfold accounted; simpl; try done; try lia; intros ? ? [? ?]; done.
  - injection Hs as <- <-. split; unfold accounted; simpl; try done.
    rewrite filter_app, length_app. simpl. lia.
  - destruct w; [|done]. injection Hs as <- <-. by split.
  - destruct evs; [done|]. injection Hs as <- <-. by split.
  - destruct evs; [|done]. destruct w; [done|]. injection Hs as <- <-. split; unfold accounted; simpl; try done.
    intros _. destruct t; [|done]. by destruct (H3 true eq_refl ltac:(done)).
  - destruct w; [|done]. injection Hs as <- <-. by split.
  - destruct evs; [done|]. injection Hs as <- <-. by split.
  - destruct cl; [|done]. injection Hs as <- <-. by split.
  - destruct (_ =? _); injection Hs as <- <-; by split.
  - injection Hs as <- <-. split; unfold accounted; simpl; try done.
    rewrite filter_app, length_app. destruct (callFn cur (ev_fn ev)); simpl; lia.
Qed.

Lemma awake_step cb s op s' : awake s -> callbackStep cb s op = Some s' -> awake s'.
Proof.
  intros H Hs. pose proof H as [H1 H2 H3 H4]. destruct op; cbn [callbackStep] in Hs.
  - injection Hs as <-. destruct (emitAt_slot epoch fn (sy_state s)) as (E1 & E2 & E3).
    split; unfold accounted; simpl; rewrite ?E1, ?E2, ?E3; done.
  - destruct (cs_closed (sy_state s)) eqn:Ecl; [by injection Hs as <-|].
    pose proof (publish_slot userID err cb (bumpEpoch (sy_state s))) as Hp.
    destruct (publishTerminalCallbackLocked _ _ _ _) as [[] st].
    + destruct Hp as (_ & Ht & e & ->). simpl in Ht. injection Hs as <-. unfold accounted in *. rewrite Ht in H1.
      split; unfold accounted; simpl; try done; try lia.
      * intros Hd. specialize (H2 Hd). congruence.
      * intros b Hb _. split; [|lia]. rewrite Hb in H2. simpl in H2. destruct b; [specialize (H2 eq_refl); congruence|done].
      * intros Hr. rewrite Hr in H2. specialize (H2 eq_refl). congruence.
    + subst st. injection Hs as <-. split; try done. simpl. intros Hd. specialize (H2 Hd). congruence.
  - destruct (sy_signals s); [done|]. injection Hs as <-. split; try done. simpl.
    intros b Hb Ht. destruct (H3 b Hb Ht) as [-> _]. auto.
  - injection Hs as <-. by split.
  - injection Hs as <-. by split.
  - destruct (dispatchStep _ _ _) as [[st d]|] eqn:E; [|done]. injection Hs as <-. by eapply awake_dispatch.
Qed.

Lemma awake_run cb ops s s' : awake s -> callbackRun cb s ops = Some s' -> awake s'.
Proof.
  revert s. induction ops as [|op ops IH]; intros s H Hr; simpl in Hr; [by injection Hr as <-|].
  destruct (callbackStep cb s op) as [s1|] eqn:E; [|done]. by eapply IH, Hr; eapply awake_step.
Qed.

Lemma awake_start : awake startCallbacks.
Proof. split; unfold accounted; simpl; done. Qed.


(** The bundle [e] is delivered, or will be within [k] more steps of the
    dispatcher. *)
Definition due (e : terminalCallbackEvent) (k : nat) (s : callbackSys) : Prop :=
  (exists ep, LogTerminal ep (invoke e) ∈ dp_log (sy_disp s)) \/
  (exists b, dp_pc (sy_disp s) = DispInvoke b e) /\ (1 <= k)%nat \/
  cs_terminalCallback (sy_state s) = Some e /\
    match dp_pc (sy_disp s) with
    | DispClaim _ => (2 <= k)%nat | DispInvoke _ _ | DispCall _ _ => (3 <= k)%nat
    | DispSelect _ => (5 <= k)%nat | DispEvent _ _ => (4 <= k)%nat | DispReturned => False
    end.

Lemma due_step cb e k s ch s' :
  awake s -> due e (S k) s -> callbackStep cb s (OpDispatch ch) = Some s' -> due e k s'.
Proof.
  intros Ha Hd Hs. cbn [callbackStep] in Hs. destruct (dispatchStep _ _ _) as [[st d]|] eqn:E; [|done].
  injection Hs as <-. unfold due in *. simpl in *. destruct (sy_disp s) as [pc ce log] eqn:Ed. simpl in *.
  destruct Hd as [(ep & Hl)|[((b & ->) & Hk)|[Ht Hk]]].
  - left. exists ep. unfold dispatchStep in E. simpl in E.
    repeat (match type of E with context [match ?x with _ => _ end] => destruct x end; try done);
      injection E as <- <-; simpl; set_solver.
  - destruct ch; try done. injection E as <- <-. simpl. left. exists ce. set_solver.
  - unfold dispatchStep in E. simpl in E. destruct pc as [b|b e0|[]|b ev|b ev|], ch; try done.
    + unfold claimTerminalCallback in E. rewrite Ht in E. injection E as <- <-. right; left. simpl. eauto with lia.
    + injection E as <- <-. right; right. simpl. split; [done|lia].
    + destruct (cs_terminalWake _); [|done]. injection E as <- <-. right; right. simpl. split; [done|lia].
    + destruct (cs_events _); [done|]. injection E as <- <-. right; right. simpl. split; [done|lia].
    + destruct (aw_select _ Ha true) as [? _]; [by rewrite Ed|by rewrite Ht|done].
    + destruct (cs_terminalWake _); [|done]. injection E as <- <-. right; right. simpl. split; [done|lia].
    + destruct (cs_events _); [done|]. injection E as <- <-. right; right. simpl. split; [done|lia].
    + destruct (cs_closed _); [|done]. injection E as <- <-. right; right. simpl. split; [done|lia].
    + destruct (_ =? _); injection E as <- <-; right; right; simpl; (split; [done|lia]).
    + injection E as <- <-. right; right. simpl. split; [done|lia].
Qed.

(** The dispatcher can make a step. *)
Definition canDispatch (s : callbackSys) : Prop :=
  exists ch, is_Some (dispatchStep ch (sy_state s) (sy_disp s)).

Lemma due_can_dispatch e k s :
  awake s -> sy_signals s = 0%nat -> due e k s ->
  (exists ep, LogTerminal ep (invoke e) ∈ dp_log (sy_disp s)) \/ canDispatch s /\ (0 < k)%nat.
Proof.
  intros [_ _ H3 _] Hsg Hd. destruct Hd as [Hl|[((b & Hp) & ?)|[Ht Hk]]]; [by left|right|right].
  - split; [|lia]. exists (NoChoice true). unfold dispatchStep. rewrite Hp. eauto.
  - unfold canDispatch, dispatchStep. destruct (dp_pc (sy_disp s)) as [b|b e0|b|b ev|b ev|] eqn:Hp; [..|done];
      (split; [|lia]).
    + exists (NoChoice true). destruct (claimTerminalCallback _) as [[]]; eauto.
    + exists (NoChoice true). eauto.
    + destruct (H3 b eq_refl ltac:(by rewrite Ht)) as [-> [Hw|Hw]]; [|lia]. exists ChooseWake. rewrite Hw. eauto.
    + exists (NoChoice true). destruct (_ =? _); eauto.
    + exists (NoChoice true). eauto.
Qed.

Lemma dispatch_signals cb s ch s' : callbackStep cb s (OpDispatch ch) = Some s' -> sy_signals s' = sy_signals s.
Proof. cbn [callbackStep]. destruct (dispatchStep _ _ _) as [[]|]; [|done]. by intros [= <-]. Qed.

Lemma due_weaken e k k' s : (k <= k')%nat -> due e k s -> due e k' s.
Proof.
  intros Hk [Hl|[[Hb ?]|[Ht Hd]]]; [by left|right; left; split; [done|lia]|right; right; split; [done|]].
  destruct (dp_pc (sy_disp s)); lia || done.
Qed.

Lemma due_run cb e chs k s s' :
  awake s -> sy_signals s = 0%nat -> due e k s -> callbackRun cb s (map OpDispatch chs) = Some s' ->
  (exists ep, LogTerminal ep (invoke e) ∈ dp_log (sy_disp s')) \/ ((length chs < k)%nat /\ canDispatch s').
Proof.
  revert k s. induction chs as [|ch chs IH]; intros k s Ha Hsg Hd Hc; cbn [map callbackRun mbind option_bind] in Hc.
  - injection Hc as <-. destruct (due_can_dispatch _ _ _ Ha Hsg Hd) as [Hl|[Hc Hk]]; [by left|by right].
  - destruct (callbackStep cb s (OpDispatch ch)) as [s1|] eqn:E; [|done].
    assert (due e (pred k) s1) as Hd1 by (eapply due_step; [exact Ha| |exact E]; eapply due_weaken, Hd; lia).
    rewrite <- (dispatch_signals _ _ _ _ E) in Hsg.
    destruct (IH _ _ (awake_step _ _ _ _ Ha E) Hsg Hd1 Hc) as [Hl|[Hl Hc']]; [by left|right; split; [simpl; lia|done]].
Qed.

(** C32. A terminal bundle is never lost.  Every bundle published was delivered once,
    is being delivered, or waits in the slot.  When it waits and its publisher has
    signalled, the dispatcher alone delivers it: whatever its selects choose, five
    of its steps are enough, and until then it always has a step to make.  This
    holds through the close of the Client. *)
Theorem terminal_delivered cb ops s :
  callbackRun cb startCallbacks ops = Some s ->
  accounted s = sy_published s /\
  forall e, cs_terminalCallback (sy_state s) = Some e -> sy_signals s = 0%nat ->
    forall chs s', callbackRun cb s (map OpDispatch chs) = Some s' ->
      (exists ep, LogTerminal ep (invoke e) ∈ dp_log (sy_disp s')) \/ ((length chs < 5)%nat /\ canDispatch s').
Proof.
  intros Hr. pose proof (awake_run _ _ _ _ awake_start Hr) as Ha. split; [apply Ha|].
  intros e He Hsg chs s'. apply due_run; [done|done|].
  right; right. split; [done|]. destruct (dp_pc (sy_disp s)) eqn:Hp; try lia.
  by rewrite (aw_returned _ Ha Hp) in He.
Qed.

(** ** A concrete history

    A session ends on an expired token while a state event is queued; the next
    session's event is emitted after the claim. *)
Definition allCallbacks : callbacks := mkCallbacks true true true true.
Definition sampleOps : list callbackOp :=
  [OpEmitAt 0 (FnConnection "u" ConnStateConnected); OpDispatch (NoChoice true);
   OpTerminal "u" (Some (newError ErrTokenExpired "provision" "")); OpSignal].
Definition sampleCallbacks : callbackSys := default startCallbacks (callbackRun allCallbacks startCallbacks sampleOps).

Lemma sample_reached : callbackRun allCallbacks startCallbacks sampleOps = Some sampleCallbacks.
Proof. reflexivity. Qed.

Definition sampleChoices : list dispChoice := [ChooseWake; NoChoice true; NoChoice true].

Lemma terminal_delivered_witness :
  exists s', callbackRun allCallbacks sampleCallbacks (map OpDispatch sampleChoices) = Some s' /\
    ((exists ep, LogTerminal ep [CallTokenExpired "u"; CallDisconnect "u" (Some (newError ErrTokenExpired "provision" ""));
                                CallConnection "u" ConnStateDisconnected] ∈ dp_log (sy_disp s')) \/
     ((3 < 5)%nat /\ canDispatch s')).
Proof.
  eexists. split; [reflexivity|].
  refine (proj2 (terminal_delivered allCallbacks sampleOps sampleCallbacks sample_reached)
            (mkTerminal "u" (Some (newError ErrTokenExpired "provision" "")) true true true) _ _ sampleChoices _ _);
    reflexivity.
Defined.

Definition sampleHistory : list callbackOp :=
  (sampleOps ++ map OpDispatch sampleChoices ++ [OpEmitAt 1 (FnConnection "v" ConnStateConnecting)] ++
   map OpDispatch [NoChoice true; ChooseEvent; NoChoice true; NoChoice true])%list.
Definition sampleEnd : callbackSys := default startCallbacks (callbackRun allCallbacks startCallbacks sampleHistory).

Lemma sampleEnd_reached : callbackRun allCallbacks startCallbacks sampleHistory = Some sampleEnd.
Proof. vm_compute. reflexivity. Qed.

Lemma callbacks_ordered_witness :
  map entryMark (dp_log (sy_disp sampleEnd)) = [(true, 1); (false, 1)] /\
  StronglySorted before (map entryMark (dp_log (sy_disp sampleEnd))).
Proof.
  split; [vm_compute; reflexivity|].
  apply (callbacks_ordered allCallbacks sampleHistory sampleEnd); [vm_compute; discriminate|exact sampleEnd_reached].
Defined.
