(* ===== verification/RetainedWeight.v ===== *)
(** * Retained weight of a Sync

    internal/protocol/model.go, [SyncRetainedWeight] and its estimator: the
    queue-admission charge of a decoded batch.  The estimator works on
    [uint64] with explicit overflow checks; the reference definition
    [ideal_weight] below has no machine bound. *)
From Stdlib Require Import String.
From S2P Require Import Prelude Protocol Errors.
Local Open Scope string_scope.
Local Open Scope Z_scope.

(** ** unsafe.Sizeof on a 64-bit target *)

(** Size and alignment of a field type. *)
Definition t_word : Z * Z := (8, 8).       (* pointers, int64, uint64, float64 *)
Definition t_32 : Z * Z := (4, 4).         (* int32, uint32, float32 *)
Definition t_bool : Z * Z := (1, 1).
Definition t_string : Z * Z := (16, 8).
Definition t_slice : Z * Z := (24, 8).

(** Each field is placed at the next multiple of its alignment, and the struct
    is padded to its largest alignment. *)
Definition sizeof_struct (fields : list (Z * Z)) : Z :=
  let '(off, al) := foldl (fun '(off, al) '(sz, a) => (round_up a off + sz, Z.max al a)) (0, 1) fields in
  round_up al off.

Definition sizeof_JID : Z := sizeof_struct [t_string; t_string; t_string; t_string].
Definition t_JID : Z * Z := (sizeof_JID, 8).
Definition sizeof_RedirectInfo : Z := sizeof_struct [t_string; t_32].
Definition sizeof_Status : Z := sizeof_struct [t_32; t_string; t_slice].
Definition sizeof_Sync : Z :=
  sizeof_struct [t_word; t_word; t_word; t_slice; t_word; t_word; t_bool; t_word].
Definition sizeof_Meta : Z :=
  sizeof_struct [t_word; t_JID; t_JID; t_word; t_32; t_slice; t_32; t_slice; t_slice;
                 t_word; t_word; t_string; t_slice].
Definition sizeof_KeyValue : Z :=
  sizeof_struct [t_string; t_32; t_bool; t_word; t_word; t_32; t_word; t_string].
Definition sizeof_string : Z := 16.
Definition sizeof_byte : Z := 1.

(** ** Checked arithmetic *)

Definition checkedRetainedAdd (a b : Z) : Z * bool :=
  if a >? u64 (max_uint64 - b) then (0, false) else (u64 (a + b), true).

Definition checkedRetainedMul (a b : Z) : Z * bool :=
  if negb (a =? 0) && (b >? max_uint64 / a) then (0, false) else (u64 (a * b), true).

Definition checkedRetainedRoundUp (value quantum : Z) : Z * bool :=
  if quantum =? 0 then (0, false) else
  let remainder := value mod quantum in
  if remainder =? 0 then (value, true) else checkedRetainedAdd value (u64 (quantum - remainder)).

(** ** The estimator *)

Definition retainedAllocationQuantum : Z := 128.
Definition retainedAllocationOverhead : Z := 16.
Definition retainedSafetyFactor : Z := 2.
Definition retainedPageSize : Z := Z.shiftl 4 10.

Definition limitError (msg : string) : goerror :=
  EWrap ("protocol limit exceeded: " ++ msg) (ESentinel ErrLimitExceeded).

Definition weightExceedsMsg : string :=
  "sync retained weight exceeds " ++ pretty MaxSyncRetainedWeight ++ " bytes".

Definition retainedWeightEstimator := Z.

Definition est_allocation (size : Z) (total : retainedWeightEstimator) : result retainedWeightEstimator :=
  if size =? 0 then Ok total else
  let '(rounded, ok) := checkedRetainedRoundUp size retainedAllocationQuantum in
  if negb ok then Err (limitError "sync retained allocation overflows") else
  let '(rounded, ok) := checkedRetainedAdd rounded retainedAllocationOverhead in
  if negb ok then Err (limitError "sync retained allocation overflows") else
  let '(total, ok) := checkedRetainedAdd total rounded in
  if negb ok then Err (limitError "sync retained weight overflows") else Ok total.

Definition est_slice (capacity elementSize : Z) (total : retainedWeightEstimator) : result retainedWeightEstimator :=
  if capacity <=? 0 then Ok total else
  let '(size, ok) := checkedRetainedMul (u64 capacity) elementSize in
  if negb ok then Err (limitError "sync retained slice overflows") else est_allocation size total.

Definition est_string (value : string) (total : retainedWeightEstimator) : result retainedWeightEstimator :=
  est_allocation (slen value) total.

(** A [for range] loop that stops at the first error. *)
Fixpoint est_each {A} (f : A -> retainedWeightEstimator -> result retainedWeightEstimator)
    (xs : list A) (total : retainedWeightEstimator) : result retainedWeightEstimator :=
  match xs with
  | [] => Ok total
  | x :: xs => total ← f x total; est_each f xs total
  end.

Definition est_jid (jid : JID) (total : retainedWeightEstimator) : result retainedWeightEstimator :=
  est_each est_string [j_AppKey jid; j_Name jid; j_Domain jid; j_ClientResource jid] total.

Definition est_status (st : Status) (total : retainedWeightEstimator) : result retainedWeightEstimator :=
  total ← est_allocation sizeof_Status total;
  total ← est_string (st_Reason st) total;
  total ← est_slice (sl_cap (st_Redirects st)) sizeof_RedirectInfo total;
  est_each (fun r => est_string (ri_Host r)) (sl_elems (st_Redirects st)) total.

Definition est_queue (j : JID) (total : retainedWeightEstimator) : result retainedWeightEstimator :=
  total ← est_allocation sizeof_JID total; est_jid j total.

Definition est_ext (kv : KeyValue) (total : retainedWeightEstimator) : result retainedWeightEstimator :=
  total ← est_string (kv_Key kv) total; est_string (kv_String kv) total.

Definition est_meta (m : Meta) (total : retainedWeightEstimator) : result retainedWeightEstimator :=
  total ← est_slice (sl_cap (m_Payload m)) sizeof_byte total;
  total ← est_slice (sl_cap (m_Attributes m)) sizeof_byte total;
  total ← est_jid (m_From m) total;
  total ← est_jid (m_To m) total;
  total ← est_slice (sl_cap (m_Ext m)) sizeof_KeyValue total;
  total ← est_each est_ext (sl_elems (m_Ext m)) total;
  total ← est_slice (sl_cap (m_DirectedUsers m)) sizeof_string total;
  total ← est_each est_string (sl_elems (m_DirectedUsers m)) total;
  est_string (m_Environment m) total.

Definition est_sync (sync : Sync) (total : retainedWeightEstimator) : result retainedWeightEstimator :=
  total ← est_allocation sizeof_Sync total;
  total ← match sy_Status sync with Some st => est_status st total | None => Ok total end;
  total ← match sy_Queue sync with Some q => est_queue q total | None => Ok total end;
  total ← est_slice (sl_cap (sy_Metas sync)) sizeof_Meta total;
  est_each est_meta (sl_elems (sy_Metas sync)) total.

(** [SyncRetainedWeight]; [None] is the nil pointer. *)
Definition SyncRetainedWeight (sync : option Sync) : result Z :=
  match sync with
  | None => Ok 0
  | Some sync =>
      total ← est_sync sync 0;
      let '(weighted, ok) := checkedRetainedMul total retainedSafetyFactor in
      if negb ok then Err (limitError "sync retained weight overflows") else
      let '(weighted, ok) := checkedRetainedRoundUp weighted retainedPageSize in
      if negb ok || (weighted >? MaxSyncRetainedWeight)
      then Err (limitError weightExceedsMsg)
      else Ok (i64 weighted)
  end.

(** ** The reference charge *)

Definition charge (size : Z) : Z :=
  if size =? 0 then 0 else round_up retainedAllocationQuantum size + retainedAllocationOverhead.

Definition slice_charge (capacity elementSize : Z) : Z :=
  if capacity <=? 0 then 0 else charge (capacity * elementSize).

Definition string_charge (s : string) : Z := charge (slen s).

Definition jid_charge (j : JID) : Z :=
  zsum (map string_charge [j_AppKey j; j_Name j; j_Domain j; j_ClientResource j]).

Definition status_charge (st : Status) : Z :=
  charge sizeof_Status + (string_charge (st_Reason st) +
  (slice_charge (sl_cap (st_Redirects st)) sizeof_RedirectInfo +
   zsum (map (fun r => string_charge (ri_Host r)) (sl_elems (st_Redirects st))))).

Definition ext_charge (kv : KeyValue) : Z := string_charge (kv_Key kv) + string_charge (kv_String kv).

Definition meta_charge (m : Meta) : Z :=
  slice_charge (sl_cap (m_Payload m)) sizeof_byte +
  (slice_charge (sl_cap (m_Attributes m)) sizeof_byte +
  (jid_charge (m_From m) + (jid_charge (m_To m) +
  (slice_charge (sl_cap (m_Ext m)) sizeof_KeyValue +
  (zsum (map ext_charge (sl_elems (m_Ext m))) +
  (slice_charge (sl_cap (m_DirectedUsers m)) sizeof_string +
  (zsum (map string_charge (sl_elems (m_DirectedUsers m))) +
   string_charge (m_Environment m)))))))).

Definition ideal_total (s : Sync) : Z :=
  charge sizeof_Sync +
  (match sy_Status s with Some st => status_charge st | None => 0 end +
  (match sy_Queue s with Some q => charge sizeof_JID + jid_charge q | None => 0 end +
  (slice_charge (sl_cap (sy_Metas s)) sizeof_Meta +
   zsum (map meta_charge (sl_elems (sy_Metas s)))))).

Definition ideal_weight (s : Sync) : Z :=
  round_up retainedPageSize (retainedSafetyFactor * ideal_total s).

(** What the Go runtime guarantees of a value: lengths and capacities are
    non-negative [int]s. *)
Definition string_ok (s : string) : Prop := slen s <= max_int64.
Definition jid_ok (j : JID) : Prop :=
  Forall string_ok [j_AppKey j; j_Name j; j_Domain j; j_ClientResource j].
Definition cap_ok {A} (s : gslice A) : Prop := sl_cap s <= max_int64.
Definition status_ok (st : Status) : Prop :=
  string_ok (st_Reason st) /\ cap_ok (st_Redirects st) /\
  Forall (fun r => string_ok (ri_Host r)) (sl_elems (st_Redirects st)).
Definition ext_ok (kv : KeyValue) : Prop := string_ok (kv_Key kv) /\ string_ok (kv_String kv).
Definition meta_ok (m : Meta) : Prop :=
  cap_ok (m_Payload m) /\ cap_ok (m_Attributes m) /\ jid_ok (m_From m) /\ jid_ok (m_To m) /\
  cap_ok (m_Ext m) /\ Forall ext_ok (sl_elems (m_Ext m)) /\ cap_ok (m_DirectedUsers m) /\
  Forall string_ok (sl_elems (m_DirectedUsers m)) /\ string_ok (m_Environment m).
Definition sync_ok (s : Sync) : Prop :=
  match sy_Status s with Some st => status_ok st | None => True end /\
  match sy_Queue s with Some q => jid_ok q | None => True end /\
  cap_ok (sy_Metas s) /\ Forall meta_ok (sl_elems (sy_Metas s)).

(** ** Checked arithmetic is exact *)

Lemma checkedRetainedAdd_exact a b :
  in_u64 a -> in_u64 b ->
  checkedRetainedAdd a b = if a + b <=? max_uint64 then (a + b, true) else (0, false).
Proof.
  intros Ha Hb. unfold checkedRetainedAdd.
  rewrite (u64_id (max_uint64 - b)) by word_lia.
  case_bool; case_bool; breflect; try word_lia; [reflexivity|].
  rewrite u64_id by word_lia. reflexivity.
Qed.

Lemma checkedRetainedMul_exact a b :
  in_u64 a -> in_u64 b ->
  checkedRetainedMul a b = if a * b <=? max_uint64 then (a * b, true) else (0, false).
Proof.
  intros [Ha0 Ha] [Hb0 Hb]. unfold checkedRetainedMul.
  destruct (Z.eqb_spec a 0) as [->|Hz].
  { rewrite Z.mul_0_l. reflexivity. }
  assert (b <= max_uint64 / a <-> a * b <= max_uint64) as Hdiv.
  { split; intros H.
    - pose proof (Z.mul_div_le max_uint64 a ltac:(lia)). nia.
    - apply Z.div_le_lower_bound; lia. }
  simpl. case_bool; case_bool; breflect; try lia; [reflexivity|].
  rewrite u64_id; [reflexivity|]. split; [nia|lia].
Qed.

Lemma checkedRetainedRoundUp_exact v q :
  in_u64 v -> 0 < q <= max_uint64 ->
  checkedRetainedRoundUp v q =
    if round_up q v <=? max_uint64 then (round_up q v, true) else (0, false).
Proof.
  intros Hv Hq. unfold checkedRetainedRoundUp.
  rewrite (proj2 (Z.eqb_neq q 0)) by lia.
  rewrite (round_up_spec q v) by lia.
  pose proof (Z.mod_pos_bound v q ltac:(lia)).
  case_bool; breflect.
  - destruct (Z.leb_spec v max_uint64); [reflexivity|word_lia].
  - rewrite u64_id by (unfold in_u64; lia).
    apply checkedRetainedAdd_exact; [done|]. unfold in_u64; lia.
Qed.

(** ** Charging programs

    [charges f c]: the estimator step [f] adds exactly [c] to the running
    total, and reports the limit error exactly when the sum does not fit. *)
Definition charges (f : Z -> result Z) (c : Z) : Prop :=
  0 <= c /\ forall total, in_u64 total ->
  if total + c <=? max_uint64 then f total = Ok (total + c)
  else exists msg, f total = Err (limitError msg).

Lemma charges_nonneg f c : charges f c -> 0 <= c.
Proof. by intros [? _]. Qed.

Lemma charges_ret : charges Ok 0.
Proof.
  split; [lia|]. intros t Ht. rewrite Z.add_0_r.
  case_bool; breflect; [done|word_lia].
Qed.

Lemma charges_bind f g c d :
  charges f c -> charges g d -> charges (fun t => f t ≫= g) (c + d).
Proof.
  intros [Hc Hf] [Hd Hg]. split; [lia|]. intros t Ht. specialize (Hf t Ht).
  destruct (Z.leb_spec (t + c) max_uint64) as [Hle|Hgt].
  - rewrite Hf. simpl. specialize (Hg (t + c) ltac:(unfold in_u64 in *; lia)).
    rewrite Z.add_assoc. exact Hg.
  - destruct Hf as [msg Hf]. rewrite Hf. simpl.
    rewrite (proj2 (Z.leb_gt (t + (c + d)) max_uint64)) by lia. eauto.
Qed.

Lemma charges_each {A} (f : A -> Z -> result Z) (c : A -> Z) xs :
  Forall (fun x => charges (f x) (c x)) xs -> charges (est_each f xs) (zsum (map c xs)).
Proof.
  induction 1 as [|x xs Hx _ IH]; simpl; [apply charges_ret|].
  rewrite zsum_cons. apply (charges_bind (f x) (est_each f xs)); done.
Qed.

Lemma est_charge_nonneg n : 0 <= n -> 0 <= charge n.
Proof.
  intros. unfold charge, retainedAllocationOverhead, retainedAllocationQuantum. case_bool; [lia|].
  pose proof (round_up_ge 128 n). lia.
Qed.

Lemma charge_ge n : 0 <= n -> n <= charge n.
Proof.
  intros. unfold charge, retainedAllocationOverhead, retainedAllocationQuantum.
  pose proof (round_up_ge 128 n). case_bool; breflect; lia.
Qed.

Lemma charges_allocation size : in_u64 size -> charges (est_allocation size) (charge size).
Proof.
  intros Hs. split; [apply est_charge_nonneg, Hs|]. intros t Ht.
  unfold est_allocation, charge. case_bool; breflect.
  - rewrite Z.add_0_r. case_bool; breflect; [done|word_lia].
  - unfold retainedAllocationQuantum, retainedAllocationOverhead.
    pose proof (round_up_ge 128 size). unfold in_u64 in *.
    rewrite checkedRetainedRoundUp_exact by (unfold in_u64; word_lia).
    destruct (Z.leb_spec (round_up 128 size) max_uint64); simpl.
    2:{ rewrite (proj2 (Z.leb_gt _ _)) by word_lia. eauto. }
    rewrite checkedRetainedAdd_exact by (unfold in_u64; word_lia).
    destruct (Z.leb_spec (round_up 128 size + 16) max_uint64); simpl.
    2:{ rewrite (proj2 (Z.leb_gt _ _)) by word_lia. eauto. }
    rewrite checkedRetainedAdd_exact by (unfold in_u64; word_lia).
    case_bool; simpl; eauto.
Qed.

Lemma charges_slice capacity sz :
  capacity <= max_int64 -> 0 < sz <= 4096 -> charges (est_slice capacity sz) (slice_charge capacity sz).
Proof.
  intros Hc Hsz. unfold est_slice, slice_charge.
  case_bool; breflect; [apply charges_ret|].
  rewrite u64_id by word_lia.
  rewrite checkedRetainedMul_exact by word_lia.
  destruct (Z.leb_spec (capacity * sz) max_uint64) as [Hle|Hgt]; simpl.
  - apply charges_allocation. split; [nia|lia].
  - pose proof (charge_ge (capacity * sz) ltac:(nia)).
    split; [lia|]. intros t [Ht _]. rewrite (proj2 (Z.leb_gt _ _)) by lia. eauto.
Qed.

Lemma charges_string s : string_ok s -> charges (est_string s) (string_charge s).
Proof.
  intros H. apply charges_allocation. unfold string_ok in H. pose proof (slen_nonneg s). word_lia.
Qed.

Create HintDb charges.
#[local] Hint Resolve charges_ret charges_allocation charges_slice charges_string : charges.
#[local] Hint Resolve charges_bind : charges.

Lemma charges_strings xs :
  Forall string_ok xs -> charges (est_each est_string xs) (zsum (map string_charge xs)).
Proof. intros H. apply charges_each. eapply Forall_impl; [exact H|]. apply charges_string. Qed.

Lemma charges_jid j : jid_ok j -> charges (est_jid j) (jid_charge j).
Proof. apply charges_strings. Qed.

Ltac charge_const := apply charges_allocation; vm_compute; split; discriminate.
Ltac charge_elem := apply charges_slice; [done|vm_compute; split; congruence].

Lemma charges_status st : status_ok st -> charges (est_status st) (status_charge st).
Proof.
  intros (Hr & Hc & Hh). unfold est_status, status_charge.
  apply charges_bind; [charge_const|]. apply charges_bind; [by apply charges_string|].
  apply charges_bind; [charge_elem|].
  apply charges_each. eapply Forall_impl; [exact Hh|]. intros r. apply charges_string.
Qed.

Lemma charges_meta m : meta_ok m -> charges (est_meta m) (meta_charge m).
Proof.
  intros (? & ? & ? & ? & ? & Hext & ? & ? & ?). unfold est_meta, meta_charge.
  repeat first [ apply charges_bind; [ first [charge_elem | by apply charges_jid | by apply charges_strings
      | apply charges_each; eapply Forall_impl; [exact Hext|];
        intros kv [? ?]; apply charges_bind; by apply charges_string ] | ] ].
  by apply charges_string.
Qed.

Lemma charges_sync s : sync_ok s -> charges (est_sync s) (ideal_total s).
Proof.
  intros (Hst & Hq & Hc & Hm). unfold est_sync, ideal_total.
  apply charges_bind; [charge_const|].
  apply (charges_bind (fun t => match sy_Status s with Some st => est_status st t | None => Ok t end)).
  { destruct (sy_Status s); [by apply charges_status|apply charges_ret]. }
  apply (charges_bind (fun t => match sy_Queue s with Some q => est_queue q t | None => Ok t end)).
  { destruct (sy_Queue s); [|apply charges_ret].
    apply charges_bind; [charge_const|by apply charges_jid]. }
  apply charges_bind; [charge_elem|].
  apply charges_each. eapply Forall_impl; [exact Hm|]. apply charges_meta.
Qed.

Lemma weight_cases s :
  sync_ok s ->
  (ideal_weight s <= MaxSyncRetainedWeight /\ SyncRetainedWeight (Some s) = Ok (ideal_weight s)) \/
  (MaxSyncRetainedWeight < ideal_weight s /\ exists msg, SyncRetainedWeight (Some s) = Err (limitError msg)).
Proof.
  intros Hok. pose proof (charges_sync s Hok) as [Hpos Hrun].
  specialize (Hrun 0 ltac:(word_lia)). rewrite Z.add_0_l in Hrun.
  assert (HM : MaxSyncRetainedWeight = 8388608) by reflexivity.
  assert (Hge : 2 * ideal_total s <= ideal_weight s)
    by (unfold ideal_weight, retainedSafetyFactor, retainedPageSize; apply round_up_ge; done).
  unfold SyncRetainedWeight.
  destruct (Z.leb_spec (ideal_total s) max_uint64) as [Hle|Hgt].
  2:{ destruct Hrun as [msg ->]. rsimpl.
      right. split; [word_lia|eauto]. }
  rewrite Hrun. rsimpl. unfold retainedSafetyFactor.
  rewrite checkedRetainedMul_exact by word_lia. rewrite (Z.mul_comm (ideal_total s)).
  destruct (Z.leb_spec (2 * ideal_total s) max_uint64) as [Hle2|Hgt2]; rsimpl.
  2:{ right. split; [word_lia|eauto]. }
  rewrite checkedRetainedRoundUp_exact by (change retainedPageSize with 4096; word_lia).
  fold retainedSafetyFactor. fold (ideal_weight s).
  destruct (Z.leb_spec (ideal_weight s) max_uint64) as [Hle3|Hgt3]; rsimpl.
  2:{ right. split; [word_lia|eauto]. }
  case_bool; breflect; [right; split; [lia|eauto]|left].
  rewrite i64_id by word_lia. split; [lia|done].
Qed.

(** C8. Equivalence with the unbounded reference: for every batch the runtime can
    hold, [SyncRetainedWeight] returns exactly [ideal_weight] when that is
    within [MaxSyncRetainedWeight], and the limit error otherwise; in
    particular no [uint64] overflow ever produces a smaller charge. *)
Theorem SyncRetainedWeight_exact s :
  sync_ok s ->
  if ideal_weight s <=? MaxSyncRetainedWeight
  then SyncRetainedWeight (Some s) = Ok (ideal_weight s)
  else exists msg, SyncRetainedWeight (Some s) = Err (limitError msg).
Proof.
  intros [[H ->]|[H Hm]]%weight_cases; [by rewrite (proj2 (Z.leb_le _ _) H)|by rewrite (proj2 (Z.leb_gt _ _) H)].
Qed.

(** ** The charge covers what is retained *)

Definition jid_bytes (j : JID) : Z := slen (j_AppKey j) + slen (j_Name j) + slen (j_Domain j) + slen (j_ClientResource j).

(** Bytes of string and slice data that stay reachable from a batch. *)
Definition meta_bytes (m : Meta) : Z :=
  sizeof_Meta + zlen (sl_elems (m_Payload m)) + zlen (sl_elems (m_Attributes m)) +
  jid_bytes (m_From m) + jid_bytes (m_To m) +
  sizeof_KeyValue * zlen (sl_elems (m_Ext m)) +
  zsum (map (fun kv => slen (kv_Key kv) + slen (kv_String kv)) (sl_elems (m_Ext m))) +
  sizeof_string * zlen (sl_elems (m_DirectedUsers m)) +
  zsum (map slen (sl_elems (m_DirectedUsers m))) + slen (m_Environment m).

Definition sync_bytes (s : Sync) : Z := zsum (map meta_bytes (sl_elems (sy_Metas s))).

(** The slice lengths are within their capacities. *)
Definition meta_slices_ok (m : Meta) : Prop :=
  slice_ok (m_Payload m) /\ slice_ok (m_Attributes m) /\ slice_ok (m_Ext m) /\ slice_ok (m_DirectedUsers m).
Definition sync_slices_ok (s : Sync) : Prop :=
  slice_ok (sy_Metas s) /\ Forall meta_slices_ok (sl_elems (sy_Metas s)).

Lemma slice_charge_ge {A} (x : gslice A) sz :
  slice_ok x -> 0 < sz -> sz * zlen (sl_elems x) <= slice_charge (sl_cap x) sz.
Proof.
  intros [Hl _] Hsz. pose proof (zlen_nonneg (sl_elems x)). unfold slice_charge.
  case_bool; breflect; [nia|]. pose proof (charge_ge (sl_cap x * sz) ltac:(nia)). nia.
Qed.

Lemma string_charge_ge s : slen s <= string_charge s.
Proof. apply charge_ge, slen_nonneg. Qed.

Lemma jid_charge_ge j : jid_bytes j <= jid_charge j.
Proof.
  unfold jid_bytes, jid_charge. cbn [map]. rewrite !zsum_cons. change (zsum []) with 0.
  pose proof (string_charge_ge (j_AppKey j)). pose proof (string_charge_ge (j_Name j)).
  pose proof (string_charge_ge (j_Domain j)). pose proof (string_charge_ge (j_ClientResource j)). lia.
Qed.

Lemma zsum_map_mono {A} (f g : A -> Z) xs :
  Forall (fun x => f x <= g x) xs -> zsum (map f xs) <= zsum (map g xs).
Proof. induction 1; simpl; rewrite ?zsum_cons; [reflexivity|lia]. Qed.

Lemma meta_charge_ge m : meta_slices_ok m -> meta_bytes m - sizeof_Meta <= meta_charge m.
Proof.
  intros (H1 & H2 & H3 & H4). unfold meta_bytes, meta_charge.
  pose proof (slice_charge_ge _ sizeof_byte H1 ltac:(done)).
  pose proof (slice_charge_ge _ sizeof_byte H2 ltac:(done)).
  pose proof (slice_charge_ge _ sizeof_KeyValue H3 ltac:(done)).
  pose proof (slice_charge_ge _ sizeof_string H4 ltac:(done)).
  pose proof (jid_charge_ge (m_From m)). pose proof (jid_charge_ge (m_To m)).
  pose proof (string_charge_ge (m_Environment m)).
  assert (zsum (map (fun kv => slen (kv_Key kv) + slen (kv_String kv)) (sl_elems (m_Ext m)))
          <= zsum (map ext_charge (sl_elems (m_Ext m)))).
  { apply zsum_map_mono, Forall_true. intros kv. unfold ext_charge.
    pose proof (string_charge_ge (kv_Key kv)). pose proof (string_charge_ge (kv_String kv)). lia. }
  assert (zsum (map slen (sl_elems (m_DirectedUsers m)))
          <= zsum (map string_charge (sl_elems (m_DirectedUsers m)))).
  { apply zsum_map_mono, Forall_true. apply string_charge_ge. }
  change sizeof_byte with 1 in *. lia.
Qed.

Lemma zsum_map_sub {A} (f : A -> Z) k xs :
  zsum (map (fun x => f x - k) xs) = zsum (map f xs) - k * zlen xs.
Proof.
  induction xs; simpl; [unfold zlen; simpl; lia|]. rewrite !zsum_cons, zlen_cons. lia.
Qed.

Lemma sync_bytes_le s :
  sync_slices_ok s ->
  sync_bytes s <= slice_charge (sl_cap (sy_Metas s)) sizeof_Meta + zsum (map meta_charge (sl_elems (sy_Metas s))).
Proof.
  intros [Hs Hms]. pose proof (slice_charge_ge _ sizeof_Meta Hs ltac:(done)).
  assert (zsum (map (fun m => meta_bytes m - sizeof_Meta) (sl_elems (sy_Metas s)))
          <= zsum (map meta_charge (sl_elems (sy_Metas s)))) as Hsum
    by (apply zsum_map_mono; eapply Forall_impl; [exact Hms|]; apply meta_charge_ge).
  rewrite zsum_map_sub in Hsum. unfold sync_bytes. lia.
Qed.

(** The fixed part of the charge: the Sync struct itself, its status and queue. *)
Lemma ideal_total_fixed s :
  sync_ok s ->
  144 + (slice_charge (sl_cap (sy_Metas s)) sizeof_Meta + zsum (map meta_charge (sl_elems (sy_Metas s))))
  <= ideal_total s.
Proof.
  intros (Hst & Hq & _). unfold ideal_total.
  assert (144 = charge sizeof_Sync) by reflexivity.
  assert (0 <= match sy_Status s with Some st => status_charge st | None => 0 end).
  { destruct (sy_Status s); [|lia]. eapply charges_nonneg, charges_status; done. }
  assert (0 <= match sy_Queue s with Some q => charge sizeof_JID + jid_charge q | None => 0 end).
  { destruct (sy_Queue s) as [q|]; [|lia]. pose proof (charges_nonneg _ _ (charges_jid q Hq)).
    pose proof (est_charge_nonneg sizeof_JID ltac:(done)). lia. }
  lia.
Qed.

Lemma metas_charge_nonneg s :
  sync_ok s ->
  0 <= slice_charge (sl_cap (sy_Metas s)) sizeof_Meta + zsum (map meta_charge (sl_elems (sy_Metas s))).
Proof.
  intros (_ & _ & Hc & Hm).
  pose proof (charges_nonneg _ _ (charges_slice (sl_cap (sy_Metas s)) sizeof_Meta Hc ltac:(vm_compute; split; congruence))).
  pose proof (charges_nonneg _ _ (charges_each est_meta meta_charge _ (Forall_impl _ _ _ Hm charges_meta))).
  lia.
Qed.

(** Conservative accounting: an accepted batch is charged at least twice the
    bytes its messages keep alive, in whole pages, and never more than
    [MaxSyncRetainedWeight]. *)
Theorem SyncRetainedWeight_covers s w :
  sync_ok s -> sync_slices_ok s -> SyncRetainedWeight (Some s) = Ok w ->
  2 * sync_bytes s <= w <= MaxSyncRetainedWeight /\ (retainedPageSize | w) /\ 0 < w.
Proof.
  intros Hok Hs Hw. destruct (weight_cases s Hok) as [[Hle HE]|[_ [msg HE]]]; [|congruence].
  rewrite Hw in HE. injection HE as ->.
  assert (Hge : 2 * ideal_total s <= ideal_weight s) by (apply round_up_ge; done).
  pose proof (sync_bytes_le s Hs). pose proof (ideal_total_fixed s Hok). pose proof (metas_charge_nonneg s Hok).
  split; [lia|]. split; [apply round_up_divide|lia].
Qed.

(** A batch of one empty message. *)
Definition sampleBatch : Sync :=
  let j := mkJID "" "a" "" "" in
  mkSync None 0 0 (GSlice [mkMeta 1 j j 0 1 (GSlice [1; 2; 3] 8) 0 nil_slice nil_slice 0 0 "" nil_slice] 1) 5 None true 0.

Lemma sampleBatch_ok : sync_ok sampleBatch /\ sync_slices_ok sampleBatch.
Proof.
  unfold sync_ok, sync_slices_ok, meta_ok, meta_slices_ok, slice_ok, cap_ok, jid_ok, string_ok, sampleBatch, slen, zlen; simpl.
  repeat first [split | constructor]; simpl; word_lia.
Qed.

Lemma SyncRetainedWeight_exact_witness :
  SyncRetainedWeight (Some sampleBatch) = Ok (ideal_weight sampleBatch).
Proof. apply (SyncRetainedWeight_exact sampleBatch). apply sampleBatch_ok. Defined.

Lemma SyncRetainedWeight_covers_witness : 2 * sync_bytes sampleBatch <= ideal_weight sampleBatch.
Proof.
  apply (SyncRetainedWeight_covers sampleBatch (ideal_weight sampleBatch));
    [apply sampleBatch_ok..|]. vm_compute. reflexivity.
Defined.
