(* ===== verification/Wire.v ===== *)
(** * The msync envelope on the wire

    internal/protocol/nativecodec/envelope.go and provision_action.go: the
    protobuf wire scanner that removes the optional zlib compression of an
    envelope before the native codec sees it, the decode-admission estimate,
    and the insertion of the Provision [action_version] field.

    Byte slices are lists of [Z]; an offset is a [nat] index.  The zlib reader
    is the parameter [inflate] of the definitions that use it. *)
From Stdlib Require Import String.
From S2P Require Import Prelude Protocol Errors RetainedWeight.
Local Open Scope string_scope.
Local Open Scope Z_scope.

Definition msyncCompressField : Z := 4.
Definition msyncPayloadField : Z := 9.
Definition maxEnvelopeFields : Z := 4096.
Definition provisionActionVersionField : Z := 17.

Definition wireVarint : Z := 0.
Definition wireFixed64 : Z := 1.
Definition wireBytes : Z := 2.
Definition wireStartGroup : Z := 3.
Definition wireEndGroup : Z := 4.
Definition wireFixed32 : Z := 5.

Abbreviation plain msg := (Err (EPlain msg)) (only parsing).
Abbreviation limit msg := (Err (limitError msg)) (only parsing).

(** ** Varints *)

(** The loop of [readVarint]: [n] iterations are left, [i] is the index. *)
Fixpoint readVarint_loop (n : nat) (i : Z) (data : bytes) (offset : nat) (value : Z) : result (Z * nat) :=
  match n with
  | O => plain "varint overflow"
  | S n =>
      match data !! offset with
      | None => plain "truncated varint"
      | Some b =>
          let offset := S offset in
          if (i =? 9) && (b >? 1) then plain "varint overflow" else
          let value := Z.lor value (u64 (Z.shiftl (Z.land b 127) (7 * i))) in
          if b <? 128 then Ok (value, offset) else readVarint_loop n (i + 1) data offset value
      end
  end.

Definition readVarint (data : bytes) (offset : nat) : result (Z * nat) :=
  readVarint_loop 10 0 data offset 0.

(** [binary.PutUvarint] into a buffer with [n] bytes left. *)
Fixpoint PutUvarint (n : nat) (x : Z) : bytes :=
  match n with
  | O => []
  | S n => if x >=? 128 then Z.lor (x mod 256) 128 :: PutUvarint n (Z.shiftr x 7) else [x mod 256]
  end.

Definition MaxVarintLen64 : nat := 10.

Definition encodeVarint (value : Z) : bytes := PutUvarint MaxVarintLen64 value.
Definition varintSize (value : Z) : Z := zlen (encodeVarint value).
Definition appendVarint (dst : bytes) (value : Z) : bytes := dst ++ encodeVarint value.

Definition appendKey (dst : bytes) (number wireType : Z) : bytes :=
  appendVarint dst (Z.lor (u64 (Z.shiftl number 3)) wireType).

Definition appendCompressionField (dst : bytes) : bytes :=
  appendVarint (appendKey dst msyncCompressField wireVarint) 0.

Definition appendPayloadField (dst payload : bytes) : bytes :=
  appendVarint (appendKey dst msyncPayloadField wireBytes) (zlen payload) ++ payload.

Definition appendStringField (dst : bytes) (number : Z) (value : string) : bytes :=
  appendVarint (appendKey dst number wireBytes) (slen value) ++ bytes_of_string value.

Definition bytesFieldSize (number payloadLen : Z) : Z :=
  varintSize (Z.lor (u64 (Z.shiftl number 3)) wireBytes) + varintSize payloadLen + payloadLen.

Definition checkedAdd (a b : Z) : Z * bool :=
  if a >? u64 (max_uint64 - b) then (0, false) else (u64 (a + b), true).

(** ** scanEnvelope *)

Record wireRange := mkWireRange { wr_start : nat; wr_end : nat }.

Record envelopeScan := mkEnvelopeScan {
  fieldCount : Z;
  hasCompression : bool; compression : Z; compressionRaw : wireRange;
  hasPayload : bool; payload : bytes; payloadRaw : wireRange }.

Definition envelopeScan_zero : envelopeScan :=
  mkEnvelopeScan 0 false 0 (mkWireRange 0 0) false [] (mkWireRange 0 0).

(** The switch on the wire type: the varint value or the bytes (empty for the
    fixed-width types) and the offset after the field. *)
Definition scanValue (data : bytes) (offset : nat) (number wireType : Z) : result (Z * bytes * nat) :=
  if wireType =? wireVarint then
    '(value, next) ← readVarint data offset; Ok (value, [], next)
  else if wireType =? wireFixed64 then
    if zlen data - Z.of_nat offset <? 8 then plain ("truncated fixed64 field " ++ pretty number)
    else Ok (0, [], (offset + 8)%nat)
  else if wireType =? wireBytes then
    '(length, next) ← readVarint data offset;
    if length >? zlen data - Z.of_nat next then plain ("truncated bytes field " ++ pretty number)
    else Ok (0, slice next (next + Z.to_nat length) data, (next + Z.to_nat length)%nat)
  else if wireType =? wireFixed32 then
    if zlen data - Z.of_nat offset <? 4 then plain ("truncated fixed32 field " ++ pretty number)
    else Ok (0, [], (offset + 4)%nat)
  else if (wireType =? wireStartGroup) || (wireType =? wireEndGroup) then
    plain ("unsupported group wire type " ++ pretty wireType)
  else plain ("unsupported wire type " ++ pretty wireType).

(** One iteration of the loop of [scanEnvelope]. *)
Definition scanField (data : bytes) (offset : nat) (res : envelopeScan) : result (envelopeScan * nat) :=
  let start := offset in
  '(tag, offset) ← readVarint data offset;
  let number := Z.shiftr tag 3 in
  let wireType := Z.land tag 7 in
  if number =? 0 then plain "invalid field number 0" else
  let count := fieldCount res + 1 in
  if count >? maxEnvelopeFields
  then limit ("msync envelope has more than " ++ pretty maxEnvelopeFields ++ " fields") else
  if (number =? msyncCompressField) && hasCompression res then limit "duplicate msync compression field" else
  if (number =? msyncPayloadField) && hasPayload res then limit "duplicate msync payload field" else
  '(varintValue, bytesValue, offset) ← scanValue data offset number wireType;
  if number =? msyncCompressField then
    if negb (wireType =? wireVarint)
    then plain ("msync compress_algorimth has wire type " ++ pretty wireType)
    else Ok (mkEnvelopeScan count true varintValue (mkWireRange start offset)
                            (hasPayload res) (payload res) (payloadRaw res), offset)
  else if number =? msyncPayloadField then
    if negb (wireType =? wireBytes)
    then plain ("msync payload has wire type " ++ pretty wireType)
    else Ok (mkEnvelopeScan count (hasCompression res) (compression res) (compressionRaw res)
                            true bytesValue (mkWireRange start offset), offset)
  else Ok (mkEnvelopeScan count (hasCompression res) (compression res) (compressionRaw res)
                          (hasPayload res) (payload res) (payloadRaw res), offset).

(** The [for offset < len(data)] loop; [None] when the fuel runs out. *)
Fixpoint scanLoop (fuel : nat) (data : bytes) (offset : nat) (res : envelopeScan) : option (result envelopeScan) :=
  if (offset <? length data)%nat then
    match fuel with
    | O => None
    | S fuel =>
        match scanField data offset res with
        | Err e => Some (Err e)
        | Ok (res, offset) => scanLoop fuel data offset res
        end
    end
  else Some (Ok res).

Definition outOfFuel : goerror := EPlain "fuel exhausted".

Definition scanEnvelope (data : bytes) : result envelopeScan :=
  default (Err outOfFuel) (scanLoop (length data) data 0 envelopeScan_zero).

(** ** decompressEnvelopePayload *)

(** What [zlib.NewReader] and its reader do on a compressed payload: refuse it,
    or produce bytes and then stop, at the end of the stream or with an error;
    and what [Close] returns. *)
Record zstream := mkZstream { z_bytes : bytes; z_err : option goerror; z_close : option goerror }.

(** [io.ReadAll(io.LimitReader(reader, n))]. *)
Definition readAllLimited (n : Z) (z : zstream) : bytes * option goerror :=
  if n <=? zlen (z_bytes z) then (take (Z.to_nat n) (z_bytes z), None) else (z_bytes z, z_err z).

Definition wrapErr (prefix : string) (e : goerror) : goerror := EWrap (prefix ++ ": " ++ Error e) e.

Definition exceeds (what : string) (n : Z) : string := what ++ " exceeds " ++ pretty n ++ " bytes".

Definition lengthOverflows : string := "rebuilt msync envelope length overflows".

Definition rebuiltEnvelopeSize (inputLen : Z) (envelope : envelopeScan) (payloadLen : Z) : result Z :=
  let removed :=
    (Z.of_nat (wr_end (compressionRaw envelope)) - Z.of_nat (wr_start (compressionRaw envelope))) +
    (Z.of_nat (wr_end (payloadRaw envelope)) - Z.of_nat (wr_start (payloadRaw envelope))) in
  if (removed <? 0) || (removed >? inputLen) then plain "invalid msync envelope field ranges" else
  let '(total, ok) := checkedAdd (inputLen - removed)
      (varintSize (Z.lor (Z.shiftl msyncCompressField 3) wireVarint) + 1) in
  if negb ok then limit lengthOverflows else
  let '(total, ok) := checkedAdd total (varintSize (Z.lor (Z.shiftl msyncPayloadField 3) wireBytes)) in
  if negb ok then limit lengthOverflows else
  let '(total, ok) := checkedAdd total (varintSize payloadLen) in
  if negb ok then limit lengthOverflows else
  let '(total, ok) := checkedAdd total payloadLen in
  if negb ok || (total >? MaxCodecInputBytes)
  then limit (exceeds "rebuilt msync envelope" MaxCodecInputBytes) else Ok total.

(** The bytes [decompressEnvelopePayload] appends to the output, whose
    allocated capacity is [rebuiltEnvelopeSize]. *)
Definition rebuildEnvelope (data : bytes) (envelope : envelopeScan) (payload : bytes) : bytes :=
  let first := compressionRaw envelope in
  let second := payloadRaw envelope in
  let firstPayload := (wr_start second <? wr_start first)%nat in
  let '(first, second) := if firstPayload then (second, first) else (first, second) in
  let out := take (wr_start first) data in
  let out := if firstPayload then appendPayloadField out payload else appendCompressionField out in
  let out := (out ++ slice (wr_end first) (wr_start second) data)%list in
  let out := if firstPayload then appendCompressionField out else appendPayloadField out payload in
  out ++ drop (wr_end second) data.

Section Inflate.
Variable inflate : bytes -> result zstream.

Definition decompressEnvelopePayload (data : bytes) : result bytes :=
  if zlen data >? MaxCodecInputBytes then limit (exceeds "msync envelope" MaxCodecInputBytes) else
  match scanEnvelope data with
  | Err err => Err (wrapErr "parse msync envelope" err)
  | Ok envelope =>
      if negb (hasCompression envelope) || (compression envelope =? 0) then Ok data else
      if negb (compression envelope =? 1)
      then plain ("unsupported payload compression algorithm " ++ pretty (compression envelope)) else
      if negb (hasPayload envelope) then plain "compressed msync envelope has no payload" else
      match inflate (payload envelope) with
      | Err err => Err (wrapErr "open zlib payload" err)
      | Ok reader =>
          let '(payload, readErr) := readAllLimited (MaxCodecInputBytes + 1) reader in
          match readErr, z_close reader with
          | Some readErr, _ => Err (wrapErr "read zlib payload" readErr)
          | None, Some closeErr => Err (wrapErr "close zlib payload" closeErr)
          | None, None =>
              if zlen payload >? MaxCodecInputBytes
              then limit (exceeds "decompressed payload" MaxCodecInputBytes) else
              _ ← rebuiltEnvelopeSize (zlen data) envelope (zlen payload);
              Ok (rebuildEnvelope data envelope payload)
          end
      end
  end.
End Inflate.

(** ** estimateDecodeAdmission *)

Definition estimateDecodeAdmission (data : bytes) : result DecodeAdmissionClass :=
  if zlen data >? MaxCodecInputBytes then limit (exceeds "msync envelope" MaxCodecInputBytes) else
  match scanEnvelope data with
  | Err err => Err (wrapErr "parse msync envelope admission" err)
  | Ok envelope =>
      let bySize :=
        if zlen data <=? Z.shiftl 64 10 then Ok DecodeAdmissionTiny
        else if zlen data <=? Z.shiftl 1 20 then Ok DecodeAdmissionSmall
        else if zlen data <=? Z.shiftl 4 20 then Ok DecodeAdmissionLarge
        else Ok DecodeAdmissionAmbiguous in
      if hasCompression envelope then
        if compression envelope =? 0 then bySize
        else if compression envelope =? 1 then
          if negb (hasPayload envelope) then plain "compressed msync envelope has no payload"
          else Ok DecodeAdmissionCompressed
        else Ok DecodeAdmissionAmbiguous
      else bySize
  end.

(** ** provision_action.go *)

Definition skipField (data : bytes) (offset : nat) (wireType : Z) : result nat :=
  if wireType =? wireVarint then '(_, next) ← readVarint data offset; Ok next
  else if wireType =? wireFixed64 then
    if zlen data - Z.of_nat offset <? 8 then plain "truncated fixed64" else Ok (offset + 8)%nat
  else if wireType =? wireBytes then
    '(length, next) ← readVarint data offset;
    if length >? zlen data - Z.of_nat next then plain "truncated bytes"
    else Ok (next + Z.to_nat length)%nat
  else if wireType =? wireFixed32 then
    if zlen data - Z.of_nat offset <? 4 then plain "truncated fixed32" else Ok (offset + 4)%nat
  else plain ("unsupported wire type " ++ pretty wireType).

(** The loop of [upsertStringField]: the rewritten message and whether it
    changed; [None] when the fuel runs out. *)
Fixpoint upsertLoop (fuel : nat) (message : bytes) (number : Z) (value : string) (offset : nat)
    : option (result (bytes * bool)) :=
  if (offset <? length message)%nat then
    match fuel with
    | O => None
    | S fuel =>
        let start := offset in
        match readVarint message offset with
        | Err e => Some (Err e)
        | Ok (tag, offset) =>
            let field := Z.shiftr tag 3 in
            let wireType := Z.land tag 7 in
            match skipField message offset wireType with
            | Err e => Some (Err e)
            | Ok end_ =>
                if field =? number then Some (
                  if negb (wireType =? wireBytes)
                  then plain ("provision field " ++ pretty number ++ " has wire type " ++ pretty wireType) else
                  '(length, valueStart) ← readVarint message offset;
                  if length >? zlen message - Z.of_nat valueStart
                  then plain ("truncated string field " ++ pretty number) else
                  if bool_decide (slice valueStart (valueStart + Z.to_nat length) message = bytes_of_string value)
                  then Ok (message, false)
                  else Ok ((appendStringField (take start message) number value ++ drop end_ message)%list, true))
                else upsertLoop fuel message number value end_
            end
        end
    end
  else Some (Ok (appendStringField message number value, true)).

Definition upsertStringField (message : bytes) (number : Z) (value : string) : result (bytes * bool) :=
  default (Err outOfFuel) (upsertLoop (length message) message number value 0).

Definition withProvisionActionVersion (data : bytes) : result bytes :=
  match data with
  | [] => Ok data
  | _ =>
      match scanEnvelope data with
      | Err err => Err (wrapErr "parse msync envelope" err)
      | Ok envelope =>
          if negb (hasPayload envelope) then plain "msync envelope has no payload" else
          '(payload, changed) ← upsertStringField (payload envelope) provisionActionVersionField ActionVersion;
          if negb changed then Ok data else
          let outLen := Z.of_nat (wr_start (payloadRaw envelope))
                        + bytesFieldSize msyncPayloadField (zlen payload)
                        + (zlen data - Z.of_nat (wr_end (payloadRaw envelope))) in
          if (outLen <? 0) || (outLen >? MaxCodecInputBytes)
          then limit (exceeds "rebuilt msync envelope" MaxCodecInputBytes) else
          Ok (appendPayloadField (take (wr_start (payloadRaw envelope)) data) payload
              ++ drop (wr_end (payloadRaw envelope)) data)%list
      end
  end.
