(* ===== verification/VarintTheory.v ===== *)
(** * Varints: locality, bounds and the round trip

    Facts about [readVarint] and [PutUvarint] of Wire.v.  [readVarint] reads
    at an offset; the lemmas below reduce it to the bytes it consumes, so that
    the envelope proofs can reason on concatenations. *)
From Stdlib Require Import String.
From S2P Require Import Prelude Protocol Errors RetainedWeight Wire.
Local Open Scope Z_scope.

(** ** Locality *)

Lemma loop_shift n i pre data off acc :
  readVarint_loop n i (pre ++ data) (length pre + off) acc =
  '(v, nx) ← readVarint_loop n i data off acc; Ok (v, (length pre + nx)%nat).
Proof.
  revert i off acc. induction n as [|n IH]; intros i off acc; simpl; [done|].
  rewrite lookup_app_r by lia. replace (length pre + off - length pre)%nat with off by lia.
  destruct (data !! off) as [b|]; [|done].
  destruct (_ && _); [done|]. destruct (b <? 128); [simpl; do 2 f_equal; lia|].
  rewrite <- IH. f_equal. lia.
Qed.

Lemma loop_bounds n i data off acc v nx :
  readVarint_loop n i data off acc = Ok (v, nx) -> (off < nx <= length data)%nat.
Proof.
  revert i off acc. induction n as [|n IH]; intros i off acc; simpl; [discriminate|].
  destruct (data !! off) as [b|] eqn:Hb; [|discriminate].
  apply lookup_lt_Some in Hb.
  destruct (_ && _); [discriminate|]. destruct (b <? 128).
  - intros [= <- <-]. lia.
  - intros H. apply IH in H. lia.
Qed.

Lemma loop_extend n i data post off acc v nx :
  readVarint_loop n i data off acc = Ok (v, nx) ->
  readVarint_loop n i (data ++ post) off acc = Ok (v, nx).
Proof.
  revert i off acc. induction n as [|n IH]; intros i off acc; simpl; [discriminate|].
  destruct (data !! off) as [b|] eqn:Hb; [|discriminate].
  rewrite (lookup_app_l_Some _ _ _ _ Hb).
  destruct (_ && _); [discriminate|]. destruct (b <? 128); [done|]. apply IH.
Qed.

Lemma loop_truncate n i data post off acc v nx :
  readVarint_loop n i (data ++ post) off acc = Ok (v, nx) -> (nx <= length data)%nat ->
  readVarint_loop n i data off acc = Ok (v, nx).
Proof.
  revert i off acc. induction n as [|n IH]; intros i off acc; simpl; [discriminate|].
  destruct ((data ++ post) !! off) as [b|] eqn:Hb; [|discriminate].
  destruct (_ && _) eqn:E; [discriminate|]. destruct (b <? 128) eqn:E'.
  - intros [= <- <-] Hle. rewrite lookup_app_l in Hb by lia. rewrite Hb, E, E'. done.
  - intros H Hle. pose proof (loop_bounds _ _ _ _ _ _ _ H).
    rewrite lookup_app_l in Hb by lia. rewrite Hb, E, E'. by apply IH.
Qed.

(** The byte string [bs] is one complete varint of value [v]. *)
Definition varint_enc (bs : bytes) (v : Z) : Prop := readVarint bs 0 = Ok (v, length bs).

Lemma varint_enc_read pre bs post v :
  varint_enc bs v ->
  readVarint (pre ++ bs ++ post) (length pre) = Ok (v, (length pre + length bs)%nat).
Proof.
  intros H. unfold readVarint. replace (length pre) with (length pre + 0)%nat at 1 by lia.
  rewrite loop_shift. unfold varint_enc, readVarint in H.
  rewrite (loop_extend _ _ _ _ _ _ _ _ H). done.
Qed.

Lemma varint_enc_inv pre rest v nx :
  readVarint (pre ++ rest) (length pre) = Ok (v, nx) ->
  exists bs post, rest = bs ++ post /\ varint_enc bs v /\ nx = (length pre + length bs)%nat.
Proof.
  unfold readVarint. replace (length pre) with (length pre + 0)%nat at 1 by lia.
  rewrite loop_shift. intros H. inv_ok.
  rename n into k, Hv into H. pose proof (loop_bounds _ _ _ _ _ _ _ H) as Hb.
  exists (take k rest), (drop k rest). rewrite length_take, Nat.min_l by lia.
  split; [by rewrite take_drop|]. split; [|done].
  unfold varint_enc, readVarint. rewrite length_take, Nat.min_l by lia.
  eapply (loop_truncate _ _ _ (drop k rest)); [by rewrite take_drop|].
  rewrite length_take. lia.
Qed.

Lemma varint_enc_nonempty bs v : varint_enc bs v -> (0 < length bs)%nat.
Proof. intros H. apply loop_bounds in H. lia. Qed.

Lemma varint_enc_fun bs v w : varint_enc bs v -> varint_enc bs w -> v = w.
Proof. unfold varint_enc. congruence. Qed.

(** Varints are a prefix code. *)
Lemma varint_enc_prefix a r v b r' w :
  a ++ r = b ++ r' -> varint_enc a v -> varint_enc b w -> a = b /\ v = w /\ r = r'.
Proof.
  intros Heq Ha Hb.
  pose proof (varint_enc_read [] a r v Ha) as H1. pose proof (varint_enc_read [] b r' w Hb) as H2.
  simpl in H1, H2. rewrite Heq, H2 in H1. injection H1 as -> Hl.
  apply app_inj_1 in Heq as [-> ->]; [done|lia].
Qed.

(** ** Bounds *)

Lemma lor_lt_pow2 a b n : 0 <= n -> 0 <= a < 2 ^ n -> 0 <= b < 2 ^ n -> 0 <= Z.lor a b < 2 ^ n.
Proof.
  intros Hn Ha Hb. assert (0 <= Z.lor a b) by (apply Z.lor_nonneg; lia). split; [done|].
  assert (Z.shiftr (Z.lor a b) n = 0) as Hs.
  { rewrite Z.shiftr_lor, !Z.shiftr_div_pow2, !Z.div_small by lia. done. }
  rewrite Z.shiftr_div_pow2 in Hs by lia. apply Z.div_small_iff in Hs; lia.
Qed.

Lemma loop_value n i data off acc v nx :
  0 <= i -> 0 <= acc <= max_uint64 ->
  readVarint_loop n i data off acc = Ok (v, nx) -> in_u64 v.
Proof.
  revert i off acc. induction n as [|n IH]; intros i off acc Hi Hacc; simpl; [discriminate|].
  destruct (data !! off) as [b|]; [|discriminate].
  destruct (_ && _); [discriminate|].
  assert (in_u64 (Z.lor acc (u64 (Z.shiftl (Z.land b 127) (7 * i))))) as Hv.
  { pose proof (u64_range (Z.shiftl (Z.land b 127) (7 * i))).
    pose proof (lor_lt_pow2 acc (u64 (Z.shiftl (Z.land b 127) (7 * i))) 64).
    change (2 ^ 64) with 18446744073709551616 in *. word_lia. }
  destruct (b <? 128); [intros [= <- _]; done|]. apply IH; [lia|done].
Qed.

Lemma varint_enc_range bs v : varint_enc bs v -> in_u64 v.
Proof. apply loop_value; word_lia. Qed.

(** ** Round trip *)

Lemma land_127 x : Z.land x 127 = x mod 128.
Proof. change 127 with (Z.ones 7). by rewrite Z.land_ones. Qed.

Lemma cont_byte x : Z.land (Z.lor (x mod 256) 128) 127 = x mod 128.
Proof.
  rewrite Z.land_lor_distr_l. change (Z.land 128 127) with 0. rewrite Z.lor_0_r, land_127.
  change 256 with (128 * 2). rewrite Z.rem_mul_r by lia.
  rewrite Z.mul_comm, Z.mod_add by lia. by rewrite Z.mod_mod.
Qed.

Lemma cont_byte_ge x : 128 <= Z.lor (x mod 256) 128.
Proof.
  pose proof (Z.mod_pos_bound x 256).
  apply Z.ldiff_le; [apply Z.lor_nonneg; lia|]. apply Z.bits_inj'. intros k Hk.
  rewrite Z.ldiff_spec, Z.lor_spec, Z.bits_0. by destruct (Z.testbit 128 k), (Z.testbit (x mod 256) k).
Qed.

(** The low seven bits and the rest recombine. *)
Lemma split_7 x k acc :
  0 <= x -> 0 <= k ->
  Z.lor (Z.lor acc (Z.shiftl (x mod 128) k)) (Z.shiftl (Z.shiftr x 7) (k + 7)) = Z.lor acc (Z.shiftl x k).
Proof.
  intros Hx Hk. rewrite <- Z.lor_assoc. f_equal.
  rewrite (Z.add_comm k 7), <- Z.shiftl_shiftl by lia. rewrite <- Z.shiftl_lor. f_equal.
  change 128 with (2 ^ 7). rewrite <- Z.land_ones by lia.
  apply Z.bits_inj'. intros j Hj. rewrite Z.lor_spec, Z.land_spec.
  destruct (Z.ltb_spec j 7).
  - rewrite Z.ones_spec_low, Z.shiftl_spec_low by lia. by rewrite andb_true_r, orb_false_r.
  - rewrite Z.ones_spec_high, Z.shiftl_spec_high, Z.shiftr_spec by lia.
    rewrite andb_false_r. simpl. f_equal. lia.
Qed.

Lemma put_read n i acc x :
  0 <= i -> i + Z.of_nat n = 10 -> 0 <= x < 2 ^ (64 - 7 * i) ->
  readVarint_loop n i (PutUvarint n x) 0 acc =
  Ok (Z.lor acc (Z.shiftl x (7 * i)), length (PutUvarint n x)).
Proof.
  revert i acc x. induction n as [|n IH]; intros i acc x Hi Hn Hx.
  { exfalso. rewrite (Z.pow_neg_r 2 (64 - 7 * i)) in Hx by lia. lia. }
  assert (Hsmall : forall y, 0 <= y < 128 -> y <= x -> u64 (Z.shiftl y (7 * i)) = Z.shiftl y (7 * i)).
  { intros y Hy Hyx. apply u64_id. rewrite Z.shiftl_mul_pow2 by lia. unfold in_u64, max_uint64, two64.
    assert (Hp : 2 ^ 64 = 2 ^ (64 - 7 * i) * 2 ^ (7 * i)).
    { rewrite <- Z.pow_add_r; [f_equal; lia| |lia].
      destruct (Z.le_gt_cases 0 (64 - 7 * i)); [done|]. rewrite Z.pow_neg_r in Hx by done. lia. }
    pose proof (Z.pow_pos_nonneg 2 (7 * i)). nia. }
  cbn [PutUvarint]. destruct (x >=? 128) eqn:E; breflect.
  - cbn [readVarint_loop]. cbn [lookup list_lookup].
    assert (i <> 9) by (intros ->; change (2 ^ (64 - 7 * 9)) with 2 in Hx; lia).
    rewrite (proj2 (Z.eqb_neq i 9)) by done. cbn [andb].
    rewrite cont_byte. pose proof (cont_byte_ge x).
    pose proof (Z.mod_pos_bound x 128 ltac:(lia)). pose proof (Z.mod_le x 128).
    rewrite Hsmall by lia.
    rewrite (proj2 (Z.ltb_ge _ 128)) by done.
    pose proof (loop_shift n (i + 1) [Z.lor (x mod 256) 128] (PutUvarint n (Z.shiftr x 7)) 0
                  (Z.lor acc (Z.shiftl (x mod 128) (7 * i)))) as Hs.
    cbn [length app Nat.add] in Hs. rewrite Hs. rewrite IH; [|lia|lia|].
    + rsimpl. replace (7 * (i + 1)) with (7 * i + 7) by lia. rewrite split_7 by lia. done.
    + rewrite Z.shiftr_div_pow2 by lia. split; [apply Z.div_pos; lia|].
      apply Z.div_lt_upper_bound; [lia|]. rewrite <- Z.pow_add_r by (lia || (destruct (Z.le_gt_cases 0 (64 - 7 * (i + 1))); [done|];
         assert (64 - 7 * i <= 6) by lia; pose proof (Z.pow_le_mono_r 2 (64 - 7 * i) 6); change (2^6) with 64 in *; lia)).
      replace (7 + (64 - 7 * (i + 1))) with (64 - 7 * i) by lia. lia.
  - cbn [readVarint_loop]. cbn [lookup list_lookup]. rewrite (Z.mod_small x 256) by lia.
    destruct (Z.eqb_spec i 9) as [->|Hi9].
    + change (2 ^ (64 - 7 * 9)) with 2 in Hx. rewrite Z.gtb_ltb, (proj2 (Z.ltb_ge 1 x)) by lia. cbn [andb].
      rewrite land_127, Z.mod_small by lia. rewrite Hsmall by lia.
      rewrite (proj2 (Z.ltb_lt x 128)) by lia. done.
    + cbn [andb]. rewrite land_127, Z.mod_small by lia. rewrite Hsmall by lia.
      rewrite (proj2 (Z.ltb_lt x 128)) by lia. done.
Qed.

Lemma encodeVarint_enc v : in_u64 v -> varint_enc (encodeVarint v) v.
Proof.
  intros Hv. unfold varint_enc, readVarint, encodeVarint, MaxVarintLen64.
  rewrite put_read; [|lia|lia|].
  - rewrite Z.mul_0_r, Z.shiftl_0_r, Z.lor_0_l. done.
  - change (2 ^ (64 - 7 * 0)) with 18446744073709551616. word_lia.
Qed.

Lemma PutUvarint_ok n x : 0 <= x -> bytes_ok (PutUvarint n x).
Proof.
  revert x. induction n as [|n IH]; intros x Hx; cbn [PutUvarint]; [constructor|].
  pose proof (Z.mod_pos_bound x 256). case_bool.
  - constructor; [|apply IH; apply Z.shiftr_nonneg; done].
    pose proof (lor_lt_pow2 (x mod 256) 128 8). change (2 ^ 8) with 256 in *. unfold byte_ok. lia.
  - constructor; [unfold byte_ok; lia|constructor].
Qed.

Lemma encodeVarint_bytes_ok v : 0 <= v -> bytes_ok (encodeVarint v).
Proof. apply PutUvarint_ok. Qed.

(** Round trip of the varint codec: whatever is around it, the encoding of any
    [uint64] reads back as that value, and the reader stops right after it. *)
Theorem readVarint_appendVarint dst v post :
  in_u64 v ->
  readVarint (appendVarint dst v ++ post) (length dst) = Ok (v, length (appendVarint dst v)).
Proof.
  intros Hv. unfold appendVarint. rewrite <- app_assoc, length_app.
  apply varint_enc_read, encodeVarint_enc, Hv.
Qed.

(** Whatever bytes a peer sends, a successful read returns a [uint64] and a
    later offset within the data. *)
Theorem readVarint_bounds data offset v next :
  readVarint data offset = Ok (v, next) ->
  in_u64 v /\ (offset < next <= length data)%nat.
Proof.
  intros H. split; [eapply loop_value; [..|exact H]; word_lia|]. eapply loop_bounds, H.
Qed.

Lemma readVarint_appendVarint_witness :
  readVarint (appendVarint [1] 18446744073709551615 ++ [9])%list 1 = Ok (18446744073709551615, 11%nat).
Proof. apply (readVarint_appendVarint [1] 18446744073709551615 [9]). by vm_compute. Defined.

Lemma readVarint_bounds_witness : in_u64 300 /\ (1 < 3 <= 4)%nat.
Proof. apply (readVarint_bounds [5; 172; 2; 7] 1 300 3). reflexivity. Defined.
