(* ===== verification/EnvelopeTheory.v ===== *)
(** * The envelope scanner against the protobuf wire format

    [scanEnvelope] of Wire.v works on offsets.  The specification here is a
    list of fields, each with the bytes that encode it; the scanner is shown
    to accept exactly the streams that are an admissible list of fields and to
    return their summary. *)
From Stdlib Require Import String.
From S2P Require Import Prelude Protocol Errors RetainedWeight Wire VarintTheory.
Local Open Scope Z_scope.

(** ** The wire format *)

Inductive wval := WVarint (v : Z) | WFixed64 | WBytes (b : bytes) | WFixed32.

Record wfield := mkWfield { wf_number : Z; wf_val : wval; wf_raw : bytes }.

(** [body] encodes the value [w] under wire type [wt]. *)
Definition body_enc (wt : Z) (body : bytes) (w : wval) : Prop :=
  match w with
  | WVarint v => wt = wireVarint /\ varint_enc body v
  | WFixed64 => wt = wireFixed64 /\ length body = 8%nat
  | WBytes b => wt = wireBytes /\ exists lb, body = lb ++ b /\ varint_enc lb (zlen b)
  | WFixed32 => wt = wireFixed32 /\ length body = 4%nat
  end.

Definition field_enc (f : wfield) : Prop :=
  exists tagb body tag,
    wf_raw f = tagb ++ body /\ varint_enc tagb tag /\
    wf_number f = Z.shiftr tag 3 /\ wf_number f <> 0 /\
    body_enc (Z.land tag 7) body (wf_val f).

Definition raws (fs : list wfield) : bytes := concat (map wf_raw fs).

Definition parses (data : bytes) (fs : list wfield) : Prop := data = raws fs /\ Forall field_enc fs.

(** ** What the scanner keeps *)

Definition wval_varint (w : wval) : Z := match w with WVarint v => v | _ => 0 end.
Definition wval_bytes (w : wval) : bytes := match w with WBytes b => b | _ => [] end.

(** The first field with a number, and its offset. *)
Fixpoint find_at (n : Z) (off : nat) (fs : list wfield) : option (nat * wfield) :=
  match fs with
  | [] => None
  | f :: fs => if wf_number f =? n then Some (off, f) else find_at n (off + length (wf_raw f)) fs
  end.

Definition range_of (o : option (nat * wfield)) : wireRange :=
  match o with
  | Some (off, f) => mkWireRange off (off + length (wf_raw f))
  | None => mkWireRange 0 0
  end.

Definition summary (fs : list wfield) : envelopeScan :=
  let c := find_at msyncCompressField 0 fs in
  let p := find_at msyncPayloadField 0 fs in
  mkEnvelopeScan (zlen fs)
    (is_some c) (match c with Some (_, f) => wval_varint (wf_val f) | None => 0 end) (range_of c)
    (is_some p) (match p with Some (_, f) => wval_bytes (wf_val f) | None => [] end) (range_of p).

Definition occurs (n : Z) (fs : list wfield) : Prop := exists f, f ∈ fs /\ wf_number f = n.

(** The envelope's own fields have their declared types. *)
Definition field_shape (f : wfield) : Prop :=
  (wf_number f = msyncCompressField -> exists v, wf_val f = WVarint v) /\
  (wf_number f = msyncPayloadField -> exists b, wf_val f = WBytes b).

(** The streams the adapter accepts: at most [maxEnvelopeFields] fields, the
    compression and payload fields singular and of the declared types. *)
Record admissible (fs : list wfield) : Prop := mkAdmissible {
  adm_count : zlen fs <= maxEnvelopeFields;
  adm_single : forall n a f b, fs = a ++ [f] ++ b -> wf_number f = n ->
      n = msyncCompressField \/ n = msyncPayloadField -> ~ occurs n a;
  adm_shape : Forall field_shape fs }.

(** ** Reading one field *)

Lemma scanValue_spec pre rest num wt v b nx :
  scanValue (pre ++ rest) (length pre) num wt = Ok (v, b, nx) <->
  exists body post w, rest = body ++ post /\ nx = (length pre + length body)%nat /\
    body_enc wt body w /\ v = wval_varint w /\ b = wval_bytes w.
Proof.
  unfold scanValue. split.
  - intros H. repeat case_bool; breflect; try discriminate.
    + inv_ok. apply varint_enc_inv in Hv as (bs & post & -> & He & ->).
      exists bs, post, (WVarint v). done.
    + inv_ok. rewrite zlen_app in *. unfold zlen in *.
      exists (take 8 rest), (drop 8 rest), WFixed64.
      simpl. rewrite length_take, take_drop. split_and!; try done; lia.
    + inv_ok. apply varint_enc_inv in Hv as (bs & post & -> & He & ->). breflect.
      rename z into len. pose proof (varint_enc_range _ _ He) as [Hlen _].
      rewrite !zlen_app in *. unfold zlen in *.
      exists (bs ++ take (Z.to_nat len) post), (drop (Z.to_nat len) post), (WBytes (take (Z.to_nat len) post)).
      rewrite <- !app_assoc, take_drop, length_app, length_take.
      split_and!; try done; [lia| |].
      * simpl. split; [done|]. exists bs. split; [done|]. unfold zlen. rewrite length_take.
        replace (Z.of_nat _) with len by lia. done.
      * simpl. unfold slice. rewrite app_assoc, <- length_app, drop_app_length.
        f_equal. lia.
    + inv_ok. rewrite zlen_app in *. unfold zlen in *.
      exists (take 4 rest), (drop 4 rest), WFixed32.
      simpl. rewrite length_take, take_drop. split_and!; try done; lia.
  - intros (body & post & w & -> & -> & He & -> & ->).
    destruct w as [x| |bb|]; simpl in He.
    + destruct He as [-> He]. cbn [Z.eqb wireVarint]. rewrite (varint_enc_read _ _ _ _ He). done.
    + destruct He as [-> He]. cbn. rewrite !zlen_app. unfold zlen. rewrite He.
      rewrite (proj2 (Z.ltb_ge _ 8)) by lia. done.
    + destruct He as [-> (lb & -> & He)]. cbn [Z.eqb wireVarint wireFixed64 wireBytes Pos.eqb].
      rewrite <- app_assoc. rewrite (varint_enc_read _ _ _ _ He). rsimpl.
      rewrite !zlen_app, !length_app. unfold zlen.
      rewrite Z.gtb_ltb, (proj2 (Z.ltb_ge _ _)) by lia.
      rewrite Nat2Z.id. rewrite app_assoc, <- length_app, slice_app_mid. rewrite length_app.
      do 2 f_equal. lia.
    + destruct He as [-> He]. cbn. rewrite !zlen_app. unfold zlen. rewrite He.
      rewrite (proj2 (Z.ltb_ge _ 4)) by lia. done.
Qed.

(** ** Summaries of a growing list of fields *)

Lemma raws_app fs gs : raws (fs ++ gs) = raws fs ++ raws gs.
Proof. unfold raws. by rewrite map_app, concat_app. Qed.

Lemma raws_snoc fs f : raws (fs ++ [f]) = raws fs ++ wf_raw f.
Proof. rewrite raws_app. unfold raws at 2. simpl. by rewrite app_nil_r. Qed.

Lemma find_at_snoc n off fs f :
  find_at n off (fs ++ [f]) =
  match find_at n off fs with
  | Some r => Some r
  | None => if wf_number f =? n then Some ((off + length (raws fs))%nat, f) else None
  end.
Proof.
  revert off. induction fs as [|g fs IH]; intros off; simpl.
  - replace (off + 0)%nat with off by lia. done.
  - case_bool; [done|]. rewrite IH. unfold raws. simpl. rewrite length_app.
    destruct (find_at _ _ _); [done|]. case_bool; [|done]. do 2 f_equal. lia.
Qed.

Lemma find_at_None n off fs : find_at n off fs = None <-> ~ occurs n fs.
Proof.
  unfold occurs. revert off. induction fs as [|g fs IH]; intros off; simpl.
  - split; [|done]. intros _ (f & Hf & _). by apply not_elem_of_nil in Hf.
  - destruct (Z.eqb_spec (wf_number g) n) as [E|E].
    + split; [discriminate|]. intros H. exfalso. apply H. exists g. split; [left|done].
    + rewrite IH. split; intros H (f & Hf & Hn); apply H.
      * set_solver.
      * exists f. split; [by right|done].
Qed.

Lemma occurs_snoc n fs f : occurs n (fs ++ [f]) <-> occurs n fs \/ wf_number f = n.
Proof. unfold occurs. set_solver. Qed.

Lemma admissible_nil : admissible [].
Proof.
  split; [done| |constructor]. intros n a f b H. by destruct a.
Qed.

(** The guards of one iteration, as a condition on the fields read so far. *)
Lemma admissible_snoc fs f :
  admissible (fs ++ [f]) <->
  admissible fs /\ zlen fs + 1 <= maxEnvelopeFields /\ field_shape f /\
  (wf_number f = msyncCompressField -> ~ occurs msyncCompressField fs) /\
  (wf_number f = msyncPayloadField -> ~ occurs msyncPayloadField fs).
Proof.
  split.
  - intros [Hc Hs Hsh]. rewrite zlen_app in Hc. apply Forall_app in Hsh as [Hsh Hf].
    split_and!.
    + split; [unfold zlen in *; simpl in *; lia| |done].
      intros n a g b -> Hn Hor. apply (Hs n a g (b ++ [f])); [|done..]. by rewrite <- !app_assoc.
    + unfold zlen in *. simpl in *. lia.
    + by inversion Hf.
    + intros Hn. apply (Hs _ fs f []); [done..|auto].
    + intros Hn. apply (Hs _ fs f []); [done..|auto].
  - intros ([Hc Hs Hsh] & Hlen & Hf & H4 & H9). split.
    + rewrite zlen_app. unfold zlen in *. simpl. lia.
    + intros n a g b Heq Hn Hor. destruct b as [|x b _] using rev_ind.
      * rewrite app_nil_r in Heq. apply app_inj_tail in Heq as [-> ->].
        destruct Hor as [->| ->]; auto.
      * rewrite !app_assoc in Heq. apply app_inj_tail in Heq as [Heq ->].
        rewrite <- app_assoc in Heq. eauto.
    + apply Forall_app. auto.
Qed.

Lemma summary_nil : summary [] = envelopeScan_zero.
Proof. done. Qed.

(** The record [scanField] builds is the summary of one more field. *)
Lemma summary_snoc fs f :
  (wf_number f = msyncCompressField -> ~ occurs msyncCompressField fs) ->
  (wf_number f = msyncPayloadField -> ~ occurs msyncPayloadField fs) ->
  summary (fs ++ [f]) =
  let here := mkWireRange (length (raws fs)) (length (raws fs) + length (wf_raw f)) in
  let s := summary fs in
  if wf_number f =? msyncCompressField then
    mkEnvelopeScan (fieldCount s + 1) true (wval_varint (wf_val f)) here
                   (hasPayload s) (payload s) (payloadRaw s)
  else if wf_number f =? msyncPayloadField then
    mkEnvelopeScan (fieldCount s + 1) (hasCompression s) (compression s) (compressionRaw s)
                   true (wval_bytes (wf_val f)) here
  else mkEnvelopeScan (fieldCount s + 1) (hasCompression s) (compression s) (compressionRaw s)
                      (hasPayload s) (payload s) (payloadRaw s).
Proof.
  intros H4 H9. unfold summary. rewrite !find_at_snoc, zlen_app.
  change (zlen [f]) with 1. cbn [fieldCount hasCompression compression compressionRaw hasPayload payload payloadRaw].
  destruct (Z.eqb_spec (wf_number f) msyncCompressField) as [E|E].
  - rewrite (proj2 (find_at_None _ 0 fs) (H4 E)). rewrite E. change (msyncCompressField =? msyncPayloadField) with false.
    simpl. by destruct (find_at msyncPayloadField 0 fs).
  - destruct (Z.eqb_spec (wf_number f) msyncPayloadField) as [E'|E'].
    + rewrite (proj2 (find_at_None _ 0 fs) (H9 E')). simpl. by destruct (find_at msyncCompressField 0 fs).
    + by destruct (find_at msyncCompressField 0 fs), (find_at msyncPayloadField 0 fs).
Qed.

Lemma summary_has fs n : is_some (find_at n 0 fs) = false <-> ~ occurs n fs.
Proof. rewrite <- (find_at_None n 0). by destruct (find_at n 0 fs). Qed.

Lemma summary_has_true fs n : is_some (find_at n 0 fs) = true <-> occurs n fs.
Proof.
  destruct (is_some _) eqn:E.
  - split; [|done]. intros _. destruct (find_at n 0 fs) as [[o f]|] eqn:F; [|done].
    clear E. revert F. generalize 0%nat. unfold occurs. induction fs as [|g fs IH]; intros off; simpl; [done|].
    destruct (Z.eqb_spec (wf_number g) n); [intros _; exists g; set_solver|].
    intros F. apply IH in F as (h & ? & ?). exists h. set_solver.
  - apply summary_has in E. split; [done|]. intros; done.
Qed.

(** ** One iteration *)

Lemma body_enc_varint body w : body_enc wireVarint body w -> exists v, w = WVarint v.
Proof. destruct w; simpl; intros []; eauto; done. Qed.

Lemma body_enc_bytes body w : body_enc wireBytes body w -> exists b, w = WBytes b.
Proof. destruct w; simpl; intros []; eauto; done. Qed.

Lemma scanField_sound fs rest res off :
  admissible fs ->
  scanField (raws fs ++ rest) (length (raws fs)) (summary fs) = Ok (res, off) ->
  exists f rest', rest = wf_raw f ++ rest' /\ field_enc f /\ admissible (fs ++ [f]) /\
    res = summary (fs ++ [f]) /\ off = length (raws (fs ++ [f])).
Proof.
  intros Hadm H. unfold scanField in H. inv_ok. rename z into tag.
  apply varint_enc_inv in Hv as (tagb & post & -> & Htag & ->).
  rewrite app_assoc, <- length_app in Hv0.
  apply scanValue_spec in Hv0 as (body & post' & w & -> & -> & Hb & -> & ->).
  apply Z.eqb_neq in Heqb. rewrite Z.gtb_ltb, Z.ltb_ge in Heqb0.
  set (f := mkWfield (Z.shiftr tag 3) w (tagb ++ body)).
  assert (H4 : wf_number f = msyncCompressField -> ~ occurs msyncCompressField fs).
  { intros E. apply summary_has. apply Z.eqb_eq in E. change (wf_number f) with (Z.shiftr tag 3) in E.
    by rewrite E in Heqb1. }
  assert (H9 : wf_number f = msyncPayloadField -> ~ occurs msyncPayloadField fs).
  { intros E. apply summary_has. apply Z.eqb_eq in E. change (wf_number f) with (Z.shiftr tag 3) in E.
    by rewrite E in Heqb2. }
  clear Heqb1 Heqb2.
  exists f, post'. split; [by rewrite app_assoc|]. split; [by exists tagb, body, tag|].
  rewrite admissible_snoc, (summary_snoc fs f H4 H9), raws_snoc. cbn zeta.
  change (wf_number f) with (Z.shiftr tag 3) in *. change (wf_val f) with w.
  change (wf_raw f) with (tagb ++ body). rewrite !length_app in *. rewrite <- Nat.add_assoc in H.
  enough (field_shape f /\ res = (let here := mkWireRange (length (raws fs)) (length (raws fs) + (length tagb + length body)) in
     if Z.shiftr tag 3 =? msyncCompressField then
       mkEnvelopeScan (fieldCount (summary fs) + 1) true (wval_varint w) here
         (hasPayload (summary fs)) (payload (summary fs)) (payloadRaw (summary fs))
     else if Z.shiftr tag 3 =? msyncPayloadField then
       mkEnvelopeScan (fieldCount (summary fs) + 1) (hasCompression (summary fs)) (compression (summary fs))
         (compressionRaw (summary fs)) true (wval_bytes w) here
     else mkEnvelopeScan (fieldCount (summary fs) + 1) (hasCompression (summary fs)) (compression (summary fs))
         (compressionRaw (summary fs)) (hasPayload (summary fs)) (payload (summary fs)) (payloadRaw (summary fs)))
     /\ off = (length (raws fs) + (length tagb + length body))%nat) as (Hshape & Hres & Hoff)
    by (split_and!; done).
  destruct (Z.eqb_spec (Z.shiftr tag 3) msyncCompressField) as [E|E];
    [|destruct (Z.eqb_spec (Z.shiftr tag 3) msyncPayloadField) as [E'|E']].
  - inv_ok. apply negb_false_iff, Z.eqb_eq in Heqb1. rewrite Heqb1 in Hb.
    split; [|done]. split; cbn; [intros _; by eapply body_enc_varint|]. rewrite E. done.
  - inv_ok. apply negb_false_iff, Z.eqb_eq in Heqb1. rewrite Heqb1 in Hb.
    split; [|done]. split; cbn; [done|]. intros _. by eapply body_enc_bytes.
  - inv_ok. by split.
Qed.

Lemma scanField_complete fs f rest :
  field_enc f -> admissible (fs ++ [f]) ->
  scanField (raws fs ++ wf_raw f ++ rest) (length (raws fs)) (summary fs) =
  Ok (summary (fs ++ [f]), length (raws (fs ++ [f]))).
Proof.
  intros (tagb & body & tag & Hraw & Htag & Hnum & Hnz & Hb) Hadm.
  apply admissible_snoc in Hadm as (Hadm & Hlen & [Hs4 Hs9] & H4 & H9).
  rewrite (summary_snoc fs f H4 H9), raws_snoc. cbn zeta.
  unfold scanField. rewrite Hraw, <- !app_assoc, (varint_enc_read _ _ _ _ Htag). rsimpl.
  rewrite <- Hnum. rewrite (proj2 (Z.eqb_neq _ _) Hnz).
  change (fieldCount (summary fs)) with (zlen fs).
  rewrite Z.gtb_ltb, (proj2 (Z.ltb_ge _ _)) by done.
  assert (Hg : forall n, (wf_number f = n -> ~ occurs n fs) -> (wf_number f =? n) && is_some (find_at n 0 fs) = false).
  { intros n Hn. destruct (Z.eqb_spec (wf_number f) n) as [E|E]; [|done]. simpl. apply summary_has. auto. }
  change (hasCompression (summary fs)) with (is_some (find_at msyncCompressField 0 fs)).
  change (hasPayload (summary fs)) with (is_some (find_at msyncPayloadField 0 fs)).
  rewrite (Hg _ H4), (Hg _ H9).
  rewrite app_assoc, <- length_app.
  rewrite (proj2 (scanValue_spec (raws fs ++ tagb) (body ++ rest) (wf_number f) (Z.land tag 7) _ _ _))
    by (exists body, rest, (wf_val f); done).
  rsimpl. rewrite !length_app, <- !Nat.add_assoc.
  destruct (Z.eqb_spec (wf_number f) msyncCompressField) as [E|E];
    [|destruct (Z.eqb_spec (wf_number f) msyncPayloadField) as [E'|E']].
  - destruct (Hs4 E) as [v Hv]. rewrite Hv in Hb. destruct Hb as [-> _]. done.
  - destruct (Hs9 E') as [v Hv]. rewrite Hv in Hb. destruct Hb as [-> _]. done.
  - done.
Qed.

Lemma field_raw_nonempty f : field_enc f -> (0 < length (wf_raw f))%nat.
Proof.
  intros (tagb & body & tag & -> & Htag & _). rewrite length_app.
  pose proof (varint_enc_nonempty _ _ Htag). lia.
Qed.

Lemma field_enc_inj f g : wf_raw f = wf_raw g -> field_enc f -> field_enc g -> f = g.
Proof.
  destruct f as [nf vf rf], g as [ng vg rg]; simpl. intros <-.
  intros (ta & ba & a & Ha & Hta & Hna & _ & Hba) (tb & bb & b & Hb & Htb & Hnb & _ & Hbb). simpl in *.
  rewrite Ha in Hb. destruct (varint_enc_prefix _ _ _ _ _ _ Hb Hta Htb) as (-> & -> & ->).
  rewrite Hna, Hnb. f_equal.
  destruct vf as [x| |x|], vg as [y| |y|]; simpl in *;
    destruct Hba as [Hwa Hba], Hbb as [Hwb Hbb]; try (rewrite Hwa in Hwb; discriminate Hwb); try done.
  - f_equal. by eapply varint_enc_fun.
  - destruct Hba as (la & -> & Hla), Hbb as (lb & Heq & Hlb).
    by destruct (varint_enc_prefix _ _ _ _ _ _ Heq Hla Hlb) as (_ & _ & ->).
Qed.

(** Fields are a prefix code. *)
Lemma field_prefix f g r r' :
  field_enc f -> field_enc g -> wf_raw f ++ r = wf_raw g ++ r' -> f = g /\ r = r'.
Proof.
  intros Hf Hg Heq. assert (length (wf_raw f) = length (wf_raw g)) as Hl.
  { destruct Hf as (ta & ba & a & Ha & Hta & _ & _ & Hba), Hg as (tb & bb & b & Hb & Htb & _ & _ & Hbb).
    rewrite Ha, Hb in *. rewrite <- !app_assoc in Heq.
    destruct (varint_enc_prefix _ _ _ _ _ _ Heq Hta Htb) as (-> & -> & Hbr). rewrite !length_app. f_equal.
    destruct (wf_val f), (wf_val g); simpl in Hba, Hbb; destruct Hba as [Hwa Hba], Hbb as [Hwb Hbb];
      try (rewrite Hwa in Hwb; discriminate Hwb); try congruence.
    - by destruct (varint_enc_prefix _ _ _ _ _ _ Hbr Hba Hbb) as (-> & _).
    - destruct Hba as (la & -> & Hla), Hbb as (lb & -> & Hlb). rewrite <- !app_assoc in Hbr.
      destruct (varint_enc_prefix _ _ _ _ _ _ Hbr Hla Hlb) as (-> & Hz & _). rewrite !length_app. unfold zlen in Hz. lia. }
  apply app_inj_1 in Heq as [Hraw Hr]; [|done]. split; [by apply field_enc_inj|done].
Qed.

Lemma admissible_prefix fs gs : admissible (fs ++ gs) -> admissible fs.
Proof.
  induction gs as [|g gs IH] using rev_ind; [by rewrite app_nil_r|].
  rewrite app_assoc, admissible_snoc. intros [? _]. auto.
Qed.

(** ** The loop *)

Lemma scanLoop_spec fuel fs rest :
  (length rest <= fuel)%nat -> admissible fs ->
  exists r, scanLoop fuel (raws fs ++ rest) (length (raws fs)) (summary fs) = Some r /\
    forall env, r = Ok env <->
      exists gs, parses rest gs /\ admissible (fs ++ gs) /\ env = summary (fs ++ gs).
Proof.
  revert fs rest. induction fuel as [|fuel IH]; intros fs rest Hf Hadm.
  - destruct rest; [|simpl in Hf; lia]. rewrite app_nil_r. exists (Ok (summary fs)). simpl.
    rewrite Nat.ltb_irrefl. split; [done|]. intros env. split.
    + intros [= <-]. exists []. rewrite app_nil_r. repeat split; done || apply Hadm || constructor.
    + intros (gs & [Hr Hg] & Ha & ->). destruct gs as [|g gs]; [by rewrite app_nil_r|].
      inversion Hg as [|? ? Hge _]; subst. apply field_raw_nonempty in Hge.
      unfold raws in Hr. simpl in Hr. destruct (wf_raw g); simpl in *; [lia|done].
  - destruct rest as [|x rest].
    { destruct (IH fs [] ltac:(simpl; lia) Hadm) as (r & Hr & Hspec). exists r. split; [|done].
      rewrite app_nil_r in *. simpl. rewrite Nat.ltb_irrefl. destruct fuel; simpl in Hr; by rewrite Nat.ltb_irrefl in Hr. }
    simpl. rewrite (proj2 (Nat.ltb_lt _ _)) by (rewrite length_app; simpl; lia).
    destruct (scanField _ _ _) as [[res off]|e] eqn:E.
    + destruct (scanField_sound _ _ _ _ Hadm E) as (f & rest' & Heq & Hfe & Hadm' & -> & ->).
      pose proof (field_raw_nonempty _ Hfe). rewrite Heq, app_assoc, <- raws_snoc.
      destruct (IH (fs ++ [f]) rest') as (r & Hr & Hspec); [|done|].
      { apply (f_equal length) in Heq. rewrite length_app in Heq. simpl in *. lia. }
      exists r. split; [done|]. intros env. rewrite Hspec. split.
      * intros (gs & [-> Hg] & Ha & ->). exists (f :: gs). rewrite <- app_assoc in Ha |- *.
        split; [split; [done|by constructor]|done].
      * intros (gs & [Hr' Hg] & Ha & ->). destruct gs as [|g gs].
        { exfalso. unfold raws in Hr'. simpl in Hr'. destruct (wf_raw f); simpl in *; [lia|done]. }
        apply Forall_cons in Hg as [Hge Hg].
        assert (Ha' : admissible (fs ++ [g])).
        { apply (admissible_prefix _ gs). by rewrite <- app_assoc. }
        rewrite Heq, Hr' in E. unfold raws in E at 2. cbn [map concat] in E.
        rewrite (scanField_complete fs g _ Hge Ha') in E.
        assert (El : length (raws (fs ++ [g])) = length (raws (fs ++ [f]))) by congruence.
        unfold raws in Hr'. cbn [map concat] in Hr'. rewrite !raws_snoc, !length_app in El.
        apply app_inj_1 in Hr' as [Hraw ->]; [|lia].
        rewrite (field_enc_inj f g Hraw Hfe Hge). exists gs. rewrite <- app_assoc. done.
    + exists (Err e). split; [done|]. intros env. split; [done|].
      intros (gs & [Hr' Hg] & Ha & ->). destruct gs as [|g gs]; [done|].
      apply Forall_cons in Hg as [Hge Hg]. rewrite Hr' in E. unfold raws in E at 2. cbn [map concat] in E.
      rewrite (scanField_complete fs g _ Hge) in E; [done|].
      apply (admissible_prefix _ gs). by rewrite <- app_assoc.
Qed.

(** Termination: the loop advances by at least one byte per field, so the
    length of the data is always enough fuel. *)
Theorem scanLoop_terminates data :
  is_Some (scanLoop (length data) data 0 envelopeScan_zero).
Proof.
  destruct (scanLoop_spec (length data) [] data) as (r & Hr & _); [lia|apply admissible_nil|].
  rewrite summary_nil in Hr. eauto.
Qed.

Lemma scanEnvelope_spec data env :
  scanEnvelope data = Ok env <->
  exists fs, parses data fs /\ admissible fs /\ env = summary fs.
Proof.
  destruct (scanLoop_spec (length data) [] data) as (r & Hr & Hspec); [lia|apply admissible_nil|].
  unfold scanEnvelope. rewrite summary_nil in Hr. simpl in Hr. rewrite Hr. simpl. apply Hspec.
Qed.

(** A byte string has at most one parse. *)
Lemma parses_unique data fs gs : parses data fs -> parses data gs -> fs = gs.
Proof.
  intros [-> Hf] [Heq Hg]. revert gs Heq Hg. induction Hf as [|f fs Hfe _ IH]; intros gs Heq Hg.
  - destruct Hg as [|g gs Hge _]; [done|]. apply field_raw_nonempty in Hge.
    unfold raws in Heq. simpl in Heq. destruct (wf_raw g); simpl in *; [lia|done].
  - destruct Hg as [|g gs Hge Hg].
    { apply field_raw_nonempty in Hfe. unfold raws in Heq. simpl in Heq. destruct (wf_raw f); simpl in *; [lia|done]. }
    unfold raws in Heq. cbn [map concat] in Heq. fold (raws fs) (raws gs) in Heq.
    destruct (field_prefix f g (raws fs) (raws gs)) as [-> Heq']; [done..|]. f_equal. by apply IH.
Qed.

(** C3. Refinement: the scanner accepts exactly the byte strings that are a list
    of wire fields satisfying the envelope's constraints (at most 4096 fields,
    compression and payload fields singular and of their declared types), that
    list is unique, and the result is its summary. *)
Theorem scanEnvelope_refines data env :
  scanEnvelope data = Ok env <->
  exists fs, parses data fs /\ (forall gs, parses data gs -> gs = fs) /\ admissible fs /\ env = summary fs.
Proof.
  rewrite scanEnvelope_spec. split.
  - intros (fs & Hp & Ha & ->). exists fs. split_and!; try done. intros gs Hg. by eapply parses_unique.
  - intros (fs & Hp & _ & Ha & ->). eauto.
Qed.
