(* ===== verification/CompressionTheory.v ===== *)
(** * Decompression and re-tagging of envelopes

    Correctness of [decompressEnvelopePayload], [rebuiltEnvelopeSize],
    [estimateDecodeAdmission] and [withProvisionActionVersion] (Wire.v),
    stated on the field lists of EnvelopeTheory.v. *)
From Stdlib Require Import String.
From S2P Require Import Prelude Protocol Errors RetainedWeight Wire VarintTheory EnvelopeTheory.
Local Open Scope Z_scope.

(** ** The rewritten fields *)

Definition uncompressed_field : wfield :=
  mkWfield msyncCompressField (WVarint 0) (appendCompressionField []).

Definition payload_field (pl : bytes) : wfield :=
  mkWfield msyncPayloadField (WBytes pl) (appendPayloadField [] pl).

(** The field list after decompression: the compression field says "none" and
    the payload field holds the inflated payload; nothing else changes. *)
Definition decompressed (pl : bytes) (f : wfield) : wfield :=
  if wf_number f =? msyncCompressField then uncompressed_field
  else if wf_number f =? msyncPayloadField then payload_field pl else f.

(** The same rewriting of the payload field alone. *)
Definition with_payload (pl : bytes) (f : wfield) : wfield :=
  if wf_number f =? msyncPayloadField then payload_field pl else f.

Lemma varint_fields number wt :
  in_u64 (Z.lor (u64 (Z.shiftl number 3)) wt) ->
  varint_enc (appendKey [] number wt) (Z.lor (u64 (Z.shiftl number 3)) wt).
Proof. apply encodeVarint_enc. Qed.

Lemma uncompressed_field_enc : field_enc uncompressed_field.
Proof.
  exists (appendKey [] msyncCompressField wireVarint), (encodeVarint 0), 32.
  split; [done|]. split; [by apply varint_fields|]. split; [done|]. split; [done|].
  split; [done|]. by apply encodeVarint_enc.
Qed.

Lemma payload_field_enc pl : zlen pl <= max_uint64 -> field_enc (payload_field pl).
Proof.
  intros Hl. exists (appendKey [] msyncPayloadField wireBytes), (encodeVarint (zlen pl) ++ pl), 74.
  split; [simpl; unfold appendPayloadField, appendVarint at 1; by rewrite <- app_assoc|].
  split; [by apply varint_fields|]. split; [done|]. split; [done|]. split; [done|].
  exists (encodeVarint (zlen pl)). split; [done|]. apply encodeVarint_enc.
  pose proof (zlen_nonneg pl). word_lia.
Qed.

Lemma decompressed_enc pl f : zlen pl <= max_uint64 -> field_enc f -> field_enc (decompressed pl f).
Proof.
  intros Hl Hf. unfold decompressed. repeat case_bool; [apply uncompressed_field_enc|by apply payload_field_enc|done].
Qed.

Lemma with_payload_enc pl f : zlen pl <= max_uint64 -> field_enc f -> field_enc (with_payload pl f).
Proof. intros Hl Hf. unfold with_payload. case_bool; [by apply payload_field_enc|done]. Qed.

Lemma decompressed_number pl f : wf_number (decompressed pl f) = wf_number f.
Proof. unfold decompressed. repeat case_bool; breflect; by simpl. Qed.

Lemma with_payload_number pl f : wf_number (with_payload pl f) = wf_number f.
Proof. unfold with_payload. case_bool; breflect; by simpl. Qed.

(** A rewriting that keeps the numbers and the shapes keeps admissibility. *)
Lemma admissible_map g fs :
  (forall f, wf_number (g f) = wf_number f) -> (forall f, field_shape f -> field_shape (g f)) ->
  admissible fs -> admissible (map g fs).
Proof.
  intros Hn Hs [Hc Hsi Hsh]. split.
  - unfold zlen in *. by rewrite length_map.
  - intros n a f b Heq Hf Hor (h & Hh & Hhn).
    apply map_eq_app in Heq as (a' & r & -> & <- & Heq).
    destruct r as [|f' b']; [done|]. simpl in Heq. injection Heq as <- Heq.
    apply list_elem_of_In, in_map_iff in Hh as (h' & <- & Hh'). rewrite Hn in *.
    apply (Hsi n a' f' b'); [done..|]. exists h'. split; [by apply list_elem_of_In|done].
  - apply Forall_map. eapply Forall_impl; [exact Hsh|]. apply Hs.
Qed.

Lemma decompressed_shape pl f : field_shape f -> field_shape (decompressed pl f).
Proof.
  intros [H4 H9]. unfold decompressed. repeat case_bool; [|..|done]; split; simpl; eauto; done.
Qed.

Lemma with_payload_shape pl f : field_shape f -> field_shape (with_payload pl f).
Proof. intros [H4 H9]. unfold with_payload. case_bool; [|done]; split; simpl; eauto; done. Qed.

(** ** Where the two fields are *)

Lemma find_at_split n off fs o f :
  find_at n off fs = Some (o, f) ->
  exists a b, fs = a ++ f :: b /\ o = (off + length (raws a))%nat /\ wf_number f = n /\ ~ occurs n a.
Proof.
  revert off. induction fs as [|g fs IH]; intros off; simpl; [done|].
  destruct (Z.eqb_spec (wf_number g) n) as [E|E].
  - intros [= <- <-]. exists [], fs. split; [done|]. split; [unfold raws; simpl; lia|]. split; [done|].
    intros (h & Hh & _). by apply not_elem_of_nil in Hh.
  - intros H. apply IH in H as (a & b & -> & -> & Hn & Ho). exists (g :: a), b.
    split; [done|]. split; [unfold raws; simpl; rewrite length_app; lia|]. split; [done|].
    intros (h & Hh & Hhn). apply Ho. exists h. set_solver.
Qed.

Lemma admissible_single n a f b :
  admissible (a ++ f :: b) -> wf_number f = n -> n = msyncCompressField \/ n = msyncPayloadField ->
  ~ occurs n a /\ ~ occurs n b.
Proof.
  intros [_ Hsi _] Hn Hor. split; [by apply (Hsi n a f b)|].
  intros (g & Hg & Hgn). apply list_elem_of_split in Hg as (b1 & b2 & ->).
  apply (Hsi n (a ++ f :: b1) g b2); [by rewrite <- app_assoc|done..|]. exists f. set_solver.
Qed.

Definition other (l : list wfield) : Prop := ~ occurs msyncCompressField l /\ ~ occurs msyncPayloadField l.

Lemma occurs_app n a b : occurs n (a ++ b) <-> occurs n a \/ occurs n b.
Proof. unfold occurs. set_solver. Qed.

Lemma occurs_cons n f b : occurs n (f :: b) <-> wf_number f = n \/ occurs n b.
Proof. unfold occurs. set_solver. Qed.

(** An admissible list that has both fields, cut at them in stream order. *)
Lemma two_fields fs :
  admissible fs -> occurs msyncCompressField fs -> occurs msyncPayloadField fs ->
  exists a x m y z, fs = a ++ x :: m ++ y :: z /\ other a /\ other m /\ other z /\
    ((wf_number x = msyncCompressField /\ wf_number y = msyncPayloadField) \/
     (wf_number x = msyncPayloadField /\ wf_number y = msyncCompressField)).
Proof.
  intros Hadm H4 H9. apply summary_has_true in H4.
  destruct (find_at msyncCompressField 0 fs) as [[o c]|] eqn:F; [|done].
  apply find_at_split in F as (a & b & -> & _ & Hc & _).
  destruct (admissible_single _ _ _ _ Hadm Hc ltac:(auto)) as [Ha Hb].
  assert (Hcp : wf_number c <> msyncPayloadField) by (rewrite Hc; done).
  apply occurs_app in H9. rewrite occurs_cons in H9. unfold other.
  destruct H9 as [(p & Hp & Hpn)|[?|(p & Hp & Hpn)]]; [|done|].
  - apply list_elem_of_split in Hp as (a1 & a2 & ->).
    rewrite <- app_assoc in Hadm. destruct (admissible_single _ _ _ _ Hadm Hpn ltac:(auto)) as [Hp1 Hp2].
    exists a1, p, a2, c, b. rewrite <- app_assoc. rewrite !occurs_app, !occurs_cons in *. tauto.
  - apply list_elem_of_split in Hp as (b1 & b2 & ->).
    rewrite app_comm_cons, app_assoc in Hadm.
    destruct (admissible_single _ _ _ _ Hadm Hpn ltac:(auto)) as [Hp1 Hp2].
    exists a, c, b1, p, b2. rewrite !occurs_app, !occurs_cons in *. tauto.
Qed.

Lemma find_at_here n off a f b :
  ~ occurs n a -> wf_number f = n -> find_at n off (a ++ f :: b) = Some ((off + length (raws a))%nat, f).
Proof.
  revert off. induction a as [|g a IH]; intros off Ho Hn; simpl.
  - rewrite (proj2 (Z.eqb_eq _ _) Hn). do 2 f_equal. unfold raws; simpl; lia.
  - rewrite occurs_cons in Ho. rewrite (proj2 (Z.eqb_neq _ _)) by tauto.
    rewrite IH by tauto. unfold raws. simpl. rewrite length_app. do 2 f_equal. lia.
Qed.

Lemma map_other g l :
  (forall f, wf_number f <> msyncCompressField -> wf_number f <> msyncPayloadField -> g f = f) ->
  other l -> map g l = l.
Proof.
  intros Hg [H4 H9]. induction l as [|f l IH]; simpl; [done|].
  rewrite occurs_cons in *. f_equal; [apply Hg; tauto|]. apply IH; tauto.
Qed.

Lemma decompressed_other pl l : other l -> map (decompressed pl) l = l.
Proof.
  apply map_other. intros f H4 H9. unfold decompressed.
  by rewrite (proj2 (Z.eqb_neq _ _) H4), (proj2 (Z.eqb_neq _ _) H9).
Qed.

(** ** The rebuilt envelope is the rewritten field list *)

Lemma raws_cons f fs : raws (f :: fs) = wf_raw f ++ raws fs.
Proof. done. Qed.

Lemma append_as_field dst pl :
  appendPayloadField dst pl = dst ++ wf_raw (payload_field pl) /\
  appendCompressionField dst = dst ++ wf_raw uncompressed_field.
Proof.
  split; simpl; [unfold appendPayloadField | unfold appendCompressionField];
    unfold appendKey, appendVarint; by rewrite <- !app_assoc.
Qed.

Lemma take_slice_drop (A C M P Zz : bytes) :
  let data := A ++ C ++ M ++ P ++ Zz in
  take (length A) data = A /\
  slice (length A + length C) (length A + length C + length M) data = M /\
  drop (length A + length C + length M + length P) data = Zz.
Proof.
  simpl. split_and!.
  - apply take_app_length.
  - rewrite app_assoc, <- length_app. apply slice_app_mid.
  - rewrite !app_assoc, <- !length_app. apply drop_app_length.
Qed.

Lemma summary_ranges a x m y z :
  other a -> other m ->
  (wf_number x = msyncCompressField /\ wf_number y = msyncPayloadField) \/
  (wf_number x = msyncPayloadField /\ wf_number y = msyncCompressField) ->
  let fs := a ++ x :: m ++ y :: z in
  let A := length (raws a) in let X := length (wf_raw x) in
  let M := length (raws m) in let Y := length (wf_raw y) in
  find_at (wf_number x) 0 fs = Some (A, x) /\ find_at (wf_number y) 0 fs = Some ((A + X + M)%nat, y).
Proof.
  intros [Ha4 Ha9] [Hm4 Hm9] Hxy. simpl.
  assert (Hne : wf_number x <> wf_number y) by (intros E; destruct Hxy as [[H1 H2]|[H1 H2]]; rewrite H1, H2 in E; done).
  split.
  - rewrite find_at_here; [done| |done]. by destruct Hxy as [[-> _]|[-> _]].
  - rewrite app_comm_cons, app_assoc, find_at_here; [| |done].
    2:{ rewrite occurs_app, occurs_cons. destruct Hxy as [[H1 H2]|[H1 H2]]; rewrite H1, H2 in *; tauto. }
    rewrite raws_app, raws_cons, !length_app. do 2 f_equal. lia.
Qed.

Lemma rebuild_fields fs pl :
  Forall field_enc fs -> admissible fs -> occurs msyncCompressField fs -> occurs msyncPayloadField fs ->
  rebuildEnvelope (raws fs) (summary fs) pl = raws (map (decompressed pl) fs).
Proof.
  intros Henc Hadm H4 H9. destruct (two_fields fs Hadm H4 H9) as (a & x & m & y & z & -> & Ha & Hm & Hz & Hxy).
  destruct (summary_ranges a x m y z Ha Hm Hxy) as [Fx Fy].
  pose proof (take_slice_drop (raws a) (wf_raw x) (raws m) (wf_raw y) (raws z)) as (Ht & Hs & Hd).
  apply Forall_app in Henc as [_ Henc]. apply Forall_cons in Henc as [Hx0 _]. apply field_raw_nonempty in Hx0.
  rewrite map_app, map_cons, map_app, map_cons, !decompressed_other by done.
  rewrite !raws_app, !raws_cons, !raws_app, !raws_cons.
  unfold rebuildEnvelope, summary, range_of. cbn [compressionRaw payloadRaw].
  destruct Hxy as [[Hx Hy]|[Hx Hy]]; rewrite Hx in Fx; rewrite Hy in Fy; rewrite Fx, Fy; cbn [wr_start wr_end].
  - rewrite (proj2 (Nat.ltb_ge _ _)) by lia. cbv beta iota zeta. cbn [wr_start wr_end]. rewrite Ht, Hs, Hd.
    rewrite (proj1 (append_as_field _ _)), (proj2 (append_as_field _ [])).
    unfold decompressed. rewrite Hx, Hy. simpl (Z.eqb _ _). cbv iota. by rewrite <- !app_assoc.
  - rewrite (proj2 (Nat.ltb_lt _ _)) by lia. cbv beta iota zeta. cbn [wr_start wr_end]. rewrite Ht, Hs, Hd.
    rewrite (proj1 (append_as_field _ _)), (proj2 (append_as_field _ [])).
    unfold decompressed. rewrite Hx, Hy. simpl (Z.eqb _ _). cbv iota. by rewrite <- !app_assoc.
Qed.

(** ** rebuiltEnvelopeSize *)

Lemma checkedAdd_fits a b : in_u64 a -> in_u64 b -> in_u64 (a + b) -> checkedAdd a b = (a + b, true).
Proof.
  intros Ha Hb Hab. change (checkedAdd a b) with (checkedRetainedAdd a b).
  rewrite checkedRetainedAdd_exact by done. case_bool; [done|]. breflect. word_lia.
Qed.

Lemma varintSize_bounds v : 0 <= varintSize v <= 10.
Proof.
  unfold varintSize, encodeVarint, MaxVarintLen64. split; [apply zlen_nonneg|].
  assert (forall n x, (length (PutUvarint n x) <= n)%nat) as H.
  { induction n as [|n IH]; intros x; simpl; [lia|]. case_bool; simpl; [specialize (IH (Z.shiftr x 7)); lia|lia]. }
  specialize (H 10%nat v). unfold zlen. lia.
Qed.

(** The capacity computed for the output is the number of bytes appended, so
    the append calls never grow the buffer; and only a result over the limit is
    refused. *)
Lemma rebuilt_size_exact fs pl :
  Forall field_enc fs -> admissible fs -> occurs msyncCompressField fs -> occurs msyncPayloadField fs ->
  zlen (raws fs) <= MaxCodecInputBytes -> zlen pl <= MaxCodecInputBytes ->
  let n := zlen (raws (map (decompressed pl) fs)) in
  rebuiltEnvelopeSize (zlen (raws fs)) (summary fs) (zlen pl) =
    if n >? MaxCodecInputBytes then limit (exceeds "rebuilt msync envelope" MaxCodecInputBytes) else Ok n.
Proof.
  intros Henc Hadm H4 H9 Hin Hpl n. unfold n. clear n.
  destruct (two_fields fs Hadm H4 H9) as (a & x & m & y & z & -> & Ha & Hm & Hz & Hxy).
  destruct (summary_ranges a x m y z Ha Hm Hxy) as [Fx Fy].
  rewrite map_app, map_cons, map_app, map_cons, !decompressed_other by done.
  rewrite !raws_app, !raws_cons, !raws_app, !raws_cons in *. rewrite !zlen_app in *.
  pose proof (varintSize_bounds (zlen pl)) as Hvs. pose proof (zlen_nonneg pl).
  pose proof (zlen_nonneg (raws a)). pose proof (zlen_nonneg (raws m)). pose proof (zlen_nonneg (raws z)).
  pose proof (zlen_nonneg (wf_raw x)). pose proof (zlen_nonneg (wf_raw y)).
  assert (Hfields : zlen (wf_raw (decompressed pl x)) + zlen (wf_raw (decompressed pl y)) =
                    3 + varintSize (zlen pl) + zlen pl).
  { assert (zlen (wf_raw uncompressed_field) = 2) as Hc by done.
    assert (zlen (wf_raw (payload_field pl)) = 1 + varintSize (zlen pl) + zlen pl) as Hp.
    { simpl. unfold appendPayloadField, appendVarint at 1. rewrite !zlen_app.
      change (zlen (appendKey [] msyncPayloadField wireBytes)) with 1. unfold varintSize. lia. }
    unfold decompressed. destruct Hxy as [[-> ->]|[-> ->]]; simpl (Z.eqb _ _); cbv iota; lia. }
  assert (Hrem : Z.of_nat (wr_end (range_of (find_at msyncCompressField 0 (a ++ x :: m ++ y :: z)))) - Z.of_nat (wr_start (range_of (find_at msyncCompressField 0 (a ++ x :: m ++ y :: z)))) +
     (Z.of_nat (wr_end (range_of (find_at msyncPayloadField 0 (a ++ x :: m ++ y :: z)))) - Z.of_nat (wr_start (range_of (find_at msyncPayloadField 0 (a ++ x :: m ++ y :: z)))))
     = zlen (wf_raw x) + zlen (wf_raw y)).
  { destruct Hxy as [[Hx Hy]|[Hx Hy]]; rewrite Hx in Fx; rewrite Hy in Fy; rewrite Fx, Fy; unfold range_of, zlen; cbn; lia. }
  unfold rebuiltEnvelopeSize, summary. cbn [compressionRaw payloadRaw]. rewrite Hrem.
  change (varintSize (Z.lor (Z.shiftl msyncCompressField 3) wireVarint) + 1) with 2.
  change (varintSize (Z.lor (Z.shiftl msyncPayloadField 3) wireBytes)) with 1.
  rewrite (proj2 (Z.ltb_ge _ _)), Z.gtb_ltb, (proj2 (Z.ltb_ge _ _)) by lia. cbn [orb].
  set (size := varintSize (zlen pl)) in *. change MaxCodecInputBytes with 16777216 in *.
  rewrite checkedAdd_fits by word_lia. cbn [negb].
  rewrite checkedAdd_fits by word_lia. cbn [negb].
  rewrite checkedAdd_fits by word_lia. cbn [negb].
  rewrite checkedAdd_fits by word_lia. cbn [negb orb].
  by replace (zlen (raws a) + (zlen (wf_raw (decompressed pl x)) + (zlen (raws m) + (zlen (wf_raw (decompressed pl y)) + zlen (raws z)))))
    with (zlen (raws a) + (zlen (wf_raw x) + (zlen (raws m) + (zlen (wf_raw y) + zlen (raws z)))) - (zlen (wf_raw x) + zlen (wf_raw y)) + 2 + 1 + size + zlen pl) by lia.
Qed.

(** ** Reading the result back *)

Lemma scan_parses data fs : parses data fs -> admissible fs -> scanEnvelope data = Ok (summary fs).
Proof. intros Hp Ha. apply scanEnvelope_spec. eauto. Qed.

Lemma find_at_map n g fs :
  (forall f, wf_number (g f) = wf_number f) ->
  match find_at n 0 (map g fs), find_at n 0 fs with
  | Some (_, f'), Some (_, f) => f' = g f /\ wf_number f = n
  | None, None => True
  | _, _ => False
  end.
Proof.
  intros Hn. generalize 0%nat at 1 as o. generalize 0%nat as o'.
  induction fs as [|f fs IH]; intros o' o; simpl; [done|].
  rewrite Hn. destruct (Z.eqb_spec (wf_number f) n); [done|]. apply IH.
Qed.

Lemma decompressed_compression pl fs : compression (summary (map (decompressed pl) fs)) = 0.
Proof.
  unfold summary. cbn [compression].
  pose proof (find_at_map msyncCompressField (decompressed pl) fs (decompressed_number pl)) as H.
  destruct (find_at _ _ (map _ _)) as [[o f]|]; [|done].
  destruct (find_at _ _ fs) as [[o' f']|]; [|done].
  destruct H as [-> Hn]. unfold decompressed. rewrite Hn. done.
Qed.

Lemma with_payload_payload pl g fs :
  (forall f, wf_number (g f) = wf_number f) ->
  (forall f, wf_number f = msyncPayloadField -> g f = payload_field pl) ->
  hasPayload (summary fs) = true ->
  hasPayload (summary (map g fs)) = true /\ payload (summary (map g fs)) = pl.
Proof.
  intros Hn Hg. unfold summary. cbn [hasPayload payload].
  pose proof (find_at_map msyncPayloadField g fs Hn) as H.
  destruct (find_at _ _ (map _ _)) as [[o f]|], (find_at _ _ fs) as [[o' f']|]; try done.
  destruct H as [-> Hnum]. by rewrite (Hg _ Hnum).
Qed.

(** ** Main theorems *)

(** What becomes of an admissible envelope. *)
Definition decompressesTo (inflate : bytes -> result zstream) (fs : list wfield) (data out : bytes) : Prop :=
  (compression (summary fs) = 0 /\ out = data) \/
  (exists z, compression (summary fs) = 1 /\ hasPayload (summary fs) = true /\
     inflate (payload (summary fs)) = Ok z /\ z_err z = None /\ z_close z = None /\
     zlen (z_bytes z) <= MaxCodecInputBytes /\ out = raws (map (decompressed (z_bytes z)) fs)).

Lemma no_compression fs : hasCompression (summary fs) = false -> compression (summary fs) = 0.
Proof. unfold summary. cbn [hasCompression compression]. by destruct (find_at _ _ _). Qed.

(** A stream that ended well is the whole of its bytes, unless it is too long. *)
Lemma read_whole z :
  readAllLimited (MaxCodecInputBytes + 1) z =
    if zlen (z_bytes z) <=? MaxCodecInputBytes then (z_bytes z, z_err z)
    else (take (Z.to_nat (MaxCodecInputBytes + 1)) (z_bytes z), None).
Proof. unfold readAllLimited. repeat case_bool; breflect; try done; lia. Qed.

Lemma decompress_spec inflate data out :
  decompressEnvelopePayload inflate data = Ok out <->
  exists fs, parses data fs /\ admissible fs /\ zlen data <= MaxCodecInputBytes /\ zlen out <= MaxCodecInputBytes /\
    decompressesTo inflate fs data out.
Proof.
  unfold decompressEnvelopePayload. split.
  - intros H. inv_ok. rename Heqb into Hsize. rewrite Z.gtb_ltb, Z.ltb_ge in Hsize.
    destruct (scanEnvelope data) as [env|e] eqn:Hscan; [|done].
    apply scanEnvelope_spec in Hscan as (fs & [-> Henc] & Hadm & ->).
    exists fs. split; [done|]. split; [done|]. split; [done|].
    destruct (negb (hasCompression (summary fs)) || (compression (summary fs) =? 0)) eqn:Hc.
    { inv_ok. split; [done|]. left. split; [|done].
      apply orb_true_iff in Hc as [Hc|Hc]; [|by apply Z.eqb_eq in Hc]. by apply no_compression, negb_true_iff. }
    inv_ok. destruct (inflate (payload (summary fs))) as [z|e] eqn:Hz; [|done].
    rewrite read_whole in H. destruct (zlen (z_bytes z) <=? MaxCodecInputBytes) eqn:Hlen.
    2:{ exfalso. destruct (z_close z); [done|]. case_bool; [done|]. breflect. unfold zlen in *. rewrite length_take in *. lia. }
    destruct (z_err z) eqn:Herr; [done|]. destruct (z_close z) eqn:Hcl; [done|]. apply Z.leb_le in Hlen.
    rewrite Z.gtb_ltb, (proj2 (Z.ltb_ge _ _) Hlen) in H.
    apply orb_false_iff in Hc as [Hc _]. apply negb_false_iff in Hc, Heqb0.
    apply negb_false_iff, Z.eqb_eq in Heqb. pose proof Heqb0 as Hp. apply summary_has_true in Hc, Hp.
    rewrite rebuilt_size_exact, rebuild_fields in H by done. inv_ok. rewrite Z.gtb_ltb, Z.ltb_ge in Heqb1.
    split; [done|]. right. by exists z.
  - intros (fs & Hp & Hadm & Hsize & Hout & Hcase). rewrite Z.gtb_ltb, (proj2 (Z.ltb_ge _ _) Hsize).
    rewrite (scan_parses _ _ Hp Hadm).
    destruct Hcase as [[Hc ->]|(z & Hc & Hpl & Hz & Herr & Hcl & Hlen & ->)]; [by rewrite Hc, orb_true_r|].
    assert (hasCompression (summary fs) = true) as Hhc.
    { destruct (hasCompression (summary fs)) eqn:E; [done|]. apply no_compression in E. by rewrite E in Hc. }
    rewrite Hhc, Hc, Hpl, Hz, read_whole, (proj2 (Z.leb_le _ _) Hlen), Herr, Hcl. simpl (Z.eqb _ _). cbn [negb orb].
    rewrite Z.gtb_ltb, (proj2 (Z.ltb_ge _ _) Hlen). destruct Hp as [-> Henc]. apply summary_has_true in Hhc, Hpl.
    rewrite rebuilt_size_exact, rebuild_fields by done. by rewrite Z.gtb_ltb, (proj2 (Z.ltb_ge _ _) Hout).
Qed.

(** The rewritten fields are an admissible envelope. *)
Lemma decompressed_parses pl fs data :
  zlen pl <= MaxCodecInputBytes -> parses data fs -> admissible fs ->
  parses (raws (map (decompressed pl) fs)) (map (decompressed pl) fs) /\ admissible (map (decompressed pl) fs).
Proof.
  intros Hl [_ Henc] Ha. split; [split; [done|]|].
  - apply Forall_map. eapply Forall_impl; [exact Henc|]. intros f. apply decompressed_enc.
    change MaxCodecInputBytes with 16777216 in *. word_lia.
  - apply admissible_map; [apply decompressed_number|apply decompressed_shape|done].
Qed.

(** C4. Correctness of decompression.  Exactly these inputs are accepted: an
    envelope within the input limit that the scanner admits, which says it is not
    compressed and is returned unchanged; or which says zlib, has a payload and
    whose payload inflates, without an error of the reader or of its closing, to
    bytes that leave the rebuilt envelope within the limit: then the output is the
    same list of fields, bytes and order kept, with the compression field saying
    "none" and the payload field holding the inflated bytes.  In either case the
    output scans as an envelope that says "none", with as many fields, and of an
    inflated one the payload is exactly the inflated bytes. *)
Theorem decompress_correct inflate data out :
  (decompressEnvelopePayload inflate data = Ok out <->
   exists fs, parses data fs /\ admissible fs /\ zlen data <= MaxCodecInputBytes /\ zlen out <= MaxCodecInputBytes /\
     ((compression (summary fs) = 0 /\ out = data) \/
      (exists z, compression (summary fs) = 1 /\ hasPayload (summary fs) = true /\
         inflate (payload (summary fs)) = Ok z /\ z_err z = None /\ z_close z = None /\
         zlen (z_bytes z) <= MaxCodecInputBytes /\ out = raws (map (decompressed (z_bytes z)) fs)))) /\
  (decompressEnvelopePayload inflate data = Ok out ->
   exists env env', scanEnvelope data = Ok env /\ scanEnvelope out = Ok env' /\
     compression env' = 0 /\ fieldCount env' = fieldCount env /\
     (compression env <> 0 -> exists z, inflate (payload env) = Ok z /\ hasPayload env' = true /\ payload env' = z_bytes z)).
Proof.
  split; [apply decompress_spec|]. intros H.
  apply decompress_spec in H as (fs & Hp & Hadm & _ & _ & [[Hc ->]|(z & Hc & Hpl & Hi & _ & _ & Hlen & ->)]).
  - exists (summary fs), (summary fs). by rewrite (scan_parses _ _ Hp Hadm).
  - destruct (decompressed_parses _ _ _ Hlen Hp Hadm) as [Ho Hadm'].
    exists (summary fs), (summary (map (decompressed (z_bytes z)) fs)).
    rewrite (scan_parses _ _ Hp Hadm), (scan_parses _ _ Ho Hadm').
    split; [done|]. split; [done|]. split; [apply decompressed_compression|].
    split; [unfold summary, zlen; cbn [fieldCount]; by rewrite length_map|]. intros _. exists z. split; [done|].
    apply (with_payload_payload _ (decompressed (z_bytes z))); [apply decompressed_number| |done].
    intros f Hf. unfold decompressed. by rewrite Hf.
Qed.

(** Decompression is idempotent, whatever decompressor runs the second time:
    the codec never sees a compressed envelope. *)
Theorem decompress_idempotent inflate inflate' data out :
  decompressEnvelopePayload inflate data = Ok out ->
  decompressEnvelopePayload inflate' out = Ok out.
Proof.
  intros H. apply decompress_spec in H as (fs & Hp & Hadm & _ & Hlen & Hcase).
  assert (exists gs, parses out gs /\ admissible gs /\ compression (summary gs) = 0) as (gs & Hgp & Hga & Hg0).
  { destruct Hcase as [[Hc ->]|(z & _ & _ & _ & _ & _ & Hz & ->)]; [eauto|].
    destruct (decompressed_parses _ _ _ Hz Hp Hadm). eexists. split_and!; [done|done|apply decompressed_compression]. }
  unfold decompressEnvelopePayload. rewrite Z.gtb_ltb, (proj2 (Z.ltb_ge _ _) Hlen).
  rewrite (scan_parses _ _ Hgp Hga), Hg0. by rewrite orb_true_r.
Qed.

(** The largest frame each admission class lets through to the codec. *)
Definition admission_bound (c : DecodeAdmissionClass) : Z :=
  match c with
  | DecodeAdmissionTiny => Z.shiftl 64 10
  | DecodeAdmissionSmall => Z.shiftl 1 20
  | DecodeAdmissionLarge => Z.shiftl 4 20
  | DecodeAdmissionCompressed | DecodeAdmissionAmbiguous => MaxCodecInputBytes
  end.

(** The admission estimate is sound: a frame of a class decompresses to at
    most the bound of that class, and only frames of the two largest classes
    are ever inflated. *)
Theorem admission_sound inflate data c out :
  estimateDecodeAdmission data = Ok c -> decompressEnvelopePayload inflate data = Ok out ->
  zlen out <= admission_bound c /\
  (c <> DecodeAdmissionCompressed -> out = data).
Proof.
  intros Hc Hd. pose proof (proj1 (decompress_spec _ _ _) Hd) as (fs & Hp & Hadm & _ & Hlen & _).
  unfold estimateDecodeAdmission, decompressEnvelopePayload in *. inv_ok.
  rewrite (scan_parses _ _ Hp Hadm) in *.
  destruct (hasCompression (summary fs)); cbn [negb orb] in Hd.
  - destruct (compression (summary fs) =? 0) eqn:E0.
    + inv_ok. repeat case_bool; inv_ok; breflect; simpl; split; try done.
    + destruct (compression (summary fs) =? 1) eqn:E1; cbn [negb] in Hd; [|done].
      destruct (hasPayload (summary fs)); cbn [negb] in *; [|done]. inv_ok. split; [done|]. done.
  - inv_ok. repeat case_bool; inv_ok; breflect; simpl; split; try done.
Qed.

(** An envelope with the zlib algorithm and a payload of three bytes, and a
    decompressor that gives two. *)
Definition sampleEnvelope : bytes := [32; 1; 74; 3; 7; 8; 9].
Definition sampleInflate (p : bytes) : result zstream := Ok (mkZstream [1; 2] None None).

Lemma decompress_correct_witness :
  exists env env' z, scanEnvelope sampleEnvelope = Ok env /\ scanEnvelope [32; 0; 74; 2; 1; 2] = Ok env' /\
    compression env' = 0 /\ sampleInflate (payload env) = Ok z /\ payload env' = z_bytes z.
Proof.
  destruct (decompress_correct sampleInflate sampleEnvelope [32; 0; 74; 2; 1; 2]) as [_ H].
  destruct (H ltac:(reflexivity)) as (env & env' & H1 & H2 & H3 & _ & H4).
  destruct H4 as (z & H5 & _ & H6); [vm_compute in H1; injection H1 as <-; discriminate|].
  exists env, env', z. auto.
Defined.

Lemma decompress_idempotent_witness :
  decompressEnvelopePayload (fun _ => Err (EPlain "no zlib")) [32; 0; 74; 2; 1; 2] = Ok [32; 0; 74; 2; 1; 2].
Proof. apply (decompress_idempotent sampleInflate _ sampleEnvelope). reflexivity. Defined.

Lemma admission_sound_witness : zlen [32; 0; 74; 2; 1; 2] <= MaxCodecInputBytes.
Proof. apply (admission_sound sampleInflate sampleEnvelope DecodeAdmissionCompressed); reflexivity. Defined.
