(* ===== verification/ProvisionTheory.v ===== *)
(** * Advertising the action version

    Correctness of [upsertStringField] and [withProvisionActionVersion]
    (Wire.v): after encoding, the Provision payload carries [ActionVersion] in
    field 17, and every other byte of the envelope is kept. *)
From Stdlib Require Import String.
From S2P Require Import Prelude Protocol Errors RetainedWeight Wire VarintTheory EnvelopeTheory CompressionTheory.
Local Open Scope Z_scope.

(** A field of the inner message; unlike the envelope scanner,
    [upsertStringField] does not refuse the field number 0. *)
Definition loose_enc (f : wfield) : Prop :=
  exists tagb body tag,
    wf_raw f = tagb ++ body /\ varint_enc tagb tag /\
    wf_number f = Z.shiftr tag 3 /\ body_enc (Z.land tag 7) body (wf_val f).

Definition string_field (n : Z) (v : string) : wfield :=
  mkWfield n (WBytes (bytes_of_string v)) (appendStringField [] n v).

(** The message carries the string [v] in its first field number [n]; [a] and
    [rest] are what surrounds that field. *)
Definition carries (n : Z) (v : string) (message : bytes) : Prop :=
  exists a g rest, message = raws a ++ wf_raw g ++ rest /\ Forall loose_enc a /\ ~ occurs n a /\
    loose_enc g /\ wf_number g = n /\ wf_val g = WBytes (bytes_of_string v).

(** [new] is the message [old] with the string [v] as its field number [n]: a
    message without the field gets it at the end; the first such field is
    replaced, unless it holds [v] already; every other byte is kept. *)
Definition fieldSet (n : Z) (v : string) (old new : bytes) : Prop :=
  (exists a, old = raws a /\ Forall loose_enc a /\ ~ occurs n a /\ new = old ++ wf_raw (string_field n v)) \/
  (exists a g b rest, old = raws a ++ wf_raw g ++ rest /\ Forall loose_enc a /\ ~ occurs n a /\
     loose_enc g /\ wf_number g = n /\ wf_val g = WBytes b /\
     ((b = bytes_of_string v /\ new = old) \/
      (b <> bytes_of_string v /\ new = raws a ++ wf_raw (string_field n v) ++ rest))).

Lemma skipField_scan data off num wt nx :
  skipField data off wt = Ok nx <-> exists v b, scanValue data off num wt = Ok (v, b, nx).
Proof.
  unfold skipField, scanValue.
  destruct (wt =? wireVarint); [|destruct (wt =? wireFixed64); [|destruct (wt =? wireBytes);
    [|destruct (wt =? wireFixed32); [|destruct (_ || _)]]]].
  - destruct (readVarint data off) as [[v n]|e]; rsimpl; [|naive_solver].
    split; [intros [= ->]; eauto|intros (? & ? & [= _ _ ->]); done].
  - case_bool; naive_solver.
  - destruct (readVarint data off) as [[v n]|e]; rsimpl; [|naive_solver]. case_bool; naive_solver.
  - case_bool; naive_solver.
  - naive_solver.
  - naive_solver.
Qed.

Lemma loose_nonempty f : loose_enc f -> (0 < length (wf_raw f))%nat.
Proof.
  intros (tagb & body & tag & -> & Htag & _). rewrite length_app.
  pose proof (varint_enc_nonempty _ _ Htag). lia.
Qed.

(** Reads the tag of a field and skips its body. *)
Lemma read_skip_inv pre rest tag o nx :
  readVarint (pre ++ rest) (length pre) = Ok (tag, o) ->
  skipField (pre ++ rest) o (Z.land tag 7) = Ok nx ->
  exists f rest', rest = wf_raw f ++ rest' /\ loose_enc f /\ wf_number f = Z.shiftr tag 3 /\
    nx = (length pre + length (wf_raw f))%nat /\
    (Z.land tag 7 = wireBytes -> exists b lb tb, wf_val f = WBytes b /\ wf_raw f = tb ++ lb ++ b /\
        varint_enc lb (zlen b) /\ o = (length pre + length tb)%nat).
Proof.
  intros Ht Hs. apply varint_enc_inv in Ht as (tagb & post & -> & Htag & ->).
  rewrite app_assoc, <- length_app in Hs.
  apply (skipField_scan _ _ 0) in Hs as (v & b & Hs).
  apply scanValue_spec in Hs as (body & post' & w & -> & -> & Hb & _ & _).
  exists (mkWfield (Z.shiftr tag 3) w (tagb ++ body)), post'. simpl.
  split; [by rewrite app_assoc|]. split; [by exists tagb, body, tag|]. split; [done|].
  split; [rewrite !length_app; lia|].
  intros Hw. rewrite Hw in Hb. destruct (body_enc_bytes _ _ Hb) as [c ->].
  destruct Hb as [_ (lb & -> & Hlb)]. exists c, lb, tagb. done.
Qed.

Lemma read_skip pre f rest :
  loose_enc f ->
  exists tag o, readVarint (pre ++ wf_raw f ++ rest) (length pre) = Ok (tag, o) /\
    Z.shiftr tag 3 = wf_number f /\
    skipField (pre ++ wf_raw f ++ rest) o (Z.land tag 7) = Ok (length pre + length (wf_raw f))%nat /\
    (forall b, wf_val f = WBytes b -> Z.land tag 7 = wireBytes /\
       exists vs, readVarint (pre ++ wf_raw f ++ rest) o = Ok (zlen b, vs) /\
         zlen b <= zlen (pre ++ wf_raw f ++ rest) - Z.of_nat vs /\
         slice vs (vs + Z.to_nat (zlen b)) (pre ++ wf_raw f ++ rest) = b).
Proof.
  intros (tagb & body & tag & Hraw & Htag & Hn & Hb). rewrite Hraw, <- !app_assoc.
  exists tag, (length pre + length tagb)%nat. split; [by apply varint_enc_read|]. split; [done|].
  rewrite (app_assoc pre tagb), <- (length_app pre tagb). split.
  - apply (skipField_scan _ _ 0). exists (wval_varint (wf_val f)), (wval_bytes (wf_val f)).
    apply scanValue_spec. exists body, rest, (wf_val f). split; [done|]. split; [|done].
    rewrite !length_app. lia.
  - intros b Hv. rewrite Hv in Hb. destruct Hb as [Hwt (lb & -> & Hlb)]. split; [done|].
    rewrite <- (app_assoc lb b rest). exists (length (pre ++ tagb) + length lb)%nat.
    split; [by apply varint_enc_read|]. split; [rewrite !zlen_app; unfold zlen; rewrite !length_app; lia|].
    unfold zlen. rewrite Nat2Z.id. rewrite (app_assoc (pre ++ tagb)), <- (length_app (pre ++ tagb)). apply slice_app_mid.
Qed.

Lemma appendStringField_eq dst n v : appendStringField dst n v = dst ++ wf_raw (string_field n v).
Proof. simpl. unfold appendStringField, appendKey, appendVarint. by rewrite <- !app_assoc. Qed.

Section Upsert.
Context (n : Z) (v : string).

(** What the loop returns once the fields [d] have been passed. *)
Definition upserted (d : list wfield) (rest out : bytes) (changed : bool) : Prop :=
  (exists a, rest = raws a /\ Forall loose_enc a /\ ~ occurs n a /\ changed = true /\
     out = raws d ++ raws a ++ wf_raw (string_field n v)) \/
  (exists a g b rest', rest = raws a ++ wf_raw g ++ rest' /\ Forall loose_enc a /\ ~ occurs n a /\
     loose_enc g /\ wf_number g = n /\ wf_val g = WBytes b /\
     ((b = bytes_of_string v /\ changed = false /\ out = raws d ++ rest) \/
      (b <> bytes_of_string v /\ changed = true /\ out = raws d ++ raws a ++ wf_raw (string_field n v) ++ rest'))).

Lemma upserted_step d f rest out ch :
  loose_enc f -> wf_number f <> n ->
  upserted (d ++ [f]) rest out ch -> upserted d (wf_raw f ++ rest) out ch.
Proof.
  intros Hf Hn [(a & -> & Ha & Ho & -> & ->)|(a & g & b & rest' & -> & Ha & Ho & Hg & Hgn & Hgv & Hcase)].
  - left. exists (f :: a). rewrite raws_cons, raws_snoc, <- !app_assoc.
    split_and!; try done; [by constructor|]. rewrite occurs_cons. tauto.
  - right. exists (f :: a), g, b, rest'. rewrite raws_cons, <- !app_assoc.
    split_and!; try done; [by constructor|rewrite occurs_cons; tauto|].
    rewrite raws_snoc, <- !app_assoc in Hcase. done.
Qed.

Lemma upsertLoop_spec fuel d rest :
  (length rest <= fuel)%nat ->
  exists r, upsertLoop fuel (raws d ++ rest) n v (length (raws d)) = Some r /\
    forall out ch, r = Ok (out, ch) -> upserted d rest out ch.
Proof.
  revert d rest. induction fuel as [|fuel IH]; intros d rest Hf.
  { destruct rest; [|simpl in Hf; lia]. simpl. rewrite app_nil_r, Nat.ltb_irrefl.
    eexists. split; [done|]. intros out ch [= <- <-]. left. exists []. rewrite appendStringField_eq.
    split_and!; try done. intros (h & Hh & _). by apply not_elem_of_nil in Hh. }
  destruct rest as [|x rest].
  { simpl. rewrite app_nil_r, Nat.ltb_irrefl. eexists. split; [done|].
    intros out ch [= <- <-]. left. exists []. rewrite appendStringField_eq.
    split_and!; try done. intros (h & Hh & _). by apply not_elem_of_nil in Hh. }
  cbn [upsertLoop]. rewrite (proj2 (Nat.ltb_lt _ _)) by (rewrite length_app; simpl; lia).
  destruct (readVarint _ _) as [[tag o]|e] eqn:Ht; [|by eexists].
  destruct (skipField _ _ _) as [nx|e] eqn:Hs; [|by eexists].
  destruct (read_skip_inv _ _ _ _ _ Ht Hs) as (f & rest' & Heq & Hf' & Hfn & -> & Hfb).
  pose proof (loose_nonempty _ Hf').
  destruct (Z.eqb_spec (Z.shiftr tag 3) n) as [E|E].
  - eexists. split; [done|]. intros out ch H'. inv_ok. apply negb_false_iff, Z.eqb_eq in Heqb.
    destruct (Hfb Heqb) as (b & lb & tb & Hfv & Hraw & Hlb & ->). right.
    exists [], f, b, rest'. rewrite Heq in *. rewrite Hraw, <- !app_assoc in Hv.
    rewrite app_assoc, <- length_app, (varint_enc_read _ _ _ _ Hlb) in Hv. injection Hv as <- <-.
    assert (Hsl : slice (length (raws d ++ tb) + length lb) (length (raws d ++ tb) + length lb + Z.to_nat (zlen b))
                    (raws d ++ wf_raw f ++ rest') = b).
    { rewrite Hraw, <- !app_assoc. unfold zlen. rewrite Nat2Z.id.
      rewrite (app_assoc (raws d)), (app_assoc (raws d ++ tb)), <- length_app. apply slice_app_mid. }
    rewrite Hsl in H'. split; [done|]. split; [constructor|].
    split; [intros (h & Hh & _); by apply not_elem_of_nil in Hh|]. split; [done|]. split; [congruence|]. split; [done|].
    case_bool; breflect; injection H' as <- <-; [by left|right]. split; [done|]. split; [done|].
    rewrite appendStringField_eq, take_app_length, <- app_assoc. change (raws []) with (@nil Z).
    rewrite app_nil_l. do 2 f_equal.
    rewrite app_assoc, <- length_app. apply drop_app_length.
  - rewrite Heq, app_assoc, <- raws_snoc, <- length_app, <- raws_snoc.
    destruct (IH (d ++ [f]) rest') as (r & Hr & Hspec).
    { apply (f_equal length) in Heq. rewrite length_app in Heq. simpl in *. lia. }
    exists r. split; [done|]. intros out ch H'. apply upserted_step; [done|congruence|auto].
Qed.
End Upsert.

Lemma upsertLoop_pass n v a d g rest fuel :
  Forall loose_enc a -> ~ occurs n a -> loose_enc g -> wf_number g = n ->
  wf_val g = WBytes (bytes_of_string v) -> (length (raws a ++ wf_raw g ++ rest) <= fuel)%nat ->
  upsertLoop fuel (raws d ++ raws a ++ wf_raw g ++ rest) n v (length (raws d)) =
  Some (Ok (raws d ++ raws a ++ wf_raw g ++ rest, false)).
Proof.
  intros Ha. revert d fuel. induction Ha as [|f a Hf _ IH]; intros d fuel Ho Hg Hgn Hgv Hlen.
  - change (raws []) with (@nil Z) in *. rewrite app_nil_l in *. pose proof (loose_nonempty _ Hg).
    rewrite length_app in Hlen. destruct fuel as [|fuel]; [lia|]. cbn [upsertLoop].
    rewrite (proj2 (Nat.ltb_lt _ _)) by (rewrite !length_app; lia).
    destruct (read_skip (raws d) g rest Hg) as (tag & o & -> & Hsh & -> & Hb).
    rewrite Hsh, (proj2 (Z.eqb_eq _ _) Hgn). destruct (Hb _ Hgv) as (-> & vs & -> & Hle & Hsl).
    cbn [Z.eqb wireBytes Pos.eqb negb]. rsimpl. rewrite Z.gtb_ltb, (proj2 (Z.ltb_ge _ _) Hle), Hsl.
    by rewrite bool_decide_eq_true_2.
  - rewrite occurs_cons in Ho. rewrite raws_cons, <- app_assoc in *. pose proof (loose_nonempty _ Hf).
    rewrite length_app in Hlen. destruct fuel as [|fuel]; [lia|]. cbn [upsertLoop].
    rewrite (proj2 (Nat.ltb_lt _ _)) by (rewrite !length_app; lia).
    destruct (read_skip (raws d) f (raws a ++ wf_raw g ++ rest) Hf) as (tag & o & -> & Hsh & -> & _).
    rewrite Hsh, (proj2 (Z.eqb_neq _ _)) by tauto.
    specialize (IH (d ++ [f]) fuel). rewrite raws_snoc, <- !app_assoc, (length_app (raws d)) in IH.
    apply IH; try done; [tauto|lia].
Qed.

Lemma upsert_stable n v message : carries n v message -> upsertStringField message n v = Ok (message, false).
Proof.
  intros (a & g & rest & -> & Ha & Ho & Hg & Hgn & Hgv). unfold upsertStringField.
  pose proof (upsertLoop_pass n v a [] g rest (length (raws a ++ wf_raw g ++ rest)) Ha Ho Hg Hgn Hgv ltac:(lia)) as H.
  change (raws []) with (@nil Z) in H. rewrite !app_nil_l in H. simpl length in H. rewrite H. done.
Qed.

Lemma upsert_sets n v message out ch :
  upsertStringField message n v = Ok (out, ch) -> fieldSet n v message out /\ (ch = false -> out = message).
Proof.
  intros H. unfold upsertStringField in H.
  destruct (upsertLoop_spec n v (length message) [] message ltac:(lia)) as (r & Hr & Hspec).
  change (raws []) with (@nil Z) in Hr. simpl in Hr. rewrite Hr in H. simpl in H.
  destruct (Hspec _ _ H) as [(a & -> & Ha & Ho & -> & ->)|(a & g & b & rest' & -> & Ha & Ho & Hg & Hgn & Hgv & Hc)].
  - split; [|done]. left. by exists a.
  - destruct Hc as [(-> & -> & ->)|(Hb & -> & ->)]; (split; [|done]); right; eexists a, g, _, rest'; split_and!; try done; [left|right]; done.
Qed.

Lemma set_carries n v old new : loose_enc (string_field n v) -> fieldSet n v old new -> carries n v new.
Proof.
  intros Hsf [(a & -> & Ha & Ho & ->)|(a & g & b & rest & -> & Ha & Ho & Hg & Hgn & Hgv & [[-> ->]|[_ ->]])].
  - exists a, (string_field n v), []. rewrite app_nil_r. by split_and!.
  - exists a, g, rest. by split_and!.
  - exists a, (string_field n v), rest. by split_and!.
Qed.

(** The loop of [upsertStringField] never runs out of fuel. *)
Lemma upsert_terminates n v message : is_Some (upsertLoop (length message) message n v 0).
Proof.
  destruct (upsertLoop_spec n v (length message) [] message ltac:(lia)) as (r & Hr & _).
  change (raws []) with (@nil Z) in Hr. simpl in Hr. eauto.
Qed.

Lemma action_field_enc : loose_enc (string_field provisionActionVersionField ActionVersion).
Proof.
  exists (appendKey [] provisionActionVersionField wireBytes),
         (encodeVarint (slen ActionVersion) ++ bytes_of_string ActionVersion), 138.
  split; [done|]. split; [by apply varint_fields|]. split; [done|]. split; [done|].
  exists (encodeVarint (slen ActionVersion)). split; [done|]. by apply encodeVarint_enc.
Qed.

Lemma with_payload_other pl l : ~ occurs msyncPayloadField l -> map (with_payload pl) l = l.
Proof.
  intros H. induction l as [|f l IH]; simpl; [done|]. rewrite occurs_cons in H.
  unfold with_payload at 1. rewrite (proj2 (Z.eqb_neq _ _)) by tauto. f_equal. apply IH. tauto.
Qed.

(** Replacing the bytes of the payload field is replacing the field. *)
Lemma replace_payload fs pl :
  admissible fs -> hasPayload (summary fs) = true ->
  let r := payloadRaw (summary fs) in
  appendPayloadField (take (wr_start r) (raws fs)) pl ++ drop (wr_end r) (raws fs) =
  raws (map (with_payload pl) fs) /\ (wr_end r <= length (raws fs))%nat.
Proof.
  intros Hadm Hp. unfold summary in *. cbn [hasPayload payloadRaw] in *.
  destruct (find_at msyncPayloadField 0 fs) as [[o f]|] eqn:F; [|done]. clear Hp.
  apply find_at_split in F as (a & b & -> & -> & Hn & Ha).
  destruct (admissible_single _ _ _ _ Hadm Hn ltac:(auto)) as [_ Hb].
  cbn [range_of wr_start wr_end]. rewrite map_app, map_cons, !with_payload_other by done.
  rewrite !raws_app, !raws_cons, Nat.add_0_l, take_app_length, (proj1 (append_as_field _ _)).
  split; [|rewrite !length_app; lia].
  unfold with_payload. rewrite Hn. simpl (Z.eqb _ _). cbv iota. rewrite <- app_assoc. do 2 f_equal.
  rewrite app_assoc, <- length_app. apply drop_app_length.
Qed.

(** What [withProvisionActionVersion] returns for a non-empty frame. *)
Lemma withProvision_spec data out :
  data <> [] -> withProvisionActionVersion data = Ok out ->
  exists fs gs pl, parses data fs /\ hasPayload (summary fs) = true /\
    fieldSet provisionActionVersionField ActionVersion (payload (summary fs)) pl /\
    parses out gs /\ admissible gs /\ hasPayload (summary gs) = true /\ out <> [] /\ payload (summary gs) = pl /\
    ((pl = payload (summary fs) /\ out = data) \/ gs = map (with_payload pl) fs).
Proof.
  intros Hne H. unfold withProvisionActionVersion in H. destruct data as [|x data]; [done|]. clear Hne.
  destruct (scanEnvelope (x :: data)) as [env|e] eqn:Hscan; [|done].
  apply scanEnvelope_spec in Hscan as (fs & [Hr Henc] & Hadm & ->). inv_ok. rename l into pl, b into ch.
  apply negb_false_iff in Heqb. destruct (upsert_sets _ _ _ _ _ Hv) as [Hset Hch].
  destruct ch; cbn [negb] in H.
  - inv_ok. destruct (replace_payload fs pl Hadm Heqb) as [Hrep Hend].
    apply orb_false_iff in Heqb0 as [Hlo Hhi]. rewrite Z.gtb_ltb, Z.ltb_ge in Hhi.
    assert (zlen pl <= max_uint64) as Hpl.
    { change MaxCodecInputBytes with 16777216 in Hhi. unfold bytesFieldSize in Hhi.
      pose proof (varintSize_bounds (zlen pl)). rewrite Hr in Hhi. unfold zlen in *.
      pose proof (varintSize_bounds (Z.lor (u64 (msyncPayloadField ≪ 3)) wireBytes)). word_lia. }
    assert (Henc' : Forall field_enc (map (with_payload pl) fs)).
    { apply Forall_map. eapply Forall_impl; [exact Henc|]. intros f. by apply with_payload_enc. }
    change (range_of (find_at msyncPayloadField 0 fs)) with (payloadRaw (summary fs)).
    rewrite Hr, Hrep. exists fs, (map (with_payload pl) fs), pl.
    destruct (with_payload_payload pl (with_payload pl) fs (with_payload_number pl)) as [Hp' Hpp]; [|done|].
    { intros f Hf. unfold with_payload. by rewrite Hf. }
    rewrite Hp', Hpp. split; [done|]. split; [done|]. split; [done|]. split; [done|].
    split; [apply admissible_map; [apply with_payload_number|apply with_payload_shape|done]|].
    split; [done|]. split; [|split; [done|by right]].
    intros E. destruct fs as [|f fs]; [done|]. apply Forall_cons in Henc' as [Hf _].
    apply field_raw_nonempty in Hf. cbn [map] in E. rewrite raws_cons in E. destruct (wf_raw _); simpl in *; [lia|done].
  - inv_ok. rewrite (Hch eq_refl) in Hset. exists fs, fs, (payload (summary fs)).
    split_and!; try done. by left.
Qed.


