(* ===== verification/ByteBudget.v ===== *)
(** * Byte budgets

    sdk/byte_budget.go: a weighted semaphore.  A [byteBudget] value is what the
    mutex protects; the operations that run under the mutex are functions on
    it, the methods that check the receiver for nil work on a store of budgets
    addressed by pointers, and [Acquire] is a thread of a step relation whose
    steps are its critical sections and the two branches of its [select]. *)
From Stdlib Require Import String.
From S2P Require Import Prelude Protocol Errors.
Local Open Scope string_scope.
Local Open Scope Z_scope.

(** ** State

    A channel of the budget is its number in the order of the [make] calls;
    [bb_closed] lists the [close] calls.  Closing a channel twice panics, so a
    duplicate in the list stands for a panic. *)
Record byteBudget := mkByteBudget {
  bb_limit : Z; bb_used : Z; bb_wait : option nat; bb_made : nat; bb_closed : list nat }.

Definition byteBudgetInvariantf (msg : string) : goerror :=
  EWrap (sentinel_string errByteBudgetInvariant ++ ": " ++ msg) (ESentinel errByteBudgetInvariant).

Definition newByteBudget (limit : Z) : result byteBudget :=
  if limit <? 0 then Err (byteBudgetInvariantf ("negative limit " ++ pretty limit))
  else Ok (mkByteBudget limit 0 (Some 0%nat) 1 []).

Definition validateLocked (b : byteBudget) : option goerror :=
  if bb_limit b <? 0 then Some (byteBudgetInvariantf ("negative limit " ++ pretty (bb_limit b)))
  else if bb_used b <? 0 then Some (byteBudgetInvariantf ("negative used " ++ pretty (bb_used b)))
  else if bb_used b >? bb_limit b
  then Some (byteBudgetInvariantf ("used " ++ pretty (bb_used b) ++ " exceeds limit " ++ pretty (bb_limit b)))
  else None.

Definition validateAcquireLocked (b : byteBudget) (n : Z) : option goerror :=
  match validateLocked b with
  | Some err => Some err
  | None =>
      if n <=? 0 then Some (byteBudgetInvariantf ("acquire must be positive: " ++ pretty n))
      else if n >? bb_limit b
      then Some (byteBudgetInvariantf ("acquire " ++ pretty n ++ " exceeds limit " ++ pretty (bb_limit b)))
      else None
  end.

Definition set_used (u : Z) (b : byteBudget) : byteBudget :=
  mkByteBudget (bb_limit b) u (bb_wait b) (bb_made b) (bb_closed b).

Definition tryAcquireLocked (b : byteBudget) (n : Z) : result bool * byteBudget :=
  match validateAcquireLocked b n with
  | Some err => (Err err, b)
  | None =>
      if n >? i64 (bb_limit b - bb_used b) then (Ok false, b)
      else (Ok true, set_used (i64 (bb_used b + n)) b)
  end.

(** [waitLocked]: the current channel, made on demand. *)
Definition waitLocked (b : byteBudget) : nat * byteBudget :=
  match bb_wait b with
  | Some ch => (ch, b)
  | None => (bb_made b, mkByteBudget (bb_limit b) (bb_used b) (Some (bb_made b)) (S (bb_made b)) (bb_closed b))
  end.

(** [close(b.waitLocked()); b.wait = make(chan struct{})]. *)
Definition notifyLocked (b : byteBudget) : byteBudget :=
  let '(ch, b) := waitLocked b in
  mkByteBudget (bb_limit b) (bb_used b) (Some (bb_made b)) (S (bb_made b)) (ch :: bb_closed b).

Definition releaseLocked (b : byteBudget) (n : Z) : option goerror * byteBudget :=
  match validateLocked b with
  | Some err => (Some err, b)
  | None =>
      if n <=? 0 then (Some (byteBudgetInvariantf ("release must be positive: " ++ pretty n)), b)
      else if n >? bb_used b
      then (Some (byteBudgetInvariantf ("release " ++ pretty n ++ " exceeds used " ++ pretty (bb_used b))), b)
      else (None, notifyLocked (set_used (i64 (bb_used b - n)) b))
  end.

(** ** The methods, on pointers

    A [*byteBudget] is nil or the address of a budget in the store. *)
Abbreviation budgetStore := (gmap nat byteBudget).

Definition deref (st : budgetStore) (b : option nat) : option (nat * byteBudget) :=
  l ← b; v ← st !! l; Some (l, v).

Definition TryAcquire (st : budgetStore) (b : option nat) (n : Z) : result bool * budgetStore :=
  match deref st b with
  | None => (Err (byteBudgetInvariantf "nil budget"), st)
  | Some (l, v) => let '(r, v') := tryAcquireLocked v n in (r, <[l := v']> st)
  end.

Definition Release (st : budgetStore) (b : option nat) (n : Z) : option goerror * budgetStore :=
  match deref st b with
  | None => (Some (byteBudgetInvariantf "nil budget"), st)
  | Some (l, v) => let '(e, v') := releaseLocked v n in (e, <[l := v']> st)
  end.

Definition Used (st : budgetStore) (b : option nat) : Z :=
  match deref st b with None => 0 | Some (_, v) => bb_used v end.

Definition Limit (st : budgetStore) (b : option nat) : Z :=
  match deref st b with None => 0 | Some (_, v) => bb_limit v end.

(** ** Acquire, and concurrent use

    The places where a goroutine inside [Acquire(ctx, n)] can be: before the
    first validation, at [ctx.Err()], before the critical section of the loop,
    in the [select] on channel [ch], or returned. *)
Inductive acquirePC :=
| AtValidate (n : Z) | AtCheck (n : Z) | AtCompete (n : Z) | AtSelect (n : Z) (ch : nat)
| Returned (err : option goerror).

(** A goroutine: its program counter and the error of its context, if done. *)
Record acquirer := mkAcquirer { aq_pc : acquirePC; aq_ctx : option sentinel }.

Record budgetSystem := mkBudgetSystem { bs_budget : byteBudget; bs_threads : gmap nat acquirer }.

(** What a step did to the reservations: granted or returned some bytes. *)
Inductive budgetEvent := EvTau | EvGrant (n : Z) | EvReturn (n : Z).

Definition goto (t : nat) (a : acquirer) (p : acquirePC) (s : budgetSystem) : budgetSystem :=
  mkBudgetSystem (bs_budget s) (<[t := mkAcquirer p (aq_ctx a)]> (bs_threads s)).

Definition with_budget (b : byteBudget) (s : budgetSystem) : budgetSystem :=
  mkBudgetSystem b (bs_threads s).

(** The steps goroutine [t] takes inside [Acquire]. *)
Inductive acquireStep (t : nat) : budgetSystem -> budgetEvent -> budgetSystem -> Prop :=
| step_validate_err s a n e : bs_threads s !! t = Some a -> aq_pc a = AtValidate n ->
    validateAcquireLocked (bs_budget s) n = Some e ->
    acquireStep t s EvTau (goto t a (Returned (Some e)) s)
| step_validate_ok s a n : bs_threads s !! t = Some a -> aq_pc a = AtValidate n ->
    validateAcquireLocked (bs_budget s) n = None ->
    acquireStep t s EvTau (goto t a (AtCheck n) s)
| step_ctx_err s a n c : bs_threads s !! t = Some a -> aq_pc a = AtCheck n -> aq_ctx a = Some c ->
    acquireStep t s EvTau (goto t a (Returned (Some (ESentinel c))) s)
| step_ctx_ok s a n : bs_threads s !! t = Some a -> aq_pc a = AtCheck n -> aq_ctx a = None ->
    acquireStep t s EvTau (goto t a (AtCompete n) s)
| step_try_err s a n e b' : bs_threads s !! t = Some a -> aq_pc a = AtCompete n ->
    tryAcquireLocked (bs_budget s) n = (Err e, b') ->
    acquireStep t s EvTau (goto t a (Returned (Some e)) (with_budget b' s))
| step_try_ok s a n b' : bs_threads s !! t = Some a -> aq_pc a = AtCompete n ->
    tryAcquireLocked (bs_budget s) n = (Ok true, b') ->
    acquireStep t s (EvGrant n) (goto t a (Returned None) (with_budget b' s))
| step_try_full s a n b' ch b'' : bs_threads s !! t = Some a -> aq_pc a = AtCompete n ->
    tryAcquireLocked (bs_budget s) n = (Ok false, b') -> waitLocked b' = (ch, b'') ->
    acquireStep t s EvTau (goto t a (AtSelect n ch) (with_budget b'' s))
| step_wake s a n ch : bs_threads s !! t = Some a -> aq_pc a = AtSelect n ch ->
    ch ∈ bb_closed (bs_budget s) ->
    acquireStep t s EvTau (goto t a (AtCheck n) s)
| step_cancelled s a n ch c : bs_threads s !! t = Some a -> aq_pc a = AtSelect n ch ->
    aq_ctx a = Some c ->
    acquireStep t s EvTau (goto t a (Returned (Some (ESentinel c))) s).

(** What anyone else does: [TryAcquire], [Release], a new call of [Acquire],
    the end of a context. *)
Inductive otherStep : budgetSystem -> budgetEvent -> budgetSystem -> Prop :=
| step_try s n r b' : tryAcquireLocked (bs_budget s) n = (r, b') ->
    otherStep s (match r with Ok true => EvGrant n | _ => EvTau end) (with_budget b' s)
| step_release s n e b' : releaseLocked (bs_budget s) n = (e, b') ->
    otherStep s (match e with None => EvReturn n | _ => EvTau end) (with_budget b' s)
| step_call s t n c : bs_threads s !! t = None ->
    otherStep s EvTau (goto t (mkAcquirer (AtValidate n) c) (AtValidate n) s)
| step_cancel s t a c : bs_threads s !! t = Some a -> aq_ctx a = None ->
    otherStep s EvTau
      (mkBudgetSystem (bs_budget s) (<[t := mkAcquirer (aq_pc a) (Some c)]> (bs_threads s))).

Definition budgetStep (s : budgetSystem) (ev : budgetEvent) (s' : budgetSystem) : Prop :=
  (exists t, acquireStep t s ev s') \/ otherStep s ev s'.

(** Runs with the events they produce, oldest first. *)
Inductive budgetRun : budgetSystem -> list budgetEvent -> budgetSystem -> Prop :=
| run_nil s : budgetRun s [] s
| run_snoc s evs s' ev s'' : budgetRun s evs s' -> budgetStep s' ev s'' ->
    budgetRun s (evs ++ [ev])%list s''.

(** The steps of one goroutine. *)
Inductive acquireRun (t : nat) : budgetSystem -> budgetSystem -> Prop :=
| arun_nil s : acquireRun t s s
| arun_cons s ev s' s'' : acquireStep t s ev s' -> acquireRun t s' s'' -> acquireRun t s s''.

Definition event_delta (ev : budgetEvent) : Z :=
  match ev with EvTau => 0 | EvGrant n => n | EvReturn n => - n end.

Definition start_system (b : byteBudget) : budgetSystem := mkBudgetSystem b ∅.

(** ** Invariant *)

Record budget_ok (b : byteBudget) : Prop := {
  bo_limit : 0 <= bb_limit b <= max_int64;
  bo_used : 0 <= bb_used b <= bb_limit b;
  bo_wait : match bb_wait b with
            | Some ch => (ch < bb_made b)%nat /\ ch ∉ bb_closed b
            | None => True
            end;
  bo_closed : Forall (fun ch => (ch < bb_made b)%nat) (bb_closed b);
  bo_once : NoDup (bb_closed b) }.

Lemma newByteBudget_ok limit b :
  limit <= max_int64 -> newByteBudget limit = Ok b ->
  budget_ok b /\ bb_used b = 0 /\ bb_limit b = limit.
Proof.
  unfold newByteBudget. intros Hm H. case_bool; [done|]. breflect. injection H as <-.
  split; [|done]. split; simpl; try lia; [split; [lia|set_solver]|constructor|constructor].
Qed.

Lemma validateLocked_ok b : budget_ok b -> validateLocked b = None.
Proof.
  intros [H1 H2 _ _ _]. unfold validateLocked. rewrite Z.gtb_ltb.
  do 3 (rewrite (proj2 (Z.ltb_ge _ _)) by lia). done.
Qed.

(** The outcomes of [TryAcquire] on a well-formed budget. *)
Lemma tryAcquireLocked_spec b n :
  budget_ok b ->
  tryAcquireLocked b n =
  if n <=? 0 then (Err (byteBudgetInvariantf ("acquire must be positive: " ++ pretty n)), b)
  else if bb_limit b <? n
  then (Err (byteBudgetInvariantf ("acquire " ++ pretty n ++ " exceeds limit " ++ pretty (bb_limit b))), b)
  else if bb_limit b <? bb_used b + n then (Ok false, b)
  else (Ok true, set_used (bb_used b + n) b).
Proof.
  intros Hb. destruct (Hb) as [H1 H2 _ _ _].
  unfold tryAcquireLocked, validateAcquireLocked. rewrite validateLocked_ok by done.
  rewrite !Z.gtb_ltb. repeat case_bool; breflect; try done; try lia;
    rewrite ?i64_id in * by word_lia; try done; lia.
Qed.

Lemma releaseLocked_spec b n :
  budget_ok b ->
  releaseLocked b n =
  if n <=? 0 then (Some (byteBudgetInvariantf ("release must be positive: " ++ pretty n)), b)
  else if bb_used b <? n
  then (Some (byteBudgetInvariantf ("release " ++ pretty n ++ " exceeds used " ++ pretty (bb_used b))), b)
  else (None, notifyLocked (set_used (bb_used b - n) b)).
Proof.
  intros Hb. destruct (Hb) as [H1 H2 _ _ _].
  unfold releaseLocked. rewrite validateLocked_ok by done. rewrite !Z.gtb_ltb.
  repeat case_bool; breflect; try done. rewrite i64_id by word_lia. done.
Qed.

Lemma set_used_ok u b : budget_ok b -> 0 <= u <= bb_limit b -> budget_ok (set_used u b).
Proof. intros [] ?. by split. Qed.

Lemma waitLocked_spec b ch b' :
  budget_ok b -> waitLocked b = (ch, b') ->
  budget_ok b' /\ bb_wait b' = Some ch /\ bb_used b' = bb_used b /\ bb_limit b' = bb_limit b /\
  bb_closed b' = bb_closed b /\ (bb_wait b = None \/ bb_wait b = Some ch).
Proof.
  intros [H1 H2 H3 H4 H5] H. unfold waitLocked in H. destruct (bb_wait b) as [c|] eqn:E; injection H as <- <-.
  - split_and!; try done; [by split; rewrite ?E|by right].
  - split_and!; try done; [|by left]. split; simpl; try done.
    + split; [lia|]. intros Hin. rewrite Forall_forall in H4. specialize (H4 _ Hin). simpl in H4. lia.
    + eapply Forall_impl; [exact H4|]. simpl. lia.
Qed.

Lemma notifyLocked_spec b :
  budget_ok b ->
  budget_ok (notifyLocked b) /\ bb_used (notifyLocked b) = bb_used b /\
  bb_limit (notifyLocked b) = bb_limit b /\
  (forall ch, ch ∈ bb_closed b \/ bb_wait b = Some ch -> ch ∈ bb_closed (notifyLocked b)).
Proof.
  intros Hb. unfold notifyLocked. destruct (waitLocked b) as [ch b'] eqn:E.
  destruct (waitLocked_spec _ _ _ Hb E) as ([H1 H2 H3 H4 H5] & Hw & Hu & Hl & Hc & Hor).
  rewrite Hw in H3. destruct H3 as [H3 Hn]. simpl. split_and!; try done.
  - split; simpl; try done.
    + split; [lia|]. rewrite not_elem_of_cons. split; [lia|].
      intros Hin. rewrite Forall_forall in H4. specialize (H4 _ Hin). simpl in H4. lia.
    + constructor; [lia|]. eapply Forall_impl; [exact H4|]. simpl. lia.
    + by constructor.
  - intros c [Hc'|Hc']; rewrite elem_of_cons; [right; congruence|].
    left. destruct Hor as [Hor|Hor]; congruence.
Qed.

(** What is true of a goroutine inside [Acquire], whatever the others do. *)
Definition pc_ok (b : byteBudget) (p : acquirePC) : Prop :=
  match p with
  | AtCheck n | AtCompete n => 0 < n <= bb_limit b
  | AtSelect n ch =>
      0 < n <= bb_limit b /\
      (ch ∈ bb_closed b \/ bb_wait b = Some ch /\ bb_limit b < bb_used b + n)
  | AtValidate _ | Returned _ => True
  end.

Record system_ok (s : budgetSystem) : Prop := {
  so_budget : budget_ok (bs_budget s);
  so_threads : map_Forall (fun _ a => pc_ok (bs_budget s) (aq_pc a)) (bs_threads s) }.

(** A budget change no waiting goroutine can miss: capacity is only given back
    by closing the current channel. *)
Definition budget_grows (b b' : byteBudget) : Prop :=
  bb_limit b' = bb_limit b /\ (forall ch, ch ∈ bb_closed b -> ch ∈ bb_closed b') /\
  (forall ch, bb_wait b = Some ch ->
     ch ∈ bb_closed b' \/ bb_wait b' = Some ch /\ bb_used b <= bb_used b').

Lemma pc_ok_mono b b' p : budget_grows b b' -> pc_ok b p -> pc_ok b' p.
Proof.
  intros (Hl & Hc & Hw) H. destruct p; simpl in *; rewrite ?Hl; try done.
  destruct H as [Hn [Hin|[Hin Hf]]]; (split; [done|]); [left; auto|].
  destruct (Hw _ Hin) as [?|[? ?]]; [by left|right; split; [done|lia]].
Qed.

Lemma grows_refl b : budget_grows b b.
Proof. split_and!; try done. intros ch ?. right. by split. Qed.

Lemma tryAcquire_grows b n r b' :
  budget_ok b -> tryAcquireLocked b n = (r, b') ->
  budget_ok b' /\ budget_grows b b' /\
  bb_used b' = bb_used b + match r with Ok true => n | _ => 0 end /\
  (r = Ok false -> b' = b /\ 0 < n <= bb_limit b /\ bb_limit b < bb_used b + n) /\
  (r = Ok true -> 0 < n).
Proof.
  intros Hb H. rewrite tryAcquireLocked_spec in H by done. pose proof (bo_used _ Hb).
  repeat case_bool; breflect; injection H as <- <-;
    try (split_and!; try done; [apply grows_refl|lia]).
  split_and!; try done; [apply set_used_ok; [done|lia]|].
  split_and!; [done|done|]. intros ch ?. right. split; [done|]. simpl. lia.
Qed.

Lemma release_grows b n e b' :
  budget_ok b -> releaseLocked b n = (e, b') ->
  budget_ok b' /\ budget_grows b b' /\
  bb_used b' = bb_used b - match e with None => n | _ => 0 end /\
  (e = None -> 0 < n <= bb_used b).
Proof.
  intros Hb H. rewrite releaseLocked_spec in H by done. pose proof (bo_used _ Hb).
  repeat case_bool; breflect; inversion H; subst e b'; clear H;
    try (split_and!; try done; [apply grows_refl|lia]).
  destruct (notifyLocked_spec (set_used (bb_used b - n) b) ltac:(apply set_used_ok; [done|lia]))
    as (Hok & Hu & Hl & Hc). rewrite Hu.
  split_and!; [done| |done|lia].
  split_and!; [done|intros ch ?; apply Hc; by left|intros ch ?; left; apply Hc; by right].
Qed.

Lemma goto_ok t a p s :
  budget_ok (bs_budget s) -> map_Forall (fun _ a => pc_ok (bs_budget s) (aq_pc a)) (bs_threads s) ->
  pc_ok (bs_budget s) p -> system_ok (goto t a p s).
Proof. intros Hb Ht Hp. split; [done|]. by apply map_Forall_insert_2. Qed.

Lemma threads_mono b b' (m : gmap nat acquirer) :
  budget_grows b b' -> map_Forall (fun _ a => pc_ok b (aq_pc a)) m ->
  map_Forall (fun _ a => pc_ok b' (aq_pc a)) m.
Proof. intros Hg H t a Ha. eapply pc_ok_mono; [exact Hg|]. exact (H _ _ Ha). Qed.

Lemma acquireStep_ok t s ev s' :
  system_ok s -> acquireStep t s ev s' ->
  system_ok s' /\ bb_used (bs_budget s') = bb_used (bs_budget s) + event_delta ev /\
  bb_limit (bs_budget s') = bb_limit (bs_budget s).
Proof.
  intros [Hb Ht] H. destruct H as [s a n e Ha Hp He|s a n Ha Hp He|s a n c Ha Hp Hc|s a n Ha Hp Hc
    |s a n e b' Ha Hp Hy|s a n b' Ha Hp Hy|s a n b' ch b'' Ha Hp Hy Hw|s a n ch Ha Hp Hc|s a n ch c Ha Hp Hc];
    pose proof (Ht _ _ Ha) as Hpa; cbn beta in Hpa; rewrite Hp in Hpa; simpl in Hpa; simpl;
    try (split_and!; [|lia|done]; apply goto_ok; try done; simpl; tauto).
  - split_and!; [|lia|done]. apply goto_ok; try done. simpl.
    unfold validateAcquireLocked in He. rewrite validateLocked_ok in He by done.
    repeat case_bool; breflect; (done || lia).
  - destruct (tryAcquire_grows _ _ _ _ Hb Hy) as (Hb' & Hg & Hu & _).
    split_and!; [|done|apply Hg]. apply goto_ok; try done. by eapply threads_mono.
  - destruct (tryAcquire_grows _ _ _ _ Hb Hy) as (Hb' & Hg & Hu & _).
    split_and!; [|done|apply Hg]. apply goto_ok; try done. by eapply threads_mono.
  - destruct (tryAcquire_grows _ _ _ _ Hb Hy) as (Hb' & Hg & Hu & Hf & _).
    destruct (Hf eq_refl) as (-> & Hn & Hfull).
    destruct (waitLocked_spec _ _ _ Hb' Hw) as (Hb'' & Hw'' & Hu'' & Hl'' & Hc'' & Hor).
    assert (budget_grows (bs_budget s) b'') as Hg'.
    { split_and!; [done|by rewrite Hc''|]. intros c ?. right. split; [destruct Hor; congruence|lia]. }
    split_and!; [|simpl; lia|done]. apply goto_ok; try done; [by eapply threads_mono|].
    simpl. rewrite Hl'', Hu''. tauto.
Qed.

Lemma otherStep_ok s ev s' :
  system_ok s -> otherStep s ev s' ->
  system_ok s' /\ bb_used (bs_budget s') = bb_used (bs_budget s) + event_delta ev /\
  bb_limit (bs_budget s') = bb_limit (bs_budget s).
Proof.
  intros [Hb Ht] H. destruct H as [s n r b' Hy|s n e b' Hr|s t n c Hn|s t a c Ha Hc]; simpl.
  - destruct (tryAcquire_grows _ _ _ _ Hb Hy) as (Hb' & Hg & Hu & _).
    split_and!; [split; [done|by eapply threads_mono]| |apply Hg].
    rewrite Hu. destruct r as [[]|]; simpl; lia.
  - destruct (release_grows _ _ _ _ Hb Hr) as (Hb' & Hg & Hu & _).
    split_and!; [split; [done|by eapply threads_mono]| |apply Hg]. rewrite Hu. destruct e; simpl; lia.
  - split_and!; [|lia|done]. by apply goto_ok.
  - split_and!; [|lia|done]. split; [done|]. apply map_Forall_insert_2; [|done]. exact (Ht _ _ Ha).
Qed.

Lemma budgetStep_ok s ev s' :
  system_ok s -> budgetStep s ev s' ->
  system_ok s' /\ bb_used (bs_budget s') = bb_used (bs_budget s) + event_delta ev /\
  bb_limit (bs_budget s') = bb_limit (bs_budget s).
Proof. intros H [[t Hs]|Hs]; [by eapply acquireStep_ok|by eapply otherStep_ok]. Qed.

Lemma budgetRun_ok s evs s' :
  budgetRun s evs s' -> system_ok s ->
  system_ok s' /\ bb_used (bs_budget s') = bb_used (bs_budget s) + zsum (map event_delta evs) /\
  bb_limit (bs_budget s') = bb_limit (bs_budget s).
Proof.
  induction 1 as [s|s evs s' ev s'' _ IH Hs]; intros Hok; [split_and!; [done| |done]; unfold zsum; simpl; lia|].
  destruct (IH Hok) as (Hok' & Hu & Hl). destruct (budgetStep_ok _ _ _ Hok' Hs) as (Hok'' & Hu' & Hl').
  split_and!; [done| |congruence]. rewrite map_app, zsum_app, Hu', Hu. unfold zsum. simpl. lia.
Qed.

Lemma start_ok b : budget_ok b -> system_ok (start_system b).
Proof. intros Hb. split; [done|]. apply map_Forall_empty. Qed.

(** ** Properties *)

(** C9. Whatever the interleaving of [TryAcquire], [Acquire], [Release] and
    cancellations on a new budget: the bytes in use are exactly the bytes
    granted less the bytes returned, they are never negative and never above
    the limit, and no wake-up channel is ever closed twice (no panic). *)
Theorem budget_accounting limit b evs s :
  limit <= max_int64 -> newByteBudget limit = Ok b -> budgetRun (start_system b) evs s ->
  bb_used (bs_budget s) = zsum (map event_delta evs) /\
  0 <= bb_used (bs_budget s) <= limit /\ bb_limit (bs_budget s) = limit /\
  NoDup (bb_closed (bs_budget s)).
Proof.
  intros Hm Hn Hr. destruct (newByteBudget_ok _ _ Hm Hn) as (Hb & Hu & Hl).
  destruct (budgetRun_ok _ _ _ Hr (start_ok _ Hb)) as ([Hb' _] & Hu' & Hl'). simpl in *.
  pose proof (bo_used _ Hb'). split_and!; try lia. apply Hb'.
Qed.

(** C10. No lost wake-up: in every reachable state, a goroutine blocked in
    [Acquire] whose reservation fits by now holds a closed channel; running
    only that goroutine (its context alive) from there makes its [Acquire]
    return nil with the bytes reserved. *)
Theorem acquire_no_lost_wakeup limit b evs s t n ch :
  limit <= max_int64 -> newByteBudget limit = Ok b -> budgetRun (start_system b) evs s ->
  bs_threads s !! t = Some (mkAcquirer (AtSelect n ch) None) ->
  n <= limit - bb_used (bs_budget s) ->
  exists s', acquireRun t s s' /\
    bs_threads s' !! t = Some (mkAcquirer (Returned None) None) /\
    bb_used (bs_budget s') = bb_used (bs_budget s) + n.
Proof.
  intros Hm Hn Hr Ht Hfit. destruct (newByteBudget_ok _ _ Hm Hn) as (Hb & Hu & Hl).
  destruct (budgetRun_ok _ _ _ Hr (start_ok _ Hb)) as ([Hb' Hp] & _ & Hl'). simpl in Hl'.
  pose proof (Hp _ _ Ht) as Hpt. simpl in Hpt. destruct Hpt as [Hn0 [Hin|[_ Hfull]]]; [|lia].
  pose proof (bo_used _ Hb') as Hu'.
  eexists. split; [|split].
  - eapply arun_cons; [by eapply step_wake|].
    eapply arun_cons; [eapply step_ctx_ok; [apply lookup_insert_eq|done|done]|].
    eapply arun_cons; [eapply step_try_ok; [apply lookup_insert_eq|done|]|apply arun_nil].
    simpl. rewrite tryAcquireLocked_spec by done.
    do 3 (case_bool; breflect; [lia|]). reflexivity.
  - simpl. apply lookup_insert_eq.
  - reflexivity.
Qed.

Definition budget10 : byteBudget := mkByteBudget 10 0 (Some 0%nat) 1 [].

Lemma budget_accounting_witness :
  exists s, budgetRun (start_system budget10) [EvGrant 4; EvReturn 4] s /\
  bb_used (bs_budget s) = 0 /\ NoDup (bb_closed (bs_budget s)).
Proof.
  assert (exists s, budgetRun (start_system budget10) [EvGrant 4; EvReturn 4] s) as [s H].
  { eexists. eapply (run_snoc _ [EvGrant 4] _ (EvReturn 4)); [eapply (run_snoc _ [] _ (EvGrant 4)); [apply run_nil|]|].
    - right. by apply (step_try _ 4 (Ok true)).
    - right. by apply (step_release _ 4 None). }
  exists s. split; [exact H|].
  destruct (budget_accounting 10 _ _ _ ltac:(by vm_compute) eq_refl H) as (Hu & _ & _ & Hn).
  split; [exact Hu|exact Hn].
Defined.

(** A waiter blocked on a full budget, after the release that makes room. *)
Lemma acquire_no_lost_wakeup_witness :
  exists evs s s', budgetRun (start_system budget10) evs s /\
  bs_threads s !! 1%nat = Some (mkAcquirer (AtSelect 4 0) None) /\
  acquireRun 1 s s' /\ bs_threads s' !! 1%nat = Some (mkAcquirer (Returned None) None) /\
  bb_used (bs_budget s') = 9.
Proof.
  assert (exists evs s, budgetRun (start_system budget10) evs s /\ bb_used (bs_budget s) = 5 /\
    bs_threads s !! 1%nat = Some (mkAcquirer (AtSelect 4 0) None)) as (evs & s & H & Hu5 & Hs).
  { do 2 eexists. split.
    - eapply run_snoc; [eapply run_snoc; [eapply run_snoc; [eapply run_snoc; [eapply run_snoc;
        [eapply run_snoc; [apply run_nil|]|]|]|]|]|].
      + right. by apply (step_try _ 10 (Ok true)).
      + right. by apply (step_call _ 1 4 None).
      + left. exists 1%nat. by eapply step_validate_ok.
      + left. exists 1%nat. by eapply step_ctx_ok.
      + left. exists 1%nat. by eapply step_try_full.
      + right. by apply (step_release _ 5 None).
    - split; reflexivity. }
  destruct (acquire_no_lost_wakeup 10 budget10 _ _ 1 4 0 ltac:(by vm_compute) eq_refl H Hs
    ltac:(rewrite Hu5; by vm_compute)) as (s' & Hr & Ht & Hu).
  exists evs, s, s'. split_and!; [exact H|exact Hs|exact Hr|exact Ht|]. rewrite Hu, Hu5. reflexivity.
Defined.
