(* ===== verification/ResourceBudgets.v ===== *)
(** * Batch reservations and decode admission

    sdk/resource_budgets.go: a batch is charged to two budgets at once, that of
    its Client and that of the process, and given back once.
    sdk/decode_admission.go: the bytes a frame reserves before it is decoded. *)
From Stdlib Require Import String.
From S2P Require Import Prelude Protocol Errors ByteBudget.
Local Open Scope string_scope.
Local Open Scope Z_scope.

Definition clientBatchBudgetBytes : Z := Z.shiftl 32 20.
Definition processBatchBudgetBytes : Z := Z.shiftl 256 20.
Definition processDecodeBudgetBytes : Z := Z.shiftl 256 20.
Definition connectionQueueBudgetBytes : Z := Z.shiftl 4 20.
Definition processQueueBudgetBytes : Z := Z.shiftl 64 20.

(** [mustNewByteBudget] panics on an error: no value. *)
Definition mustNewByteBudget (limit : Z) : option byteBudget :=
  match newByteBudget limit with Ok b => Some b | Err _ => None end.

(** A [batchReservation]; the budgets are pointers into the store. *)
Record batchReservation := mkReservation {
  br_client : option nat; br_process : option nat; br_weight : Z; br_released : bool }.

Inductive batchBudgetScope := batchBudgetScopeNone | batchBudgetScopeClient | batchBudgetScopeProcess.

#[export] Instance batchBudgetScope_eq_dec : EqDecision batchBudgetScope.
Proof. solve_decision. Defined.

(** The four results of [tryReserveBatchScoped]. *)
Record reserveResult := mkReserveResult {
  rr_reservation : option batchReservation; rr_ok : bool; rr_scope : batchBudgetScope;
  rr_err : option goerror }.

Definition result_err {A} (r : result A) : option goerror :=
  match r with Ok _ => None | Err e => Some e end.

Definition tryReserveBatchScoped (st : budgetStore) (client process : option nat) (weight : Z)
  : reserveResult * budgetStore :=
  let '(r, st) := TryAcquire st client weight in
  match r with
  | Err _ | Ok false => (mkReserveResult None false batchBudgetScopeClient (result_err r), st)
  | Ok true =>
      let '(r, st) := TryAcquire st process weight in
      match r with
      | Err _ | Ok false =>
          let '(releaseErr, st) := Release st client weight in
          match releaseErr with
          | Some _ => (mkReserveResult None false batchBudgetScopeProcess (errors_Join (result_err r) releaseErr), st)
          | None => (mkReserveResult None false batchBudgetScopeProcess (result_err r), st)
          end
      | Ok true =>
          (mkReserveResult (Some (mkReservation client process weight false)) true batchBudgetScopeNone None, st)
      end
  end.

Definition tryReserveBatch (st : budgetStore) (client process : option nat) (weight : Z)
  : (option batchReservation * bool * option goerror) * budgetStore :=
  let '(r, st) := tryReserveBatchScoped st client process weight in
  ((rr_reservation r, rr_ok r, rr_err r), st).

Definition reservation_Weight (r : option batchReservation) : Z :=
  match r with None => 0 | Some r => br_weight r end.

(** [Release]: the error, the reservation afterwards and the store. *)
Definition reservation_Release (st : budgetStore) (r : option batchReservation)
  : option goerror * option batchReservation * budgetStore :=
  match r with
  | None => (Some (EWrap (sentinel_string errByteBudgetInvariant ++ ": nil batch reservation")
                         (ESentinel errByteBudgetInvariant)), None, st)
  | Some r =>
      if br_released r
      then (Some (EWrap (sentinel_string errByteBudgetInvariant ++ ": batch reservation released twice")
                        (ESentinel errByteBudgetInvariant)), Some r, st)
      else
        let r := mkReservation (br_client r) (br_process r) (br_weight r) true in
        let '(clientErr, st) := Release st (br_client r) (br_weight r) in
        let '(processErr, st) := Release st (br_process r) (br_weight r) in
        (errors_Join clientErr processErr, Some r, st)
  end.

(** ** decode_admission.go *)

Definition decodeAdmissionTinyBytes : Z := Z.shiftl 4 20.
Definition decodeAdmissionSmallBytes : Z := Z.shiftl 16 20.
Definition decodeAdmissionLargeBytes : Z := Z.shiftl 32 20.
Definition decodeAdmissionMaxBytes : Z := Z.shiftl 64 20.

(** [codec] is the estimator when the codec implements
    [DecodeAdmissionEstimator]. *)
Definition decodeAdmissionWeight (codec : option (bytes -> result DecodeAdmissionClass)) (data : bytes)
  : result Z :=
  match codec with
  | None => Ok decodeAdmissionMaxBytes
  | Some EstimateDecodeAdmission =>
      class ← EstimateDecodeAdmission data;
      Ok match class with
         | DecodeAdmissionTiny => decodeAdmissionTinyBytes
         | DecodeAdmissionSmall => decodeAdmissionSmallBytes
         | DecodeAdmissionLarge => decodeAdmissionLargeBytes
         | DecodeAdmissionCompressed | DecodeAdmissionAmbiguous => decodeAdmissionMaxBytes
         end
  end.

(** ** Many reservations

    The reservations of a process, in the order they were made, and what is
    done with them. *)
Record reservations := mkReservations { rs_store : budgetStore; rs_made : list batchReservation }.

Inductive reservationOp :=
| OpReserve (client process : option nat) (weight : Z)
| OpRelease (i : nat).

Definition reservationStep (s : reservations) (op : reservationOp) : reservations :=
  match op with
  | OpReserve client process weight =>
      let '(r, st) := tryReserveBatchScoped (rs_store s) client process weight in
      mkReservations st (rs_made s ++ option_list (rr_reservation r))
  | OpRelease i =>
      let '(_, r, st) := reservation_Release (rs_store s) (rs_made s !! i) in
      mkReservations st (match r with Some r => <[i := r]> (rs_made s) | None => rs_made s end)
  end.

Definition reservationRun (s : reservations) (ops : list reservationOp) : reservations :=
  fold_left reservationStep ops s.

(** The bytes a reservation holds of the budget at [l]. *)
Definition charge (l : nat) (r : batchReservation) : Z :=
  if br_released r then 0 else
  (if decide (br_client r = Some l) then br_weight r else 0) +
  (if decide (br_process r = Some l) then br_weight r else 0).

(** Budgets nobody has reserved from. *)
Definition fresh_store (st : budgetStore) : Prop :=
  map_Forall (fun _ b => budget_ok b /\ bb_used b = 0) st.

(** ** The methods on a store *)

Definition store_ok (st : budgetStore) : Prop := map_Forall (fun _ b => budget_ok b) st.

Definition valid (st : budgetStore) (b : option nat) : Prop := exists l v, b = Some l /\ st !! l = Some v.

(** Limits never change and no budget appears or disappears. *)
Definition same_limits (st st' : budgetStore) : Prop :=
  forall l, bb_limit <$> st' !! l = bb_limit <$> st !! l.

Definition used_at (st : budgetStore) (l : nat) : Z := Used st (Some l).
Definition on (b : option nat) (l : nat) (w : Z) : Z := if decide (b = Some l) then w else 0.

Lemma on_nonneg b l w : 0 < w -> 0 <= on b l w.
Proof. intros Hw. unfold on. destruct (decide (b = Some l)); lia. Qed.

Lemma deref_Some st b l v : deref st b = Some (l, v) <-> b = Some l /\ st !! l = Some v.
Proof.
  unfold deref. destruct b as [l'|]; simpl; [|naive_solver].
  destruct (st !! l') eqn:E; simpl; [|naive_solver]. split; [by intros [= -> ->]|].
  intros [[= ->] H]. rewrite E in H. by injection H as ->.
Qed.

Lemma used_at_insert st l v l' :
  used_at (<[l := v]> st) l' = if decide (l = l') then bb_used v else used_at st l'.
Proof.
  unfold used_at, Used, deref. simpl. destruct (decide (l = l')) as [->|Hn].
  - rewrite lookup_insert_eq. done.
  - by rewrite lookup_insert_ne.
Qed.

Lemma used_at_lookup st l v : st !! l = Some v -> used_at st l = bb_used v.
Proof. intros H. unfold used_at, Used, deref. simpl. by rewrite H. Qed.

Lemma same_limits_insert st l v v' :
  st !! l = Some v -> bb_limit v' = bb_limit v -> same_limits st (<[l := v']> st).
Proof.
  intros H Hl l'. destruct (decide (l = l')) as [->|Hn].
  - rewrite lookup_insert_eq, H. simpl. by f_equal.
  - by rewrite lookup_insert_ne.
Qed.

Lemma TryAcquire_spec st b w r st' :
  store_ok st -> TryAcquire st b w = (r, st') ->
  store_ok st' /\ same_limits st st' /\
  (forall l, used_at st' l = used_at st l + match r with Ok true => on b l w | _ => 0 end) /\
  match r with
  | Ok true => 0 < w /\ valid st b /\ Used st b + w <= Limit st b
  | Ok false => 0 < w <= Limit st b /\ valid st b /\ Limit st b < Used st b + w
  | Err _ => valid st b -> w <= 0 \/ Limit st b < w
  end.
Proof.
  intros Hok H. unfold TryAcquire in H. unfold Used, Limit. destruct (deref st b) as [[l v]|] eqn:E.
  - pose proof E as E'. apply deref_Some in E as [-> Hv]. pose proof (Hok _ _ Hv) as Hb.
    destruct (tryAcquireLocked v w) as [r' v'] eqn:Ht. injection H as <- <-.
    destruct (tryAcquire_grows _ _ _ _ Hb Ht) as (Hb' & Hg & Hu & Hf & Hp).
    split; [by apply map_Forall_insert_2|]. split; [apply (same_limits_insert _ _ v); [done|apply Hg]|].
    split.
    + intros l'. rewrite used_at_insert. unfold on. destruct (decide (l = l')) as [->|Hn].
      * rewrite Hu, (used_at_lookup _ _ _ Hv). rewrite decide_True by done. done.
      * destruct r' as [[]|]; rewrite ?(decide_False (P := Some l = Some l')) by congruence; lia.
    + pose proof (bo_used _ Hb') as Hbu. destruct Hg as (Hl & _). rewrite Hl, Hu in Hbu.
      assert (valid st (Some l)) as Hval by (by exists l, v).
      destruct r' as [[]|e].
      * specialize (Hp eq_refl). split_and!; try done; lia.
      * destruct (Hf eq_refl) as (_ & Hn & Hlt). split_and!; try done; lia.
      * intros _. rewrite tryAcquireLocked_spec in Ht by done.
        repeat case_bool; breflect; inversion Ht; lia.
  - injection H as <- <-. split; [done|]. split; [by intros l|]. split; [intros; lia|].
    intros (l & v & -> & Hv). unfold deref in E. simpl in E. rewrite Hv in E. done.
Qed.

Lemma Release_spec st b w e st' :
  store_ok st -> Release st b w = (e, st') ->
  store_ok st' /\ same_limits st st' /\
  (forall l, used_at st' l = used_at st l - match e with None => on b l w | _ => 0 end) /\
  (valid st b -> 0 < w <= Used st b -> e = None).
Proof.
  intros Hok H. unfold Release in H. unfold Used. destruct (deref st b) as [[l v]|] eqn:E.
  - apply deref_Some in E as [-> Hv]. pose proof (Hok _ _ Hv) as Hb.
    destruct (releaseLocked v w) as [r' v'] eqn:Ht. injection H as <- <-.
    destruct (release_grows _ _ _ _ Hb Ht) as (Hb' & Hg & Hu & _).
    split; [by apply map_Forall_insert_2|]. split; [apply (same_limits_insert _ _ v); [done|apply Hg]|].
    split.
    + intros l'. rewrite used_at_insert. unfold on. destruct (decide (l = l')) as [->|Hn].
      * rewrite Hu, (used_at_lookup _ _ _ Hv), decide_True by done. done.
      * rewrite (decide_False (P := Some l = Some l')) by congruence. destruct r'; lia.
    + intros _ Hw. rewrite releaseLocked_spec in Ht by done.
      repeat case_bool; breflect; inversion Ht; (done || lia).
  - injection H as <- <-. split; [done|]. split; [by intros l|]. split; [intros; lia|].
    intros (l & v & -> & Hv). unfold deref in E. simpl in E. rewrite Hv in E. done.
Qed.

Lemma valid_same st st' b : same_limits st st' -> valid st b <-> valid st' b.
Proof.
  intros H. unfold valid. split; intros (l & v & -> & Hv); specialize (H l); rewrite Hv in H; simpl in H.
  - destruct (st' !! l) as [v'|] eqn:E; [by exists l, v'|done].
  - destruct (st !! l) as [v'|] eqn:E; [by exists l, v'|done].
Qed.

Lemma same_limits_trans st1 st2 st3 : same_limits st1 st2 -> same_limits st2 st3 -> same_limits st1 st3.
Proof. intros H1 H2 l. by rewrite H2, H1. Qed.

Lemma Limit_same st st' b : same_limits st st' -> Limit st' b = Limit st b.
Proof.
  intros H. unfold Limit, deref. destruct b as [l|]; simpl; [|done]. specialize (H l).
  destruct (st !! l), (st' !! l); simpl in *; congruence.
Qed.

Lemma Used_used_at st b l v : b = Some l -> st !! l = Some v -> Used st b = used_at st l.
Proof. by intros -> ?. Qed.

Lemma Used_nonneg st b : store_ok st -> 0 <= Used st b.
Proof.
  intros Hok. unfold Used. destruct (deref st b) as [[l v]|] eqn:E; [|done].
  apply deref_Some in E as [-> Hv]. apply (bo_used _ (Hok _ _ Hv)).
Qed.

Lemma used_at_bounds st l : store_ok st -> 0 <= used_at st l.
Proof. intros Hok. by apply Used_nonneg. Qed.

(** All or nothing, whatever the pointers and the weight. *)
Lemma reserve_spec st c p w r st' :
  store_ok st -> tryReserveBatchScoped st c p w = (r, st') ->
  store_ok st' /\ same_limits st st' /\
  (forall l, used_at st' l = used_at st l + zsum (map (charge l) (option_list (rr_reservation r)))) /\
  match rr_reservation r with
  | Some x => rr_ok r = true /\ rr_err r = None /\ rr_scope r = batchBudgetScopeNone /\
      x = mkReservation c p w false /\ 0 < w /\ valid st c /\ valid st p
  | None => rr_ok r = false /\ rr_scope r <> batchBudgetScopeNone
  end.
Proof.
  intros Hok H. unfold tryReserveBatchScoped in H.
  destruct (TryAcquire st c w) as [r1 st1] eqn:E1.
  destruct (TryAcquire_spec _ _ _ _ _ Hok E1) as (Hok1 & Hl1 & Hu1 & Hr1).
  destruct r1 as [[]|e1]; [|injection H as <- <-; split_and!; try done; intros l; rewrite Hu1; reflexivity..].
  destruct (TryAcquire st1 p w) as [r2 st2] eqn:E2.
  destruct (TryAcquire_spec _ _ _ _ _ Hok1 E2) as (Hok2 & Hl2 & Hu2 & Hr2).
  destruct Hr1 as (Hw & (l1 & v1 & -> & Hv1) & Hfit1).
  assert (valid st2 (Some l1)) as Hval2.
  { apply (valid_same st1); [done|]. apply (valid_same st); [done|]. by exists l1, v1. }
  assert (forall e st3, Release st2 (Some l1) w = (e, st3) ->
    (forall l, used_at st2 l = used_at st1 l) -> e = None /\ store_ok st3 /\ same_limits st st3 /\
    (forall l, used_at st3 l = used_at st l)) as Hback.
  { intros e st3 E3 Hsame. destruct (Release_spec _ _ _ _ _ Hok2 E3) as (Hok3 & Hl3 & Hu3 & Hn).
    destruct Hval2 as (? & v2 & [= <-] & Hv2).
    assert (e = None) as ->.
    { apply Hn; [by exists l1, v2|]. rewrite (Used_used_at _ _ _ _ eq_refl Hv2), Hsame, Hu1.
      unfold on. rewrite decide_True by done. pose proof (used_at_bounds _ l1 Hok). lia. }
    split_and!; try done; [by eapply same_limits_trans; [eapply same_limits_trans|]|].
    intros l. rewrite Hu3, Hsame, Hu1. lia. }
  destruct r2 as [[]|e2].
  - injection H as <- <-. simpl.
    destruct Hr2 as (_ & Hvp & _). apply (valid_same st st1) in Hvp; [|done].
    split_and!; try done; [by eapply same_limits_trans| |by exists l1, v1].
    intros l. rewrite Hu2, Hu1. simpl. unfold charge, on, zsum. simpl. lia.
  - destruct (Release st2 (Some l1) w) as [e3 st3] eqn:E3.
    destruct (Hback _ _ eq_refl ltac:(intros l; rewrite Hu2; lia)) as (-> & Hok3 & Hl3 & Hu3).
    injection H as <- <-. split_and!; try done. intros l. rewrite Hu3. unfold zsum. simpl. lia.
  - destruct (Release st2 (Some l1) w) as [e3 st3] eqn:E3.
    destruct (Hback _ _ eq_refl ltac:(intros l; rewrite Hu2; lia)) as (-> & Hok3 & Hl3 & Hu3).
    injection H as <- <-. split_and!; try done. intros l. rewrite Hu3. unfold zsum. simpl. lia.
Qed.

(** A live reservation and the bytes it still holds. *)
Definition reservation_ok (st : budgetStore) (r : batchReservation) : Prop :=
  0 < br_weight r /\ valid st (br_client r) /\ valid st (br_process r).

Record reservations_ok (s : reservations) : Prop := {
  ro_store : store_ok (rs_store s);
  ro_made : Forall (reservation_ok (rs_store s)) (rs_made s);
  ro_sum : forall l, used_at (rs_store s) l = zsum (map (charge l) (rs_made s)) }.

Lemma charge_nonneg st l r : reservation_ok st r -> 0 <= charge l r.
Proof. intros [Hw _]. unfold charge. repeat case_match; lia. Qed.

Lemma reservation_ok_same st st' r : same_limits st st' -> reservation_ok st r -> reservation_ok st' r.
Proof. intros Hs (Hw & Hc & Hp). split_and!; [done|by apply (valid_same st)|by apply (valid_same st)]. Qed.

(** Releasing a live reservation succeeds and gives exactly its bytes back. *)
Lemma release_live st r :
  store_ok st -> reservation_ok st r -> br_released r = false ->
  (forall l, charge l r <= used_at st l) ->
  exists st', reservation_Release st (Some r) =
    (None, Some (mkReservation (br_client r) (br_process r) (br_weight r) true), st') /\
  store_ok st' /\ same_limits st st' /\ forall l, used_at st' l = used_at st l - charge l r.
Proof.
  intros Hok (Hw & (lc & vc & Hc & Hvc) & (lp & vp & Hp & Hvp)) Hrel Hcov.
  unfold reservation_Release. rewrite Hrel. cbn [br_client br_process br_weight].
  assert (forall l, charge l r = on (br_client r) l (br_weight r) + on (br_process r) l (br_weight r)) as Hch.
  { intros l. unfold charge. by rewrite Hrel. }
  assert (on (br_client r) lc (br_weight r) = br_weight r) as Honc by (unfold on; by rewrite decide_True).
  assert (on (br_process r) lp (br_weight r) = br_weight r) as Honp by (unfold on; by rewrite decide_True).
  destruct (Release st (br_client r) (br_weight r)) as [e1 st1] eqn:E1.
  destruct (Release_spec _ _ _ _ _ Hok E1) as (Hok1 & Hl1 & Hu1 & Hn1).
  assert (e1 = None) as ->.
  { apply Hn1; [by exists lc, vc|]. rewrite (Used_used_at _ _ _ _ Hc Hvc).
    specialize (Hcov lc). rewrite Hch in Hcov.
    pose proof (on_nonneg (br_process r) lc (br_weight r)). lia. }
  destruct (Release st1 (br_process r) (br_weight r)) as [e2 st2] eqn:E2.
  destruct (Release_spec _ _ _ _ _ Hok1 E2) as (Hok2 & Hl2 & Hu2 & Hn2).
  assert (valid st1 (br_process r)) as (lp' & vp' & Hp' & Hvp') by (apply (valid_same st); [done|by exists lp, vp]).
  assert (lp' = lp) as -> by congruence.
  assert (e2 = None) as ->.
  { apply Hn2; [by exists lp, vp'|]. rewrite (Used_used_at _ _ _ _ Hp Hvp'), Hu1.
    specialize (Hcov lp). rewrite Hch in Hcov. lia. }
  simpl. exists st2. split; [done|]. split; [exact Hok2|]. split; [by eapply same_limits_trans|].
  intros l. rewrite Hu2, Hu1, Hch. lia.
Qed.

Lemma reservationStep_ok s op : reservations_ok s -> reservations_ok (reservationStep s op).
Proof.
  intros [Hst Hmade Hsum]. destruct op as [c p w|i]; simpl.
  - destruct (tryReserveBatchScoped (rs_store s) c p w) as [r st'] eqn:E.
    destruct (reserve_spec _ _ _ _ _ _ Hst E) as (Hst' & Hl & Hu & Hr).
    split; simpl; [done| |].
    + apply Forall_app. split; [eapply Forall_impl; [exact Hmade|]; intros x; by apply reservation_ok_same|].
      destruct (rr_reservation r) as [x|]; simpl; [|constructor].
      destruct Hr as (_ & _ & _ & -> & Hw & Hvc & Hvp). constructor; [|constructor].
      split_and!; [done|by apply (valid_same (rs_store s))|by apply (valid_same (rs_store s))].
    + intros l. rewrite map_app, zsum_app, Hu, Hsum. done.
  - destruct (rs_made s !! i) as [r|] eqn:Hi; [|by split].
    pose proof (Forall_lookup_1 _ _ _ _ Hmade Hi) as Hr.
    destruct (br_released r) eqn:Hrel.
    { unfold reservation_Release. rewrite Hrel. rewrite list_insert_id by done. by split. }
    destruct (release_live _ _ Hst Hr Hrel) as (st' & -> & Hst' & Hl & Hu).
    { intros l. rewrite Hsum. apply (zsum_map_le (charge l) (rs_made s) i r); [|done].
      eapply Forall_impl; [exact Hmade|]. intros x. apply charge_nonneg. }
    split; simpl; [done| |].
    + apply Forall_insert; [eapply Forall_impl; [exact Hmade|]; intros x; by apply reservation_ok_same|].
      by apply (reservation_ok_same (rs_store s)).
    + intros l. rewrite (zsum_map_insert _ _ _ r), Hu, Hsum by done.
      change (charge l (mkReservation (br_client r) (br_process r) (br_weight r) true)) with 0. lia.
Qed.

Lemma reservationRun_ok s ops : reservations_ok s -> reservations_ok (reservationRun s ops).
Proof.
  revert s. induction ops as [|op ops IH]; intros s Hs; [done|]. simpl. apply IH, reservationStep_ok, Hs.
Qed.

Lemma fresh_ok st : fresh_store st -> reservations_ok (mkReservations st []).
Proof.
  intros H. split; simpl; [|constructor|].
  - intros l b Hb. by apply (H l b).
  - intros l. unfold used_at, Used, deref. simpl. destruct (st !! l) as [b|] eqn:E; [|done]. by apply (H l b).
Qed.

(** ** Properties *)

Definition fits (st : budgetStore) (b : option nat) (w : Z) : bool := Used st b + w <=? Limit st b.

(** [tryReserveBatchScoped] is all or nothing.  For two budgets that could
    hold the weight when empty, it succeeds exactly when both have room, and
    then charges each budget the weight; otherwise every budget is left as it
    was, there is no error, and the scope names the first budget that is
    full. *)
Theorem tryReserveBatchScoped_correct st client process weight :
  store_ok st -> client <> process -> valid st client -> valid st process ->
  0 < weight -> weight <= Limit st client -> weight <= Limit st process ->
  exists st', tryReserveBatchScoped st client process weight =
    (if fits st client weight && fits st process weight
     then mkReserveResult (Some (mkReservation client process weight false)) true batchBudgetScopeNone None
     else mkReserveResult None false
            (if fits st client weight then batchBudgetScopeProcess else batchBudgetScopeClient) None, st') /\
    forall l, used_at st' l = used_at st l +
      (if fits st client weight && fits st process weight
       then on client l weight + on process l weight else 0).
Proof.
  intros Hok Hne Hvc Hvp Hw Hlc Hlp.
  destruct (tryReserveBatchScoped st client process weight) as [r st'] eqn:E. exists st'.
  destruct (reserve_spec _ _ _ _ _ _ Hok E) as (_ & _ & Hu & _).
  unfold tryReserveBatchScoped in E. destruct (TryAcquire st client weight) as [r1 st1] eqn:E1.
  destruct (TryAcquire_spec _ _ _ _ _ Hok E1) as (Hok1 & Hl1 & Hu1 & Hr1). unfold fits.
  destruct r1 as [[]|e1]; [|rewrite (proj2 (Z.leb_gt _ _)) by lia|specialize (Hr1 Hvc); lia].
  - rewrite (proj2 (Z.leb_le _ _)) by lia. rsimpl.
    assert (Used st1 process = Used st process) as Hup.
    { destruct Hvp as (lp & vp & -> & Hv). change (used_at st1 lp = used_at st lp).
      rewrite Hu1. unfold on. rewrite decide_False by done. lia. }
    pose proof (Limit_same _ _ process Hl1) as Hlim.
    destruct (TryAcquire st1 process weight) as [r2 st2] eqn:E2.
    destruct (TryAcquire_spec _ _ _ _ _ Hok1 E2) as (Hok2 & Hl2 & Hu2 & Hr2).
    destruct r2 as [[]|e2]; [rewrite (proj2 (Z.leb_le _ _)) by lia|rewrite (proj2 (Z.leb_gt _ _)) by lia|].
    + injection E as <- <-. split; [done|]. intros l. rewrite Hu2, Hu1. lia.
    + destruct (Release st2 client weight) as [[e|] st3] eqn:E3; injection E as <- <-.
      * exfalso. destruct (Release_spec _ _ _ _ _ Hok2 E3) as (_ & _ & _ & Hn).
        assert (valid st2 client) as Hv2 by (apply (valid_same st1), (valid_same st); done).
        destruct Hvc as (lc & vc & -> & Hvc). specialize (Hn Hv2).
        change (Used st2 (Some lc)) with (used_at st2 lc) in Hn. rewrite Hu2, Hu1 in Hn.
        unfold on in Hn. rewrite decide_True in Hn by done. pose proof (used_at_bounds _ lc Hok).
        discriminate Hn. lia.
      * split; [done|]. intros l. rewrite Hu. reflexivity.
    + exfalso. specialize (Hr2 (proj1 (valid_same _ _ _ Hl1) Hvp)). lia.
  - injection E as <- <-. split; [done|]. intros l. rewrite Hu. reflexivity.
Qed.

(** C15. Over any history of reservations and releases, releases repeated or of
    unknown reservations included: every budget holds exactly the bytes of the
    live reservations; releasing a live one succeeds, releasing it again is an
    error that changes nothing; and when all are released nothing is held. *)
Theorem reservations_balanced st ops :
  fresh_store st ->
  let s := reservationRun (mkReservations st []) ops in
  (forall l, used_at (rs_store s) l = zsum (map (charge l) (rs_made s))) /\
  (forall i r, rs_made s !! i = Some r -> exists e r' st',
     reservation_Release (rs_store s) (Some r) = (e, Some r', st') /\
     (exists e2, reservation_Release st' (Some r') = (Some e2, Some r', st')) /\
     (e = None <-> br_released r = false) /\
     forall l, used_at st' l = used_at (rs_store s) l - charge l r) /\
  (Forall (fun r => br_released r = true) (rs_made s) -> forall l, used_at (rs_store s) l = 0).
Proof.
  intros Hst s. destruct (reservationRun_ok _ ops (fresh_ok _ Hst)) as [Hok Hmade Hsum]. fold s in Hok, Hmade, Hsum.
  split_and!; [done| |].
  - intros i r Hi. pose proof (Forall_lookup_1 _ _ _ _ Hmade Hi) as Hr.
    destruct (br_released r) eqn:Hrel.
    + unfold reservation_Release. rewrite Hrel. do 3 eexists. split; [done|]. rewrite Hrel. split_and!; [by eexists|done|].
      intros l. unfold charge. rewrite Hrel. lia.
    + destruct (release_live _ _ Hok Hr Hrel) as (st' & -> & Hst' & Hl & Hu).
      { intros l. rewrite Hsum. apply (zsum_map_le (charge l) _ i r); [|done].
        eapply Forall_impl; [exact Hmade|]. intros x. apply charge_nonneg. }
      do 3 eexists. split; [done|]. split_and!; [by eexists|done|done].
  - intros Hall l. rewrite Hsum. clear Hmade Hsum. induction Hall as [|r rs Hr _ IH]; [done|].
    simpl. rewrite zsum_cons, IH. unfold charge. by rewrite Hr.
Qed.

Definition two_budgets : budgetStore :=
  {[ 0%nat := mkByteBudget 10 0 (Some 0%nat) 1 []; 1%nat := mkByteBudget 6 0 (Some 0%nat) 1 [] ]}.

Lemma empty_budget_ok limit : 0 <= limit <= max_int64 -> budget_ok (mkByteBudget limit 0 (Some 0%nat) 1 []).
Proof. intros H. split; simpl; try lia; [split; [lia|set_solver]|constructor|constructor]. Qed.

Lemma two_budgets_fresh : fresh_store two_budgets.
Proof.
  unfold two_budgets. apply map_Forall_insert_2; [split; [apply empty_budget_ok; by vm_compute|done]|].
  apply map_Forall_insert_2; [split; [apply empty_budget_ok; by vm_compute|done]|]. apply map_Forall_empty.
Qed.

Lemma two_budgets_ok : store_ok two_budgets.
Proof. intros l b H. by apply (two_budgets_fresh l b). Qed.

(** Six bytes fit both budgets. *)
Lemma tryReserveBatchScoped_correct_witness :
  exists st', tryReserveBatchScoped two_budgets (Some 0%nat) (Some 1%nat) 6 =
    (mkReserveResult (Some (mkReservation (Some 0%nat) (Some 1%nat) 6 false)) true batchBudgetScopeNone None, st').
Proof.
  destruct (tryReserveBatchScoped_correct two_budgets (Some 0%nat) (Some 1%nat) 6 two_budgets_ok ltac:(done)
    ltac:(by do 2 eexists) ltac:(by do 2 eexists) ltac:(by vm_compute) ltac:(by vm_compute) ltac:(by vm_compute))
    as (st' & H & _).
  exists st'. exact H.
Defined.

Lemma reservations_balanced_witness :
  let s := reservationRun (mkReservations two_budgets [])
             [OpReserve (Some 0%nat) (Some 1%nat) 4; OpReserve (Some 0%nat) (Some 1%nat) 4; OpRelease 0; OpRelease 0] in
  length (rs_made s) = 1%nat /\ used_at (rs_store s) 1 = 0.
Proof.
  split; [reflexivity|].
  apply (reservations_balanced two_budgets
    [OpReserve (Some 0%nat) (Some 1%nat) 4; OpReserve (Some 0%nat) (Some 1%nat) 4; OpRelease 0; OpRelease 0]
    two_budgets_fresh).
  repeat constructor.
Defined.
