(* ===== verification/DeferredRing.v ===== *)
(** * The ring of deferred queues

    sdk/queue.go, [deferredQueueRing]: a fixed ring of pointers.  It is a
    bounded first-in first-out queue, and it keeps no pointer it has given
    out. *)
From S2P Require Import Prelude.

(** A [*queueState] is [None] (nil) or an address. *)
Record deferredQueueRing := mkRing { dq_items : list (option nat); dq_head : nat; dq_size : nat }.

Definition zeroRing : deferredQueueRing := mkRing [] 0 0.

Definition newDeferredQueueRing (capacity : nat) : deferredQueueRing :=
  mkRing (replicate capacity None) 0 0.

Definition ring_Len (q : deferredQueueRing) : nat := dq_size q.

Definition ring_Push (q : deferredQueueRing) (state : option nat) : bool * deferredQueueRing :=
  match state with
  | None => (false, q)
  | Some _ =>
      if (dq_size q =? length (dq_items q))%nat then (false, q) else
      let index := ((dq_head q + dq_size q) mod length (dq_items q))%nat in
      (true, mkRing (<[index := state]> (dq_items q)) (dq_head q) (S (dq_size q)))
  end.

Definition ring_Pop (q : deferredQueueRing) : option nat * deferredQueueRing :=
  if (dq_size q =? 0)%nat then (None, q) else
  let state := default None (dq_items q !! dq_head q) in
  (state, mkRing (<[dq_head q := None]> (dq_items q))
                 ((dq_head q + 1) mod length (dq_items q))%nat (dq_size q - 1)).

(** ** The queue it stands for *)

(** The slot [i] places after the head. *)
Definition slot (q : deferredQueueRing) (i : nat) : nat := (dq_head q + i) mod length (dq_items q).

Record ring_repr (q : deferredQueueRing) (l : list nat) : Prop := {
  rr_head : (dq_head q < length (dq_items q))%nat \/ dq_items q = [];
  rr_size : dq_size q = length l /\ (length l <= length (dq_items q))%nat;
  rr_full : forall i, (i < length (dq_items q))%nat -> dq_items q !! slot q i = Some (l !! i) }.

Lemma mod_wrap h i n : (h < n)%nat -> (i <= n)%nat ->
  ((h + i) mod n = if decide (h + i < n)%nat then h + i else h + i - n)%nat.
Proof.
  intros Hh Hi. destruct (decide (h + i < n)%nat) as [Hlt|Hge]; [by apply Nat.mod_small|].
  replace (h + i)%nat with ((h + i - n) + 1 * n)%nat at 1 by lia. rewrite Nat.Div0.mod_add.
  apply Nat.mod_small. lia.
Qed.

Lemma zero_repr : ring_repr zeroRing [].
Proof. split; simpl; [by right|done|intros; lia]. Qed.

Lemma new_repr capacity : ring_repr (newDeferredQueueRing capacity) [].
Proof.
  split; simpl; rewrite ?length_replicate.
  - destruct capacity; [by right|left; lia].
  - split; [done|lia].
  - intros i Hi. unfold slot. simpl. rewrite length_replicate, Nat.mod_small by done.
    by apply lookup_replicate.
Qed.

Lemma push_repr q l x :
  ring_repr q l -> (length l < length (dq_items q))%nat ->
  exists q', ring_Push q (Some x) = (true, q') /\ ring_repr q' (l ++ [x]) /\
    length (dq_items q') = length (dq_items q).
Proof.
  intros [Hh [Hs Hc] Hf] Hlt. unfold ring_Push. rewrite Hs, (proj2 (Nat.eqb_neq _ _)) by lia.
  destruct Hh as [Hh|Hn]; [|rewrite Hn in Hlt; simpl in Hlt; lia].
  eexists. split; [done|]. simpl. rewrite length_insert. split; [|done].
  split; simpl; rewrite ?length_insert, ?length_app; simpl; [by left|lia|].
  intros i Hi. specialize (Hf i Hi). unfold slot in *. simpl. rewrite length_insert.
  rewrite !mod_wrap in * by lia.
  destruct (decide (i = length l)) as [->|Hne].
  - rewrite lookup_app_r, Nat.sub_diag by lia. simpl.
    rewrite list_lookup_insert_eq; [done|]. case_decide; lia.
  - rewrite list_lookup_insert_ne by (repeat case_decide; lia). rewrite Hf. f_equal.
    destruct (decide (i < length l)%nat) as [Hl|Hl]; [by rewrite lookup_app_l|].
    rewrite !lookup_ge_None_2; [done|rewrite length_app; simpl; lia|lia].
Qed.

Lemma push_full q l x :
  ring_repr q l -> length l = length (dq_items q) -> ring_Push q (Some x) = (false, q).
Proof.
  intros [_ [Hs _] _] He. unfold ring_Push. by rewrite Hs, He, Nat.eqb_refl.
Qed.

Lemma pop_repr q x l :
  ring_repr q (x :: l) ->
  exists q', ring_Pop q = (Some x, q') /\ ring_repr q' l /\ length (dq_items q') = length (dq_items q).
Proof.
  intros [Hh [Hs Hc] Hf]. unfold ring_Pop. rewrite Hs. simpl in *.
  destruct Hh as [Hh|Hn]; [|rewrite Hn in Hc; simpl in Hc; lia].
  pose proof (Hf 0%nat ltac:(lia)) as H0. unfold slot in H0.
  rewrite Nat.add_0_r, Nat.mod_small in H0 by done. rewrite H0. simpl.
  eexists. split; [done|]. simpl. rewrite length_insert. split; [|done].
  rewrite mod_wrap by lia.
  split; simpl; rewrite ?length_insert.
  - left. case_decide; lia.
  - lia.
  - intros i Hi. unfold slot in *. simpl. rewrite length_insert.
    destruct (decide (S i < length (dq_items q))%nat) as [Hlt|Hge].
    + specialize (Hf (S i) Hlt). rewrite !mod_wrap in * by (repeat case_decide; lia).
      simpl in Hf. rewrite <- Hf. rewrite list_lookup_insert_ne by (repeat case_decide; lia).
      f_equal. repeat case_decide; lia.
    + rewrite (lookup_ge_None_2 l) by lia. rewrite mod_wrap by (repeat case_decide; lia).
      replace (if decide _ then _ else _) with (dq_head q) by (repeat case_decide; lia).
      by apply list_lookup_insert_eq.
Qed.

Lemma pop_empty q : ring_repr q [] -> ring_Pop q = (None, q).
Proof. intros [_ [Hs _] _]. unfold ring_Pop. by rewrite Hs. Qed.

(** ** Refinement *)

Inductive ringOp := RPush (x : nat) | RPop.
Inductive ringOut := OPush (ok : bool) | OPop (x : option nat).

Fixpoint ringRun (q : deferredQueueRing) (ops : list ringOp) : list ringOut :=
  match ops with
  | [] => []
  | RPush x :: ops => let '(ok, q) := ring_Push q (Some x) in OPush ok :: ringRun q ops
  | RPop :: ops => let '(x, q) := ring_Pop q in OPop x :: ringRun q ops
  end.

(** The specification: a list that refuses to exceed [capacity]. *)
Fixpoint fifoRun (capacity : nat) (l : list nat) (ops : list ringOp) : list ringOut :=
  match ops with
  | [] => []
  | RPush x :: ops =>
      if (length l <? capacity)%nat then OPush true :: fifoRun capacity (l ++ [x]) ops
      else OPush false :: fifoRun capacity l ops
  | RPop :: ops => OPop (head l) :: fifoRun capacity (tail l) ops
  end.

Lemma ring_refines q l ops :
  ring_repr q l -> ringRun q ops = fifoRun (length (dq_items q)) l ops.
Proof.
  revert q l. induction ops as [|[x|] ops IH]; intros q l H; cbn [ringRun fifoRun]; [done| |].
  - destruct (Nat.ltb_spec (length l) (length (dq_items q))) as [Hlt|Hge].
    + destruct (push_repr _ _ x H Hlt) as (q' & -> & Hr & <-). f_equal. by apply IH.
    + rewrite (push_full _ l) by (try done; pose proof (rr_size _ _ H); lia). f_equal. by apply IH.
  - destruct l as [|y l].
    + rewrite pop_empty by done. f_equal. by apply IH.
    + destruct (pop_repr _ _ _ H) as (q' & -> & Hr & <-). f_equal. by apply IH.
Qed.

(** Through any sequence of pushes and pops, the ring answers exactly like a
    first-in first-out queue that holds at most [capacity] elements. *)
Theorem deferredQueueRing_fifo capacity ops :
  ringRun (newDeferredQueueRing capacity) ops = fifoRun capacity [] ops.
Proof.
  rewrite (ring_refines _ [] _ (new_repr capacity)). simpl. by rewrite length_replicate.
Qed.
