(* ===== verification/Queue.v ===== *)
(** * The queue scheduler

    sdk/queue.go: the queues a connection synchronises.  A NOTICE makes a queue
    known; at most [maxActiveQueues] queues are active (being pulled), the
    others wait in the deferred ring.  An active queue has a pull request on
    its way, or is waiting for the response, or has a batch being handled.

    [*queueState] values are shared by the map of queues, the ring, the channel
    of pull requests and the workers: they live in a heap ([r_heap]) and are
    referred to by address.  Each definition below is one critical section of
    queueMu together with the code around it. *)
From Stdlib Require Import String.
From S2P Require Import Prelude Protocol Errors Config RetainedWeight ByteBudget ResourceBudgets DeferredRing.
Local Open Scope string_scope.
Local Open Scope Z_scope.

Definition maxActiveQueues : Z := 256.
Definition pullWorkerCount : nat := 8.
Definition pullRequestCapacity : nat := 256.
Definition queueResponseTimeout : Z := 30 * 1000000000.
Definition minQueueWeight : Z := Z.shiftl 1 10.
Definition maxTrackedQueues : nat := Z.to_nat (connectionQueueBudgetBytes / minQueueWeight).

(** ** Data *)

Record queueKey := mkQueueKey { qk_appKey : string; qk_name : string; qk_domain : string }.

#[export] Instance queueKey_eq_dec : EqDecision queueKey.
Proof. solve_decision. Defined.

#[export] Instance queueKey_countable : Countable queueKey :=
  inj_countable' (fun k => (qk_appKey k, qk_name k, qk_domain k))
                 (fun p => mkQueueKey p.1.1 p.1.2 p.2) ltac:(by intros []).

Definition newQueueKey (j : JID) : queueKey := mkQueueKey (j_AppKey j) (j_Name j) (j_Domain j).

Definition queueKey_String (k : queueKey) : string :=
  "app_bytes=" ++ pretty (slen (qk_appKey k)) ++ "/name_bytes=" ++ pretty (slen (qk_name k)) ++
  "/domain_bytes=" ++ pretty (slen (qk_domain k)).

Inductive queuePhase := queueIdle | queueDeferred | queueActive.

#[export] Instance queuePhase_eq_dec : EqDecision queuePhase.
Proof. solve_decision. Defined.

(** [q_pullSentAt] is [None] for the zero [time.Time]. *)
Record queueState := mkQueue {
  q_identity : queueKey; q_jid : JID; q_key : Z; q_phase : queuePhase; q_processing : bool;
  q_noticePending : bool; q_pullQueued : bool; q_pullInFlight : bool; q_pullSentAt : option Z;
  q_weight : Z }.

(** A batch on its way to a handler; [bj_run] is the generation of its run. *)
Record batchJob := mkBatchJob {
  bj_queue : queueKey; bj_d : Sync; bj_run : Z; bj_reservation : option batchReservation }.

(** The part of the Client a run's queues use: the batch budgets, the channel
    of batches and the counters. *)
Record batchClient := mkBatchClient {
  bc_store : budgetStore; bc_batchBudget : option nat; bc_processBatchBudget : option nat;
  bc_batches : list batchJob; bc_generation : Z; bc_clientBatchRejects : Z; bc_processBatchRejects : Z }.

(** The queue part of a [connectionRun], with the process-wide
    [processQueueBudget].  [r_cancelled] is [r.ctx.Err() <> nil], [r_closed]
    that [closeOnce] has run, [r_finalized] that [finalizeOnce] has. *)
Record connectionRun := mkRun {
  r_heap : gmap nat queueState;
  r_queues : option (gmap queueKey nat);
  r_deferred : deferredQueueRing;
  r_pullRequests : option (list nat);
  r_queueBudget : option byteBudget;
  r_processQueueBudget : byteBudget;
  r_queueTimeout : Z;
  r_processBatchBudget : option nat;
  r_activeQueues : Z;
  r_capacityHits : Z;
  r_generation : Z;
  r_cancelled : bool;
  r_closed : bool;
  r_finalized : bool;
  r_lastErr : option goerror;
  r_client : batchClient }.

(** *** Field updates *)

Definition set_heap h r := mkRun h (r_queues r) (r_deferred r) (r_pullRequests r) (r_queueBudget r) (r_processQueueBudget r) (r_queueTimeout r) (r_processBatchBudget r) (r_activeQueues r) (r_capacityHits r) (r_generation r) (r_cancelled r) (r_closed r) (r_finalized r) (r_lastErr r) (r_client r).
Definition set_queues m r := mkRun (r_heap r) m (r_deferred r) (r_pullRequests r) (r_queueBudget r) (r_processQueueBudget r) (r_queueTimeout r) (r_processBatchBudget r) (r_activeQueues r) (r_capacityHits r) (r_generation r) (r_cancelled r) (r_closed r) (r_finalized r) (r_lastErr r) (r_client r).
Definition set_deferred d r := mkRun (r_heap r) (r_queues r) d (r_pullRequests r) (r_queueBudget r) (r_processQueueBudget r) (r_queueTimeout r) (r_processBatchBudget r) (r_activeQueues r) (r_capacityHits r) (r_generation r) (r_cancelled r) (r_closed r) (r_finalized r) (r_lastErr r) (r_client r).
Definition set_pullRequests c r := mkRun (r_heap r) (r_queues r) (r_deferred r) c (r_queueBudget r) (r_processQueueBudget r) (r_queueTimeout r) (r_processBatchBudget r) (r_activeQueues r) (r_capacityHits r) (r_generation r) (r_cancelled r) (r_closed r) (r_finalized r) (r_lastErr r) (r_client r).
Definition set_budgets lb pb r := mkRun (r_heap r) (r_queues r) (r_deferred r) (r_pullRequests r) lb pb (r_queueTimeout r) (r_processBatchBudget r) (r_activeQueues r) (r_capacityHits r) (r_generation r) (r_cancelled r) (r_closed r) (r_finalized r) (r_lastErr r) (r_client r).
Definition set_queueTimeout t r := mkRun (r_heap r) (r_queues r) (r_deferred r) (r_pullRequests r) (r_queueBudget r) (r_processQueueBudget r) t (r_processBatchBudget r) (r_activeQueues r) (r_capacityHits r) (r_generation r) (r_cancelled r) (r_closed r) (r_finalized r) (r_lastErr r) (r_client r).
Definition set_activeQueues n r := mkRun (r_heap r) (r_queues r) (r_deferred r) (r_pullRequests r) (r_queueBudget r) (r_processQueueBudget r) (r_queueTimeout r) (r_processBatchBudget r) n (r_capacityHits r) (r_generation r) (r_cancelled r) (r_closed r) (r_finalized r) (r_lastErr r) (r_client r).
Definition set_capacityHits n r := mkRun (r_heap r) (r_queues r) (r_deferred r) (r_pullRequests r) (r_queueBudget r) (r_processQueueBudget r) (r_queueTimeout r) (r_processBatchBudget r) (r_activeQueues r) n (r_generation r) (r_cancelled r) (r_closed r) (r_finalized r) (r_lastErr r) (r_client r).
Definition set_dead c cl e r := mkRun (r_heap r) (r_queues r) (r_deferred r) (r_pullRequests r) (r_queueBudget r) (r_processQueueBudget r) (r_queueTimeout r) (r_processBatchBudget r) (r_activeQueues r) (r_capacityHits r) (r_generation r) c cl (r_finalized r) e (r_client r).
Definition set_finalized f r := mkRun (r_heap r) (r_queues r) (r_deferred r) (r_pullRequests r) (r_queueBudget r) (r_processQueueBudget r) (r_queueTimeout r) (r_processBatchBudget r) (r_activeQueues r) (r_capacityHits r) (r_generation r) (r_cancelled r) (r_closed r) f (r_lastErr r) (r_client r).
Definition set_client c r := mkRun (r_heap r) (r_queues r) (r_deferred r) (r_pullRequests r) (r_queueBudget r) (r_processQueueBudget r) (r_queueTimeout r) (r_processBatchBudget r) (r_activeQueues r) (r_capacityHits r) (r_generation r) (r_cancelled r) (r_closed r) (r_finalized r) (r_lastErr r) c.

Definition qset_phase p q := mkQueue (q_identity q) (q_jid q) (q_key q) p (q_processing q) (q_noticePending q) (q_pullQueued q) (q_pullInFlight q) (q_pullSentAt q) (q_weight q).
Definition qset_processing b q := mkQueue (q_identity q) (q_jid q) (q_key q) (q_phase q) b (q_noticePending q) (q_pullQueued q) (q_pullInFlight q) (q_pullSentAt q) (q_weight q).
Definition qset_notice b q := mkQueue (q_identity q) (q_jid q) (q_key q) (q_phase q) (q_processing q) b (q_pullQueued q) (q_pullInFlight q) (q_pullSentAt q) (q_weight q).
Definition qset_pullQueued b q := mkQueue (q_identity q) (q_jid q) (q_key q) (q_phase q) (q_processing q) (q_noticePending q) b (q_pullInFlight q) (q_pullSentAt q) (q_weight q).
Definition qset_inFlight b q := mkQueue (q_identity q) (q_jid q) (q_key q) (q_phase q) (q_processing q) (q_noticePending q) (q_pullQueued q) b (q_pullSentAt q) (q_weight q).
Definition qset_sentAt t q := mkQueue (q_identity q) (q_jid q) (q_key q) (q_phase q) (q_processing q) (q_noticePending q) (q_pullQueued q) (q_pullInFlight q) t (q_weight q).
Definition qset_key k q := mkQueue (q_identity q) (q_jid q) k (q_phase q) (q_processing q) (q_noticePending q) (q_pullQueued q) (q_pullInFlight q) (q_pullSentAt q) (q_weight q).
Definition qset_jid j w q := mkQueue (q_identity q) j (q_key q) (q_phase q) (q_processing q) (q_noticePending q) (q_pullQueued q) (q_pullInFlight q) (q_pullSentAt q) w.

Definition queues_of (r : connectionRun) : gmap queueKey nat := default ∅ (r_queues r).
Definition requests_of (r : connectionRun) : list nat := default [] (r_pullRequests r).

(** [upd l f r]: the assignments [f] to the fields of [*l]. *)
Definition upd (l : nat) (f : queueState -> queueState) (r : connectionRun) : connectionRun :=
  set_heap (alter f l (r_heap r)) r.

(** ** Validation and weight *)

Definition validateQueueJID (j : JID) : option goerror :=
  let components := [j_AppKey j; j_Name j; j_Domain j; j_ClientResource j] in
  if existsb (fun c => slen c >? MaxJIDComponentBytes) components
  then Some (newError ErrProtocolLimit "queue jid" ("component exceeds " ++ pretty MaxJIDComponentBytes ++ " bytes"))
  else if zsum (map slen components) >? MaxJIDBytes
  then Some (newError ErrProtocolLimit "queue jid" ("total length exceeds " ++ pretty MaxJIDBytes ++ " bytes"))
  else None.

Definition queueRetainedWeight (j : JID) : Z :=
  let bytes := i64 (minQueueWeight +
    i64 (slen (j_AppKey j) + slen (j_Name j) + slen (j_Domain j) + slen (j_ClientResource j))) in
  i64 ((i64 (bytes + minQueueWeight - 1) ÷ minQueueWeight) * minQueueWeight).

(** ** Structures, failure, budgets *)

Definition ensureQueueStructuresLocked (r : connectionRun) : connectionRun :=
  let r := match r_queues r with None => set_queues (Some ∅) r | Some _ => r end in
  let r := match dq_items (r_deferred r) with
           | [] => set_deferred (newDeferredQueueRing maxTrackedQueues) r | _ => r end in
  let r := match r_pullRequests r with None => set_pullRequests (Some []) r | Some _ => r end in
  let r := match r_queueBudget r with
           | None => set_budgets (mustNewByteBudget connectionQueueBudgetBytes) (r_processQueueBudget r) r
           | Some _ => r end in
  if r_queueTimeout r <=? 0 then set_queueTimeout queueResponseTimeout r else r.

(** connection.go, [fail]: the first failure is recorded and ends the run. *)
Definition fail (err : goerror) (r : connectionRun) : connectionRun :=
  if r_closed r then r
  else set_dead true true (classifyNetworkError "connection" (Some err)) r.

Definition capacityHit (r : connectionRun) : connectionRun := set_capacityHits (u64 (r_capacityHits r + 1)) r.

Definition nilBudget : goerror := byteBudgetInvariantf "nil budget".

(** [r.queueBudget.TryAcquire] and [Release], the pointer possibly nil. *)
Definition local_TryAcquire (b : option byteBudget) (n : Z) : result bool * option byteBudget :=
  match b with
  | None => (Err nilBudget, None)
  | Some v => let '(x, v) := tryAcquireLocked v n in (x, Some v)
  end.

Definition local_Release (b : option byteBudget) (n : Z) : option goerror * option byteBudget :=
  match b with
  | None => (Some nilBudget, None)
  | Some v => let '(e, v) := releaseLocked v n in (e, Some v)
  end.

Definition reserveQueueLocked (weight : Z) (r : connectionRun) : result bool * connectionRun :=
  let r := ensureQueueStructuresLocked r in
  let '(localOK, lb) := local_TryAcquire (r_queueBudget r) weight in
  let r := set_budgets lb (r_processQueueBudget r) r in
  match localOK with
  | Err err => (Err err, r)
  | Ok false => (Ok false, r)
  | Ok true =>
      let '(processOK, pb) := tryAcquireLocked (r_processQueueBudget r) weight in
      let r := set_budgets (r_queueBudget r) pb r in
      match processOK with
      | Ok true => (Ok true, r)
      | Ok false =>
          let '(releaseErr, lb) := local_Release (r_queueBudget r) weight in
          (match releaseErr with Some e => Err e | None => Ok false end,
           set_budgets lb (r_processQueueBudget r) r)
      | Err err =>
          let '(releaseErr, lb) := local_Release (r_queueBudget r) weight in
          (match errors_Join (Some err) releaseErr with Some e => Err e | None => Ok false end,
           set_budgets lb (r_processQueueBudget r) r)
      end
  end.

(** ** Scheduling *)

Definition requestQueueFull : goerror :=
  newError ErrHandlerBacklog "queue pull" "pull scheduler invariant: request queue full".

Definition enqueuePullLocked (q : option nat) (r : connectionRun) : option goerror * connectionRun :=
  match l ← q; s ← r_heap r !! l; Some (l, s) with
  | None => (None, r)
  | Some (l, s) =>
      if negb (bool_decide (q_phase s = queueActive)) || q_processing s || q_pullQueued s || q_pullInFlight s
      then (None, r) else
      let r := upd l (qset_pullQueued true) r in
      match r_pullRequests r with
      | Some c =>
          if (length c <? pullRequestCapacity)%nat then (None, set_pullRequests (Some (c ++ [l])%list) r)
          else (Some requestQueueFull, upd l (qset_pullQueued false) r)
      | None => (Some requestQueueFull, upd l (qset_pullQueued false) r)
      end
  end.

Definition activateOrDeferLocked (l : nat) (r : connectionRun) : option goerror * connectionRun :=
  if r_activeQueues r <? maxActiveQueues then
    let r := upd l (qset_phase queueActive) r in
    let r := set_activeQueues (i32 (r_activeQueues r + 1)) r in
    enqueuePullLocked (Some l) r
  else
    let r := upd l (qset_phase queueDeferred) r in
    let '(pushed, d) := ring_Push (r_deferred r) (Some l) in
    let r := set_deferred d r in
    if pushed then (None, r)
    else (Some (newError ErrHandlerBacklog "queue notice" "queue_capacity: deferred queue full"), r).

(** The loop of [promoteDeferredLocked]; each turn pops, so one more turn than
    the ring has entries is enough. *)
Fixpoint promoteLoop (fuel : nat) (r : connectionRun) : option goerror * connectionRun :=
  match fuel with
  | O => (None, r)
  | S fuel =>
      if r_activeQueues r <? maxActiveQueues then
        let '(q, d) := ring_Pop (r_deferred r) in
        let r := set_deferred d r in
        match l ← q; s ← r_heap r !! l; Some (l, s) with
        | None => (None, r)
        | Some (l, s) =>
            if negb (bool_decide (q_phase s = queueDeferred)) then promoteLoop fuel r else
            let r := upd l (qset_phase queueActive) r in
            let r := set_activeQueues (i32 (r_activeQueues r + 1)) r in
            enqueuePullLocked (Some l) r
        end
      else (None, r)
  end.

Definition promoteDeferredLocked (r : connectionRun) : option goerror * connectionRun :=
  promoteLoop (S (ring_Len (r_deferred r))) r.

(** ** NOTICE *)

Definition reasonOf (reason : string) (err : result bool) : string :=
  match err with Err e => reason ++ ": " ++ Error e | Ok _ => reason end.

Definition growingReason : string := "queue_capacity: tracked queue byte budget exhausted while growing identity".
Definition exhaustedReason : string := "queue_capacity: tracked queue byte budget exhausted".

Definition reserved (x : result bool) : bool := match x with Ok true => true | _ => false end.

(** The phase switch for a queue already known. *)
Definition noticeKnown (l : nat) (r : connectionRun) : option goerror * connectionRun :=
  match q_phase <$> r_heap r !! l with
  | Some queueActive => (None, upd l (qset_notice true) r)
  | Some queueDeferred => (None, r)
  | Some queueIdle => activateOrDeferLocked l r
  | None => (None, r)
  end.

(** The end of [startQueue]: a scheduling error counts and fails the run. *)
Definition failScheduled (scheduleErr : option goerror) (r : connectionRun) : connectionRun :=
  match scheduleErr with None => r | Some err => fail err (capacityHit r) end.

Definition startKnown (l : nat) (q : queueState) (j : JID) (r : connectionRun) : connectionRun :=
  let canonical := mkJID (qk_appKey (q_identity q)) (qk_name (q_identity q)) (qk_domain (q_identity q))
                         (j_ClientResource j) in
  let newWeight := queueRetainedWeight canonical in
  let '(got, r) := if newWeight >? q_weight q then reserveQueueLocked (i64 (newWeight - q_weight q)) r
                   else (Ok true, r) in
  if negb (reserved got) then
    fail (newError ErrHandlerBacklog "queue notice" (reasonOf growingReason got)) (capacityHit r)
  else
    let r := upd l (qset_jid canonical (Z.max (q_weight q) newWeight)) r in
    let '(scheduleErr, r) := noticeKnown l r in
    failScheduled scheduleErr r.

(** A fresh address. *)
Definition alloc (r : connectionRun) : nat := fresh (dom (r_heap r)).

(** A queue enters the map, idle. *)
Definition trackQueue (identity : queueKey) (j : JID) (weight : Z) (r : connectionRun) : connectionRun :=
  let l := alloc r in
  set_queues (Some (<[identity := l]> (queues_of r)))
    (set_heap (<[l := mkQueue identity j 0 queueIdle false false false false None weight]> (r_heap r)) r).

(** A queue that could not be scheduled leaves it, and its charge is
    returned. *)
Definition forgetQueue (identity : queueKey) (l : nat) (weight : Z) (r : connectionRun) : connectionRun :=
  let r := set_queues (Some (delete identity (queues_of r))) r in
  let r := match q_phase <$> r_heap r !! l with
           | Some queueActive => set_activeQueues (i32 (r_activeQueues r - 1)) r
           | _ => r
           end in
  let r := upd l (qset_phase queueIdle) r in
  let r := set_budgets (snd (local_Release (r_queueBudget r) weight)) (r_processQueueBudget r) r in
  set_budgets (r_queueBudget r) (snd (releaseLocked (r_processQueueBudget r) weight)) r.

Definition startNew (identity : queueKey) (j : JID) (r : connectionRun) : connectionRun :=
  let weight := queueRetainedWeight j in
  let '(got, r) := reserveQueueLocked weight r in
  if negb (reserved got) then
    fail (newError ErrHandlerBacklog "queue notice" (reasonOf exhaustedReason got)) (capacityHit r)
  else
    let l := alloc r in
    let '(scheduleErr, r) := activateOrDeferLocked l (trackQueue identity j weight r) in
    match scheduleErr with
    | None => r
    | Some err => fail err (capacityHit (forgetQueue identity l weight r))
    end.

Definition startQueue (j : JID) (r : connectionRun) : connectionRun :=
  match validateQueueJID j with
  | Some err => fail err r
  | None =>
      let identity := newQueueKey j in
      let r := ensureQueueStructuresLocked r in
      match l ← queues_of r !! identity; q ← r_heap r !! l; Some (l, q) with
      | Some (l, q) => startKnown l q j r
      | None => startNew identity j r
      end
  end.

(** ** Pulling *)

(** The request [executePull] sends after its first critical section. *)
Record pullRequest := mkPull { p_queue : nat; p_jid : JID; p_key : Z; p_timeout : Z }.

Definition executePull_begin (l : nat) (r : connectionRun) : option pullRequest * connectionRun :=
  match r_heap r !! l with
  | None => (None, r)
  | Some q =>
      if r_cancelled r || negb (bool_decide (q_phase q = queueActive)) || negb (q_pullQueued q)
         || q_processing q || q_pullInFlight q
      then (None, upd l (qset_pullQueued false) r)
      else (Some (mkPull l (q_jid q) (q_key q) (r_queueTimeout r)),
            upd l (fun q => qset_inFlight true (qset_pullQueued false q)) r)
  end.

(** After [EncodeSync] and [sendFrame]: [err] is their error, [now] the time
    of the second critical section. *)
Definition executePull_end (p : pullRequest) (err : option goerror) (now : Z) (r : connectionRun) : connectionRun :=
  match err with
  | Some e =>
      let r := upd (p_queue p) (fun q => qset_sentAt None (qset_inFlight false q)) r in
      if r_cancelled r then r else fail e r
  | None =>
      upd (p_queue p) (fun q =>
        if q_pullInFlight q && negb (q_processing q)
        then qset_sentAt (if p_timeout p <=? 0 then None else Some now) q else q) r
  end.

(** One tick of [pullResponseWatchdog]: whether it fails the run. *)
Definition stalledAt (now timeout : Z) (q : queueState) : bool :=
  q_pullInFlight q && match q_pullSentAt q with Some t => now - t >? timeout | None => false end.

Definition watchdogTimeout (r : connectionRun) : Z :=
  if r_queueTimeout r <=? 0 then queueResponseTimeout else r_queueTimeout r.

Definition watchdogTick (now timeout : Z) (r : connectionRun) : connectionRun :=
  let tracked := omap (fun kl => r_heap r !! kl.2) (map_to_list (queues_of r)) in
  match List.find (stalledAt now timeout) tracked with
  | None => r
  | Some q => fail (newError ErrTimeout "queue pull" ("SYNC response timeout for " ++ queueKey_String (q_identity q))) r
  end.

(** ** SYNC batches *)

(** [resetProcessing]: only if the map still holds the same queue. *)
Definition resetProcessing (identity : queueKey) (l : nat) (r : connectionRun) : connectionRun :=
  if decide (queues_of r !! identity = Some l) then upd l (qset_processing false) r else r.

Definition set_bc_store st c := mkBatchClient st (bc_batchBudget c) (bc_processBatchBudget c) (bc_batches c) (bc_generation c) (bc_clientBatchRejects c) (bc_processBatchRejects c).
Definition set_bc_batches b c := mkBatchClient (bc_store c) (bc_batchBudget c) (bc_processBatchBudget c) b (bc_generation c) (bc_clientBatchRejects c) (bc_processBatchRejects c).
Definition bc_reject (scope : batchBudgetScope) c :=
  match scope with
  | batchBudgetScopeNone => c
  | batchBudgetScopeClient => mkBatchClient (bc_store c) (bc_batchBudget c) (bc_processBatchBudget c) (bc_batches c) (bc_generation c) (u64 (bc_clientBatchRejects c + 1)) (bc_processBatchRejects c)
  | batchBudgetScopeProcess => mkBatchClient (bc_store c) (bc_batchBudget c) (bc_processBatchBudget c) (bc_batches c) (bc_generation c) (bc_clientBatchRejects c) (u64 (bc_processBatchRejects c + 1))
  end.

Definition releaseReservation (res : option batchReservation) (c : batchClient) : batchClient :=
  set_bc_store (snd (reservation_Release (bc_store c) res)) c.

(** The handover to the batch workers; in the [select], a full channel and a
    cancelled context exclude each other only by chance: [cancelFirst] is the
    choice when both branches are ready. *)
Definition enqueueBatch (cancelFirst : bool) (l : nat) (job : batchJob) (r : connectionRun) : connectionRun :=
  let full := (writeQueueSize <=? length (bc_batches (r_client r)))%nat in
  if r_cancelled r && (cancelFirst || full) then
    set_client (releaseReservation (bj_reservation job) (r_client r)) (resetProcessing (bj_queue job) l r)
  else if negb full then
    set_client (set_bc_batches (bc_batches (r_client r) ++ [job])%list (r_client r)) r
  else
    let r := resetProcessing (bj_queue job) l r in
    let r := set_client (releaseReservation (bj_reservation job) (r_client r)) r in
    fail (newError ErrHandlerBacklog "sync" "batch queue full") r.

(** From the charge of the batch to the handover. *)
Definition admitBatch (cancelFirst : bool) (identity : queueKey) (l : nat) (d : Sync) (r : connectionRun) : connectionRun :=
  match SyncRetainedWeight (Some d) with
  | Err err =>
      let code := if errors_Is ErrLimitExceeded err then ErrProtocolLimit else ErrProtocol in
      fail (wrapError code "sync batch weight" err) (resetProcessing identity l r)
  | Ok weight =>
      match bc_batchBudget (r_client r) with
      | None =>
          fail (newError ErrHandlerBacklog "sync" "client batch budget is not initialized") (resetProcessing identity l r)
      | Some client =>
          let processBudget := match r_processBatchBudget r with
                               | Some b => Some b | None => bc_processBatchBudget (r_client r) end in
          let '(res, st) := tryReserveBatchScoped (bc_store (r_client r)) (Some client) processBudget weight in
          let r := set_client (set_bc_store st (r_client r)) r in
          if is_some (rr_err res) || negb (rr_ok res) then
            let r := resetProcessing identity l r in
            let r := set_client (bc_reject (rr_scope res) (r_client r)) r in
            let reason := match rr_err res with
                          | Some e => "batch byte budget exhausted: " ++ Error e
                          | None => "batch byte budget exhausted" end in
            fail (newError ErrHandlerBacklog "sync" reason) r
          else enqueueBatch cancelFirst l (mkBatchJob identity d (r_generation r) (rr_reservation res)) r
      end
  end.

(** The part of [handleBatch] after the checks of the status and the JID. *)
Definition handleQueueBatch (cancelFirst : bool) (identity : queueKey) (d : Sync) (r : connectionRun) : connectionRun :=
  match l ← queues_of r !! identity; q ← r_heap r !! l; Some (l, q) with
  | None => r
  | Some (l, q) =>
      if negb (bool_decide (q_phase q = queueActive)) || q_processing q then r else
      let r := upd l (fun q => qset_processing true (qset_sentAt None (qset_inFlight false (qset_pullQueued false q)))) r in
      admitBatch cancelFirst identity l d r
  end.

Definition badStatus (op : string) (s : option Status) : option goerror :=
  match s with
  | Some s => if negb (st_Code s =? StatusOK) then Some (protocolError op (i32 (st_Code s)) (st_Reason s)) else None
  | None => None
  end.

Definition handleBatch (cancelFirst : bool) (d : Sync) (r : connectionRun) : connectionRun :=
  match badStatus "sync" (sy_Status d) with
  | Some err => fail err r
  | None =>
      match sy_Queue d with
      | None => r
      | Some j =>
          match validateQueueJID j with
          | Some err => fail err r
          | None => handleQueueBatch cancelFirst (newQueueKey j) d r
          end
      end
  end.

(** The critical section of [processBatch], on the queue at [l]. *)
Definition advanceQueue (l : nat) (d : Sync) (r : connectionRun) : option goerror * connectionRun :=
  let r := upd l (fun q => (if sy_NextKey d =? 0 then id else qset_key (sy_NextKey d)) (qset_processing false q)) r in
  if sy_IsLast d || (sy_NextKey d =? 0) then
    match q_noticePending <$> r_heap r !! l with
    | Some true => enqueuePullLocked (Some l) (upd l (qset_notice false) r)
    | _ =>
        let r := upd l (qset_phase queueIdle) r in
        promoteDeferredLocked (set_activeQueues (i32 (r_activeQueues r - 1)) r)
    end
  else enqueuePullLocked (Some l) (upd l (qset_notice false) r).

(** [metasErr] is what [processMetas] returned on the messages of the batch. *)
Definition processBatch (identity : queueKey) (d : Sync) (metasErr : option goerror) (r : connectionRun) : connectionRun :=
  if r_cancelled r then r else
  match queues_of r !! identity with
  | None => r
  | Some l =>
      if negb (r_generation r =? bc_generation (r_client r)) then r else
      let '(scheduleErr, r) := advanceQueue l d r in
      failScheduled scheduleErr r
  end.

(** The guard of [processBatchJob], on a job of this run: whether the worker
    handles the job or drops it. *)
Definition jobStarts (job : batchJob) (r : connectionRun) : bool :=
  is_some (bj_reservation job) && negb (r_cancelled r) && (bj_run job =? bc_generation (r_client r)).

(** [processBatchJob] on a job of this run. *)
Definition processBatchJob (job : batchJob) (metasErr : option goerror) (r : connectionRun) : connectionRun :=
  let r := if jobStarts job r then processBatch (bj_queue job) (bj_d job) metasErr r else r in
  match bj_reservation job with
  | None => r
  | Some res => set_client (releaseReservation (Some res) (r_client r)) r
  end.

(** ** End of the run *)

Definition tracked_weight (r : connectionRun) : Z :=
  zsum (map (fun kl => default 0 (q_weight <$> r_heap r !! kl.2)) (map_to_list (queues_of r))).

Definition finalizeQueues (r : connectionRun) : connectionRun :=
  if r_finalized r then r else
  let tracked := i64 (tracked_weight r) in
  let r := set_finalized true (set_activeQueues 0 (set_deferred zeroRing (set_queues None r))) in
  if tracked =? 0 then r else
  let r := set_budgets (snd (local_Release (r_queueBudget r) tracked)) (r_processQueueBudget r) r in
  set_budgets (r_queueBudget r) (snd (releaseLocked (r_processQueueBudget r) tracked)) r.

(** [queueHealth]: active, known, deferred, pulls, tracked bytes, rejects. *)
Definition queueHealth (r : connectionRun) : Z * Z * Z * Z * Z * Z :=
  (r_activeQueues r, Z.of_nat (size (queues_of r)), Z.of_nat (ring_Len (r_deferred r)),
   zlen (List.filter (fun kl => match r_heap r !! snd kl with
                           | Some q => q_pullQueued q || q_pullInFlight q | None => false end)
                (map_to_list (queues_of r))),
   match r_queueBudget r with Some b => bb_used b | None => 0 end, r_capacityHits r).

(** ** The run with its workers

    The pull workers, each between two of its critical sections, and the
    batches taken by batch workers and not finished. *)
Inductive workerPC := WIdle | WPopped (l : nat) | WSending (p : pullRequest) | WStopped.

Record queueSys := mkQueueSys {
  qs_run : connectionRun; qs_workers : list workerPC; qs_handling : list batchJob }.

Inductive queueOp :=
| OpNotice (j : JID)                                  (* readPump: NOTICE *)
| OpBatch (cancelFirst : bool) (d : Sync)             (* readPump: SYNC with a queue *)
| OpTakePull (w : nat)                                (* pullWorker w receives a request *)
| OpStop (w : nat)                                    (* pullWorker w sees the context done *)
| OpBeginPull (w : nat)
| OpEndPull (w : nat) (err : option goerror) (now : Z)
| OpTick (now timeout : Z)                            (* pullResponseWatchdog *)
| OpTakeBatch                                         (* a batch worker receives a job *)
| OpDoneBatch (i : nat) (metasErr : option goerror)   (* ... and finishes the i-th *)
| OpOtherAcquire (n : Z)                              (* another run reserves from processQueueBudget *)
| OpOtherRelease (n : Z)                              (* ... and returns what it holds *)
| OpOtherBatch (job : batchJob)                       (* another run enqueues a batch *)
| OpOtherStore (st : budgetStore)                     (* other uses of the batch budgets *)
| OpFail (err : goerror)                              (* any other failure of the run *)
| OpCancel                                            (* the parent context ends *)
| OpReconnect (g : Z)                                 (* the Client starts another run *)
| OpFinalize.

Definition on_run (f : connectionRun -> connectionRun) (s : queueSys) : queueSys :=
  mkQueueSys (f (qs_run s)) (qs_workers s) (qs_handling s).

Definition set_bc_generation g c := mkBatchClient (bc_store c) (bc_batchBudget c) (bc_processBatchBudget c) (bc_batches c) g (bc_clientBatchRejects c) (bc_processBatchRejects c).

(** One step; [None] when it is not possible. *)
Definition queueStep (s : queueSys) (op : queueOp) : option queueSys :=
  let r := qs_run s in
  match op with
  | OpNotice j => if r_finalized r then None else Some (on_run (startQueue j) s)
  | OpBatch c d => if r_finalized r then None else Some (on_run (handleBatch c d) s)
  | OpTakePull w =>
      match qs_workers s !! w, requests_of r with
      | Some WIdle, l :: rest =>
          Some (mkQueueSys (set_pullRequests (Some rest) r) (<[w := WPopped l]> (qs_workers s)) (qs_handling s))
      | _, _ => None
      end
  | OpStop w =>
      match qs_workers s !! w with
      | Some WIdle => if r_cancelled r then Some (mkQueueSys r (<[w := WStopped]> (qs_workers s)) (qs_handling s)) else None
      | _ => None
      end
  | OpBeginPull w =>
      match qs_workers s !! w with
      | Some (WPopped l) =>
          let '(p, r) := executePull_begin l r in
          let pc := match p with Some p => WSending p | None => WIdle end in
          Some (mkQueueSys r (<[w := pc]> (qs_workers s)) (qs_handling s))
      | _ => None
      end
  | OpEndPull w err now =>
      match qs_workers s !! w with
      | Some (WSending p) =>
          Some (mkQueueSys (executePull_end p err now r) (<[w := WIdle]> (qs_workers s)) (qs_handling s))
      | _ => None
      end
  | OpTick now timeout => Some (on_run (watchdogTick now timeout) s)
  | OpTakeBatch =>
      match bc_batches (r_client r) with
      | job :: rest =>
          Some (mkQueueSys (set_client (set_bc_batches rest (r_client r)) r) (qs_workers s) (qs_handling s ++ [job])%list)
      | [] => None
      end
  | OpDoneBatch i metasErr =>
      match qs_handling s !! i with
      | Some job =>
          let r := if bj_run job =? r_generation r then processBatchJob job metasErr r else r in
          Some (mkQueueSys r (qs_workers s) (delete i (qs_handling s)))
      | None => None
      end
  | OpOtherAcquire n =>
      Some (on_run (set_budgets (r_queueBudget r) (snd (tryAcquireLocked (r_processQueueBudget r) n))) s)
  | OpOtherRelease n =>
      if n <=? bb_used (r_processQueueBudget r) - tracked_weight r
      then Some (on_run (set_budgets (r_queueBudget r) (snd (releaseLocked (r_processQueueBudget r) n))) s)
      else None
  | OpOtherBatch job =>
      if (bj_run job =? r_generation r) || (writeQueueSize <=? length (bc_batches (r_client r)))%nat then None
      else Some (on_run (set_client (set_bc_batches (bc_batches (r_client r) ++ [job])%list (r_client r))) s)
  | OpOtherStore st => Some (on_run (set_client (set_bc_store st (r_client r))) s)
  | OpFail err => Some (on_run (fail err) s)
  | OpCancel => Some (on_run (set_dead true (r_closed r) (r_lastErr r)) s)
  | OpReconnect g =>
      if (bc_generation (r_client r) <? g) && (r_generation r <? g) then Some (on_run (set_client (set_bc_generation g (r_client r))) s) else None
  | OpFinalize =>
      if r_cancelled r && forallb (fun w => match w with WStopped => true | _ => false end) (qs_workers s)
      then Some (on_run finalizeQueues s) else None
  end.

Fixpoint queueRun (s : queueSys) (ops : list queueOp) : option queueSys :=
  match ops with [] => Some s | op :: ops => s' ← queueStep s op; queueRun s' ops end.

(** [startPullScheduler] on the run [openEndpoint] made. *)
Definition newRun (gen : Z) (pb : byteBudget) (c : batchClient) : connectionRun :=
  ensureQueueStructuresLocked
    (mkRun ∅ None zeroRing None None pb 0 None 0 0 gen false false false None c).

Definition startPullScheduler (r : connectionRun) : queueSys :=
  mkQueueSys r (replicate pullWorkerCount WIdle) [].
