(* ===== verification/QueueInvariant.v ===== *)
(** * The invariants of the queue scheduler

    What holds of a [connectionRun] through any interleaving of the steps of
    Queue.v: the accounting of the queue budgets ([acct_run]), always; and,
    while the run is live, the scheduling invariant ([sched]). *)
From Stdlib Require Import String.
From S2P Require Import Prelude Protocol Errors Config RetainedWeight ByteBudget ResourceBudgets DeferredRing Queue.
Local Open Scope Z_scope.

Arguments tryAcquireLocked : simpl never.
Arguments releaseLocked : simpl never.
Arguments ring_Push : simpl never.
Arguments ring_Pop : simpl never.

(** ** Sums over the tracked queues *)

Definition qsum (f : nat -> Z) (m : gmap queueKey nat) : Z := zsum (map (fun kl => f kl.2) (map_to_list m)).

Lemma qsum_empty f : qsum f ∅ = 0.
Proof. unfold qsum. by rewrite map_to_list_empty. Qed.

Lemma qsum_insert f m k l : m !! k = None -> qsum f (<[k := l]> m) = f l + qsum f m.
Proof.
  intros H. unfold qsum. rewrite (zsum_perm _ (map (fun kl => f kl.2) ((k, l) :: map_to_list m))).
  - simpl. by rewrite zsum_cons.
  - apply Permutation_map. by apply map_to_list_insert.
Qed.

Lemma qsum_delete f m k l : m !! k = Some l -> qsum f (delete k m) = qsum f m - f l.
Proof.
  intros H. rewrite <- (insert_delete_id m k l H) at 2. rewrite qsum_insert by apply lookup_delete_eq. lia.
Qed.

Lemma qsum_ext f g m : (forall k l, m !! k = Some l -> f l = g l) -> qsum f m = qsum g m.
Proof.
  intros H. unfold qsum. f_equal. apply map_ext_in. intros [k l] Hin. simpl. apply (H k).
  apply elem_of_map_to_list. by apply list_elem_of_In.
Qed.

Lemma qsum_update f g m k l :
  m !! k = Some l -> (forall k' l', m !! k' = Some l' -> k' <> k -> g l' = f l') ->
  qsum g m = qsum f m - f l + g l.
Proof.
  intros Hk H. assert (qsum g (delete k m) = qsum f (delete k m)) as He.
  { apply qsum_ext. intros k' l' Hl. apply lookup_delete_Some in Hl as [Hn Hl]. by apply (H k'). }
  rewrite (qsum_delete g _ _ _ Hk), (qsum_delete f _ _ _ Hk) in He. lia.
Qed.

Lemma qsum_ge f m c : (forall k l, m !! k = Some l -> c <= f l) -> c * Z.of_nat (size m) <= qsum f m.
Proof.
  induction m as [|k l m Hk IH] using map_ind; intros H.
  - rewrite qsum_empty, map_size_empty. lia.
  - rewrite qsum_insert, map_size_insert_None by done.
    assert (c * Z.of_nat (size m) <= qsum f m).
    { apply IH. intros k' l' Hl. apply (H k'). rewrite lookup_insert_ne; [done|congruence]. }
    pose proof (H k l (lookup_insert_eq _ _ _)). lia.
Qed.

Lemma qsum_member f m k l :
  (forall k l, m !! k = Some l -> 0 <= f l) -> m !! k = Some l -> f l <= qsum f m.
Proof.
  intros Hf H. assert (0 * Z.of_nat (size (delete k m)) <= qsum f (delete k m)) as Hd.
  { apply qsum_ge. intros k' l' Hl. apply lookup_delete_Some in Hl as [_ Hl]. by apply (Hf k'). }
  rewrite (qsum_delete _ _ _ _ H) in Hd. lia.
Qed.

Lemma qsum_le_size f m : (forall k l, m !! k = Some l -> f l <= 1) -> qsum f m <= Z.of_nat (size m).
Proof.
  intros H. assert (-1 * Z.of_nat (size m) <= qsum (fun l => - f l) m) as Hn.
  { apply qsum_ge. intros k l Hk. specialize (H _ _ Hk). lia. }
  assert (qsum (fun l => - f l) m = - qsum f m) as He.
  { unfold qsum. induction (map_to_list m) as [|x xs IH]; [done|]. simpl. rewrite !zsum_cons. lia. }
  lia.
Qed.

Lemma alter_as_insert (f : queueState -> queueState) l (h : gmap nat queueState) q :
  h !! l = Some q -> alter f l h = <[l := f q]> h.
Proof.
  intros H. apply map_eq. intros l'. destruct (decide (l = l')) as [->|Hn].
  - by rewrite lookup_alter_eq, lookup_insert_eq, H.
  - by rewrite lookup_alter_ne, lookup_insert_ne.
Qed.

(** ** Accounting *)

Definition weight_at (h : gmap nat queueState) (l : nat) : Z := default 0 (q_weight <$> h !! l).

Lemma tracked_qsum r : tracked_weight r = qsum (weight_at (r_heap r)) (queues_of r).
Proof. reflexivity. Qed.

(** The map of queues: each key leads to a queue of that identity. *)
Definition idents (h : gmap nat queueState) (m : gmap queueKey nat) : Prop :=
  forall k l, m !! k = Some l -> exists q, h !! l = Some q /\ q_identity q = k /\ minQueueWeight <= q_weight q.

Lemma idents_inj h m k k' l : idents h m -> m !! k = Some l -> m !! k' = Some l -> k = k'.
Proof.
  intros H H1 H2. destruct (H _ _ H1) as (q & Hq & <- & _). destruct (H _ _ H2) as (q' & Hq' & <- & _). congruence.
Qed.

Record acct_run (r : connectionRun) : Prop := {
  ar_closed : r_closed r = true -> r_cancelled r = true;
  ar_finalized : r_finalized r = true -> r_cancelled r = true /\ r_queues r = None;
  ar_struct : r_finalized r = false ->
    (exists m, r_queues r = Some m) /\ length (dq_items (r_deferred r)) = maxTrackedQueues /\
    (exists c, r_pullRequests r = Some c) /\ 0 < r_queueTimeout r;
  ar_idents : idents (r_heap r) (queues_of r);
  ar_local : exists lb, r_queueBudget r = Some lb /\ budget_ok lb /\
    bb_limit lb = connectionQueueBudgetBytes /\ bb_used lb = tracked_weight r;
  ar_process : budget_ok (r_processQueueBudget r) /\ tracked_weight r <= bb_used (r_processQueueBudget r) }.

Lemma tracked_bound r : acct_run r -> 0 <= tracked_weight r <= connectionQueueBudgetBytes.
Proof. intros H. destruct (ar_local _ H) as (lb & _ & Hb & Hl & Hu). pose proof (bo_used _ Hb). lia. Qed.

(** At most [maxTrackedQueues] queues are tracked. *)
Lemma tracked_count r : acct_run r -> (size (queues_of r) <= maxTrackedQueues)%nat.
Proof.
  intros H. pose proof (tracked_bound _ H) as Hb. rewrite tracked_qsum in Hb.
  assert (minQueueWeight * Z.of_nat (size (queues_of r)) <= qsum (weight_at (r_heap r)) (queues_of r)) as Hs.
  { apply qsum_ge. intros k l Hk. destruct (ar_idents _ H _ _ Hk) as (q & Hq & _ & Hw).
    unfold weight_at. by rewrite Hq. }
  change minQueueWeight with 1024 in Hs. change connectionQueueBudgetBytes with 4194304 in Hb.
  change maxTrackedQueues with 4096%nat. lia.
Qed.

Lemma ensure_id r : acct_run r -> r_finalized r = false -> ensureQueueStructuresLocked r = r.
Proof.
  intros H Hf. destruct (ar_struct _ H Hf) as ((m & Hm) & Hd & (c & Hc) & Ht).
  destruct (ar_local _ H) as (lb & Hl & _). unfold ensureQueueStructuresLocked. rewrite Hm.
  destruct (dq_items (r_deferred r)) eqn:E; [done|]. rewrite Hc, Hl. by rewrite (proj2 (Z.leb_gt _ _)).
Qed.

(** The part of a run the accounting looks at. *)
Definition same_acct (r r' : connectionRun) : Prop :=
  (r_closed r' = true -> r_cancelled r' = true) /\ (r_cancelled r = true -> r_cancelled r' = true) /\
  r_finalized r' = r_finalized r /\ r_queues r' = r_queues r /\
  (length (dq_items (r_deferred r')) = length (dq_items (r_deferred r))) /\
  (r_finalized r = false -> (exists c, r_pullRequests r = Some c) -> exists c, r_pullRequests r' = Some c) /\
  r_queueTimeout r' = r_queueTimeout r /\ r_queueBudget r' = r_queueBudget r /\
  r_processQueueBudget r' = r_processQueueBudget r /\
  forall l, (fun q => (q_identity q, q_weight q)) <$> r_heap r' !! l =
            (fun q => (q_identity q, q_weight q)) <$> r_heap r !! l.

Lemma same_weight_at r r' l : same_acct r r' -> weight_at (r_heap r') l = weight_at (r_heap r) l.
Proof.
  intros (_ & _ & _ & _ & _ & _ & _ & _ & _ & H). specialize (H l). unfold weight_at.
  destruct (r_heap r' !! l), (r_heap r !! l); simpl in *; congruence.
Qed.

Lemma acct_same r r' : same_acct r r' -> acct_run r -> acct_run r'.
Proof.
  intros Hs [H1 H2 H3 H4 H5 H6]. pose proof Hs as (Hc & Hcan & Hf & Hq & Hd & Hp & Ht & Hl & Hb & Hh).
  assert (tracked_weight r' = tracked_weight r) as Hw.
  { rewrite !tracked_qsum. unfold queues_of. rewrite Hq. apply qsum_ext. intros k l _. by apply same_weight_at. }
  split; rewrite ?Hf, ?Hq, ?Hd, ?Ht, ?Hl, ?Hb, ?Hw; try done.
  - intros Hfin. destruct (H2 Hfin). auto.
  - intros Hfin. destruct (H3 Hfin) as (? & ? & ? & ?). split_and!; try done. by apply Hp.
  - intros k l Hk. unfold queues_of in *. rewrite Hq in Hk. destruct (H4 _ _ Hk) as (q & Hql & Hid & Hwq).
    specialize (Hh l). rewrite Hql in Hh. simpl in Hh. destruct (r_heap r' !! l) as [q'|]; [|done].
    injection Hh as Hi Hw'. exists q'. rewrite Hi, Hw'. done.
Qed.

(** ** The scheduling invariant *)

Definition b2z (b : bool) : Z := if b then 1 else 0.
Definition is_active (q : queueState) : bool := bool_decide (q_phase q = queueActive).

(** An active queue does exactly one of: waiting for a worker, waiting for the
    response, being handled.  The others do nothing. *)
Definition flags_ok (q : queueState) : Prop :=
  match q_phase q with
  | queueActive => b2z (q_pullQueued q) + b2z (q_pullInFlight q) + b2z (q_processing q) = 1
  | _ => q_pullQueued q = false /\ q_pullInFlight q = false /\ q_processing q = false /\ q_noticePending q = false
  end.

Definition active_at (h : gmap nat queueState) (l : nat) : Z :=
  default 0 ((fun q => b2z (is_active q)) <$> h !! l).

(** [L] are the deferred queues in order, [a] the number of active ones, [E]
    the requests no worker has begun, [J] the queues of the batches not
    finished. *)
Record core (h : gmap nat queueState) (m : gmap queueKey nat) (L : list nat) (a : Z)
    (E : list nat) (J : list queueKey) : Prop := {
  co_idents : idents h m;
  co_deferred : forall l, l ∈ L <-> exists k q, m !! k = Some l /\ h !! l = Some q /\ q_phase q = queueDeferred;
  co_nodup : NoDup L;
  co_active : a = qsum (active_at h) m;
  co_flags : forall k l q, m !! k = Some l -> h !! l = Some q -> flags_ok q;
  co_entries : forall k l q, m !! k = Some l -> h !! l = Some q -> q_pullQueued q = true -> l ∈ E;
  co_jobs : NoDup J;
  co_handled : forall k, k ∈ J <-> exists l q, m !! k = Some l /\ h !! l = Some q /\ q_processing q = true }.

(** One queue changes; everything else stays. *)
Lemma core_update h m L a E J k l q q' L' E' J' :
  core h m L a E J -> m !! k = Some l -> h !! l = Some q ->
  q_identity q' = k -> minQueueWeight <= q_weight q' -> flags_ok q' ->
  NoDup L' -> (forall x, x ∈ L' <-> (x <> l /\ x ∈ L) \/ (x = l /\ q_phase q' = queueDeferred)) ->
  (q_pullQueued q' = true -> l ∈ E') -> (forall x, x <> l -> x ∈ E -> x ∈ E') ->
  NoDup J' -> (forall x, x ∈ J' <-> (x <> k /\ x ∈ J) \/ (x = k /\ q_processing q' = true)) ->
  core (<[l := q']> h) m L' (a - b2z (is_active q) + b2z (is_active q')) E' J'.
Proof.
  intros [Hid Hd Hn Ha Hf He Hj Hh] Hk Hl Hi Hw Hflags HnL HL Hent HE HnJ HJ.
  assert (Hother : forall k' l', m !! k' = Some l' -> k' <> k -> l' <> l).
  { intros k' l' Hk' Hne ->. apply Hne. by eapply idents_inj. }
  assert (Htr : forall k' l' q0, m !! k' = Some l' -> <[l := q']> h !! l' = Some q0 ->
            (k' = k /\ l' = l /\ q0 = q') \/ (k' <> k /\ l' <> l /\ h !! l' = Some q0)).
  { intros k' l' q0 Hk' Hq0. destruct (decide (k' = k)) as [->|Hne].
    - assert (l' = l) as -> by congruence. rewrite lookup_insert_eq in Hq0. left. split_and!; congruence.
    - right. specialize (Hother _ _ Hk' Hne). by rewrite lookup_insert_ne in Hq0. }
  split.
  - intros k' l' Hk'. destruct (decide (l' = l)) as [->|Hne].
    + rewrite lookup_insert_eq. exists q'. split_and!; try done. rewrite Hi. by eapply idents_inj.
    + rewrite lookup_insert_ne by done. by apply Hid.
  - intros x. rewrite HL. split.
    + intros [[Hne Hx]|[-> Hp]].
      * apply Hd in Hx as (k' & q0 & ? & ? & ?). exists k', q0. by rewrite lookup_insert_ne.
      * exists k, q'. by rewrite lookup_insert_eq.
    + intros (k' & q0 & Hk' & Hq0 & Hp). destruct (Htr _ _ _ Hk' Hq0) as [(-> & -> & ->)|(? & Hne & Hq)].
      * by right.
      * left. split; [done|]. apply Hd. eauto.
  - done.
  - rewrite (qsum_update (active_at h) _ _ k l Hk).
    + unfold active_at at 2 3. rewrite lookup_insert_eq, Hl. simpl. lia.
    + intros k' l' Hk' Hne. unfold active_at. rewrite lookup_insert_ne; [done|]. apply not_eq_sym. by eapply Hother.
  - intros k' l' q0 Hk' Hq0. destruct (Htr _ _ _ Hk' Hq0) as [(-> & -> & ->)|(? & ? & Hq)]; [done|by eapply Hf].
  - intros k' l' q0 Hk' Hq0 Hp. destruct (Htr _ _ _ Hk' Hq0) as [(-> & -> & ->)|(? & ? & Hq)]; [auto|].
    apply HE; [done|]. by eapply He.
  - done.
  - intros x. rewrite HJ. split.
    + intros [[Hne Hx]|[-> Hp]].
      * apply Hh in Hx as (l' & q0 & Hx & Hq & Hp). exists l', q0. split_and!; try done.
        rewrite lookup_insert_ne; [done|]. apply not_eq_sym. by eapply Hother.
      * exists l, q'. by rewrite lookup_insert_eq.
    + intros (l' & q0 & Hk' & Hq0 & Hp). destruct (Htr _ _ _ Hk' Hq0) as [(-> & -> & ->)|(Hne & ? & Hq)]; [by right|].
      left. split; [done|]. apply Hh. eauto.
Qed.

(** A queue becomes known. *)
Lemma core_new h m L a E J k l q L' E' :
  core h m L a E J -> m !! k = None -> h !! l = None ->
  q_identity q = k -> minQueueWeight <= q_weight q -> flags_ok q -> q_processing q = false ->
  NoDup L' -> (forall x, x ∈ L' <-> x ∈ L \/ (x = l /\ q_phase q = queueDeferred)) ->
  (q_pullQueued q = true -> l ∈ E') -> (forall x, x ∈ E -> x ∈ E') ->
  core (<[l := q]> h) (<[k := l]> m) L' (a + b2z (is_active q)) E' J.
Proof.
  intros [Hid Hd Hn Ha Hf He Hj Hh] Hk Hl Hi Hw Hflags Hproc HnL HL Hent HE.
  assert (Hfresh : forall k' l', m !! k' = Some l' -> l' <> l).
  { intros k' l' Hk' ->. destruct (Hid _ _ Hk') as (? & ? & _). congruence. }
  assert (Htr : forall k' l' q0, <[k := l]> m !! k' = Some l' -> <[l := q]> h !! l' = Some q0 ->
            (k' = k /\ l' = l /\ q0 = q) \/ (k' <> k /\ m !! k' = Some l' /\ h !! l' = Some q0)).
  { intros k' l' q0 Hk' Hq0. apply lookup_insert_Some in Hk' as [[<- <-]|[Hne Hk']].
    - rewrite lookup_insert_eq in Hq0. left. split_and!; congruence.
    - right. rewrite lookup_insert_ne in Hq0 by (apply not_eq_sym; by eapply Hfresh). split_and!; congruence. }
  split; try done.
  - intros k' l' Hk'. apply lookup_insert_Some in Hk' as [[<- <-]|[Hne Hk']].
    + rewrite lookup_insert_eq. by exists q.
    + rewrite lookup_insert_ne by (apply not_eq_sym; by eapply Hfresh). by apply Hid.
  - intros x. rewrite HL. split.
    + intros [Hx|[-> Hp]].
      * apply Hd in Hx as (k' & q0 & Hk' & ? & ?). exists k', q0.
        rewrite lookup_insert_ne by congruence. rewrite lookup_insert_ne; [done|].
        apply not_eq_sym. by eapply Hfresh.
      * exists k, q. by rewrite !lookup_insert_eq.
    + intros (k' & q0 & Hk' & Hq0 & Hp). destruct (Htr _ _ _ Hk' Hq0) as [(-> & -> & ->)|(? & ? & Hq)].
      * by right.
      * left. apply Hd. eauto.
  - rewrite qsum_insert by done. unfold active_at at 1. rewrite lookup_insert_eq. simpl.
    rewrite (qsum_ext _ (active_at h)); [lia|]. intros k' l' Hk'. unfold active_at.
    rewrite lookup_insert_ne; [done|]. apply not_eq_sym. by eapply Hfresh.
  - intros k' l' q0 Hk' Hq0. destruct (Htr _ _ _ Hk' Hq0) as [(-> & -> & ->)|(? & ? & Hq)]; [done|by eapply Hf].
  - intros k' l' q0 Hk' Hq0 Hp. destruct (Htr _ _ _ Hk' Hq0) as [(-> & -> & ->)|(? & ? & Hq)]; [auto|].
    apply HE. by eapply He.
  - intros x. rewrite Hh. split.
    + intros (l' & q0 & Hx & Hq & Hp). exists l', q0. rewrite lookup_insert_ne by congruence.
      rewrite lookup_insert_ne; [done|]. apply not_eq_sym. by eapply Hfresh.
    + intros (l' & q0 & Hk' & Hq0 & Hp). destruct (Htr _ _ _ Hk' Hq0) as [(-> & -> & ->)|(Hne & ? & Hq)]; [congruence|eauto].
Qed.

(** A change to a queue no longer tracked is invisible. *)
Lemma core_untracked h m L a E J l q' :
  core h m L a E J -> (forall k, m !! k <> Some l) -> core (<[l := q']> h) m L a E J.
Proof.
  intros [Hid Hd Hn Ha Hf He Hj Hh] Hnone.
  assert (Hsame : forall k' l', m !! k' = Some l' -> <[l := q']> h !! l' = h !! l').
  { intros k' l' Hk'. apply lookup_insert_ne. intros <-. by apply (Hnone k'). }
  split; try done.
  - intros k' l' Hk'. rewrite (Hsame _ _ Hk'). by apply Hid.
  - intros x. rewrite Hd. split; intros (k' & q0 & Hk' & Hq0 & Hp); exists k', q0;
      rewrite (Hsame _ _ Hk') in *; done.
  - rewrite Ha. apply qsum_ext. intros k' l' Hk'. unfold active_at. by rewrite (Hsame _ _ Hk').
  - intros k' l' q0 Hk'. rewrite (Hsame _ _ Hk'). by eapply Hf.
  - intros k' l' q0 Hk'. rewrite (Hsame _ _ Hk'). by eapply He.
  - intros x. rewrite Hh. split; intros (l' & q0 & Hk' & Hq0 & Hp); exists l', q0;
      rewrite (Hsame _ _ Hk') in *; done.
Qed.

Lemma core_requests h m L a E E' J :
  core h m L a E J ->
  (forall k x q, m !! k = Some x -> h !! x = Some q -> q_pullQueued q = true -> x ∈ E -> x ∈ E') ->
  core h m L a E' J.
Proof. intros [Hid Hd Hn Ha Hf He Hj Hh] H. split; try done. intros. eapply H; [done..|]. by eapply He. Qed.

(** ** The invariant of a run

    [P] are the requests workers hold and have not begun, [H] the queues of
    this run's batches in the hands of batch workers. *)
Definition live (r : connectionRun) : Prop :=
  r_cancelled r = false /\ r_generation r = bc_generation (r_client r).

(** The queues of the jobs of this run (a job without a reservation is
    dropped by the worker). *)
Definition own_job (r : connectionRun) (j : batchJob) : bool :=
  (bj_run j =? r_generation r) && is_some (bj_reservation j).

Definition own_jobs (r : connectionRun) (js : list batchJob) : list queueKey :=
  map bj_queue (List.filter (own_job r) js).

Definition sched (P : list nat) (H : list queueKey) (r : connectionRun) : Prop :=
  exists L, ring_repr (r_deferred r) L /\
    core (r_heap r) (queues_of r) L (r_activeQueues r) (requests_of r ++ P)
         (own_jobs r (bc_batches (r_client r)) ++ H) /\
    r_activeQueues r <= maxActiveQueues /\ (L <> [] -> r_activeQueues r = maxActiveQueues).

Definition run_inv (P : list nat) (H : list queueKey) (r : connectionRun) : Prop :=
  acct_run r /\ (live r -> sched P H r).

(** *** Failing *)

Lemma fail_same e r : (r_closed r = true -> r_cancelled r = true) -> same_acct r (fail e r).
Proof.
  intros H. unfold fail. destruct (r_closed r) eqn:E; unfold same_acct; [rewrite E|]; naive_solver.
Qed.

Lemma fail_dead e r : (r_closed r = true -> r_cancelled r = true) -> ~ live (fail e r).
Proof.
  intros H [Hc _]. unfold fail in Hc. destruct (r_closed r) eqn:E; simpl in Hc; [|done].
  rewrite H in Hc; done.
Qed.

Lemma fail_inv P H P' H' e r : run_inv P H r -> run_inv P' H' (fail e r).
Proof.
  intros [Ha _]. pose proof (ar_closed _ Ha). split; [by eapply acct_same, Ha; apply fail_same|].
  intros Hl. by destruct (fail_dead e r).
Qed.

Lemma acct_fail P H e r : acct_run r -> run_inv P H (fail e r).
Proof.
  intros Ha. pose proof (ar_closed _ Ha). split; [by eapply acct_same, Ha; apply fail_same|].
  intros Hl. by destruct (fail_dead e r).
Qed.

(** *** Accounting of the basic operations *)

Definition keeps_weight (f : queueState -> queueState) : Prop :=
  forall q, q_identity (f q) = q_identity q /\ q_weight (f q) = q_weight q.

Lemma acct_upd l f r : keeps_weight f -> acct_run r -> acct_run (upd l f r).
Proof.
  intros Hf Ha. eapply acct_same; [|exact Ha]. unfold same_acct. split_and!; try done; [apply Ha|].
  intros l'. unfold upd. simpl. destruct (decide (l = l')) as [->|Hn].
  - rewrite lookup_alter_eq. destruct (r_heap r !! l') as [q|]; [|done]. simpl. by rewrite (proj1 (Hf q)), (proj2 (Hf q)).
  - by rewrite lookup_alter_ne.
Qed.

Lemma acct_active n r : acct_run r -> acct_run (set_activeQueues n r).
Proof. intros Ha. eapply acct_same; [|exact Ha]. unfold same_acct. split_and!; try done; apply Ha. Qed.

Lemma acct_requests c r : acct_run r -> acct_run (set_pullRequests (Some c) r).
Proof. intros Ha. eapply acct_same; [|exact Ha]. unfold same_acct. split_and!; try done; [apply Ha|by eexists]. Qed.

Lemma acct_client c r : acct_run r -> acct_run (set_client c r).
Proof. intros Ha. eapply acct_same; [|exact Ha]. unfold same_acct. split_and!; try done; apply Ha. Qed.

Lemma acct_hit r : acct_run r -> acct_run (capacityHit r).
Proof. intros Ha. eapply acct_same; [|exact Ha]. unfold same_acct. split_and!; try done; apply Ha. Qed.

Lemma acct_deferred d r :
  length (dq_items d) = length (dq_items (r_deferred r)) -> acct_run r -> acct_run (set_deferred d r).
Proof. intros Hd Ha. eapply acct_same; [|exact Ha]. unfold same_acct. split_and!; try done; apply Ha. Qed.

Lemma acct_failed e r : acct_run r -> acct_run (fail e r).
Proof. intros Ha. by apply (acct_fail [] [] e r Ha). Qed.

Lemma acct_failScheduled e r : acct_run r -> acct_run (failScheduled e r).
Proof. intros Ha. destruct e; [|done]. by apply acct_failed, acct_hit. Qed.

Create HintDb acct discriminated.
#[export] Hint Resolve acct_upd acct_active acct_requests acct_client acct_hit acct_deferred acct_failed
  acct_failScheduled : acct.
#[export] Hint Extern 1 (keeps_weight _) => (intros []; repeat case_match; done) : acct.
#[export] Hint Extern 1 (length (dq_items _) = _) => (simpl; rewrite ?length_insert; done) : acct.

Lemma acct_enqueue q r : acct_run r -> acct_run (snd (enqueuePullLocked q r)).
Proof.
  intros Ha. unfold enqueuePullLocked.
  destruct (l ← q; s ← r_heap r !! l; Some (l, s)) as [[l s]|]; [|done]. case_bool; [done|].
  destruct (r_pullRequests (upd l (qset_pullQueued true) r)) as [c|]; [case_bool|]; simpl; auto 6 with acct.
Qed.

Lemma push_length d x : length (dq_items (snd (ring_Push d x))) = length (dq_items d).
Proof. unfold ring_Push. destruct x; [|done]. case_bool; simpl; by rewrite ?length_insert. Qed.

Lemma pop_length d : length (dq_items (snd (ring_Pop d))) = length (dq_items d).
Proof. unfold ring_Pop. case_bool; simpl; by rewrite ?length_insert. Qed.

Lemma acct_activate l r : acct_run r -> acct_run (snd (activateOrDeferLocked l r)).
Proof.
  intros Ha. unfold activateOrDeferLocked. case_bool; [apply acct_enqueue; auto with acct|].
  pose proof (push_length (r_deferred (upd l (qset_phase queueDeferred) r)) (Some l)) as Hl.
  destruct (ring_Push _ _) as [[] d]; simpl in *; auto with acct.
Qed.

Lemma acct_promote fuel r : acct_run r -> acct_run (snd (promoteLoop fuel r)).
Proof.
  revert r. induction fuel as [|fuel IH]; intros r Ha; [done|]. cbn [promoteLoop]. case_bool; [|done].
  pose proof (pop_length (r_deferred r)) as Hl. destruct (ring_Pop (r_deferred r)) as [q d]. simpl in Hl.
  destruct (l ← q; s ← _ !! l; Some (l, s)) as [[l s]|]; [|by apply acct_deferred].
  case_bool; [by apply IH, acct_deferred|]. apply acct_enqueue. auto with acct.
Qed.

(** *** Scheduling steps, on a live run *)

(** What the pending requests become when [enqueuePullLocked] is called for an
    active queue that does nothing. *)
Lemma enqueue_spec l q r :
  r_heap r !! l = Some q -> q_phase q = queueActive ->
  q_processing q = false -> q_pullQueued q = false -> q_pullInFlight q = false ->
  (exists c, r_pullRequests r = Some c) ->
  enqueuePullLocked (Some l) r =
    if (length (requests_of r) <? pullRequestCapacity)%nat
    then (None, set_pullRequests (Some (requests_of r ++ [l])%list) (upd l (qset_pullQueued true) r))
    else (Some requestQueueFull, upd l (qset_pullQueued false) (upd l (qset_pullQueued true) r)).
Proof.
  intros Hq Hp H1 H2 H3 (c & Hc). unfold enqueuePullLocked, requests_of. simpl. rewrite Hq. simpl.
  rewrite Hp, H1, H2, H3, Hc. simpl. done.
Qed.

Lemma enqueue_idle l q r :
  r_heap r !! l = Some q -> q_phase q = queueActive ->
  b2z (q_pullQueued q) + b2z (q_pullInFlight q) + b2z (q_processing q) = 1 ->
  enqueuePullLocked (Some l) r = (None, r).
Proof.
  intros Hq Hp H. unfold enqueuePullLocked. simpl. rewrite Hq. simpl. rewrite Hp. simpl.
  by destruct (q_processing q), (q_pullQueued q), (q_pullInFlight q).
Qed.

Definition inactive (q : queueState) : Prop :=
  q_pullQueued q = false /\ q_pullInFlight q = false /\ q_processing q = false.

Lemma active_range h l : 0 <= active_at h l <= 1.
Proof. unfold active_at. destruct (h !! l) as [q|]; simpl; [|lia]. unfold b2z. destruct (is_active q); lia. Qed.

Lemma core_active_nonneg h m L a E J : core h m L a E J -> 0 <= a.
Proof.
  intros H. rewrite (co_active _ _ _ _ _ _ H). pose proof (qsum_ge (active_at h) m 0) as Hs.
  specialize (Hs ltac:(intros; apply active_range)). lia.
Qed.

(** [enqueuePullLocked] for a queue that has just become, or still is, active
    and has nothing under way: either it fails, or it queues one pull. *)
Lemma sched_enqueue P H' r L k l q e r' :
  ring_repr (r_deferred r) L -> acct_run r -> r_finalized r = false ->
  r_activeQueues r <= maxActiveQueues -> (L <> [] -> r_activeQueues r = maxActiveQueues) ->
  queues_of r !! k = Some l -> r_heap r !! l = Some q -> q_phase q = queueActive -> inactive q ->
  (forall q', q' = qset_pullQueued true q ->
     core (<[l := q']> (r_heap r)) (queues_of r) L (r_activeQueues r) (requests_of r ++ P ++ [l])
       (own_jobs r (bc_batches (r_client r)) ++ H')) ->
  enqueuePullLocked (Some l) r = (e, r') ->
  acct_run r' /\ (e = None -> sched P H' r').
Proof.
  intros HL Ha Hfin Hmax Hcons Hk Hq Hp (H1 & H2 & H3) Hcore He.
  split; [replace r' with (snd (enqueuePullLocked (Some l) r)) by (by rewrite He); by apply acct_enqueue|].
  intros ->. destruct (ar_struct _ Ha Hfin) as (_ & _ & Hc & _).
  rewrite (enqueue_spec _ q) in He by done. case_bool; [|done]. injection He as <-.
  exists L. unfold upd, requests_of, queues_of. simpl.
  rewrite (alter_as_insert _ _ _ q) by done. split_and!; try done.
  eapply core_requests; [by apply Hcore|]. intros _ x _ _ _ _. unfold requests_of. set_solver.
Qed.

Lemma upd_upd l f g r : upd l g (upd l f r) = upd l (fun q => g (f q)) r.
Proof.
  unfold upd, set_heap. simpl. f_equal. apply map_eq. intros l'. destruct (decide (l = l')) as [->|Hn].
  - rewrite !lookup_alter_eq. by destruct (r_heap r !! l').
  - by rewrite !lookup_alter_ne.
Qed.

Lemma upd_heap l f r q : r_heap r !! l = Some q -> r_heap (upd l f r) = <[l := f q]> (r_heap r).
Proof. intros H. unfold upd. simpl. by apply alter_as_insert. Qed.

Lemma upd_lookup l f r q : r_heap r !! l = Some q -> r_heap (upd l f r) !! l = Some (f q).
Proof. intros H. unfold upd. simpl. by rewrite lookup_alter_eq, H. Qed.

(** Distinct addresses of tracked queues are at most as many as the queues. *)
Lemma tracked_locs (m : gmap queueKey nat) (l : list nat) :
  NoDup l -> (forall x, x ∈ l -> exists k, m !! k = Some x) -> (length l <= size m)%nat.
Proof.
  intros Hn Hl. assert (l ⊆+ map snd (map_to_list m)) as Hs.
  { apply NoDup_submseteq; [done|]. intros x Hx. destruct (Hl _ Hx) as (k & Hk).
    apply list_elem_of_fmap. exists (k, x). split; [done|]. by apply elem_of_map_to_list. }
  apply submseteq_length in Hs. by rewrite length_map, length_map_to_list in Hs.
Qed.

(** An idle queue does nothing and is in neither line. *)
Lemma idle_facts h m L a E J k l q :
  core h m L a E J -> m !! k = Some l -> h !! l = Some q -> q_phase q = queueIdle ->
  q_identity q = k /\ minQueueWeight <= q_weight q /\ q_pullQueued q = false /\ q_pullInFlight q = false /\
  q_processing q = false /\ q_noticePending q = false /\ k ∉ J /\ l ∉ L.
Proof.
  intros Hc Hk Hq Hp.
  destruct (co_idents _ _ _ _ _ _ Hc _ _ Hk) as (q0 & Hq0 & Hid & Hw). assert (q0 = q) as -> by congruence.
  pose proof (co_flags _ _ _ _ _ _ Hc _ _ _ Hk Hq) as Hfl. unfold flags_ok in Hfl. rewrite Hp in Hfl.
  destruct Hfl as (Hf1 & Hf2 & Hf3 & Hf4). split_and!; try done.
  - intros Hin. apply (co_handled _ _ _ _ _ _ Hc) in Hin as (l' & q' & ? & ? & ?). congruence.
  - intros Hin. apply (co_deferred _ _ _ _ _ _ Hc) in Hin as (k' & q' & ? & ? & ?). congruence.
Qed.

(** With room, an idle queue becomes active and a pull is queued for it. *)
Lemma sched_activate_now P H r k l q e r' :
  acct_run r -> r_finalized r = false -> sched P H r ->
  queues_of r !! k = Some l -> r_heap r !! l = Some q -> q_phase q = queueIdle ->
  r_activeQueues r < maxActiveQueues ->
  enqueuePullLocked (Some l) (set_activeQueues (i32 (r_activeQueues r + 1)) (upd l (qset_phase queueActive) r)) = (e, r') ->
  (e = None -> sched P H r') /\ (e = None \/ e = Some requestQueueFull).
Proof.
  intros Ha Hfin (L & HL & Hc & Hmax & Hcons) Hk Hq Hp Hlt He.
  destruct (idle_facts _ _ _ _ _ _ _ _ _ Hc Hk Hq Hp) as (Hid & Hw & Hf1 & Hf2 & Hf3 & Hf4 & Hnj & HnL).
  pose proof (core_active_nonneg _ _ _ _ _ _ Hc) as Hnn.
  assert (L = []) as -> by (destruct L; [done|]; specialize (Hcons ltac:(done)); lia).
  set (r1 := set_activeQueues (i32 (r_activeQueues r + 1)) (upd l (qset_phase queueActive) r)) in *.
  assert (r_activeQueues r1 = r_activeQueues r + 1) as Ha1.
  { unfold r1. simpl. change maxActiveQueues with 256 in *. by rewrite i32_id by lia. }
  assert (acct_run r1) as Hacct by (unfold r1; auto with acct).
  assert (r_heap r1 !! l = Some (qset_phase queueActive q)) as Hq1 by (by apply upd_lookup).
  assert (e = None \/ e = Some requestQueueFull) as Hee.
  { rewrite (enqueue_spec _ (qset_phase queueActive q)) in He; try done; [|by apply (ar_struct _ Hacct)].
    case_bool; injection He as <- _; auto. }
  assert (core (<[l := qset_pullQueued true (qset_phase queueActive q)]> (r_heap r)) (queues_of r) []
    (r_activeQueues r + 1) (requests_of r ++ P ++ [l]) (own_jobs r (bc_batches (r_client r)) ++ H)) as Hc'.
  { replace (r_activeQueues r + 1) with
      (r_activeQueues r - b2z (is_active q) + b2z (is_active (qset_pullQueued true (qset_phase queueActive q))))
      by (unfold is_active; simpl; rewrite Hp; simpl; lia).
    eapply core_update; try done.
    - unfold flags_ok. simpl. by rewrite Hf2, Hf3.
    - constructor.
    - intros x. split; [set_solver|]. intros [[? ?]|[_ ?]]; done.
    - set_solver.
    - set_solver.
    - apply Hc.
    - intros x. simpl. rewrite Hf3. split; [|by intros [[? ?]|[_ ?]]].
      intros Hx. left. split; [|done]. by intros ->. }
  split; [|done]. eapply (sched_enqueue P H r1 [] k l (qset_phase queueActive q)); try done; [lia|].
  intros q' ->. rewrite Ha1. unfold r1, upd. simpl. rewrite (alter_as_insert _ _ _ q) by done.
  rewrite insert_insert_eq. exact Hc'.
Qed.

(** Without room, it takes its place at the end of the ring, which is never
    full. *)
Lemma sched_defer P H r k l q :
  acct_run r -> r_finalized r = false -> sched P H r ->
  queues_of r !! k = Some l -> r_heap r !! l = Some q -> q_phase q = queueIdle ->
  maxActiveQueues <= r_activeQueues r ->
  exists d, ring_Push (r_deferred r) (Some l) = (true, d) /\
    sched P H (set_deferred d (upd l (qset_phase queueDeferred) r)).
Proof.
  intros Ha Hfin (L & HL & Hc & Hmax & Hcons) Hk Hq Hp Hge.
  destruct (idle_facts _ _ _ _ _ _ _ _ _ Hc Hk Hq Hp) as (Hid & Hw & Hf1 & Hf2 & Hf3 & Hf4 & Hnj & HnL).
  assert (length L < maxTrackedQueues)%nat as Hlen.
  { assert (length (L ++ [l]) <= size (queues_of r))%nat as Hl.
    { apply tracked_locs; [apply NoDup_app; split_and!; [apply Hc|set_solver|apply NoDup_singleton]|].
      intros x Hx. apply elem_of_app in Hx as [Hx|Hx].
      - apply (co_deferred _ _ _ _ _ _ Hc) in Hx as (k' & q' & Hk' & _). by exists k'.
      - apply list_elem_of_singleton in Hx as ->. by exists k. }
    rewrite length_app in Hl. simpl in Hl. pose proof (tracked_count _ Ha). lia. }
  destruct (ar_struct _ Ha Hfin) as (_ & Hlenr & _).
  destruct (push_repr _ _ l HL ltac:(by rewrite Hlenr)) as (d' & Hpush & HL' & _).
  exists d'. split; [done|]. exists (L ++ [l]). simpl. split_and!; [done| |done|intros _; lia].
  unfold queues_of, requests_of. simpl. rewrite (alter_as_insert _ _ _ q) by done.
  fold (queues_of r) (requests_of r).
  rewrite <- (Z.add_0_r (r_activeQueues r)) at 1. rewrite <- (Z.sub_0_r (r_activeQueues r)) at 1.
  replace 0 with (b2z (is_active q)) at 1 by (unfold is_active; by rewrite Hp).
  change 0 with (b2z (is_active (qset_phase queueDeferred q))).
  eapply core_update; try done.
  + apply NoDup_app. split_and!; [apply Hc|set_solver|apply NoDup_singleton].
  + intros x. rewrite elem_of_app, list_elem_of_singleton. simpl. split.
    * intros [Hx| ->]; [left|by right]. split; [|done]. by intros ->.
    * intros [[_ Hx]|[-> _]]; auto.
  + simpl. by rewrite Hf1.
  + apply Hc.
  + intros x. simpl. rewrite Hf3. split; [|by intros [[? ?]|[_ ?]]]. intros Hx. left. split; [|done]. by intros ->.
Qed.

Lemma sched_activate P H r k l q e r' :
  acct_run r -> r_finalized r = false -> sched P H r ->
  queues_of r !! k = Some l -> r_heap r !! l = Some q -> q_phase q = queueIdle ->
  activateOrDeferLocked l r = (e, r') ->
  (e = None -> sched P H r') /\ (e = None \/ e = Some requestQueueFull).
Proof.
  intros Ha Hfin Hs Hk Hq Hp He. unfold activateOrDeferLocked in He.
  destruct (Z.ltb_spec (r_activeQueues r) maxActiveQueues) as [Hlt|Hge].
  - by eapply sched_activate_now.
  - destruct (sched_defer _ _ _ _ _ _ Ha Hfin Hs Hk Hq Hp Hge) as (d & Hpush & Hs').
    change (r_deferred (upd l (qset_phase queueDeferred) r)) with (r_deferred r) in He. rewrite Hpush in He.
    injection He as <- <-. auto.
Qed.

(** A slot is free: the head of the ring, if any, becomes active. *)
Lemma sched_promote P H r L e r' :
  acct_run r -> r_finalized r = false -> ring_repr (r_deferred r) L ->
  core (r_heap r) (queues_of r) L (r_activeQueues r) (requests_of r ++ P)
       (own_jobs r (bc_batches (r_client r)) ++ H) ->
  r_activeQueues r < maxActiveQueues -> (L <> [] -> r_activeQueues r = maxActiveQueues - 1) ->
  promoteDeferredLocked r = (e, r') ->
  (e = None -> sched P H r') /\ (e = None \/ e = Some requestQueueFull).
Proof.
  intros Ha Hfin HL Hc Hmax Hcons He. unfold promoteDeferredLocked in He. cbn [promoteLoop] in He.
  rewrite (proj2 (Z.ltb_lt _ _)) in He by done. destruct L as [|l L].
  - rewrite (pop_empty _ HL) in He. simpl in He. injection He as <- <-. split; [|by left].
    intros _. exists []. by split_and!; [|exact Hc|simpl; lia|].
  - destruct (pop_repr _ _ _ HL) as (d & Hpop & HL' & Hlen). rewrite Hpop in He.
    destruct (proj1 (co_deferred _ _ _ _ _ _ Hc l) ltac:(set_solver)) as (k & q & Hk & Hq & Hp).
    simpl in He. rewrite Hq in He. simpl in He. rewrite Hp in He. simpl in He.
    pose proof (co_flags _ _ _ _ _ _ Hc _ _ _ Hk Hq) as Hfl. unfold flags_ok in Hfl. rewrite Hp in Hfl.
    destruct Hfl as (Hf1 & Hf2 & Hf3 & Hf4).
    destruct (co_idents _ _ _ _ _ _ Hc _ _ Hk) as (q0 & Hq0 & Hid & Hw). assert (q0 = q) as -> by congruence.
    pose proof (core_active_nonneg _ _ _ _ _ _ Hc) as Hnn. specialize (Hcons ltac:(done)).
    set (r1 := set_activeQueues (i32 (r_activeQueues r + 1)) (upd l (qset_phase queueActive) (set_deferred d r))) in *.
    change (enqueuePullLocked (Some l) r1 = (e, r')) in He.
    assert (r_activeQueues r1 = r_activeQueues r + 1) as Ha1.
    { unfold r1. simpl. change maxActiveQueues with 256 in *. by rewrite i32_id by lia. }
    assert (acct_run r1) as Hacct by (unfold r1; auto with acct).
    assert (r_heap r1 !! l = Some (qset_phase queueActive q)) as Hq1 by (by apply upd_lookup).
    assert (e = None \/ e = Some requestQueueFull) as Hee.
    { rewrite (enqueue_spec _ (qset_phase queueActive q)) in He; try done; [|by apply (ar_struct _ Hacct)].
      case_bool; injection He as <- _; auto. }
    split; [|done].
    pose proof (co_nodup _ _ _ _ _ _ Hc) as HnL. apply NoDup_cons in HnL as [Hnin HnL].
    eapply (sched_enqueue P H r1 L k l (qset_phase queueActive q)); try done; [lia|intros _; lia|].
    intros q' ->. rewrite Ha1. unfold r1, upd. simpl. rewrite (alter_as_insert _ _ _ q) by done.
    rewrite insert_insert_eq.
    replace (r_activeQueues r + 1) with
      (r_activeQueues r - b2z (is_active q) + b2z (is_active (qset_pullQueued true (qset_phase queueActive q))))
      by (unfold is_active; simpl; rewrite Hp; simpl; lia).
    eapply (core_update _ _ (l :: L) _ (requests_of r ++ P)); try done.
    + unfold flags_ok. simpl. by rewrite Hf2, Hf3.
    + intros x. simpl. split; [|intros [[? ?]|[_ ?]]; set_solver].
      intros Hx. left. split; [by intros ->|set_solver].
    + set_solver.
    + unfold requests_of. simpl. set_solver.
    + apply Hc.
    + intros x. simpl. rewrite Hf3. split; [|by intros [[? ?]|[_ ?]]].
      intros Hx. left. split; [|done]. intros ->.
      apply (co_handled _ _ _ _ _ _ Hc) in Hx as (l' & q' & ? & ? & ?). congruence.
Qed.

(** What holds of the queue a finished batch belongs to. *)
Lemma handled_facts h m L a E J k :
  core h m L a E J -> k ∈ J -> exists l q, m !! k = Some l /\ h !! l = Some q /\ q_identity q = k /\
    minQueueWeight <= q_weight q /\ q_phase q = queueActive /\ q_processing q = true /\
    q_pullQueued q = false /\ q_pullInFlight q = false /\ l ∉ L /\ 0 < a.
Proof.
  intros Hc Hin. apply (co_handled _ _ _ _ _ _ Hc) in Hin as (l & q & Hk & Hq & Hp). exists l, q.
  destruct (co_idents _ _ _ _ _ _ Hc _ _ Hk) as (q0 & Hq0 & Hid & Hw). assert (q0 = q) as -> by congruence.
  pose proof (co_flags _ _ _ _ _ _ Hc _ _ _ Hk Hq) as Hfl. unfold flags_ok in Hfl.
  destruct (q_phase q) eqn:Hph; rewrite Hp in Hfl; [naive_solver..|].
  assert (l ∉ L) as HnL.
  { intros Hl. apply (co_deferred _ _ _ _ _ _ Hc) in Hl as (k' & q' & ? & ? & ?). congruence. }
  assert (0 < a).
  { rewrite (co_active _ _ _ _ _ _ Hc).
    pose proof (qsum_member (active_at h) m k l ltac:(intros; apply active_range) Hk) as Hm.
    assert (active_at h l = 1) by (unfold active_at; rewrite Hq; simpl; unfold is_active; by rewrite Hph). lia. }
  destruct (q_pullQueued q), (q_pullInFlight q); simpl in Hfl; try lia. by split_and!.
Qed.

(** What [advanceQueue] does to the fields of the queue before scheduling. *)
Definition advanced (d : Sync) (q : queueState) : queueState :=
  (if sy_NextKey d =? 0 then id else qset_key (sy_NextKey d)) (qset_processing false q).
Arguments advanced : simpl never.

Lemma advanced_facts d q :
  q_identity (advanced d q) = q_identity q /\ q_weight (advanced d q) = q_weight q /\
  q_phase (advanced d q) = q_phase q /\ q_processing (advanced d q) = false /\
  q_pullQueued (advanced d q) = q_pullQueued q /\ q_pullInFlight (advanced d q) = q_pullInFlight q /\
  q_noticePending (advanced d q) = q_noticePending q.
Proof. unfold advanced. case_bool; done. Qed.

Lemma acct_advanced d l r : acct_run r -> acct_run (upd l (advanced d) r).
Proof. apply acct_upd. intros q. by destruct (advanced_facts d q) as (? & ? & _). Qed.

(** The queue of a finished batch, with its next pull queued. *)
Lemma sched_pull_again P H H' r d k l e r' :
  acct_run r -> r_finalized r = false -> sched P H r -> queues_of r !! k = Some l ->
  own_jobs r (bc_batches (r_client r)) ++ H ≡ₚ k :: own_jobs r (bc_batches (r_client r)) ++ H' ->
  enqueuePullLocked (Some l) (upd l (qset_notice false) (upd l (advanced d) r)) = (e, r') ->
  (e = None -> sched P H' r') /\ (e = None \/ e = Some requestQueueFull).
Proof.
  intros Ha Hfin (L & HL & Hc & Hmax & Hcons) Hk HJ He.
  destruct (handled_facts _ _ _ _ _ _ k Hc ltac:(rewrite HJ; set_solver))
    as (l0 & q & Hk0 & Hq & Hid & Hw & Hp & Hpr & Hf1 & Hf2 & HnL & Hpos).
  assert (l0 = l) as -> by congruence.
  assert (NoDup (k :: own_jobs r (bc_batches (r_client r)) ++ H')) as HnJ by (rewrite <- HJ; apply Hc).
  apply NoDup_cons in HnJ as [HkJ HnJ].
  destruct (advanced_facts d q) as (Hai & Haw & Hap & Har & Haq & Haf & Han).
  assert (acct_run (upd l (qset_notice false) (upd l (advanced d) r))) as Hacct
    by (apply acct_upd; [auto with acct|by apply acct_advanced]).
  assert (r_heap (upd l (qset_notice false) (upd l (advanced d) r)) !! l = Some (qset_notice false (advanced d q)))
    as Hq1 by (by apply upd_lookup, upd_lookup).
  split.
  - eapply (sched_enqueue P H' (upd l (qset_notice false) (upd l (advanced d) r)) L k l
      (qset_notice false (advanced d q))); try done; simpl.
    { by rewrite Hap. }
    { unfold inactive. simpl. by rewrite Haq, Haf, Har. }
    intros q' ->. unfold upd, requests_of, queues_of. simpl. rewrite (alter_as_insert (advanced d) _ _ q) by done.
    rewrite (alter_as_insert _ _ _ (advanced d q)) by apply lookup_insert_eq. rewrite !insert_insert_eq.
    fold (queues_of r) (requests_of r).
    replace (r_activeQueues r) with
      (r_activeQueues r - b2z (is_active q) + b2z (is_active (qset_pullQueued true (qset_notice false (advanced d q)))))
      by (unfold is_active; simpl; rewrite Hap; lia).
    eapply core_update; try done; simpl; [congruence|by rewrite Haw| |apply Hc| |set_solver|set_solver|].
    + unfold flags_ok. simpl. by rewrite Hap, Haf, Har, Hp, Hf2.
    + intros x. rewrite Hap, Hp. split; [|naive_solver]. intros Hx. left. split; [by intros ->|done].
    + intros x. rewrite Har, HJ, elem_of_cons. split; [|naive_solver]. intros Hx. left. split; [by intros ->|auto].
  - rewrite (enqueue_spec _ (qset_notice false (advanced d q))) in He; try done; simpl.
    + case_bool; injection He as <- _; auto.
    + by rewrite Hap.
    + by rewrite Haq.
    + by rewrite Haf.
    + apply (ar_struct _ Hacct Hfin).
Qed.

(** The queue of the last batch becomes idle: the state before its place is
    given away. *)
Definition gone_idle (d : Sync) (l : nat) (r : connectionRun) : connectionRun :=
  set_activeQueues (i32 (r_activeQueues r - 1)) (upd l (qset_phase queueIdle) (upd l (advanced d) r)).

Lemma core_go_idle P H H' r L d k l :
  core (r_heap r) (queues_of r) L (r_activeQueues r) (requests_of r ++ P)
       (own_jobs r (bc_batches (r_client r)) ++ H) ->
  r_activeQueues r <= maxActiveQueues -> queues_of r !! k = Some l ->
  own_jobs r (bc_batches (r_client r)) ++ H ≡ₚ k :: own_jobs r (bc_batches (r_client r)) ++ H' ->
  (q_noticePending <$> r_heap r !! l) <> Some true ->
  r_activeQueues (gone_idle d l r) = r_activeQueues r - 1 /\
  core (r_heap (gone_idle d l r)) (queues_of r) L (r_activeQueues r - 1) (requests_of r ++ P)
       (own_jobs r (bc_batches (r_client r)) ++ H').
Proof.
  intros Hc Hmax Hk HJ Hnp.
  destruct (handled_facts _ _ _ _ _ _ k Hc ltac:(rewrite HJ; set_solver))
    as (l0 & q & Hk0 & Hq & Hid & Hw & Hp & Hpr & Hf1 & Hf2 & HnL & Hpos).
  assert (l0 = l) as -> by congruence. rewrite Hq in Hnp. simpl in Hnp.
  assert (NoDup (k :: own_jobs r (bc_batches (r_client r)) ++ H')) as HnJ by (rewrite <- HJ; apply Hc).
  apply NoDup_cons in HnJ as [HkJ HnJ].
  destruct (advanced_facts d q) as (Hai & Haw & Hap & Har & Haq & Haf & Han).
  split; [unfold gone_idle; simpl; change maxActiveQueues with 256 in *; by rewrite i32_id by lia|].
  unfold gone_idle, upd. simpl. rewrite (alter_as_insert (advanced d) _ _ q) by done.
  rewrite (alter_as_insert _ _ _ (advanced d q)) by apply lookup_insert_eq. rewrite !insert_insert_eq.
  replace (r_activeQueues r - 1) with
    (r_activeQueues r - b2z (is_active q) + b2z (is_active (qset_phase queueIdle (advanced d q))))
    by (unfold is_active; simpl; rewrite Hp; simpl; lia).
  eapply core_update; try done; simpl; [congruence|by rewrite Haw| |apply Hc| | |].
  - unfold flags_ok. simpl. rewrite Haq, Haf, Har, Han. split_and!; try done. by destruct (q_noticePending q).
  - intros x. split; [|naive_solver]. intros Hx. left. split; [by intros ->|done].
  - by rewrite Haq, Hf1.
  - intros x. rewrite Har, HJ, elem_of_cons. split; [|naive_solver]. intros Hx. left. split; [by intros ->|auto].
Qed.

Lemma acct_gone_idle d l r : acct_run r -> acct_run (gone_idle d l r).
Proof. intros Ha. apply acct_active, acct_upd; [auto with acct|by apply acct_advanced]. Qed.

Lemma sched_go_idle P H H' r d k l e r' :
  acct_run r -> r_finalized r = false -> sched P H r -> queues_of r !! k = Some l ->
  own_jobs r (bc_batches (r_client r)) ++ H ≡ₚ k :: own_jobs r (bc_batches (r_client r)) ++ H' ->
  (q_noticePending <$> r_heap r !! l) <> Some true ->
  promoteDeferredLocked (gone_idle d l r) = (e, r') ->
  (e = None -> sched P H' r') /\ (e = None \/ e = Some requestQueueFull).
Proof.
  intros Ha Hfin (L & HL & Hc & Hmax & Hcons) Hk HJ Hnp He.
  destruct (core_go_idle _ _ _ _ _ d _ _ Hc Hmax Hk HJ Hnp) as [Ha1 Hc1]. rewrite <- Ha1 in Hc1.
  apply (sched_promote P H' (gone_idle d l r) L); try done; rewrite ?Ha1.
  - by apply acct_gone_idle.
  - change maxActiveQueues with 256 in *. lia.
  - intros HLne. specialize (Hcons HLne). lia.
Qed.

(** The critical section of [processBatch]: the queue goes on being pulled, or
    gives its place to a deferred one. *)
Lemma sched_advance P H H' r d k l e r' :
  acct_run r -> r_finalized r = false -> sched P H r -> queues_of r !! k = Some l ->
  own_jobs r (bc_batches (r_client r)) ++ H ≡ₚ k :: own_jobs r (bc_batches (r_client r)) ++ H' ->
  advanceQueue l d r = (e, r') ->
  acct_run r' /\ (e = None -> sched P H' r') /\ (e = None \/ e = Some requestQueueFull).
Proof.
  intros Ha Hfin Hs Hk HJ He. unfold advanceQueue in He. fold (advanced d) in He.
  assert (r_heap (upd l (advanced d) r) !! l = advanced d <$> r_heap r !! l) as Hl by apply lookup_alter_eq.
  destruct (_ || _); [|split; [|by eapply sched_pull_again]].
  - rewrite Hl in He. destruct (q_noticePending <$> (advanced d <$> r_heap r !! l)) as [[]|] eqn:Hn.
    + split; [|by eapply sched_pull_again].
      replace r' with (snd (e, r')) by done. rewrite <- He.
      apply acct_enqueue, acct_upd; [auto with acct|by apply acct_advanced].
    + split; [replace r' with (snd (e, r')) by done; rewrite <- He;
              apply acct_promote, acct_active, acct_upd; [auto with acct|by apply acct_advanced]|].
      eapply sched_go_idle; try done. intros Hc. destruct (r_heap r !! l) as [q|]; [|done]. simpl in *.
      by rewrite (proj2 (proj2 (proj2 (proj2 (proj2 (proj2 (advanced_facts d q))))))), (inj Some _ _ Hc) in Hn.
    + split; [replace r' with (snd (e, r')) by done; rewrite <- He;
              apply acct_promote, acct_active, acct_upd; [auto with acct|by apply acct_advanced]|].
      eapply sched_go_idle; try done. by destruct (r_heap r !! l).
  - replace r' with (snd (e, r')) by done. rewrite <- He.
    apply acct_enqueue, acct_upd; [auto with acct|by apply acct_advanced].
Qed.

(** *** NOTICE *)

Lemma validate_lengths j : validateQueueJID j = None ->
  0 <= slen (j_AppKey j) + slen (j_Name j) + slen (j_Domain j) + slen (j_ClientResource j) <= MaxJIDBytes.
Proof.
  unfold validateQueueJID. intros H. case_bool; [done|]. case_bool; [done|]. breflect.
  pose proof (slen_nonneg (j_AppKey j)). pose proof (slen_nonneg (j_Name j)).
  pose proof (slen_nonneg (j_Domain j)). pose proof (slen_nonneg (j_ClientResource j)).
  cbn [map] in *. rewrite !zsum_cons in *. change (zsum []) with 0 in *. lia.
Qed.

(** The charge of a valid queue: the fixed part plus its strings, rounded up. *)
Lemma queueRetainedWeight_spec j : validateQueueJID j = None ->
  queueRetainedWeight j = round_up minQueueWeight (minQueueWeight +
    (slen (j_AppKey j) + slen (j_Name j) + slen (j_Domain j) + slen (j_ClientResource j))) /\
  minQueueWeight <= queueRetainedWeight j <= 2 ^ 15.
Proof.
  intros H. pose proof (validate_lengths _ H) as Hb. unfold queueRetainedWeight.
  change MaxJIDBytes with 16384 in Hb. change minQueueWeight with 1024.
  set (n := slen _ + _ + _ + _) in *.
  assert (forall z, 0 <= z < 2 ^ 40 -> i64 z = z) as Hi by (intros; apply i64_id; word_lia).
  assert (i64 (i64 (1024 + i64 n) + 1024 - 1) = 1024 + n + 1024 - 1) as ->.
  { rewrite (Hi n), (Hi (1024 + n)), Hi by lia. lia. }
  assert ((1024 + n + 1024 - 1) ÷ 1024 * 1024 = round_up 1024 (1024 + n)) as ->.
  { unfold round_up. rewrite Z.quot_div_nonneg by lia. lia. }
  pose proof (round_up_ge 1024 (1024 + n) ltac:(lia)). pose proof (round_up_lt 1024 (1024 + n) ltac:(lia)).
  rewrite Hi by lia. lia.
Qed.

(** Both budgets are charged, or neither. *)
Lemma reserveQueue_spec r w :
  acct_run r -> r_finalized r = false -> 0 < w ->
  exists x lb pb lb' pb', reserveQueueLocked w r = (x, set_budgets (Some lb') pb' r) /\
    r_queueBudget r = Some lb /\ r_processQueueBudget r = pb /\
    budget_ok lb' /\ bb_limit lb' = bb_limit lb /\ budget_ok pb' /\ bb_limit pb' = bb_limit pb /\
    bb_used lb' = bb_used lb + (if reserved x then w else 0) /\
    bb_used pb' = bb_used pb + (if reserved x then w else 0).
Proof.
  intros Ha Hfin Hw. destruct (ar_local _ Ha) as (lb & Hlb & Hok & Hlim & Hused).
  destruct (ar_process _ Ha) as [Hpok _]. unfold reserveQueueLocked. rewrite ensure_id by done.
  rewrite Hlb. simpl. destruct (tryAcquireLocked lb w) as [x lb1] eqn:E1.
  destruct (tryAcquire_grows _ _ _ _ Hok E1) as (Hok1 & Hg1 & Hu1 & _ & _).
  assert (bb_limit lb1 = bb_limit lb) as Hl1 by apply Hg1.
  destruct x as [[]|err].
  2,3: do 5 eexists; split; [reflexivity|]; split_and!; try done; simpl; rewrite ?Hu1; lia.
  simpl. destruct (tryAcquireLocked (r_processQueueBudget r) w) as [y pb1] eqn:E2.
  destruct (tryAcquire_grows _ _ _ _ Hpok E2) as (Hpok1 & Hpg1 & Hpu1 & _ & _).
  assert (bb_limit pb1 = bb_limit (r_processQueueBudget r)) as Hpl1 by apply Hpg1.
  destruct (releaseLocked lb1 w) as [e lb2] eqn:E3.
  destruct (release_grows _ _ _ _ Hok1 E3) as (Hok2 & Hg2 & Hu2 & _).
  assert (e = None) as ->.
  { pose proof (bo_used _ Hok). rewrite releaseLocked_spec in E3 by done.
    repeat case_bool; breflect; inversion E3; (done || lia). }
  assert (bb_limit lb2 = bb_limit lb1) as Hl2 by apply Hg2.
  destruct y as [[]|err]; simpl.
  - do 5 eexists; split; [reflexivity|]; split_and!; try done.
  - do 5 eexists; split; [reflexivity|]; split_and!; try done; simpl; lia.
  - do 5 eexists; split; [reflexivity|]; split_and!; try done; simpl; lia.
Qed.

(** Neither the map nor the charged weights change, nor what makes a run
    live. *)
Definition keeps_queues (r r' : connectionRun) : Prop :=
  r_queues r' = r_queues r /\ (forall l, weight_at (r_heap r') l = weight_at (r_heap r) l) /\
  r_cancelled r' = r_cancelled r /\ r_generation r' = r_generation r /\ r_client r' = r_client r /\
  r_finalized r' = r_finalized r.

Lemma keeps_live r r' : keeps_queues r r' -> live r' <-> live r.
Proof. intros (_ & _ & Hc & Hg & Hcl & _). unfold live. by rewrite Hc, Hg, Hcl. Qed.

Lemma keeps_upd l f r r' : keeps_weight f -> keeps_queues r r' -> keeps_queues r (upd l f r').
Proof.
  intros Hf (Hq & Hw & Hr). split; [done|]. split; [|done]. intros l'. rewrite <- Hw. unfold weight_at, upd. simpl.
  destruct (decide (l = l')) as [->|Hn]; [|by rewrite lookup_alter_ne].
  rewrite lookup_alter_eq. destruct (r_heap r' !! l') as [q|]; simpl; [apply Hf|done].
Qed.

Lemma keeps_refl r : keeps_queues r r.
Proof. by unfold keeps_queues. Qed.

Lemma keeps_enqueue q r r' : keeps_queues r r' -> keeps_queues r (snd (enqueuePullLocked q r')).
Proof.
  intros H. unfold enqueuePullLocked.
  destruct (l ← q; s ← r_heap r' !! l; Some (l, s)) as [[l s]|]; [|done]. case_bool; [done|].
  pose proof (keeps_upd l (qset_pullQueued true) r r' ltac:(auto with acct) H) as H1.
  destruct (r_pullRequests (upd l (qset_pullQueued true) r')) as [c|]; [case_bool; [exact H1|]|];
    by apply keeps_upd; auto with acct.
Qed.

Lemma keeps_activate l r : keeps_queues r (snd (activateOrDeferLocked l r)).
Proof.
  unfold activateOrDeferLocked. case_bool.
  - apply keeps_enqueue. apply (keeps_upd l (qset_phase queueActive) r r); auto with acct. apply keeps_refl.
  - pose proof (keeps_upd l (qset_phase queueDeferred) r r ltac:(auto with acct) (keeps_refl r)) as H1.
    destruct (ring_Push _ _) as [[] d]; exact H1.
Qed.

Lemma alloc_fresh r : r_heap r !! alloc r = None.
Proof. unfold alloc. apply (not_elem_of_dom (D := gset nat)). exact (is_fresh (dom (r_heap r))). Qed.

(** The state of [startNew] once the queue is in the map. *)
Definition tracked_new (k : queueKey) (j : JID) (w : Z) (lb pb : byteBudget) (r : connectionRun) : connectionRun :=
  trackQueue k j w (set_budgets (Some lb) pb r).

Lemma tracked_new_weight k j w lb pb r :
  acct_run r -> queues_of r !! k = None -> tracked_weight (tracked_new k j w lb pb r) = tracked_weight r + w.
Proof.
  intros Ha Hk. rewrite !tracked_qsum.
  change (qsum (weight_at (<[alloc r := mkQueue k j 0 queueIdle false false false false None w]> (r_heap r)))
    (<[k := alloc r]> (queues_of r)) = qsum (weight_at (r_heap r)) (queues_of r) + w).
  rewrite qsum_insert by done. unfold weight_at at 1. rewrite lookup_insert_eq. simpl.
  rewrite (qsum_ext _ (weight_at (r_heap r))); [lia|]. intros k' l' Hk'. unfold weight_at.
  rewrite lookup_insert_ne; [done|]. intros <-. destruct (ar_idents _ Ha _ _ Hk') as (q & Hq & _).
  by rewrite alloc_fresh in Hq.
Qed.

Lemma acct_tracked_new k j w lb pb r :
  acct_run r -> r_finalized r = false -> queues_of r !! k = None -> minQueueWeight <= w ->
  budget_ok lb -> bb_limit lb = connectionQueueBudgetBytes -> bb_used lb = tracked_weight r + w ->
  budget_ok pb -> tracked_weight r + w <= bb_used pb -> acct_run (tracked_new k j w lb pb r).
Proof.
  intros Ha Hfin Hk Hw Hlb Hlim Hul Hpb Hup. pose proof (tracked_new_weight k j w lb pb r Ha Hk) as Ht.
  destruct (ar_struct _ Ha Hfin) as (_ & Hd & Hc & Hto).
  split; rewrite ?Ht; try done; simpl; try apply Ha; [by rewrite Hfin|by intros _; split_and!; [eexists| | |]| |by exists lb].
  intros k' l' Hk'. unfold tracked_new, queues_of in Hk'. simpl in Hk'.
  apply lookup_insert_Some in Hk' as [[<- <-]|[Hne Hk']].
  - rewrite lookup_insert_eq. by eexists.
  - destruct (ar_idents _ Ha _ _ Hk') as (q & Hq & Hi & Hwq). exists q.
    rewrite lookup_insert_ne; [done|]. intros <-.
    change (alloc (set_budgets (Some lb) pb r)) with (alloc r) in Hq. by rewrite alloc_fresh in Hq.
Qed.

Lemma sched_tracked_new P H k j w lb pb r :
  sched P H r -> queues_of r !! k = None -> minQueueWeight <= w -> sched P H (tracked_new k j w lb pb r).
Proof.
  intros (L & HL & Hc & Hmax & Hcons) Hk Hw. exists L. split_and!; try done.
  change (core (<[alloc r := mkQueue k j 0 queueIdle false false false false None w]> (r_heap r))
    (<[k := alloc r]> (queues_of r)) L (r_activeQueues r) (requests_of r ++ P)
    (own_jobs r (bc_batches (r_client r)) ++ H)).
  replace (r_activeQueues r) with
    (r_activeQueues r + b2z (is_active (mkQueue k j 0 queueIdle false false false false None w))) by (simpl; lia).
  eapply core_new; try done; simpl; [apply alloc_fresh|apply Hc|].
  intros x. split; [by left|naive_solver].
Qed.

Lemma release_exact b w : budget_ok b -> 0 < w <= bb_used b ->
  exists b', releaseLocked b w = (None, b') /\ budget_ok b' /\ bb_limit b' = bb_limit b /\ bb_used b' = bb_used b - w.
Proof.
  intros Hb Hw. destruct (releaseLocked b w) as [e b'] eqn:E. exists b'.
  destruct (release_grows _ _ _ _ Hb E) as (Hb' & Hg & Hu & _).
  assert (e = None) as ->.
  { rewrite releaseLocked_spec in E by done. repeat case_bool; breflect; inversion E; (done || lia). }
  split_and!; try done; apply Hg.
Qed.

Lemma acct_forgetQueue k l w r :
  acct_run r -> r_finalized r = false -> queues_of r !! k = Some l -> weight_at (r_heap r) l = w ->
  acct_run (forgetQueue k l w r).
Proof.
  intros Ha Hfin Hk Hwl. destruct (ar_idents _ Ha _ _ Hk) as (q & Hq & Hi & Hw).
  assert (q_weight q = w) as Hqw by (unfold weight_at in Hwl; by rewrite Hq in Hwl).
  change minQueueWeight with 1024 in Hw.
  destruct (ar_local _ Ha) as (lb & Hlb & Hok & Hlim & Hu). destruct (ar_process _ Ha) as [Hpok Hpu].
  destruct (ar_struct _ Ha Hfin) as (_ & Hd & Hc & Hto).
  assert (w <= tracked_weight r) as Hwt.
  { rewrite tracked_qsum, <- Hwl. apply (qsum_member _ _ k); [|done]. intros k' l' Hk'.
    destruct (ar_idents _ Ha _ _ Hk') as (q' & Hq' & _ & Hw'). unfold weight_at. rewrite Hq'. simpl.
    change minQueueWeight with 1024 in Hw'. lia. }
  destruct (release_exact lb w Hok ltac:(lia)) as (lb' & Hrl & Hok' & Hlim' & Hu').
  destruct (release_exact _ w Hpok ltac:(lia)) as (pb' & Hrp & Hpok' & Hplim' & Hpu').
  set (r' := forgetQueue k l w r).
  assert (r_heap r' = alter (qset_phase queueIdle) l (r_heap r) /\ r_queues r' = Some (delete k (queues_of r)) /\
    r_queueBudget r' = Some lb' /\ r_processQueueBudget r' = pb' /\ r_deferred r' = r_deferred r /\
    r_pullRequests r' = r_pullRequests r /\ r_queueTimeout r' = r_queueTimeout r /\
    r_closed r' = r_closed r /\ r_cancelled r' = r_cancelled r /\ r_finalized r' = r_finalized r)
    as (Eh & Eq & El & Ep & Ed & Er & Et & Ecl & Eca & Ef).
  { unfold r', forgetQueue. simpl. rewrite Hq. simpl.
    destruct (q_phase q); simpl; rewrite Hlb; simpl; rewrite Hrl; simpl; rewrite Hrp; by split_and!. }
  clearbody r'.
  assert (queues_of r' = delete k (queues_of r)) as Eqq by (unfold queues_of at 1; by rewrite Eq).
  assert (forall l', weight_at (r_heap r') l' = weight_at (r_heap r) l') as Ew.
  { intros l'. rewrite Eh. unfold weight_at. destruct (decide (l = l')) as [->|Hn];
      [|by rewrite lookup_alter_ne]. rewrite lookup_alter_eq. by destruct (r_heap r !! l'). }
  assert (tracked_weight r' = tracked_weight r - w) as Ht.
  { rewrite !tracked_qsum, Eqq, (qsum_ext _ (weight_at (r_heap r))) by (intros; apply Ew).
    by rewrite (qsum_delete _ _ _ _ Hk), Hwl. }
  split; rewrite ?Ecl, ?Eca, ?Ef, ?Eq, ?Ed, ?Er, ?Et, ?El, ?Ep, ?Ht, ?Eqq; try apply Ha.
  - by rewrite Hfin.
  - intros _. split_and!; try done. by eexists.
  - intros k' l' Hk'. apply lookup_delete_Some in Hk' as [Hne Hk'].
    destruct (ar_idents _ Ha _ _ Hk') as (q' & Hq' & Hi' & Hw'). rewrite Eh. exists q'.
    rewrite lookup_alter_ne; [done|]. intros <-. congruence.
  - exists lb'. split_and!; try done; lia.
  - split; [done|lia].
Qed.

(** Either the charge is refused and the run fails, or the queue is in the map,
    idle, and is then scheduled. *)
Lemma startNew_tracks P H r j :
  run_inv P H r -> r_finalized r = false -> validateQueueJID j = None ->
  queues_of r !! newQueueKey j = None ->
  (exists e r', startNew (newQueueKey j) j r = fail e r' /\ acct_run r') \/
  exists r2, run_inv P H r2 /\ r_finalized r2 = false /\ (live r2 <-> live r) /\
    queues_of r2 !! newQueueKey j = Some (alloc r) /\
    r_heap r2 !! alloc r = Some (mkQueue (newQueueKey j) j 0 queueIdle false false false false None (queueRetainedWeight j)) /\
    startNew (newQueueKey j) j r =
      (let '(e, r3) := activateOrDeferLocked (alloc r) r2 in
       match e with
       | None => r3
       | Some err => fail err (capacityHit (forgetQueue (newQueueKey j) (alloc r) (queueRetainedWeight j) r3))
       end).
Proof.
  intros [Ha Hs] Hfin Hval Hk. destruct (queueRetainedWeight_spec _ Hval) as [_ Hw].
  set (w := queueRetainedWeight j) in *. set (k := newQueueKey j) in *. unfold startNew. fold w.
  destruct (reserveQueue_spec r w Ha Hfin) as (x & lb & pb & lb' & pb' & Hres & Hlb & Hpb & Hok & Hlim & Hpok & Hplim & Hu & Hpu);
    [change minQueueWeight with 1024 in Hw; lia|]. rewrite Hres.
  destruct (ar_local _ Ha) as (lb0 & Hlb0 & _ & Hlim0 & Hu0). assert (lb0 = lb) as -> by congruence.
  destruct (ar_process _ Ha) as [_ Hpu0]. rewrite Hpb in Hpu0.
  destruct (reserved x) eqn:Hx; simpl negb; cbv iota.
  - right. exists (tracked_new k j w lb' pb' r). split_and!; try done.
    + split; [apply acct_tracked_new; try done; [lia|congruence|lia|lia]|].
      intros Hl. apply sched_tracked_new; [by apply Hs|done|lia].
    + apply lookup_insert_eq.
    + apply lookup_insert_eq.
  - left. do 2 eexists. split; [done|]. apply acct_hit. destruct Ha as [H1 H2 H3 H4 H5 H6]. split; try done; simpl.
    + exists lb'. split_and!; try done; [congruence|]. change (tracked_weight _) with (tracked_weight r). lia.
    + split; [done|]. change (tracked_weight _) with (tracked_weight r). lia.
Qed.

Lemma startNew_inv P H r j :
  run_inv P H r -> r_finalized r = false -> validateQueueJID j = None ->
  queues_of r !! newQueueKey j = None -> run_inv P H (startNew (newQueueKey j) j r).
Proof.
  intros Hr Hfin Hval Hk. destruct (startNew_tracks P H r j Hr Hfin Hval Hk)
    as [(e & r' & -> & Ha)|(r2 & [Ha2 Hs2] & Hfin2 & _ & Hk2 & Hq2 & ->)]; [by apply acct_fail|].
  pose proof (acct_activate (alloc r) r2 Ha2) as Ha3. pose proof (keeps_activate (alloc r) r2) as Hkeep.
  destruct (activateOrDeferLocked (alloc r) r2) as [e r3] eqn:Eact. simpl in Ha3, Hkeep.
  pose proof Hkeep as (Hkq & Hkw & _ & _ & _ & Hkf). destruct e as [err|].
  - apply acct_fail, acct_hit, acct_forgetQueue; try done; [by rewrite Hkf|unfold queues_of; by rewrite Hkq|].
    rewrite Hkw. unfold weight_at. by rewrite Hq2.
  - split; [done|]. intros Hl. apply (keeps_live _ _ Hkeep) in Hl.
    by destruct (sched_activate P H r2 _ (alloc r) _ None r3 Ha2 Hfin2 (Hs2 Hl) Hk2 Hq2 eq_refl Eact) as [Hs3 _]; apply Hs3.
Qed.

(** The fields of a run the scheduling invariant looks at, the heap apart. *)
Definition same_lines (r r' : connectionRun) : Prop :=
  queues_of r' = queues_of r /\ r_deferred r' = r_deferred r /\ r_activeQueues r' = r_activeQueues r /\
  requests_of r' = requests_of r /\ bc_batches (r_client r') = bc_batches (r_client r) /\
  r_generation r' = r_generation r.

(** A change of the cursor, the JID, the times or the coalesced NOTICE of a
    queue. *)
Lemma sched_same P H r r' k l q q' :
  sched P H r -> same_lines r r' -> queues_of r !! k = Some l -> r_heap r !! l = Some q ->
  r_heap r' = <[l := q']> (r_heap r) -> q_identity q' = q_identity q -> minQueueWeight <= q_weight q' ->
  q_phase q' = q_phase q -> q_processing q' = q_processing q -> q_pullQueued q' = q_pullQueued q ->
  q_pullInFlight q' = q_pullInFlight q -> (q_phase q = queueActive \/ q_noticePending q' = q_noticePending q) ->
  sched P H r'.
Proof.
  intros (L & HL & Hc & Hmax & Hcons) (E1 & E2 & E3 & E4 & E5 & E6) Hk Hq Hh Hi Hw H1 H2 H3 H4 H5.
  destruct (co_idents _ _ _ _ _ _ Hc _ _ Hk) as (q0 & Hq0 & Hid & _). assert (q0 = q) as -> by congruence.
  assert (own_jobs r' (bc_batches (r_client r')) = own_jobs r (bc_batches (r_client r))) as EJ
    by (unfold own_jobs, own_job; by rewrite E5, E6).
  exists L. rewrite E2, E3. split_and!; try done. rewrite E1, E4, EJ, Hh.
  replace (r_activeQueues r) with (r_activeQueues r - b2z (is_active q) + b2z (is_active q'))
    by (unfold is_active; rewrite H1; lia).
  pose proof (co_flags _ _ _ _ _ _ Hc _ _ _ Hk Hq) as Hfl.
  eapply core_update; try done; [congruence| |apply Hc| | |apply Hc|].
  - unfold flags_ok in *. rewrite H1, H2, H3, H4. destruct (q_phase q); naive_solver congruence.
  - intros x. rewrite H1. split.
    + intros Hx. destruct (decide (x = l)) as [->|Hne]; [right|by left]. split; [done|].
      apply (co_deferred _ _ _ _ _ _ Hc) in Hx as (k' & q'' & ? & ? & ?). congruence.
    + intros [[_ Hx]|[-> Hp]]; [done|]. apply (co_deferred _ _ _ _ _ _ Hc). eauto.
  - intros Hp. eapply (co_entries _ _ _ _ _ _ Hc); [done..|congruence].
  - intros x. rewrite H2. split.
    + intros Hx. destruct (decide (x = k)) as [->|Hne]; [right|by left]. split; [done|].
      apply (co_handled _ _ _ _ _ _ Hc) in Hx as (l' & q'' & ? & ? & ?). congruence.
    + intros [[_ Hx]|[-> Hp]]; [done|]. apply (co_handled _ _ _ _ _ _ Hc). eauto.
Qed.

Lemma noticeKnown_inv P H r k l e r' :
  run_inv P H r -> r_finalized r = false -> queues_of r !! k = Some l ->
  noticeKnown l r = (e, r') -> run_inv P H (failScheduled e r').
Proof.
  intros [Ha Hs] Hfin Hk He. destruct (ar_idents _ Ha _ _ Hk) as (q & Hq & Hi & Hw).
  unfold noticeKnown in He. rewrite Hq in He. simpl in He. destruct (q_phase q) eqn:Hp.
  - pose proof (acct_activate l r Ha) as Ha'. pose proof (keeps_activate l r) as Hkeep. rewrite He in Ha', Hkeep.
    simpl in *. destruct e as [err|]; [by apply acct_fail, acct_hit|]. split; [done|]. intros Hl.
    apply (keeps_live _ _ Hkeep) in Hl. by eapply (sched_activate P H r k l q None); auto.
  - injection He as <- <-. by split.
  - injection He as <- <-. split; [by auto with acct|]. intros Hl. simpl.
    eapply (sched_same P H r _ k l q (qset_notice true q)); try done; [by apply Hs|by apply upd_heap|by left].
Qed.

Lemma acct_jid k l q j w lb pb r :
  acct_run r -> r_finalized r = false -> queues_of r !! k = Some l -> r_heap r !! l = Some q ->
  q_weight q <= w -> budget_ok lb -> bb_limit lb = connectionQueueBudgetBytes ->
  bb_used lb = tracked_weight r + (w - q_weight q) -> budget_ok pb -> tracked_weight r + (w - q_weight q) <= bb_used pb ->
  acct_run (upd l (qset_jid j w) (set_budgets (Some lb) pb r)).
Proof.
  intros Ha Hfin Hk Hq Hw Hlb Hlim Hul Hpb Hup. destruct (ar_struct _ Ha Hfin) as (Hm & Hd & Hc & Hto).
  set (r' := upd _ _ _).
  assert (tracked_weight r' = tracked_weight r + (w - q_weight q)) as Ht.
  { rewrite !tracked_qsum. change (queues_of r') with (queues_of r).
    rewrite (qsum_update (weight_at (r_heap r)) _ _ k l Hk).
    - unfold weight_at at 2 3, r'. rewrite (upd_lookup l _ _ q) by done. rewrite Hq. simpl. lia.
    - intros k' l' Hk' Hne. unfold weight_at, r', upd. simpl. rewrite lookup_alter_ne; [done|].
      intros <-. apply Hne. eapply (idents_inj (r_heap r)); [apply Ha|done..]. }
  split; rewrite ?Ht; try done; try apply Ha.
  - intros k' l' Hk'. destruct (ar_idents _ Ha _ _ Hk') as (q' & Hq' & Hi' & Hw').
    unfold r', upd. simpl. destruct (decide (l = l')) as [<-|Hne].
    + assert (q' = q) as -> by congruence. rewrite lookup_alter_eq, Hq'. eexists. split; [done|].
      split; [done|]. simpl. lia.
    + rewrite lookup_alter_ne by done. by exists q'.
  - by exists lb.
Qed.

Lemma set_budgets_id r lb : r_queueBudget r = Some lb -> set_budgets (Some lb) (r_processQueueBudget r) r = r.
Proof. intros <-. by destruct r. Qed.

(** Either the growth is refused and the run fails, or the queue has its new
    JID and weight and is then scheduled by its phase. *)
Lemma startKnown_updates P H r j l q :
  run_inv P H r -> r_finalized r = false -> validateQueueJID j = None ->
  queues_of r !! newQueueKey j = Some l -> r_heap r !! l = Some q ->
  (exists e r', startKnown l q j r = fail e r' /\ acct_run r') \/
  exists r2 w, run_inv P H r2 /\ r_finalized r2 = false /\ (live r2 <-> live r) /\
    queues_of r2 !! newQueueKey j = Some l /\ r_heap r2 !! l = Some (qset_jid j w q) /\
    startKnown l q j r = (let '(e, r') := noticeKnown l r2 in failScheduled e r').
Proof.
  intros [Ha Hs] Hfin Hval Hk Hq. destruct (queueRetainedWeight_spec _ Hval) as [_ Hw].
  destruct (ar_idents _ Ha _ _ Hk) as (q0 & Hq0 & Hid & Hwq). assert (q0 = q) as -> by congruence.
  unfold startKnown.
  assert (mkJID (qk_appKey (q_identity q)) (qk_name (q_identity q)) (qk_domain (q_identity q)) (j_ClientResource j) = j)
    as -> by (rewrite Hid; by destruct j).
  set (w := queueRetainedWeight j) in *. change minQueueWeight with 1024 in Hw, Hwq.
  destruct (ar_local _ Ha) as (lb0 & Hlb0 & Hok0 & Hlim0 & Hu0). destruct (ar_process _ Ha) as [Hpok0 Hpu0].
  assert (Hgo : forall lb pb, budget_ok lb -> bb_limit lb = connectionQueueBudgetBytes ->
    bb_used lb = tracked_weight r + (Z.max (q_weight q) w - q_weight q) -> budget_ok pb ->
    tracked_weight r + (Z.max (q_weight q) w - q_weight q) <= bb_used pb ->
    let r2 := upd l (qset_jid j (Z.max (q_weight q) w)) (set_budgets (Some lb) pb r) in
    run_inv P H r2 /\ r_finalized r2 = false /\ (live r2 <-> live r) /\
    queues_of r2 !! newQueueKey j = Some l /\ r_heap r2 !! l = Some (qset_jid j (Z.max (q_weight q) w) q)).
  { intros lb pb H1 H2 H3 H4 H5 r2. split_and!; try done; [|by apply (upd_lookup l _ (set_budgets (Some lb) pb r))].
    split; [eapply acct_jid; try done; lia|]. intros Hl. specialize (Hs Hl).
    eapply (sched_same P H r _ _ l q (qset_jid j (Z.max (q_weight q) w) q)); try done;
      [by apply (upd_heap l _ (set_budgets (Some lb) pb r))|simpl; change minQueueWeight with 1024; lia|by right]. }
  rewrite Z.gtb_ltb. destruct (Z.ltb_spec (q_weight q) w) as [Hgt|Hle].
  - rewrite i64_id by (word_lia).
    destruct (reserveQueue_spec r (w - q_weight q) Ha Hfin ltac:(lia))
      as (x & lb & pb & lb' & pb' & Hres & Hlb & Hpb & Hok & Hlim & Hpok & Hplim & Hu & Hpu).
    rewrite Hres. assert (lb0 = lb) as -> by congruence. rewrite Hpb in *.
    destruct (reserved x) eqn:Hx; cbn [negb].
    + right. do 2 eexists. destruct (Hgo lb' pb' Hok ltac:(congruence) ltac:(lia) Hpok ltac:(lia)) as (G1 & G2 & G3 & G4 & G5).
      by split_and!.
    + left. do 2 eexists. split; [done|]. apply acct_hit. destruct Ha as [H1 H2 H3 H4 H5 H6]. split; try done; simpl.
      * exists lb'. split_and!; try done; [congruence|]. change (tracked_weight _) with (tracked_weight r). lia.
      * split; [done|]. change (tracked_weight _) with (tracked_weight r). lia.
  - right. cbn [negb reserved]. pose proof (set_budgets_id r lb0 Hlb0) as Hrid.
    destruct (Hgo lb0 (r_processQueueBudget r) Hok0 Hlim0 ltac:(lia) Hpok0 ltac:(lia)) as (G1 & G2 & G3 & G4 & G5).
    rewrite Hrid in *. do 2 eexists. by split_and!.
Qed.

Lemma startKnown_inv P H r j l q :
  run_inv P H r -> r_finalized r = false -> validateQueueJID j = None ->
  queues_of r !! newQueueKey j = Some l -> r_heap r !! l = Some q -> run_inv P H (startKnown l q j r).
Proof.
  intros Hr Hfin Hval Hk Hq. destruct (startKnown_updates P H r j l q Hr Hfin Hval Hk Hq)
    as [(e & r' & -> & Ha)|(r2 & w & Hr2 & Hfin2 & _ & Hk2 & Hq2 & ->)]; [by apply acct_fail|].
  destruct (noticeKnown l r2) as [e r'] eqn:E. by eapply noticeKnown_inv.
Qed.

Lemma startQueue_inv P H r j : run_inv P H r -> r_finalized r = false -> run_inv P H (startQueue j r).
Proof.
  intros Hr Hfin. unfold startQueue. destruct (validateQueueJID j) eqn:Hval; [by eapply fail_inv|].
  rewrite ensure_id by (apply Hr || done). destruct (queues_of r !! newQueueKey j) as [l|] eqn:Hk; simpl.
  - destruct (ar_idents _ (proj1 Hr) _ _ Hk) as (q & Hq & _). rewrite Hq. simpl. by apply startKnown_inv.
  - by apply startNew_inv.
Qed.

(** *** SYNC batches *)

Lemma acct_resetProcessing k l r : acct_run r -> acct_run (resetProcessing k l r).
Proof. intros Ha. unfold resetProcessing. case_match; auto with acct. Qed.
#[export] Hint Resolve acct_resetProcessing : acct.

Lemma resetProcessing_cancelled k l r : r_cancelled (resetProcessing k l r) = r_cancelled r.
Proof. unfold resetProcessing. by case_match. Qed.

(** A batch accepted for the queue at [l], the last thing [admitBatch] does
    when nothing fails. *)
Definition accepted (st : budgetStore) (job : batchJob) (r : connectionRun) : connectionRun :=
  let r := set_client (set_bc_store st (r_client r)) r in
  set_client (set_bc_batches (bc_batches (r_client r) ++ [job])%list (r_client r)) r.

Lemma reserve_some st c p w res st' :
  tryReserveBatchScoped st c p w = (res, st') -> rr_ok res = true -> exists x, rr_reservation res = Some x.
Proof.
  unfold tryReserveBatchScoped. intros H Hok. destruct (TryAcquire st c w) as [[[]|] st1];
    [destruct (TryAcquire st1 p w) as [[[]|] st2]; [|destruct (Release st2 c w) as [[] ?]..]|..];
    injection H as <- <-; simpl in *; eauto; discriminate.
Qed.

Lemma admitBatch_cases c k l d r :
  acct_run r ->
  acct_run (admitBatch c k l d r) /\
  (live (admitBatch c k l d r) ->
     r_cancelled r = false /\
     exists st res, admitBatch c k l d r = accepted st (mkBatchJob k d (r_generation r) (Some res)) r).
Proof.
  intros Ha. unfold admitBatch.
  assert (Hfail : forall e r', acct_run r' -> acct_run (fail e r') /\
    (live (fail e r') -> r_cancelled r = false /\
       exists st res, fail e r' = accepted st (mkBatchJob k d (r_generation r) (Some res)) r)).
  { intros e r' Ha'. split; [auto with acct|]. intros Hl. by destruct (fail_dead e r' (ar_closed _ Ha')). }
  destruct (SyncRetainedWeight (Some d)) as [w|err]; [|apply Hfail; auto with acct].
  destruct (bc_batchBudget (r_client r)) as [b|]; [|apply Hfail; auto with acct].
  destruct (tryReserveBatchScoped _ _ _ _) as [res st] eqn:Hres. pose proof (reserve_some _ _ _ _ _ _ Hres) as Hsome.
  destruct (is_some (rr_err res) || negb (rr_ok res)) eqn:Hok; [apply Hfail; auto with acct|].
  apply orb_false_iff in Hok as [_ Hok]. apply negb_false_iff, Hsome in Hok as (x & ->).
  unfold enqueueBatch.
  match goal with |- context [(writeQueueSize <=? ?n)%nat] => destruct (writeQueueSize <=? n)%nat end;
    cbn [r_cancelled set_client]; destruct (r_cancelled r) eqn:Hc; cbn [andb negb].
  - rewrite orb_true_r. split; [auto 8 with acct|]. intros [Hl _]. exfalso. revert Hl.
    cbn [r_cancelled set_client]. rewrite resetProcessing_cancelled. simpl. congruence.
  - apply Hfail. auto 8 with acct.
  - rewrite orb_false_r. destruct c; (split; [auto 8 with acct|]); intros [Hl _]; exfalso; revert Hl;
      cbn [r_cancelled set_client]; rewrite ?resetProcessing_cancelled; simpl; congruence.
  - split; [auto 8 with acct|]. intros _. split; [done|]. by do 2 eexists.
Qed.

Lemma own_jobs_app r js ks : own_jobs r (js ++ ks) = own_jobs r js ++ own_jobs r ks.
Proof. unfold own_jobs. by rewrite List.filter_app, map_app. Qed.

Lemma handleBatch_inv P H c d r :
  run_inv P H r -> r_finalized r = false -> run_inv P H (handleBatch c d r).
Proof.
  intros [Ha Hs] Hfin. unfold handleBatch. destruct (badStatus _ _); [by eapply fail_inv|].
  destruct (sy_Queue d) as [j|]; [|done]. destruct (validateQueueJID j); [by eapply fail_inv|].
  unfold handleQueueBatch. set (k := newQueueKey j).
  destruct (queues_of r !! k) as [l|] eqn:Hk; [|done].
  destruct (ar_idents _ Ha _ _ Hk) as (q & Hq & Hi & Hw). simpl. rewrite Hq. simpl.
  destruct (q_phase q) eqn:Hp; [done..|]. simpl. destruct (q_processing q) eqn:Hpr; [done|].
  set (f := fun q => qset_processing true (qset_sentAt None (qset_inFlight false (qset_pullQueued false q)))).
  destruct (admitBatch_cases c k l d (upd l f r) ltac:(auto with acct)) as [Ha' Hcase].
  split; [done|]. intros Hl. destruct (Hcase Hl) as (Hcan & st & res & Heq). rewrite Heq in *. clear Heq Hcase.
  assert (live r) as Hl0 by (split; [done|apply Hl]). destruct (Hs Hl0) as (L & HL & Hc & Hmax & Hcons).
  exists L. split; [done|]. split; [|done]. unfold accepted. simpl.
  change (requests_of _) with (requests_of r). change (queues_of _) with (queues_of r).
  rewrite (alter_as_insert f _ _ q) by done.
  assert (own_jobs (accepted st (mkBatchJob k d (r_generation r) (Some res)) (upd l f r))
    (bc_batches (r_client r) ++ [mkBatchJob k d (r_generation r) (Some res)]) ++ H
    = (own_jobs r (bc_batches (r_client r)) ++ [k]) ++ H) as HJ.
  { unfold own_jobs, own_job. simpl. rewrite List.filter_app, map_app. simpl. by rewrite Z.eqb_refl. }
  unfold accepted in HJ. simpl in HJ. rewrite HJ. clear HJ.
  replace (r_activeQueues r) with (r_activeQueues r - b2z (is_active q) + b2z (is_active (f q)))
    by (unfold is_active; simpl; lia).
  assert (l ∉ L) as HnL.
  { intros Hin. apply (co_deferred _ _ _ _ _ _ Hc) in Hin as (k' & q' & ? & ? & ?). congruence. }
  assert (k ∉ own_jobs r (bc_batches (r_client r)) ++ H) as Hnj.
  { intros Hin. apply (co_handled _ _ _ _ _ _ Hc) in Hin as (l' & q' & ? & ? & ?). congruence. }
  eapply core_update; try done; [unfold flags_ok; simpl; by rewrite Hp|apply Hc| | |].
  - intros x. simpl. rewrite Hp. split; [|naive_solver]. intros Hx. left. split; [by intros ->|done].
  - rewrite <- app_assoc, (Permutation_app_comm [k] H), app_assoc.
    apply NoDup_app. split_and!; [apply Hc|set_solver|apply NoDup_singleton].
  - intros x. simpl. set_solver.
Qed.

(** *** Pulling *)

Lemma executePull_begin_inv P H r l o r' :
  run_inv (l :: P) H r -> executePull_begin l r = (o, r') -> run_inv P H r'.
Proof.
  intros [Ha Hs] He. unfold executePull_begin in He. destruct (r_heap r !! l) as [q|] eqn:Hq.
  2:{ injection He as <- <-. split; [done|]. intros Hl. destruct (Hs Hl) as (L & HL & Hc & Hmax).
      exists L. split; [done|]. split; [|done]. eapply core_requests; [done|].
      intros k x qx Hkx Hqx _. destruct (decide (x = l)) as [->|]; [congruence|]. set_solver. }
  set (bad := r_cancelled r || negb (bool_decide (q_phase q = queueActive)) || negb (q_pullQueued q)
         || q_processing q || q_pullInFlight q) in He.
  set (f := if bad then qset_pullQueued false else fun q => qset_inFlight true (qset_pullQueued false q)).
  assert (keeps_weight f) as Hkw by (unfold f; destruct bad; auto with acct).
  assert (r' = upd l f r) as -> by (unfold f; destruct bad; by injection He as _ <-).
  clear He. split; [by apply acct_upd|]. intros Hl. assert (live r) as Hl0 by exact Hl.
  destruct (Hs Hl0) as (L & HL & Hc & Hmax & Hcons). exists L. split; [done|]. split; [|done].
  change (requests_of _) with (requests_of r). change (queues_of _) with (queues_of r).
  change (own_jobs (upd l f r)) with (own_jobs r). simpl. rewrite (alter_as_insert f _ _ q) by done.
  assert (Hnone : (forall k, queues_of r !! k <> Some l) \/ exists k, queues_of r !! k = Some l).
  { destruct (decide (map_Forall (fun _ x => x <> l) (queues_of r))) as [Hn|Hn].
    - left. intros k Hk. by apply (Hn _ _ Hk).
    - right. apply map_not_Forall in Hn as (k & x & Hk & Hx); [|apply _].
      apply dec_stable in Hx as ->. by exists k. }
  destruct Hnone as [Hnone|[k Hk]].
  { apply core_untracked; [|done]. eapply core_requests; [done|].
    intros k x qx Hkx Hqx _ Hx. assert (x <> l) by (intros ->; by apply (Hnone k)). set_solver. }
  destruct (co_idents _ _ _ _ _ _ Hc _ _ Hk) as (q0 & Hq0 & Hid & Hw). assert (q0 = q) as -> by congruence.
  pose proof (co_flags _ _ _ _ _ _ Hc _ _ _ Hk Hq) as Hfl. destruct (Hkw q) as [Hfi Hfw].
  assert (q_phase (f q) = q_phase q /\ q_processing (f q) = q_processing q /\ q_pullQueued (f q) = false /\
    flags_ok (f q)) as (Hfp & Hfpr & Hfq & Hff).
  { unfold flags_ok in *. unfold f, bad. destruct Hl0 as [-> _].
    destruct (q_phase q) eqn:Hp; simpl; rewrite ?Hp; [tauto..|].
    destruct (q_pullQueued q) eqn:E1, (q_processing q) eqn:E2, (q_pullInFlight q) eqn:E3; simpl in *;
      try (exfalso; lia); rewrite ?Hp, ?E2, ?E3; auto. }
  replace (r_activeQueues r) with (r_activeQueues r - b2z (is_active q) + b2z (is_active (f q)))
    by (unfold is_active; rewrite Hfp; lia).
  eapply core_update; try done; [congruence|congruence|apply Hc| | | |apply Hc|].
  - intros x. rewrite Hfp. split.
    + intros Hx. destruct (decide (x = l)) as [->|Hne]; [right|by left]. split; [done|].
      apply (co_deferred _ _ _ _ _ _ Hc) in Hx as (k' & q'' & ? & ? & ?). congruence.
    + intros [[_ Hx]|[-> Hp]]; [done|]. apply (co_deferred _ _ _ _ _ _ Hc). eauto.
  - by rewrite Hfq.
  - intros x Hx. set_solver.
  - intros x. rewrite Hfpr. split.
    + intros Hx. destruct (decide (x = k)) as [->|Hne]; [right|by left]. split; [done|].
      apply (co_handled _ _ _ _ _ _ Hc) in Hx as (l' & q'' & ? & ? & ?). congruence.
    + intros [[_ Hx]|[-> Hp]]; [done|]. apply (co_handled _ _ _ _ _ _ Hc). eauto.
Qed.

Lemma executePull_end_inv P H r p err now :
  run_inv P H r -> run_inv P H (executePull_end p err now r).
Proof.
  intros [Ha Hs]. unfold executePull_end. destruct err as [e|].
  - destruct (r_cancelled _) eqn:Hc; [|apply acct_fail; auto with acct].
    split; [auto with acct|]. intros [Hl _]. congruence.
  - set (f := fun q => if q_pullInFlight q && negb (q_processing q) then
      qset_sentAt (if p_timeout p <=? 0 then None else Some now) q else q).
    assert (Hf : forall q, q_identity (f q) = q_identity q /\ q_weight (f q) = q_weight q /\ q_phase (f q) = q_phase q /\
      q_processing (f q) = q_processing q /\ q_pullQueued (f q) = q_pullQueued q /\
      q_pullInFlight (f q) = q_pullInFlight q /\ q_noticePending (f q) = q_noticePending q)
      by (intros q; unfold f; by destruct (_ && _)).
    clearbody f. split; [apply acct_upd; [intros q; by destruct (Hf q) as (? & ? & _)|done]|].
    intros Hl. destruct (Hs Hl) as (L & HL & Hc & Hmax & Hcons). set (l := p_queue p).
    destruct (r_heap r !! l) as [q|] eqn:Hq.
    + destruct (Hf q) as (H1 & H2 & H3 & H4 & H5 & H6 & H7).
      destruct (decide (map_Forall (fun _ x => x <> l) (queues_of r))) as [Hn|Hn].
      * exists L. split; [done|]. split; [|done]. unfold upd. simpl. rewrite (alter_as_insert _ _ _ q) by done.
        apply core_untracked; [exact Hc|]. intros k Hk. by apply (Hn _ _ Hk).
      * apply map_not_Forall in Hn as (k & x & Hk & Hx); [|apply _]. apply dec_stable in Hx as ->.
        destruct (ar_idents _ Ha _ _ Hk) as (q0 & Hq0 & Hid & Hw). assert (q0 = q) as -> by congruence.
        eapply (sched_same P H r _ k l q (f q)); try done; [by apply Hs|by apply upd_heap|lia|by right].
    + exists L. split; [done|]. split; [|done]. unfold upd. simpl.
      replace (alter f l (r_heap r)) with (r_heap r); [done|]. apply map_eq. intros l'.
      destruct (decide (l = l')) as [<-|Hne]; [by rewrite lookup_alter_eq, Hq|by rewrite lookup_alter_ne].
Qed.

Lemma watchdogTick_inv P H r now timeout : run_inv P H r -> run_inv P H (watchdogTick now timeout r).
Proof. intros Hr. unfold watchdogTick. destruct (List.find _ _); [by eapply fail_inv|done]. Qed.

(** *** Finishing a batch *)

Lemma live_unfinalized r : acct_run r -> live r -> r_finalized r = false.
Proof.
  intros Ha [Hc _]. destruct (r_finalized r) eqn:E; [|done]. destruct (ar_finalized _ Ha E). congruence.
Qed.

Lemma run_inv_client P H c r :
  bc_batches c = bc_batches (r_client r) -> bc_generation c = bc_generation (r_client r) ->
  run_inv P H r -> run_inv P H (set_client c r).
Proof.
  intros Hb Hg [Ha Hs]. split; [auto with acct|]. intros [Hc Hgen]. simpl in *.
  destruct (Hs ltac:(split; [done|congruence])) as (L & HL & Hco & Hmax).
  exists L. split; [done|]. split; [|done]. simpl. rewrite Hb. exact Hco.
Qed.

Lemma processBatch_inv P H H' r k d e :
  run_inv P H r ->
  (live r -> own_jobs r (bc_batches (r_client r)) ++ H ≡ₚ k :: own_jobs r (bc_batches (r_client r)) ++ H') ->
  run_inv P H' (processBatch k d e r).
Proof.
  intros [Ha Hs] HJ. unfold processBatch. destruct (r_cancelled r) eqn:Hc.
  { split; [done|]. intros [Hl _]. congruence. }
  destruct (queues_of r !! k) as [l|] eqn:Hk.
  - destruct (Z.eqb_spec (r_generation r) (bc_generation (r_client r))) as [Hg|Hg]; cbn [negb];
      [|split; [done|]; intros [_ Hl]; congruence].
    assert (live r) as Hl by done. pose proof (live_unfinalized _ Ha Hl) as Hfin.
    destruct (advanceQueue l d r) as [err r'] eqn:E.
    destruct (sched_advance P H H' r d k l err r' Ha Hfin (Hs Hl) Hk (HJ Hl) E) as (Ha' & Hs' & _).
    destruct err as [err|]; simpl; [by apply acct_fail, acct_hit|]. split; auto.
  - split; [done|]. intros Hl. destruct (Hs Hl) as (L & _ & Hco & _).
    destruct (handled_facts _ _ _ _ _ _ k Hco ltac:(rewrite (HJ Hl); set_solver)) as (l & q & Hk' & _). congruence.
Qed.

Lemma processBatchJob_inv P H H' r job e :
  run_inv P H r ->
  (live r -> H ≡ₚ (if own_job r job then [bj_queue job] else []) ++ H') -> bj_run job = r_generation r ->
  run_inv P H' (processBatchJob job e r).
Proof.
  intros [Ha Hs] HJ Hrun. unfold processBatchJob, jobStarts. unfold own_job in HJ. rewrite Hrun, Z.eqb_refl in HJ.
  destruct (bj_reservation job) as [res|]; simpl in HJ; cbn [is_some andb].
  - apply run_inv_client; [done|done|].
    destruct (negb (r_cancelled r) && (bj_run job =? bc_generation (r_client r))) eqn:E.
    + eapply processBatch_inv; [by split|]. intros Hl. rewrite (HJ Hl). by rewrite <- Permutation_middle.
    + split; [done|]. intros [Hc Hg]. rewrite Hc, Hrun, Hg, Z.eqb_refl in E. done.
  - split; [done|]. intros Hl. destruct (Hs Hl) as (L & HL & Hco & Hmax). exists L. split; [done|]. split; [|done].
    destruct Hco as [c1 c2 c3 c4 c5 c6 c7 c8]. split; try done.
    + by rewrite <- (HJ Hl).
    + intros x. by rewrite <- c8, (HJ Hl).
Qed.
