(* ===== verification/QueueTheory.v ===== *)
(** * The queue scheduler: what its runs guarantee

    The invariants of QueueInvariant.v hold after any sequence of the steps of
    Queue.v, and what follows from them: the limits, the accounting, that no
    queue is forgotten, what a finished batch and a NOTICE lead to.  The last
    section shows a run whose channel of pull requests overflows because of
    batches nobody asked for. *)
From Stdlib Require Import String.
From S2P Require Import Prelude Protocol Errors RetainedWeight ByteBudget ResourceBudgets DeferredRing Queue QueueInvariant.
Local Open Scope Z_scope.

(** ** A run keeps its generation, never comes back to life, and takes no batch
    out of the channel *)

Definition onward (r r' : connectionRun) : Prop :=
  r_generation r' = r_generation r /\ bc_generation (r_client r') = bc_generation (r_client r) /\
  (r_cancelled r = true -> r_cancelled r' = true) /\
  bc_batches (r_client r) `prefix_of` bc_batches (r_client r').

#[local] Instance onward_preorder : PreOrder onward.
Proof.
  split; [by intros r|]. intros r1 r2 r3 (H1 & H2 & H3 & H4) (K1 & K2 & K3 & K4).
  split_and!; [congruence..|auto|by etransitivity].
Qed.

(** Assignments to other fields. *)
Ltac onward_same := solve [split_and!; [done|done|done|first [reflexivity|by eexists]]].

(** [f] ends a chain of steps. *)
Lemma onward_then r1 r2 r3 : onward r2 r3 -> onward r1 r2 -> onward r1 r3.
Proof. intros H1 H2. by transitivity r2. Qed.

Lemma onward_fail e r : onward r (fail e r).
Proof. unfold fail. destruct (r_closed r); onward_same. Qed.

Lemma onward_enqueue q r : onward r (snd (enqueuePullLocked q r)).
Proof.
  unfold enqueuePullLocked. destruct (_ ≫= _) as [[l s]|]; [|onward_same]. case_bool; [onward_same|].
  destruct (r_pullRequests _); [case_bool|]; onward_same.
Qed.

Lemma onward_keeps r r' : keeps_queues r r' -> onward r r'.
Proof. intros (_ & _ & H1 & H2 & H3 & _). split_and!; by rewrite ?H1, ?H2, ?H3. Qed.

Lemma onward_activate l r : onward r (snd (activateOrDeferLocked l r)).
Proof. apply onward_keeps, keeps_activate. Qed.

Lemma onward_promote fuel r : onward r (snd (promoteLoop fuel r)).
Proof.
  revert r. induction fuel as [|fuel IH]; intros r; [done|]. cbn [promoteLoop]. case_bool; [|done].
  destruct (ring_Pop (r_deferred r)) as [q d]. destruct (_ ≫= _) as [[l s]|]; [|onward_same].
  case_bool; (eapply onward_then; [apply IH || apply onward_enqueue|onward_same]).
Qed.

Lemma onward_ensure r : onward r (ensureQueueStructuresLocked r).
Proof.
  unfold ensureQueueStructuresLocked.
  destruct (r_queues r); simpl; destruct (dq_items _); simpl; destruct (r_pullRequests _); simpl;
    destruct (r_queueBudget _); simpl; case_bool; onward_same.
Qed.

Lemma onward_reserve w r : onward r (snd (reserveQueueLocked w r)).
Proof.
  eapply (onward_then _ (ensureQueueStructuresLocked r)); [|apply onward_ensure]. unfold reserveQueueLocked.
  generalize (ensureQueueStructuresLocked r) as r0. intros r0.
  destruct (local_TryAcquire _ _) as [[[]|] lb]; simpl; try onward_same.
  destruct (tryAcquireLocked _ _) as [[[]|] pb]; simpl; try onward_same;
    destruct (local_Release _ _) as [[] ?]; onward_same.
Qed.

Lemma onward_failScheduled e r : onward r (failScheduled e r).
Proof. destruct e; [|done]. eapply onward_then; [apply onward_fail|onward_same]. Qed.

Lemma onward_notice l r : onward r (snd (noticeKnown l r)).
Proof. unfold noticeKnown. destruct (_ <$> _) as [[]|]; try onward_same. apply onward_activate. Qed.

(** A known queue from the reservation on. *)
Lemma onward_noticed l f r :
  onward r (let '(scheduleErr, r) := noticeKnown l (upd l f r) in failScheduled scheduleErr r).
Proof.
  pose proof (onward_notice l (upd l f r)) as H. destruct (noticeKnown _ _) as [e r']. simpl in H.
  eapply onward_then; [apply onward_failScheduled|]. by eapply onward_then; [exact H|onward_same].
Qed.

Lemma onward_startKnown l q j r : onward r (startKnown l q j r).
Proof.
  unfold startKnown. set (jj := mkJID _ _ _ _). destruct (_ >? _).
  - pose proof (onward_reserve (i64 (queueRetainedWeight jj - q_weight q)) r) as Hg.
    destruct (reserveQueueLocked _ r) as [x r1]. simpl in Hg. eapply onward_then; [|exact Hg].
    destruct (negb _); [|apply onward_noticed]. eapply onward_then; [apply onward_fail|onward_same].
  - cbn [negb reserved]. apply onward_noticed.
Qed.

Lemma onward_forget k l w r : onward r (forgetQueue k l w r).
Proof. unfold forgetQueue. simpl. destruct (_ <$> _) as [[]|]; onward_same. Qed.

Lemma onward_startNew k j r : onward r (startNew k j r).
Proof.
  unfold startNew. pose proof (onward_reserve (queueRetainedWeight j) r) as Hg.
  destruct (reserveQueueLocked _ r) as [x r1]. simpl in Hg. eapply onward_then; [|exact Hg].
  destruct (negb _); [eapply onward_then; [apply onward_fail|onward_same]|].
  pose proof (onward_activate (alloc r1) (trackQueue k j (queueRetainedWeight j) r1)) as Hact.
  destruct (activateOrDeferLocked _ _) as [e r2]. simpl in Hact.
  assert (onward r1 r2) as H2 by (by eapply onward_then; [exact Hact|onward_same]).
  destruct e; [|done]. eapply onward_then; [apply onward_fail|]. eapply onward_then; [|exact H2].
  eapply (onward_then _ (forgetQueue k (alloc r1) (queueRetainedWeight j) r2)); [onward_same|apply onward_forget].
Qed.

Lemma onward_startQueue j r : onward r (startQueue j r).
Proof.
  unfold startQueue. destruct (validateQueueJID j); [apply onward_fail|].
  eapply onward_then; [|apply onward_ensure].
  destruct (_ ≫= _) as [[l q]|]; [apply onward_startKnown|apply onward_startNew].
Qed.

Lemma onward_reset k l r : onward r (resetProcessing k l r).
Proof. unfold resetProcessing. case_match; onward_same. Qed.

(** A batch that is refused. *)
Lemma onward_refused f e k l r :
  (forall r', onward r' (f r')) -> onward r (fail e (f (resetProcessing k l r))).
Proof.
  intros Hf. eapply onward_then; [apply onward_fail|]. eapply onward_then; [apply Hf|apply onward_reset].
Qed.

Lemma onward_admit c k l d r : onward r (admitBatch c k l d r).
Proof.
  unfold admitBatch. destruct (SyncRetainedWeight _); [|by apply (onward_refused id)].
  destruct (bc_batchBudget _); [|by apply (onward_refused id)].
  destruct (tryReserveBatchScoped _ _ _ _) as [res st].
  eapply (onward_then _ (set_client (set_bc_store st (r_client r)) r)); [|onward_same].
  destruct (_ || _).
  { apply (onward_refused (fun r => set_client (bc_reject (rr_scope res) (r_client r)) r)).
    intros r'. destruct (rr_scope res); onward_same. }
  unfold enqueueBatch. destruct (_ && _); [unfold resetProcessing; case_decide; onward_same|].
  destruct (negb _); [onward_same|].
  apply (onward_refused (fun r => set_client (releaseReservation _ (r_client r)) r)). intros r'. onward_same.
Qed.

Lemma onward_handleBatch c d r : onward r (handleBatch c d r).
Proof.
  unfold handleBatch. destruct (badStatus _ _); [apply onward_fail|]. destruct (sy_Queue d); [|done].
  destruct (validateQueueJID _); [apply onward_fail|]. unfold handleQueueBatch.
  destruct (_ ≫= _) as [[l q]|]; [|done]. destruct (negb (bool_decide _) || _); [done|].
  eapply onward_then; [apply onward_admit|onward_same].
Qed.

Lemma onward_begin l r : onward r (snd (executePull_begin l r)).
Proof. unfold executePull_begin. destruct (r_heap r !! l); [|done]. case_bool; onward_same. Qed.

Lemma onward_end p e now r : onward r (executePull_end p e now r).
Proof.
  unfold executePull_end. destruct e; [|onward_same].
  eapply (onward_then _ (upd (p_queue p) (fun q => qset_sentAt None (qset_inFlight false q)) r)); [|onward_same].
  case_bool; [done|apply onward_fail].
Qed.

Lemma onward_tick now t r : onward r (watchdogTick now t r).
Proof. unfold watchdogTick. destruct (List.find _ _); [apply onward_fail|done]. Qed.

Lemma onward_advance l d r : onward r (snd (advanceQueue l d r)).
Proof.
  unfold advanceQueue. destruct (sy_IsLast d || (sy_NextKey d =? 0)); [destruct (q_noticePending <$> _) as [[]|]|];
    (eapply onward_then; [apply onward_enqueue || apply onward_promote|onward_same]).
Qed.

Lemma onward_job job e r : onward r (processBatchJob job e r).
Proof.
  unfold processBatchJob. set (r1 := if jobStarts job r then processBatch _ _ _ _ else r).
  assert (onward r r1) as H1.
  { unfold r1. destruct (jobStarts job r); [|done]. unfold processBatch. case_bool; [done|].
    destruct (queues_of r !! _) as [l|]; [|done]. case_bool; [done|].
    pose proof (onward_advance l (bj_d job) r) as H. destruct (advanceQueue l (bj_d job) r) as [e' r'].
    eapply onward_then; [apply onward_failScheduled|exact H]. }
  destruct (bj_reservation job); [|done]. eapply onward_then; [|exact H1]; onward_same.
Qed.

Lemma onward_finalize r : onward r (finalizeQueues r).
Proof. unfold finalizeQueues. case_bool; [done|]. case_bool; onward_same. Qed.

(** ** Steps keep the invariant *)

Definition popped (ws : list workerPC) : list nat :=
  omap (fun w => match w with WPopped l => Some l | _ => None end) ws.

Definition sys_inv (s : queueSys) : Prop :=
  run_inv (popped (qs_workers s)) (own_jobs (qs_run s) (qs_handling s)) (qs_run s).

Lemma own_jobs_gen r r' js : r_generation r' = r_generation r -> own_jobs r' js = own_jobs r js.
Proof. intros H. unfold own_jobs, own_job. by rewrite H. Qed.

Lemma on_run_inv f s :
  (forall P H, run_inv P H (qs_run s) -> run_inv P H (f (qs_run s))) ->
  r_generation (f (qs_run s)) = r_generation (qs_run s) -> sys_inv s -> sys_inv (on_run f s).
Proof. intros Hf Hg Hs. unfold sys_inv. simpl. rewrite (own_jobs_gen _ _ _ Hg). by apply Hf. Qed.

Lemma run_inv_requests P P' H r : (forall x, x ∈ P -> x ∈ P') -> run_inv P H r -> run_inv P' H r.
Proof.
  intros HP [Ha Hs]. split; [done|]. intros Hl. destruct (Hs Hl) as (L & HL & Hc & Hmax).
  exists L. split; [done|]. split; [|done]. eapply core_requests; [done|]. set_solver.
Qed.

Lemma popped_insert ws w pc pc' :
  ws !! w = Some pc -> forall x, x ∈ popped ws -> x ∈ popped (<[w := pc']> ws) \/ pc = WPopped x.
Proof.
  intros Hw x Hx. unfold popped in *. apply list_elem_of_omap in Hx as (v & Hv & Hx).
  apply list_elem_of_lookup in Hv as [i Hi]. destruct (decide (i = w)) as [->|Hne].
  - right. rewrite Hw in Hi. injection Hi as ->. destruct v; simplify_eq/=. done.
  - left. apply list_elem_of_omap. exists v. split; [|done]. apply list_elem_of_lookup. exists i.
    by rewrite list_lookup_insert_ne.
Qed.

Lemma popped_begin ws w l pc' :
  ws !! w = Some (WPopped l) -> forall x, x ∈ popped ws -> x ∈ l :: popped (<[w := pc']> ws).
Proof. intros Hw x Hx. destruct (popped_insert _ _ _ pc' Hw x Hx) as [?|[= ->]]; set_solver. Qed.

Lemma acct_processBudget pb r :
  budget_ok pb -> tracked_weight r <= bb_used pb -> acct_run r -> acct_run (set_budgets (r_queueBudget r) pb r).
Proof. intros Hpb Hu [H1 H2 H3 H4 H5 H6]. by split. Qed.

Lemma run_inv_processBudget P H pb r :
  budget_ok pb -> tracked_weight r <= bb_used pb -> run_inv P H r ->
  run_inv P H (set_budgets (r_queueBudget r) pb r).
Proof. intros Hpb Hu [Ha Hs]. split; [by apply acct_processBudget|exact Hs]. Qed.

(** At the end the run returns to both budgets exactly what it was charged. *)
Lemma finalizeQueues_spec r :
  acct_run r -> r_cancelled r = true ->
  acct_run (finalizeQueues r) /\ tracked_weight (finalizeQueues r) = 0 /\
  bb_used (r_processQueueBudget (finalizeQueues r)) = bb_used (r_processQueueBudget r) - tracked_weight r.
Proof.
  intros Ha Hc. unfold finalizeQueues. destruct (r_finalized r) eqn:Hf.
  { destruct (ar_finalized _ Ha Hf) as [_ Hq].
    assert (tracked_weight r = 0) by (rewrite tracked_qsum; unfold queues_of; rewrite Hq; apply qsum_empty).
    split_and!; try done. lia. }
  pose proof (tracked_bound _ Ha) as Hb. change connectionQueueBudgetBytes with 4194304 in Hb.
  rewrite i64_id by word_lia. set (r1 := set_finalized _ _).
  destruct (ar_local _ Ha) as (lb & Hlb & Hok & Hlim & Hu). destruct (ar_process _ Ha) as [Hpok Hpu].
  assert (Hr1 : forall lb' pb', budget_ok lb' -> bb_limit lb' = connectionQueueBudgetBytes -> bb_used lb' = 0 ->
    budget_ok pb' -> acct_run (set_budgets (Some lb') pb' r1) /\ tracked_weight (set_budgets (Some lb') pb' r1) = 0).
  { intros lb' pb' K1 K2 K3 K4. assert (tracked_weight (set_budgets (Some lb') pb' r1) = 0) as Ht by done.
    split; [|done]. split; rewrite ?Ht; try done; [by exists lb'|]. split; [done|].
    simpl. by destruct (bo_used _ K4). }
  destruct (Z.eqb_spec (tracked_weight r) 0) as [H0|H0].
  - rewrite <- (set_budgets_id r1 lb Hlb). destruct (Hr1 lb (r_processQueueBudget r) Hok Hlim ltac:(lia) Hpok) as [Ha1 Ht1].
    split_and!; [exact Ha1|exact Ht1|simpl; lia].
  - destruct (release_exact lb (tracked_weight r) Hok ltac:(lia)) as (lb' & Hrl & Hok' & Hlim' & Hu').
    destruct (release_exact _ (tracked_weight r) Hpok ltac:(lia)) as (pb' & Hrp & Hpok' & Hplim' & Hpu').
    unfold r1. simpl. rewrite Hlb. simpl. rewrite Hrl. simpl. rewrite Hrp. simpl.
    destruct (Hr1 lb' pb' Hok' ltac:(congruence) ltac:(lia) Hpok') as [Ha1 Ht1].
    split_and!; [exact Ha1|exact Ht1|done].
Qed.

Lemma finalizeQueues_inv P H r : r_cancelled r = true -> run_inv P H r -> run_inv P H (finalizeQueues r).
Proof.
  intros Hc [Ha _]. split; [by apply finalizeQueues_spec|]. intros [Hl _].
  assert (r_cancelled (finalizeQueues r) = r_cancelled r) as Hs.
  { unfold finalizeQueues. case_bool; [done|]. by case_bool. }
  congruence.
Qed.

Lemma delete_own r js i job : js !! i = Some job ->
  own_jobs r js ≡ₚ (if own_job r job then [bj_queue job] else []) ++ own_jobs r (delete i js).
Proof.
  revert i. induction js as [|j js IH]; intros [|i] Hi; try done; simpl in Hi.
  - injection Hi as ->. unfold own_jobs. simpl. by destruct (own_job r job).
  - unfold own_jobs in *. simpl. destruct (own_job r j); simpl; [|by apply IH].
    rewrite (IH _ Hi). destruct (own_job r job); simpl; [by rewrite Permutation_swap|done].
Qed.

(** The batches in the channel and those taken by a worker and not finished. *)
Definition waiting (s : queueSys) : list batchJob := bc_batches (r_client (qs_run s)) ++ qs_handling s.

(** A step keeps the generation of the run; a run that is live was live before;
    and only a worker that finishes a batch makes it disappear. *)
Definition step_kept (s : queueSys) (op : queueOp) (s' : queueSys) : Prop :=
  r_generation (qs_run s') = r_generation (qs_run s) /\ (live (qs_run s') -> live (qs_run s)) /\
  forall job, job ∈ waiting s ->
    job ∈ waiting s' \/ exists i e, op = OpDoneBatch i e /\ qs_handling s !! i = Some job.

Lemma kept_onward s op r' ws :
  onward (qs_run s) r' -> step_kept s op (mkQueueSys r' ws (qs_handling s)).
Proof.
  intros (H1 & H2 & H3 & js & H4). split; [done|]. split.
  - unfold live. simpl. rewrite H1, H2. intros [Hc Hg]. split; [|done]. destruct (r_cancelled (qs_run s)); [|done].
    by rewrite H3 in Hc.
  - intros job. unfold waiting. simpl. rewrite H4, !elem_of_app. tauto.
Qed.

Lemma delete_keeps {A} (l : list A) i x : x ∈ l -> x ∈ delete i l \/ l !! i = Some x.
Proof.
  revert i. induction l as [|y l IH]; intros i Hx; [by apply elem_of_nil in Hx|].
  apply elem_of_cons in Hx as [->|Hx]; destruct i; simpl in *; rewrite ?elem_of_cons; auto.
  destruct (IH i Hx); auto.
Qed.

Lemma kept_done s i job e r' :
  qs_handling s !! i = Some job -> onward (qs_run s) r' ->
  step_kept s (OpDoneBatch i e) (mkQueueSys r' (qs_workers s) (delete i (qs_handling s))).
Proof.
  intros Hi Ho. destruct (kept_onward s (OpDoneBatch i e) r' (qs_workers s) Ho) as (H1 & H2 & H3).
  split; [done|]. split; [done|]. intros x Hx. destruct (H3 x Hx) as [Hx'|]; [|by right].
  unfold waiting in *. simpl in *. rewrite elem_of_app in *. destruct Hx' as [?|Hx']; [auto|].
  destruct (delete_keeps _ i x Hx'); [auto|]. right. eauto.
Qed.

Lemma queueStep_onward s op s' : queueStep s op = Some s' -> step_kept s op s'.
Proof.
  destruct op; simpl; intros H.
  - destruct (r_finalized _); simplify_eq/=. apply kept_onward, onward_startQueue.
  - destruct (r_finalized _); simplify_eq/=. apply kept_onward, onward_handleBatch.
  - destruct (qs_workers s !! w) as [[]|]; try done. destruct (requests_of (qs_run s)); simplify_eq/=. apply kept_onward. onward_same.
  - destruct (qs_workers s !! w) as [[]|]; try done. destruct (r_cancelled (qs_run s)); simplify_eq/=. by apply kept_onward.
  - destruct (qs_workers s !! w) as [[]|]; try done. pose proof (onward_begin l (qs_run s)) as Hg.
    destruct (executePull_begin _ _). simplify_eq/=. by apply kept_onward.
  - destruct (qs_workers s !! w) as [[]|]; simplify_eq/=. apply kept_onward, onward_end.
  - simplify_eq/=. apply kept_onward, onward_tick.
  - destruct (bc_batches _) as [|j js] eqn:E; simplify_eq/=. split; [done|]. split; [done|].
    intros job. unfold waiting. simpl. rewrite E, !elem_of_app, elem_of_cons, list_elem_of_singleton. tauto.
  - destruct (qs_handling s !! i) as [job|] eqn:Hi; simplify_eq/=.
    eapply kept_done; [done|]. case_match; [apply onward_job|done].
  - simplify_eq/=. apply kept_onward. onward_same.
  - case_match; simplify_eq/=. apply kept_onward. onward_same.
  - case_match; simplify_eq/=. apply kept_onward. onward_same.
  - simplify_eq/=. apply kept_onward. onward_same.
  - simplify_eq/=. apply kept_onward, onward_fail.
  - simplify_eq/=. apply kept_onward. onward_same.
  - destruct (_ && _) eqn:E; simplify_eq/=. split; [done|]. split; [|auto]. intros [_ Hg]. simpl in Hg.
    apply andb_true_iff in E as [_ E%Z.ltb_lt]. lia.
  - case_match; simplify_eq/=. apply kept_onward, onward_finalize.
Qed.

Lemma run_inv_take P H r l rest :
  requests_of r = l :: rest -> run_inv P H r -> run_inv (l :: P) H (set_pullRequests (Some rest) r).
Proof.
  intros Hr [Ha Hs]. split; [auto with acct|]. intros Hl. destruct (Hs Hl) as (L & HL & Hc & Hmax).
  exists L. split; [done|]. split; [|done]. eapply core_requests; [exact Hc|]. rewrite Hr.
  unfold requests_of. simpl. set_solver.
Qed.

Lemma run_inv_batches P H H' bs r :
  own_jobs r (bc_batches (r_client r)) ++ H ≡ₚ own_jobs r bs ++ H' ->
  run_inv P H r -> run_inv P H' (set_client (set_bc_batches bs (r_client r)) r).
Proof.
  intros HJ [Ha Hs]. split; [auto with acct|]. intros Hl.
  destruct (Hs Hl) as (L & HL & [c1 c2 c3 c4 c5 c6 c7 c8] & Hmax). exists L. split; [done|]. split; [|done].
  simpl. split; try done; simpl.
  - change (own_jobs (set_client _ r)) with (own_jobs r). by rewrite <- HJ.
  - intros x. change (own_jobs (set_client _ r)) with (own_jobs r). by rewrite <- c8, HJ.
Qed.

Lemma queueStep_inv s op s' : queueStep s op = Some s' -> sys_inv s -> sys_inv s'.
Proof.
  intros H Hs. destruct (queueStep_onward _ _ _ H) as [Hgen _]. unfold sys_inv. rewrite (own_jobs_gen _ _ _ Hgen).
  destruct op; simpl in H.
  - destruct (r_finalized _) eqn:Hf; simplify_eq/=. by apply startQueue_inv.
  - destruct (r_finalized _) eqn:Hf; simplify_eq/=. by apply handleBatch_inv.
  - destruct (qs_workers s !! w) as [[]|] eqn:Hw; try done. destruct (requests_of _) as [|l rest] eqn:Hr; simplify_eq/=.
    eapply run_inv_requests; [|by apply run_inv_take]. intros x. rewrite elem_of_cons. unfold popped.
    intros [->|Hx].
    + apply list_elem_of_omap. exists (WPopped l). split; [|done]. apply list_elem_of_lookup. exists w.
      apply list_lookup_insert_eq. by eapply lookup_lt_Some.
    + by destruct (popped_insert _ _ _ (WPopped l) Hw x Hx) as [?|?].
  - destruct (qs_workers s !! w) as [[]|] eqn:Hw; try done. destruct (r_cancelled _); simplify_eq/=.
    eapply run_inv_requests; [|done]. intros x Hx. by destruct (popped_insert _ _ _ WStopped Hw x Hx) as [?|?].
  - destruct (qs_workers s !! w) as [[]|] eqn:Hw; try done.
    destruct (executePull_begin l (qs_run s)) as [p r] eqn:E. simplify_eq/=.
    eapply executePull_begin_inv; [|exact E]. eapply run_inv_requests; [by apply popped_begin|done].
  - destruct (qs_workers s !! w) as [[]|] eqn:Hw; simplify_eq/=. apply executePull_end_inv.
    eapply run_inv_requests; [|done]. intros x Hx. by destruct (popped_insert _ _ _ WIdle Hw x Hx) as [?|?].
  - simplify_eq/=. by apply watchdogTick_inv.
  - destruct (bc_batches _) as [|job rest] eqn:Hb; simplify_eq/=. eapply run_inv_batches; [|done]. rewrite Hb.
    rewrite own_jobs_app. change (job :: rest) with ([job] ++ rest). rewrite own_jobs_app, <- !app_assoc.
    etransitivity; [apply Permutation_app_comm|]. by rewrite <- app_assoc.
  - destruct (qs_handling s !! i) as [job|] eqn:Hi; simplify_eq/=. pose proof (delete_own (qs_run s) _ _ _ Hi) as Hd.
    destruct (Z.eqb_spec (bj_run job) (r_generation (qs_run s))) as [He|He].
    + eapply processBatchJob_inv; [done| |done]. intros _. exact Hd.
    + assert (own_job (qs_run s) job = false) as Hno by (unfold own_job; by rewrite (proj2 (Z.eqb_neq _ _) He)).
      rewrite Hno in Hd. simpl in Hd. destruct Hs as [Ha Hs]. split; [done|]. intros Hl.
      destruct (Hs Hl) as (L & HL & [c1 c2 c3 c4 c5 c6 c7 c8] & Hmax). exists L. split; [done|]. split; [|done].
      split; try done; [by rewrite <- Hd|]. intros x. by rewrite <- c8, Hd.
  - simplify_eq/=. destruct Hs as [Ha Hs]. destruct (ar_process _ Ha) as [Hp Hu].
    destruct (tryAcquireLocked _ n) as [x pb] eqn:E. destruct (tryAcquire_grows _ _ _ _ Hp E) as (Hp' & _ & Hu' & _ & Hpos).
    apply run_inv_processBudget; [done| |done]. simpl. destruct x as [[]|]; [specialize (Hpos eq_refl)|..]; lia.
  - destruct (Z.leb_spec n (bb_used (r_processQueueBudget (qs_run s)) - tracked_weight (qs_run s))); simplify_eq/=.
    destruct Hs as [Ha Hs]. destruct (ar_process _ Ha) as [Hp Hu].
    destruct (releaseLocked _ n) as [x pb] eqn:E. destruct (release_grows _ _ _ _ Hp E) as (Hp' & _ & Hu' & _).
    apply run_inv_processBudget; [done| |done]. simpl. destruct x; lia.
  - destruct (_ || _) eqn:E; simplify_eq/=. apply orb_false_iff in E as [E _]. eapply run_inv_batches; [|done].
    assert (own_jobs (qs_run s) [job] = []) as Hno by (unfold own_jobs, own_job; simpl; by rewrite E).
    by rewrite own_jobs_app, Hno, app_nil_r.
  - simplify_eq/=. by apply run_inv_client.
  - simplify_eq/=. by eapply fail_inv.
  - simplify_eq/=. destruct Hs as [Ha _]. split; [|by intros [Hl _]].
    destruct Ha as [H1 H2 H3 H4 H5 H6]. split; try done. intros Hf. destruct (H2 Hf). done.
  - destruct (_ && _) eqn:E; simplify_eq/=. destruct Hs as [Ha _]. split; [auto with acct|].
    intros [_ Hl]. simpl in Hl. breflect. lia.
  - destruct (_ && _) eqn:E; simplify_eq/=. apply andb_true_iff in E as [E _]. by apply finalizeQueues_inv.
Qed.

Lemma queueRun_app s ops ops' : queueRun s (ops ++ ops') = s' ← queueRun s ops; queueRun s' ops'.
Proof.
  revert s. induction ops as [|op ops IH]; intros s; [done|]. simpl. destruct (queueStep s op); [apply IH|done].
Qed.

Lemma queueRun_inv s ops s' : queueRun s ops = Some s' -> sys_inv s -> sys_inv s'.
Proof.
  revert s. induction ops as [|op ops IH]; intros s H Hs; simpl in H; [by simplify_eq|].
  destruct (queueStep s op) as [s1|] eqn:E; simpl in H; [|done]. eapply IH; [done|]. by eapply queueStep_inv.
Qed.

(** ** Properties *)

(** A run as it starts: its own budget is new, nothing of its generation is
    queued for the batch workers, and the process budget is consistent. *)
Definition fresh_run (gen : Z) (pb : byteBudget) (c : batchClient) : Prop :=
  budget_ok pb /\ Forall (fun j => bj_run j <> gen) (bc_batches c).

Lemma newRun_inv gen pb c : fresh_run gen pb c -> sys_inv (startPullScheduler (newRun gen pb c)).
Proof.
  intros [Hpb Hb]. unfold newRun. set (r := ensureQueueStructuresLocked _).
  assert (r_heap r = ∅ /\ r_queues r = Some ∅ /\ r_deferred r = newDeferredQueueRing maxTrackedQueues /\
    r_pullRequests r = Some [] /\ r_queueBudget r = Some (mkByteBudget connectionQueueBudgetBytes 0 (Some 0%nat) 1 []) /\
    r_processQueueBudget r = pb /\ r_queueTimeout r = queueResponseTimeout /\ r_activeQueues r = 0 /\
    r_generation r = gen /\ r_cancelled r = false /\ r_closed r = false /\ r_finalized r = false /\ r_client r = c)
    as (E1 & E2 & E3 & E4 & E5 & E6 & E7 & E8 & E9 & E10 & E11 & E12 & E13) by (by split_and!).
  clearbody r.
  assert (queues_of r = ∅) as Eq by (unfold queues_of; by rewrite E2).
  assert (tracked_weight r = 0) as Ht by (rewrite tracked_qsum, Eq; apply qsum_empty).
  assert (budget_ok (mkByteBudget connectionQueueBudgetBytes 0 (Some 0%nat) 1 [])) as Hlb
    by (apply empty_budget_ok; vm_compute; split; congruence).
  change (run_inv [] [] r). split.
  - split; rewrite ?E10, ?E11, ?E12, ?Eq, ?E5, ?Ht, ?E6, ?E2, ?E3, ?E4, ?E7; try done.
    + intros _. split_and!; [by eexists|apply length_replicate|by eexists|done].
    + by eexists.
    + split; [done|]. by destruct (bo_used _ Hpb).
  - intros _. exists []. rewrite E3, E8, E1, Eq. split_and!; [apply new_repr| |done|done].
    assert (own_jobs r (bc_batches (r_client r)) = []) as ->.
    { rewrite E13. unfold own_jobs, own_job. rewrite E9. induction Hb as [|j js Hj _ IH]; [done|]. simpl.
      by rewrite (proj2 (Z.eqb_neq _ _) Hj). }
    split; try done.
    + intros l. split; [by intros ?%not_elem_of_nil|]. by intros (k & q & Hk & _).
    + constructor.
    + constructor.
    + intros k. split; [by intros ?%not_elem_of_nil|]. by intros (l & q & Hk & _).
Qed.

(** The number of tracked queues in a phase. *)
Definition count_phase (p : queuePhase) (r : connectionRun) : nat :=
  length (List.filter (fun kl => bool_decide (q_phase <$> r_heap r !! kl.2 = Some p)) (map_to_list (queues_of r))).

Lemma count_active r : Z.of_nat (count_phase queueActive r) = qsum (active_at (r_heap r)) (queues_of r).
Proof.
  unfold count_phase, qsum. induction (map_to_list (queues_of r)) as [|[k l] m IH]; [done|]. simpl.
  rewrite zsum_cons, <- IH. unfold active_at at 1. destruct (r_heap r !! l) as [q|]; simpl; [|done].
  unfold is_active. destruct (decide (q_phase q = queueActive)) as [Hp|Hp].
  - rewrite !bool_decide_eq_true_2 by congruence. simpl. lia.
  - rewrite !bool_decide_eq_false_2 by congruence. simpl. lia.
Qed.

(** C11. Capacity.  However the connection is used, it tracks at most 4096 queues;
    while it is live, the counter of active queues is exact and at most 256,
    and a queue is deferred only while all 256 places are taken. *)
Theorem queue_capacity gen pb c ops s :
  fresh_run gen pb c -> queueRun (startPullScheduler (newRun gen pb c)) ops = Some s ->
  let r := qs_run s in
  (size (queues_of r) <= 4096)%nat /\
  (live r -> r_activeQueues r = Z.of_nat (count_phase queueActive r) /\
    r_activeQueues r <= maxActiveQueues /\
    (ring_Len (r_deferred r) <> 0%nat -> r_activeQueues r = maxActiveQueues)).
Proof.
  intros Hf Hr r. destruct (queueRun_inv _ _ _ Hr (newRun_inv _ _ _ Hf)) as [Ha Hs]. fold r in Ha, Hs.
  split; [by apply tracked_count|]. intros Hl. destruct (Hs Hl) as (L & HL & Hc & Hmax & Hcons).
  split_and!; [|done|].
  - by rewrite count_active, (co_active _ _ _ _ _ _ Hc).
  - intros Hn. apply Hcons. intros ->. destruct (rr_size _ _ HL) as [Hsz _]. by apply Hn.
Qed.

(** Accounting.  At every moment the run's budget holds exactly the weights of
    the tracked queues, within 4 MiB, and the process budget holds them too;
    when the run is finalized it has returned exactly that to both. *)
Theorem queue_accounting gen pb c ops s :
  fresh_run gen pb c -> queueRun (startPullScheduler (newRun gen pb c)) ops = Some s ->
  let r := qs_run s in
  (exists lb, r_queueBudget r = Some lb /\ bb_used lb = tracked_weight r) /\
  0 <= tracked_weight r <= connectionQueueBudgetBytes /\
  tracked_weight r <= bb_used (r_processQueueBudget r) /\
  (r_cancelled r = true ->
   (exists lb, r_queueBudget (finalizeQueues r) = Some lb /\ bb_used lb = 0) /\
   bb_used (r_processQueueBudget (finalizeQueues r)) = bb_used (r_processQueueBudget r) - tracked_weight r).
Proof.
  intros Hf Hr r. destruct (queueRun_inv _ _ _ Hr (newRun_inv _ _ _ Hf)) as [Ha _]. fold r in Ha.
  destruct (ar_local _ Ha) as (lb & Hlb & _ & _ & Hu).
  split; [by exists lb|]. split; [by apply tracked_bound|]. split; [by apply Ha|]. intros Hc.
  destruct (finalizeQueues_spec _ Ha Hc) as (Ha' & Ht & Hp). split; [|done].
  destruct (ar_local _ Ha') as (lb' & Hlb' & _ & _ & Hu'). exists lb'. split; [done|]. by rewrite Hu', Ht.
Qed.

(** C1. No queue is forgotten.  On a live run, every tracked queue is either idle;
    or deferred, exactly once in the ring; or active with exactly one of: a
    pull request in the channel or in the hands of a worker, a pull in flight,
    a batch that a batch worker has or will get. *)
Theorem queue_never_stuck gen pb c ops s k l q :
  fresh_run gen pb c -> queueRun (startPullScheduler (newRun gen pb c)) ops = Some s ->
  let r := qs_run s in
  live r -> queues_of r !! k = Some l -> r_heap r !! l = Some q ->
  exists L, ring_repr (r_deferred r) L /\ NoDup L /\
  match q_phase q with
  | queueIdle => l ∉ L /\ q_pullQueued q = false /\ q_pullInFlight q = false /\ q_processing q = false
  | queueDeferred => l ∈ L /\ q_pullQueued q = false /\ q_pullInFlight q = false /\ q_processing q = false
  | queueActive =>
      l ∉ L /\ b2z (q_pullQueued q) + b2z (q_pullInFlight q) + b2z (q_processing q) = 1 /\
      (q_pullQueued q = true -> l ∈ requests_of r \/ WPopped l ∈ qs_workers s) /\
      (q_processing q = true -> exists job, job ∈ bc_batches (r_client r) ++ qs_handling s /\
         bj_run job = r_generation r /\ bj_queue job = k /\ bj_reservation job <> None)
  end.
Proof.
  intros Hf Hr r Hl Hk Hq. destruct (queueRun_inv _ _ _ Hr (newRun_inv _ _ _ Hf)) as [Ha Hs]. fold r in Ha, Hs.
  destruct (Hs Hl) as (L & HL & Hc & Hmax & Hcons). exists L. split; [done|]. split; [apply Hc|].
  pose proof (co_flags _ _ _ _ _ _ Hc _ _ _ Hk Hq) as Hfl. unfold flags_ok in Hfl.
  assert (HLd : l ∈ L <-> q_phase q = queueDeferred).
  { rewrite (co_deferred _ _ _ _ _ _ Hc). split; [intros (k' & q' & _ & Hq' & Hp); congruence|eauto]. }
  destruct (q_phase q) eqn:Hp.
  - split; [by intros ?%HLd|]. tauto.
  - split; [by apply HLd|]. tauto.
  - split; [by intros ?%HLd|]. split; [done|]. split.
    + intros Hpq. pose proof (co_entries _ _ _ _ _ _ Hc _ _ _ Hk Hq Hpq) as He.
      apply elem_of_app in He as [He|He]; [by left|right]. unfold popped in He.
      apply list_elem_of_omap in He as (w & Hw & E). destruct w; simplify_eq/=. done.
    + intros Hpr. assert (k ∈ own_jobs r (bc_batches (r_client r)) ++ own_jobs r (qs_handling s)) as HJ.
      { apply (co_handled _ _ _ _ _ _ Hc). eauto. }
      rewrite <- own_jobs_app in HJ. unfold own_jobs in HJ. apply list_elem_of_fmap in HJ as (job & -> & Hj).
      apply list_elem_of_In, filter_In in Hj as [Hj Ho]. exists job. unfold own_job in Ho.
      apply andb_true_iff in Ho as [Ho1 Ho2]. apply Z.eqb_eq in Ho1.
      split_and!; try done; [by apply list_elem_of_In|]. by destruct (bj_reservation job).
Qed.

Lemma enqueue_other q r l : q <> Some l -> r_heap (snd (enqueuePullLocked q r)) !! l = r_heap r !! l.
Proof.
  intros Hn. unfold enqueuePullLocked. destruct q as [x|]; simpl; [|done].
  assert (x <> l) by congruence. destruct (r_heap r !! x); simpl; [|done]. case_bool; [done|].
  destruct (r_pullRequests r); [case_bool|]; simpl; rewrite ?lookup_alter_ne; done.
Qed.

(** Promotion leaves alone the queues that are not deferred. *)
Lemma promote_other fuel r l q :
  r_heap r !! l = Some q -> q_phase q <> queueDeferred ->
  r_heap (snd (promoteLoop fuel r)) !! l = Some q.
Proof.
  revert r. induction fuel as [|fuel IH]; intros r Hq Hp; [done|]. cbn [promoteLoop]. case_bool; [|done].
  destruct (ring_Pop (r_deferred r)) as [[x|] d]; simpl; [|done].
  destruct (r_heap r !! x) as [qx|] eqn:Hx; simpl; [|done].
  destruct (decide (q_phase qx = queueDeferred)) as [Hd|Hd].
  - rewrite bool_decide_eq_true_2 by done. simpl. assert (x <> l) by (intros ->; congruence).
    rewrite enqueue_other by congruence. simpl. by rewrite lookup_alter_ne.
  - rewrite bool_decide_eq_false_2 by done. simpl. by apply IH.
Qed.

Lemma promote_live fuel r : live (snd (promoteLoop fuel r)) <-> live r.
Proof.
  revert r. induction fuel as [|fuel IH]; intros r; [done|]. cbn [promoteLoop]. case_bool; [|done].
  destruct (ring_Pop (r_deferred r)) as [q d]. destruct (_ ≫= _) as [[l s]|]; [|done].
  case_bool; [by rewrite IH|].
  apply (keeps_live (set_activeQueues (i32 (r_activeQueues r + 1)) (upd l (qset_phase queueActive) (set_deferred d r)))).
  apply keeps_enqueue, keeps_refl.
Qed.

(** Promotion without room: a queue that waits in the ring cannot be asked for. *)
Lemma promote_ring P H r L :
  acct_run r -> r_finalized r = false -> ring_repr (r_deferred r) L ->
  core (r_heap r) (queues_of r) L (r_activeQueues r) (requests_of r ++ P)
       (own_jobs r (bc_batches (r_client r)) ++ H) ->
  r_activeQueues r < maxActiveQueues ->
  fst (promoteDeferredLocked r) =
    if (0 <? ring_Len (r_deferred r))%nat && (pullRequestCapacity <=? length (requests_of r))%nat
    then Some requestQueueFull else None.
Proof.
  intros Ha Hfin HL Hc Hmax. unfold promoteDeferredLocked. cbn [promoteLoop].
  rewrite (proj2 (Z.ltb_lt _ _)) by done. unfold ring_Len. rewrite (proj1 (rr_size _ _ HL)).
  remember (pullRequestCapacity <=? length (requests_of r))%nat as full eqn:Hfull. destruct L as [|l L].
  - by rewrite (pop_empty _ HL).
  - destruct (pop_repr _ _ _ HL) as (d & Hpop & HL' & Hlen). rewrite Hpop.
    destruct (proj1 (co_deferred _ _ _ _ _ _ Hc l) ltac:(set_solver)) as (k & q & Hk & Hq & Hp).
    simpl. rewrite Hq. simpl. rewrite Hp. simpl.
    pose proof (co_flags _ _ _ _ _ _ Hc _ _ _ Hk Hq) as Hfl. unfold flags_ok in Hfl. rewrite Hp in Hfl.
    destruct Hfl as (Hf1 & Hf2 & Hf3 & Hf4). destruct (ar_struct _ Ha Hfin) as (_ & _ & Hreq & _).
    rewrite (enqueue_spec _ (qset_phase queueActive q)); try done.
    + change (requests_of (set_activeQueues _ _)) with (requests_of r). rewrite Nat.ltb_antisym, <- Hfull.
      by destruct full.
    + by apply (upd_lookup l (qset_phase queueActive) (set_deferred d r)).
Qed.

(** Whether a queue with state [q] is pulled again after the batch [d]: there is
    more to read, or a NOTICE came while the batch was handled. *)
Definition pullsAgain (q : queueState) (d : Sync) : bool :=
  negb (sy_IsLast d || (sy_NextKey d =? 0)) || q_noticePending q.

(** What finishing the batch [d] does to its queue, at [l] in the state [q], and
    to the run.  A pull is requested for the queue, or for the first one that
    waits in the ring; without room for the request in the channel the run ends.
    Otherwise the cursor advances to a non-zero [NextKey] and else stays; the
    queue is pulled again, its request last in the channel and the NOTICE
    consumed, or goes idle. *)
Definition finishes (l : nat) (q : queueState) (d : Sync) (r r' : connectionRun) : Prop :=
  if (pullsAgain q d || (0 <? ring_Len (r_deferred r))%nat) && (pullRequestCapacity <=? length (requests_of r))%nat
  then r_closed r' = true /\ r_cancelled r' = true /\ r_lastErr r' = Some requestQueueFull
  else live r' /\ exists q', r_heap r' !! l = Some q' /\
    q_key q' = (if sy_NextKey d =? 0 then q_key q else sy_NextKey d) /\ q_processing q' = false /\
    q_noticePending q' = false /\ q_pullInFlight q' = false /\
    (if pullsAgain q d
     then q_phase q' = queueActive /\ q_pullQueued q' = true /\ requests_of r' = requests_of r ++ [l]
     else q_phase q' = queueIdle /\ q_pullQueued q' = false).

Lemma live_open r : acct_run r -> live r -> r_closed r = false.
Proof. intros Ha [Hc _]. destruct (r_closed r) eqn:E; [apply (ar_closed _ Ha) in E; congruence|done]. Qed.

Lemma fail_full r : r_closed r = false ->
  let r' := failScheduled (Some requestQueueFull) r in
  r_closed r' = true /\ r_cancelled r' = true /\ r_lastErr r' = Some requestQueueFull.
Proof. intros Hc. cbn [failScheduled]. unfold fail, capacityHit. cbn [r_closed set_capacityHits]. by rewrite Hc. Qed.

(** Pulling again. *)
Lemma pull_again P H r k l q d e :
  run_inv P H r -> live r -> queues_of r !! k = Some l -> r_heap r !! l = Some q -> q_phase q = queueActive ->
  q_pullQueued q = false -> q_pullInFlight q = false ->
  pullsAgain q d = true -> finishes l q d r (processBatch k d e r).
Proof.
  intros [Ha Hs] Hl Hk Hq Hp Hf1 Hf2 Hag. pose proof (live_unfinalized _ Ha Hl) as Hfin. pose proof Hl as [Hcan Hgen].
  destruct (advanced_facts d q) as (Hai & Haw & Hap & Har & Haq & Haf & Han).
  assert (Hl1 : r_heap (upd l (advanced d) r) !! l = Some (advanced d q)) by (by apply upd_lookup).
  set (r1 := upd l (qset_notice false) (upd l (advanced d) r)).
  pose proof (live_open _ Ha Hl) as Hop.
  assert (processBatch k d e r = let '(x, r2) := enqueuePullLocked (Some l) r1 in failScheduled x r2) as ->.
  { unfold processBatch. rewrite Hcan, Hk, Hgen, Z.eqb_refl. cbn [negb]. unfold advanceQueue. fold (advanced d).
    rewrite Hl1. simpl (_ <$> _). rewrite Han. unfold pullsAgain in Hag.
    destruct (sy_IsLast d || (sy_NextKey d =? 0)); cbn [negb orb] in *; [by rewrite Hag|done]. }
  rewrite (enqueue_spec _ (qset_notice false (advanced d q))); [|by apply (upd_lookup l (qset_notice false) (upd l (advanced d) r))
    |simpl; congruence..|apply (ar_struct _ Ha Hfin)].
  change (requests_of r1) with (requests_of r). unfold finishes. rewrite Hag, (Nat.ltb_antisym pullRequestCapacity). cbn [orb andb].
  destruct (_ <=? _)%nat; cbn [negb]; [by apply fail_full|]. split; [done|].
  exists (qset_pullQueued true (qset_notice false (advanced d q))).
  split_and!; simpl; try congruence; try done; [by rewrite !lookup_alter_eq, Hq|]. unfold advanced. by case_bool.
Qed.

(** Finishing a batch of a live run. *)
Lemma processBatch_spec P H H' r k d e :
  run_inv P H r -> live r ->
  own_jobs r (bc_batches (r_client r)) ++ H ≡ₚ k :: own_jobs r (bc_batches (r_client r)) ++ H' ->
  exists l q, queues_of r !! k = Some l /\ r_heap r !! l = Some q /\ finishes l q d r (processBatch k d e r).
Proof.
  intros Hinv Hl HJ. pose proof Hinv as [Ha Hs]. pose proof (live_unfinalized _ Ha Hl) as Hfin. pose proof Hl as [Hcan Hgen].
  destruct (Hs Hl) as (L & HL & Hc & Hmax & Hcons).
  destruct (handled_facts _ _ _ _ _ _ k Hc ltac:(rewrite HJ; set_solver))
    as (l & q & Hk & Hq & Hid & Hw & Hp & Hpr & Hf1 & Hf2 & HnL & Hpos).
  exists l, q. split; [done|]. split; [done|]. destruct (pullsAgain q d) eqn:Hag; [by eapply pull_again|].
  assert (q_noticePending q = false /\ (sy_IsLast d || (sy_NextKey d =? 0)) = true) as [Hn Hlast].
  { apply orb_false_iff in Hag as [Hag ->]. by apply negb_false_iff in Hag. }
  destruct (advanced_facts d q) as (Hai & Haw & Hap & Har & Haq & Haf & Han).
  destruct (core_go_idle P H H' r L d k l Hc Hmax Hk HJ ltac:(rewrite Hq; simpl; congruence)) as [Ha1 Hc1].
  rewrite <- Ha1 in Hc1. pose proof (acct_gone_idle d l _ Ha) as Hacct.
  assert (processBatch k d e r = let '(x, r2) := promoteDeferredLocked (gone_idle d l r) in failScheduled x r2) as ->.
  { unfold processBatch. rewrite Hcan, Hk, Hgen, Z.eqb_refl. cbn [negb]. unfold advanceQueue. fold (advanced d).
    rewrite (upd_lookup l (advanced d) r q Hq), Hlast. simpl (_ <$> _). by rewrite Han, Hn. }
  assert (r_heap (gone_idle d l r) !! l = Some (qset_phase queueIdle (advanced d q))) as Hlg
    by (by apply (upd_lookup l (qset_phase queueIdle) (upd l (advanced d) r)), upd_lookup).
  pose proof (promote_other (S (ring_Len (r_deferred (gone_idle d l r)))) _ l _ Hlg ltac:(done)) as Hkeep.
  pose proof (promote_live (S (ring_Len (r_deferred (gone_idle d l r)))) (gone_idle d l r)) as Hlive.
  pose proof (acct_promote (S (ring_Len (r_deferred (gone_idle d l r)))) _ Hacct) as Hkp.
  pose proof (promote_ring P H' (gone_idle d l r) L Hacct Hfin HL Hc1
    ltac:(change maxActiveQueues with 256 in *; lia)) as Hp1. unfold promoteDeferredLocked in *.
  destruct (promoteLoop _ (gone_idle d l r)) as [err r2]. simpl in Hkeep, Hp1, Hkp. subst err.
  change (r_deferred (gone_idle d l r)) with (r_deferred r). change (requests_of (gone_idle d l r)) with (requests_of r).
  unfold finishes. rewrite Hag. cbn [orb]. destruct (_ && _).
  - apply fail_full, live_open; [done|by apply Hlive].
  - cbn [failScheduled]. split; [by apply Hlive|]. exists (qset_phase queueIdle (advanced d q)).
    split_and!; try done; simpl; try congruence. unfold advanced. by case_bool.
Qed.

(** An idle queue that was scheduled is deferred, or active with a pull
    queued. *)
Lemma activate_result l q r r' :
  acct_run r -> r_finalized r = false -> r_heap r !! l = Some q -> q_phase q = queueIdle ->
  q_pullQueued q = false -> q_pullInFlight q = false -> q_processing q = false ->
  activateOrDeferLocked l r = (None, r') ->
  exists q', r_heap r' !! l = Some q' /\ q_jid q' = q_jid q /\
    (q_phase q' = queueDeferred \/ q_phase q' = queueActive /\ q_pullQueued q' = true).
Proof.
  intros Ha Hfin Hq Hp H1 H2 H3 He. unfold activateOrDeferLocked in He. case_bool.
  - rewrite (enqueue_spec _ (qset_phase queueActive q)) in He; try done.
    + case_bool; [|done]. injection He as <-. exists (qset_pullQueued true (qset_phase queueActive q)).
      split; [|auto]. simpl. by rewrite !lookup_alter_eq, Hq.
    + by apply (upd_lookup l (qset_phase queueActive) r).
    + apply (ar_struct _ Ha Hfin).
  - destruct (ring_Push _ _) as [[] d]; [|done]. injection He as <-.
    exists (qset_phase queueDeferred q). split; [|auto]. simpl. by rewrite lookup_alter_eq, Hq.
Qed.

(** The queue of a NOTICE is going to be pulled: it is deferred, or a request
    for it is queued (no worker has read its cursor yet), or it is marked to be
    pulled once more. *)
Definition will_pull (q : queueState) : Prop :=
  q_phase q = queueDeferred \/ q_phase q = queueActive /\ (q_pullQueued q = true \/ q_noticePending q = true).

Lemma noticeKnown_result P H r k l q e r' :
  run_inv P H r -> r_finalized r = false -> live r -> queues_of r !! k = Some l -> r_heap r !! l = Some q ->
  noticeKnown l r = (e, r') -> e = None ->
  exists q', r_heap r' !! l = Some q' /\ q_jid q' = q_jid q /\ will_pull q'.
Proof.
  intros [Ha Hs] Hfin Hl Hk Hq He ->. unfold noticeKnown in He. rewrite Hq in He. simpl in He.
  destruct (Hs Hl) as (L & HL & Hc & Hmax & Hcons). destruct (q_phase q) eqn:Hp.
  - destruct (idle_facts _ _ _ _ _ _ _ _ _ Hc Hk Hq Hp) as (_ & _ & Hf1 & Hf2 & Hf3 & _).
    destruct (activate_result _ _ _ _ Ha Hfin Hq Hp Hf1 Hf2 Hf3 He) as (q' & Hq' & Hj & Hw).
    exists q'. unfold will_pull. split_and!; [done|done|tauto].
  - injection He as <-. exists q. unfold will_pull. split_and!; [done|done|]. by left.
  - injection He as <-. exists (qset_notice true q). unfold will_pull. simpl.
    rewrite lookup_alter_eq, Hq. simpl. split_and!; [done|done|]. right. auto.
Qed.

Lemma keeps_notice l r : keeps_queues r (snd (noticeKnown l r)).
Proof.
  unfold noticeKnown. destruct (_ <$> _) as [[]|]; try apply keeps_refl; [apply keeps_activate|].
  apply keeps_upd; [auto with acct|apply keeps_refl].
Qed.

Lemma acct_notice l r : acct_run r -> acct_run (snd (noticeKnown l r)).
Proof.
  intros Ha. unfold noticeKnown. destruct (_ <$> _) as [[]|]; try done; [by apply acct_activate|]. simpl. auto with acct.
Qed.

Lemma startQueue_result P H r j :
  run_inv P H r -> r_finalized r = false -> live r -> live (startQueue j r) ->
  exists l q, queues_of (startQueue j r) !! newQueueKey j = Some l /\
    r_heap (startQueue j r) !! l = Some q /\ q_jid q = j /\ will_pull q.
Proof.
  intros Hr Hfin Hl. pose proof Hr as [Ha Hs]. unfold startQueue.
  destruct (validateQueueJID j) eqn:Hval; [intros Hl'; by destruct (fail_dead _ _ (ar_closed _ Ha) Hl')|].
  rewrite ensure_id by done. destruct (queues_of r !! newQueueKey j) as [l|] eqn:Hk; cbn [mbind option_bind].
  - destruct (ar_idents _ Ha _ _ Hk) as (q & Hq & Hid & Hwq). rewrite Hq. cbn [mbind option_bind].
    destruct (startKnown_updates P H r j l q Hr Hfin Hval Hk Hq)
      as [(e & r' & -> & Ha')|(r2 & w & Hr2 & Hfin2 & Hlive2 & Hk2 & Hq2 & ->)];
      [intros Hl'; by destruct (fail_dead _ _ (ar_closed _ Ha') Hl')|].
    destruct (noticeKnown l r2) as [e r'] eqn:E. intros Hl'.
    pose proof (keeps_notice l r2) as (Hkq & _). rewrite E in Hkq. simpl in Hkq.
    assert (e = None) as ->.
    { destruct e as [err|]; [|done]. exfalso. simpl in Hl'. revert Hl'. apply fail_dead.
      pose proof (acct_notice l r2 (proj1 Hr2)) as Ha'. rewrite E in Ha'. apply Ha'. }
    destruct (noticeKnown_result P H r2 _ _ _ _ _ Hr2 Hfin2 ltac:(by apply Hlive2) Hk2 Hq2 E eq_refl)
      as (q' & Hq' & Hj & Hwill).
    exists l, q'. split_and!; try done. simpl. unfold queues_of in *. by rewrite Hkq.
  - destruct (startNew_tracks P H r j Hr Hfin Hval Hk)
      as [(e & r' & -> & Ha')|(r2 & Hr2 & Hfin2 & Hlive2 & Hk2 & Hq2 & ->)];
      [intros Hl'; by destruct (fail_dead _ _ (ar_closed _ Ha') Hl')|].
    pose proof (keeps_activate (alloc r) r2) as (Hkq & Hkw & _ & _ & _ & Hkf).
    pose proof (acct_activate (alloc r) r2 (proj1 Hr2)) as Ha3.
    destruct (activateOrDeferLocked (alloc r) r2) as [e r3] eqn:E. simpl in Hkq, Hkw, Hkf, Ha3.
    destruct e as [err|].
    { intros Hl'. exfalso. revert Hl'. apply fail_dead. apply (ar_closed (capacityHit _)), acct_hit.
      apply acct_forgetQueue; try done; [by rewrite Hkf|unfold queues_of; by rewrite Hkq|].
      rewrite Hkw. unfold weight_at. by rewrite Hq2. }
    intros Hl'. destruct (activate_result _ _ _ _ (proj1 Hr2) Hfin2 Hq2 eq_refl eq_refl eq_refl eq_refl E)
      as (q' & Hq' & Hj & Hwill).
    exists (alloc r), q'. split_and!; try done; [unfold queues_of in *; by rewrite Hkq|].
    unfold will_pull. tauto.
Qed.

(** A NOTICE is never lost.  Unless it fails the run, [startQueue] leaves its
    queue tracked under the JID of the NOTICE and bound to be pulled after it:
    deferred, or with a pull request queued that no worker has begun, or marked
    to be pulled again when its current batch is done. *)
Theorem startQueue_schedules gen pb c ops s j s' :
  fresh_run gen pb c -> queueRun (startPullScheduler (newRun gen pb c)) ops = Some s ->
  live (qs_run s) -> queueStep s (OpNotice j) = Some s' -> live (qs_run s') ->
  exists l q, queues_of (qs_run s') !! newQueueKey j = Some l /\ r_heap (qs_run s') !! l = Some q /\
    q_jid q = j /\ will_pull q.
Proof.
  intros Hf Hr Hl Hs Hl'. pose proof (queueRun_inv _ _ _ Hr (newRun_inv _ _ _ Hf)) as Hinv.
  cbn [queueStep] in Hs. destruct (r_finalized (qs_run s)) eqn:Hfin; [done|]. injection Hs as <-.
  eapply startQueue_result; [exact Hinv|done|done|exact Hl'].
Qed.

(** A batch worker finishes a batch of a live run. *)
Lemma done_batch gen pb c ops s i job e :
  fresh_run gen pb c -> queueRun (startPullScheduler (newRun gen pb c)) ops = Some s ->
  live (qs_run s) -> qs_handling s !! i = Some job -> own_job (qs_run s) job = true ->
  exists s' l q, queueStep s (OpDoneBatch i e) = Some s' /\ qs_handling s' = delete i (qs_handling s) /\
    queues_of (qs_run s) !! bj_queue job = Some l /\ r_heap (qs_run s) !! l = Some q /\
    finishes l q (bj_d job) (qs_run s) (qs_run s').
Proof.
  intros Hf Hr Hl Hi Hown. pose proof (queueRun_inv _ _ _ Hr (newRun_inv _ _ _ Hf)) as Hinv.
  cbn [queueStep]. rewrite Hi. pose proof Hown as Hown'. unfold own_job in Hown.
  apply andb_true_iff in Hown as [Hrun Hres]. rewrite Hrun.
  destruct (bj_reservation job) as [res|] eqn:Hre; [|done]. apply Z.eqb_eq in Hrun. pose proof Hl as [Hcan Hgen].
  destruct (processBatch_spec _ (own_jobs (qs_run s) (qs_handling s)) (own_jobs (qs_run s) (delete i (qs_handling s)))
    (qs_run s) (bj_queue job) (bj_d job) e Hinv Hl) as (l & q & H1 & H2 & H3).
  { pose proof (delete_own (qs_run s) _ _ _ Hi) as Hd. rewrite Hown' in Hd. rewrite Hd. simpl. by rewrite Permutation_middle. }
  eexists _, l, q. split; [reflexivity|]. split_and!; try done. cbn [qs_run]. unfold processBatchJob, jobStarts.
  rewrite Hre, Hcan, Hrun, Hgen, Z.eqb_refl. cbn [is_some andb negb]. exact H3.
Qed.

(** C2. Finishing a batch on a live run.  The cursor of the queue moves to a
    non-zero [NextKey] and is otherwise kept (never reset to 0); a queue with more
    to read, or with a NOTICE received meanwhile, is pulled again at once, its
    request last in the channel, and the NOTICE is consumed; otherwise the queue
    goes idle and the first queue of the ring, if any, takes its place.  The one
    exception: when a pull is to be requested and the channel of pull requests is
    full, the run ends with the error that says so. *)
Theorem finish_batch_advances gen pb c ops s i job e s' :
  fresh_run gen pb c -> queueRun (startPullScheduler (newRun gen pb c)) ops = Some s ->
  live (qs_run s) -> qs_handling s !! i = Some job -> own_job (qs_run s) job = true ->
  queueStep s (OpDoneBatch i e) = Some s' ->
  let r := qs_run s in let r' := qs_run s' in let d := bj_d job in
  exists l q, queues_of r !! bj_queue job = Some l /\ r_heap r !! l = Some q /\
    let again := negb (sy_IsLast d || (sy_NextKey d =? 0)) || q_noticePending q in
    if (again || (0 <? ring_Len (r_deferred r))%nat) && (pullRequestCapacity <=? length (requests_of r))%nat
    then r_closed r' = true /\ r_cancelled r' = true /\ r_lastErr r' = Some requestQueueFull
    else live r' /\ exists q', r_heap r' !! l = Some q' /\
      q_key q' = (if sy_NextKey d =? 0 then q_key q else sy_NextKey d) /\ q_processing q' = false /\
      q_noticePending q' = false /\ q_pullInFlight q' = false /\
      (if again
       then q_phase q' = queueActive /\ q_pullQueued q' = true /\ requests_of r' = requests_of r ++ [l]
       else q_phase q' = queueIdle /\ q_pullQueued q' = false).
Proof.
  intros Hf Hr Hl Hi Hown Hs r r' d.
  destruct (done_batch _ _ _ _ _ _ _ e Hf Hr Hl Hi Hown) as (s2 & l & q & E & _ & H1 & H2 & H3).
  rewrite Hs in E. injection E as <-. exists l, q. split; [done|]. split; [done|]. exact H3.
Qed.

(** ** A concrete run *)

Definition demo_pb : byteBudget := mkByteBudget processQueueBudgetBytes 0 (Some 0%nat) 1 [].
Definition demo_client : batchClient :=
  mkBatchClient {[ 0%nat := mkByteBudget clientBatchBudgetBytes 0 (Some 0%nat) 1 [];
                   1%nat := mkByteBudget processBatchBudgetBytes 0 (Some 0%nat) 1 [] ]}
    (Some 0%nat) (Some 1%nat) [] 1 0 0.
Definition demo_jid : JID := mkJID "app" "alice" "easemob.com" "mobile".
Definition demo_sync (last : bool) (next : Z) : Sync :=
  mkSync None 0 0 nil_slice next (Some demo_jid) last 0.
Definition demo_start : queueSys := startPullScheduler (newRun 1 demo_pb demo_client).

(** A NOTICE, its pull, a second NOTICE while the pull is in flight, and the
    batch, taken by a batch worker. *)
Definition demo_ops : list queueOp :=
  [OpNotice demo_jid; OpTakePull 0; OpBeginPull 0; OpEndPull 0 None 5; OpNotice demo_jid;
   OpBatch false (demo_sync true 7); OpTakeBatch].
Definition demo_sys : queueSys := default demo_start (queueRun demo_start demo_ops).

Lemma demo_fresh : fresh_run 1 demo_pb demo_client.
Proof. split; [apply empty_budget_ok; vm_compute; split; congruence|constructor]. Qed.

Lemma demo_reached : queueRun demo_start demo_ops = Some demo_sys.
Proof. vm_compute. reflexivity. Qed.

Lemma queue_capacity_witness :
  r_activeQueues (qs_run demo_sys) = 1 /\ r_activeQueues (qs_run demo_sys) <= maxActiveQueues.
Proof.
  split; [vm_compute; reflexivity|].
  apply (queue_capacity 1 demo_pb demo_client demo_ops demo_sys demo_fresh demo_reached).
  vm_compute. split; reflexivity.
Defined.

Lemma queue_accounting_witness : 0 <= tracked_weight (qs_run demo_sys) <= connectionQueueBudgetBytes.
Proof. apply (queue_accounting 1 demo_pb demo_client demo_ops demo_sys demo_fresh demo_reached). Defined.

(** While the batch is handled the queue is processing, and its job is with a
    batch worker. *)
Lemma queue_never_stuck_witness :
  exists l q, queues_of (qs_run demo_sys) !! newQueueKey demo_jid = Some l /\
    r_heap (qs_run demo_sys) !! l = Some q /\ q_processing q = true /\
    exists job, job ∈ bc_batches (r_client (qs_run demo_sys)) ++ qs_handling demo_sys /\
      bj_queue job = newQueueKey demo_jid.
Proof.
  eexists _, _. split; [vm_compute; reflexivity|]. split; [vm_compute; reflexivity|]. split; [reflexivity|].
  edestruct (queue_never_stuck 1 demo_pb demo_client demo_ops demo_sys (newQueueKey demo_jid))
    as (L & _ & _ & Hm);
    [exact demo_fresh|exact demo_reached|vm_compute; split; reflexivity|vm_compute; reflexivity|vm_compute; reflexivity|].
  cbn [q_phase] in Hm. destruct Hm as (_ & _ & _ & Hj).
  destruct (Hj eq_refl) as (job & H1 & _ & H2 & _). exists job. split; [exact H1|exact H2].
Defined.

Lemma startQueue_schedules_witness :
  exists s' l q, queueStep demo_sys (OpNotice demo_jid) = Some s' /\
    queues_of (qs_run s') !! newQueueKey demo_jid = Some l /\ r_heap (qs_run s') !! l = Some q /\ will_pull q.
Proof.
  destruct (startQueue_schedules 1 demo_pb demo_client demo_ops demo_sys demo_jid
    (on_run (startQueue demo_jid) demo_sys) demo_fresh demo_reached) as (l & q & H1 & H2 & _ & H4);
    [vm_compute; split; reflexivity|reflexivity|vm_compute; split; reflexivity|].
  exists (on_run (startQueue demo_jid) demo_sys), l, q. split; [reflexivity|]. split; [exact H1|]. split; [exact H2|exact H4].
Defined.

Definition demo_job : batchJob :=
  default (mkBatchJob (newQueueKey demo_jid) (demo_sync true 7) 1 None) (qs_handling demo_sys !! 0%nat).
Definition demo_done : queueSys := default demo_sys (queueStep demo_sys (OpDoneBatch 0 None)).

Lemma demo_finished : queueStep demo_sys (OpDoneBatch 0 None) = Some demo_done.
Proof. vm_compute. reflexivity. Qed.

(** The second NOTICE makes the queue be pulled again after its last batch, with
    the new cursor 7. *)
Lemma finish_batch_advances_witness :
  exists q', r_heap (qs_run demo_done) !! 0%nat = Some q' /\ q_processing q' = false /\ q_key q' = 7 /\
    q_pullQueued q' = true /\ live (qs_run demo_done).
Proof.
  destruct (finish_batch_advances 1 demo_pb demo_client demo_ops demo_sys 0 demo_job None demo_done)
    as (l & q & H1 & H2 & H3);
    [exact demo_fresh|exact demo_reached|vm_compute; split; reflexivity|vm_compute; reflexivity|
     vm_compute; reflexivity|exact demo_finished|].
  assert (l = 0%nat) as -> by (vm_compute in H1; congruence).
  vm_compute in H2. injection H2 as <-. cbn zeta in H3.
  change (bj_d demo_job) with (demo_sync true 7) in H3. cbn [sy_IsLast sy_NextKey demo_sync q_noticePending q_key] in H3.
  replace (_ && _) with false in H3 by (vm_compute; reflexivity).
  destruct H3 as (H4 & q' & K1 & K2 & K3 & _ & _ & _ & K4 & _). exists q'. exact (conj K1 (conj K3 (conj K2 (conj K4 H4)))).
Defined.

(** ** Batches nobody asked for

    A batch for a queue whose pull is still waiting in the channel leaves the
    request there and queues another one when it is done. *)
Definition unsolicited (n : Z) : list queueOp :=
  [OpBatch false (demo_sync false n); OpTakeBatch; OpDoneBatch 0 None].

(** After 256 of them the channel is full and the run fails with the error that
    announces a broken scheduler invariant, with one single queue. *)
Theorem unsolicited_batches_fill_the_channel :
  exists s, queueRun demo_start
    (OpNotice demo_jid :: concat (map (fun n => unsolicited (Z.of_nat (S n))) (seq 0 256))) = Some s /\
  size (queues_of (qs_run s)) = 1%nat /\ r_cancelled (qs_run s) = true /\
  r_lastErr (qs_run s) = Some requestQueueFull.
Proof.
  set (ops := OpNotice demo_jid :: _).
  exists (default demo_start (queueRun demo_start ops)). split_and!; vm_compute; reflexivity.
Qed.
