(* ===== verification/Endpoints.v ===== *)
(** * Choosing endpoints

    sdk/endpoint_pool.go and the parts of sdk/connection.go that decide which
    endpoint to connect to: a round over the DNS candidates, the login loop,
    the redirects of one endpoint, and the reconnect loop.  What a connection
    attempt does on the network is an argument of these functions. *)
From Stdlib Require Import String.
From S2P Require Import Prelude Protocol Errors.
Local Open Scope string_scope.
Local Open Scope Z_scope.

(** ** endpointRound *)

Record endpointRound := mkRound { er_candidates : list string; er_next : nat; er_remaining : nat }.

(** Go's [%] on [int]: the remainder has the sign of the dividend. *)
Definition newEndpointRound (candidates : list string) (start : Z) : endpointRound :=
  match candidates with
  | [] => mkRound [] 0 0
  | _ =>
      let n := zlen candidates in
      let start := Z.rem start n in
      let start := if start <? 0 then i64 (start + n) else start in
      mkRound candidates (Z.to_nat start) (length candidates)
  end.

(** [None] when the third result is false; the receiver is not nil. *)
Definition nextEndpoint (r : endpointRound) : option (string * nat) * endpointRound :=
  if (er_remaining r =? 0)%nat || (length (er_candidates r) =? 0)%nat then (None, r) else
  let index := er_next r in
  (Some (default "" (er_candidates r !! index), index),
   mkRound (er_candidates r) ((er_next r + 1) mod length (er_candidates r))%nat (er_remaining r - 1)).

Definition exhausted (r : endpointRound) : bool := (er_remaining r =? 0)%nat.

Definition nextCandidateCursor (usedIndex candidateCount : Z) : Z :=
  if (candidateCount =? 0) || (usedIndex <? 0) then 0 else Z.rem (i64 (usedIndex + 1)) candidateCount.

(** ** isTransientDNSResolutionError *)

Definition isTransientDNSResolutionError (err : option goerror) : bool :=
  match err ≫= errors_As_SDKError with
  | Some (ESDK ErrDNS _ reason _ status cause) =>
      if (status =? 429) || (status >=? 500) then true
      else if String.eqb reason "request failed" || String.eqb reason "request canceled while retrying"
              || String.eqb reason "read response" then true
      else match cause with
           | None => false
           | Some c =>
               errors_Is ContextCanceled c || errors_Is ContextDeadlineExceeded c
               || is_some (find_in_chain (fun e => match e with
                             | ELib t _ _ => if lt_netError t then Some tt else None
                             | ESentinel ContextDeadlineExceeded | ESentinel NetErrClosed => Some tt
                             | _ => None end) c)
           end
  | _ => false
  end.

(** ** The login loop

    [ctxErr i] is [ctx.Err()] before the i-th attempt and [connect i e] the
    result of the i-th attempt. *)
Section Login.
Context {Run : Type} (ctxErr : nat -> option goerror) (connect : nat -> string -> result Run).

Record loginResult := mkLoginResult { lr_run : option Run; lr_index : Z; lr_err : option goerror }.

Fixpoint loginLoop (fuel : nat) (i : nat) (round : endpointRound) (lastErr : option goerror) : loginResult :=
  match fuel with
  | O => mkLoginResult None (-1) lastErr
  | S fuel =>
      if exhausted round then mkLoginResult None (-1) lastErr else
      match ctxErr i with
      | Some err =>
          mkLoginResult None (-1)
            match lastErr with
            | Some _ => lastErr
            | None => classifyNetworkError "login endpoints" (Some err)
            end
      | None =>
          let '(e, round) := nextEndpoint round in
          let '(endpoint, index) := match e with Some (e, i) => (e, Z.of_nat i) | None => ("", 0) end in
          match connect i endpoint with
          | Ok r => mkLoginResult (Some r) index None
          | Err err =>
              if negb (shouldRotateEndpoint (Some err)) then mkLoginResult None index (Some err)
              else loginLoop fuel (S i) round (Some err)
          end
      end
  end.

Definition connectLoginCandidates (candidates : list string) : loginResult :=
  loginLoop (S (length candidates)) 0 (newEndpointRound candidates 0) None.
End Login.
Arguments mkLoginResult {Run} _ _ _.
Arguments lr_run {Run} _.
Arguments lr_index {Run} _.
Arguments lr_err {Run} _.

(** ** Redirects *)

Definition maxRedirectHops : nat := 5.

(** A parsed URL: what [redirectURL] reads and writes of it. *)
Record urlParts := mkUrl { u_Scheme : string; u_Host : string; u_Path : string; u_RawQuery : string; u_Fragment : string }.

Section Redirects.
(** [net/url]: [url.Parse] and [URL.String]. *)
Context (url_Parse : string -> result urlParts) (url_String : urlParts -> string).

Definition redirectURL (current : string) (infos : list RedirectInfo) : result string :=
  match infos with
  | [] => Err (newError ErrProtocol "redirect" "empty endpoint")
  | i :: _ =>
      u ← url_Parse current;
      if String.eqb (ri_Host i) "" || (ri_Port i =? 0) || (ri_Port i >? 65535)
      then Err (newError ErrProtocol "redirect" "invalid endpoint") else
      Ok (url_String (mkUrl "wss" (ri_Host i ++ ":" ++ pretty (ri_Port i))
                        (if String.eqb (u_Path u) "" then "/websocket" else u_Path u) "" ""))
  end.

(** What happens on one endpoint: the dial fails, or the login of the run it
    made ends with an error or succeeds; then [sendUnread]. *)
Inductive dialOutcome (Run : Type) :=
| DialFailed (err : goerror)
| LoginFailed (err : goerror)
| LoginOK (r : Run) (unread : option goerror).
Arguments DialFailed {Run} _.
Arguments LoginFailed {Run} _.
Arguments LoginOK {Run} _ _.

Context {Run : Type} (attempt : nat -> string -> dialOutcome Run).

(** The endpoints dialled, in order, and the result. *)
Fixpoint redirectLoop (fuel : nat) (hop : nat) (seen : list string) (endpoint : string) : list string * result Run :=
  match fuel with
  | O => ([], Err (EPlain "out of fuel"))
  | S fuel =>
      if (maxRedirectHops <? hop)%nat
      then ([], Err (newError ErrRedirectLimit "provision" "maximum redirect hops exceeded")) else
      if bool_decide (endpoint ∈ seen) then ([], Err (newError ErrRedirectLoop "provision" endpoint)) else
      let seen := endpoint :: seen in
      match attempt hop endpoint with
      | DialFailed err => ([endpoint], Err err)
      | LoginOK r None => ([endpoint], Ok r)
      | LoginOK _ (Some err) => ([endpoint], Err err)
      | LoginFailed err =>
          match errors_As_redirect err with
          | None => ([endpoint], Err err)
          | Some info =>
              match redirectURL endpoint info with
              | Err e => ([endpoint], Err e)
              | Ok next => let '(l, r) := redirectLoop fuel (S hop) seen next in (endpoint :: l, r)
              end
          end
      end
  end.

Definition connectWithRedirects (endpoint : string) : list string * result Run :=
  redirectLoop (maxRedirectHops + 2) 0 [] endpoint.
End Redirects.
Arguments DialFailed {Run} _.
Arguments LoginFailed {Run} _.
Arguments LoginOK {Run} _ _.

(** ** The reconnect loop

    [reconnect] keeps these variables across attempts.  The checks that the
    run and the session are still current surround every attempt and end the
    loop without changing them; they belong to the Client's lifecycle. *)
Record reconnectState := mkReconnect {
  rc_hosts : list string; rc_cursor : Z; rc_dnsGeneration : Z; rc_round : endpointRound;
  rc_endpoint : string; rc_endpointIndex : Z; rc_needRefresh : bool }.

(** What the resolver answers. *)
Record dnsAnswer := mkDnsAnswer { da_wss : list string; da_rest : string; da_generation : Z }.

Inductive reconnectResult :=
| ReconnectTerminal (err : goerror)
| ReconnectRetry (lastErr : goerror) (st : reconnectState)
| ReconnectDone (endpoint : string) (hosts : list string) (cursor dnsGeneration : Z).

Section Reconnect.
Context (url_Parse : string -> result urlParts) (url_String : urlParts -> string).

(** The choice before the first attempt; [oldEndpoint] is the endpoint of the
    failed run, [effectiveEndpoint] the Client's [msyncHost]. *)
Definition reconnectStart (effectiveEndpoint oldEndpoint : string) (hosts : list string) (cursor dnsGeneration : Z)
    (lastErr : option goerror) : result reconnectState :=
  let round := newEndpointRound hosts cursor in
  match lastErr ≫= errors_As_redirect with
  | Some info =>
      next ← redirectURL url_Parse url_String oldEndpoint info;
      Ok (mkReconnect hosts cursor dnsGeneration round next (-1) false)
  | None =>
      if shouldRotateEndpoint lastErr then
        match nextEndpoint round with
        | (Some (e, i), round) => Ok (mkReconnect hosts cursor dnsGeneration round e (Z.of_nat i) false)
        | (None, round) => Ok (mkReconnect hosts cursor dnsGeneration round "" 0 true)
        end
      else Ok (mkReconnect hosts cursor dnsGeneration round effectiveEndpoint (-1) false)
  end.

(** The refresh of the candidates, when the round is exhausted. *)
Definition refreshCandidates (resolved : dnsAnswer) : reconnectState :=
  let round := newEndpointRound (da_wss resolved) 0 in
  let '(e, round) := nextEndpoint round in
  let '(endpoint, index) := match e with Some (e, i) => (e, Z.of_nat i) | None => ("", 0) end in
  mkReconnect (da_wss resolved) 0 (da_generation resolved) round endpoint index false.

(** The connection of one attempt; [connect] gives the endpoint of the run made
    (redirects may have changed it). *)
Definition attemptEndpoint (effectiveEndpoint : string) (connect : result string) (st : reconnectState) : reconnectResult :=
  match connect with
  | Err err =>
      if isTerminal (Some err) then ReconnectTerminal err else
      if shouldRotateEndpoint (Some err) then
        match nextEndpoint (rc_round st) with
        | (Some (e, i), round) =>
            ReconnectRetry err (mkReconnect (rc_hosts st) (rc_cursor st) (rc_dnsGeneration st) round e (Z.of_nat i) false)
        | (None, round) =>
            ReconnectRetry err (mkReconnect (rc_hosts st) (rc_cursor st) (rc_dnsGeneration st) round "" 0 true)
        end
      else ReconnectRetry err (mkReconnect (rc_hosts st) (rc_cursor st) (rc_dnsGeneration st) (rc_round st)
                                 effectiveEndpoint (-1) (rc_needRefresh st))
  | Ok endpoint =>
      let cursor := if rc_endpointIndex st >=? 0
                    then nextCandidateCursor (rc_endpointIndex st) (zlen (rc_hosts st)) else rc_cursor st in
      ReconnectDone endpoint (rc_hosts st) cursor (rc_dnsGeneration st)
  end.

Definition reconnectAttempt (effectiveEndpoint : string) (refresh : result dnsAnswer)
    (connect : string -> result string) (st : reconnectState) : reconnectResult :=
  if rc_needRefresh st then
    match refresh with
    | Err err => if isTerminal (Some err) then ReconnectTerminal err else ReconnectRetry err st
    | Ok resolved =>
        let st := refreshCandidates resolved in
        attemptEndpoint effectiveEndpoint (connect (rc_endpoint st)) st
    end
  else attemptEndpoint effectiveEndpoint (connect (rc_endpoint st)) st.
End Reconnect.

(** [reconnectDelay] in seconds; [r] is the result of [rand.Intn] for the
    width of the tier. *)
Definition delayBounds (attempt : Z) : Z * Z :=
  if attempt <=? 3 then (5, 10) else if attempt <? 9 then (20, 40) else (60, 120).

Definition second : Z := 1000000000.

Definition reconnectDelay (attempt : Z) (rand_Intn : Z -> Z) : Z :=
  let '(lo, hi) := delayBounds attempt in
  i64 ((lo + rand_Intn (hi - lo + 1)) * second).

(** ** Rounds *)

(** A round that has made [k] steps from [start]. *)
Definition round_at (c : list string) (start k : nat) : endpointRound :=
  mkRound c ((start + k) mod length c) (length c - k).

Lemma newEndpointRound_at c start :
  in_i64 start -> zlen c <= max_int64 -> c <> [] ->
  newEndpointRound c start = round_at c (Z.to_nat (start mod zlen c)) 0.
Proof.
  intros Hs Hc Hne. destruct c as [|x c]; [done|]. set (l := x :: c) in *.
  assert (newEndpointRound l start = mkRound l (Z.to_nat (if Z.rem start (zlen l) <? 0 then i64 (Z.rem start (zlen l) + zlen l)
    else Z.rem start (zlen l))) (length l)) as -> by done. clearbody l. unfold round_at.
  assert (0 < zlen l) as Hl by (unfold zlen; destruct l; [done|simpl; lia]).
  pose proof (Z.mod_pos_bound start (zlen l) Hl) as Hb. rewrite Nat.add_0_r, Nat.sub_0_r.
  assert ((if Z.rem start (zlen l) <? 0 then i64 (Z.rem start (zlen l) + zlen l) else Z.rem start (zlen l)) = start mod zlen l) as He.
  { destruct (Z.ltb_spec (Z.rem start (zlen l)) 0) as [Hn|Hn].
    - rewrite i64_id by (pose proof (Z.rem_bound_abs start (zlen l)); word_lia).
      apply (Z.mod_unique_pos _ _ (start ÷ zlen l - 1)); [pose proof (Z.rem_bound_abs start (zlen l)); lia|].
      pose proof (Z.quot_rem start (zlen l)). lia.
    - apply (Z.mod_unique_pos _ _ (start ÷ zlen l)); [pose proof (Z.rem_bound_abs start (zlen l)); lia|].
      pose proof (Z.quot_rem start (zlen l)). lia. }
  rewrite He. f_equal.
  rewrite Nat.mod_small; [done|]. unfold zlen in *. lia.
Qed.

Lemma exhausted_at c start k : c <> [] -> exhausted (round_at c start k) = (length c <=? k)%nat.
Proof.
  intros Hne. unfold exhausted, round_at. simpl. destruct (Nat.leb_spec (length c) k); [|].
  - apply Nat.eqb_eq. lia.
  - apply Nat.eqb_neq. lia.
Qed.

Lemma nextEndpoint_at c start k :
  (k < length c)%nat ->
  exists e, c !! ((start + k) mod length c)%nat = Some e /\
    nextEndpoint (round_at c start k) = (Some (e, ((start + k) mod length c)%nat), round_at c start (S k)).
Proof.
  intros Hk. assert ((start + k) mod length c < length c)%nat as Hi by (apply Nat.mod_upper_bound; lia).
  destruct (lookup_lt_is_Some_2 c _ Hi) as [e He]. exists e. split; [done|].
  unfold nextEndpoint, round_at. simpl. rewrite (proj2 (Nat.eqb_neq (length c - k) 0)) by lia.
  rewrite (proj2 (Nat.eqb_neq (length c) 0)) by lia. simpl. rewrite He. simpl. do 2 f_equal.
  - rewrite Nat.Div0.add_mod_idemp_l. f_equal. lia.
  - lia.
Qed.

Lemma nextEndpoint_done c start : nextEndpoint (round_at c start (length c)) = (None, round_at c start (length c)).
Proof. unfold nextEndpoint, round_at. simpl. by rewrite Nat.sub_diag. Qed.

(** The endpoints of [n] calls, with their indices. *)
Fixpoint take_round (n : nat) (r : endpointRound) : list (string * nat) :=
  match n with
  | O => []
  | S n => match nextEndpoint r with
           | (Some p, r) => p :: take_round n r
           | (None, _) => []
           end
  end.

Lemma take_round_at c start n k :
  (k <= length c)%nat ->
  take_round n (round_at c start k) =
  omap (fun i => let j := ((start + i) mod length c)%nat in e ← c !! j; Some (e, j))
       (seq k (Nat.min n (length c - k))).
Proof.
  revert k. induction n as [|n IH]; intros k Hk; [done|]. cbn [take_round].
  destruct (decide (k = length c)) as [->|Hne].
  - rewrite nextEndpoint_done, Nat.sub_diag. by rewrite Nat.min_0_r.
  - destruct (nextEndpoint_at c start k ltac:(lia)) as (e & He & ->). rewrite IH by lia.
    replace (Nat.min (S n) (length c - k)) with (S (Nat.min n (length c - S k))) by lia. simpl. by rewrite He.
Qed.

(** The slot of the i-th call, without the wrap-around. *)
Lemma rotation_index (s i n : nat) : (s < n)%nat -> (i < n)%nat ->
  ((s + i) mod n = if decide (i < n - s)%nat then s + i else i - (n - s))%nat.
Proof.
  intros Hs Hi. destruct (decide (i < n - s)%nat); [apply Nat.mod_small; lia|].
  replace (s + i)%nat with ((i - (n - s)) + 1 * n)%nat by lia. rewrite Nat.Div0.mod_add. apply Nat.mod_small. lia.
Qed.

Lemma omap_total {A B} (f : A -> option B) (g : A -> B) (l : list A) :
  (forall x, x ∈ l -> f x = Some (g x)) -> omap f l = map g l.
Proof.
  induction l as [|x l IH]; intros H; [done|]. simpl. rewrite (H x) by set_solver. f_equal. apply IH. set_solver.
Qed.

Lemma take_round_rotation c (s n : nat) :
  (s < length c)%nat -> (length c <= n)%nat ->
  map fst (take_round n (round_at c s 0)) = (drop s c ++ take s c)%list /\
  map snd (take_round n (round_at c s 0)) = (seq s (length c - s) ++ seq 0 s)%list.
Proof.
  intros Hs Hn. rewrite take_round_at by lia. rewrite Nat.sub_0_r, Nat.min_r by done.
  rewrite (omap_total _ (fun i => (default "" (c !! ((s + i) mod length c)%nat), ((s + i) mod length c)%nat))).
  2:{ intros i _. simpl. assert ((s + i) mod length c < length c)%nat as Hi by (apply Nat.mod_upper_bound; lia).
      destruct (lookup_lt_is_Some_2 c _ Hi) as [e He]. by rewrite He. }
  rewrite !map_map. simpl. split; apply list_eq; intros i.
  - rewrite list_lookup_fmap. destruct (decide (i < length c)%nat) as [Hi|Hi].
    + rewrite lookup_seq_lt by done. simpl. rewrite rotation_index by done. case_decide.
      * rewrite lookup_app_l by (rewrite length_drop; lia). rewrite lookup_drop.
        destruct (lookup_lt_is_Some_2 c (s + i)) as [e He]; [lia|]. by rewrite He.
      * rewrite lookup_app_r by (rewrite length_drop; lia). rewrite length_drop, lookup_take_lt by lia.
        destruct (lookup_lt_is_Some_2 c (i - (length c - s))) as [e He]; [lia|]. by rewrite He.
    + rewrite lookup_seq_ge by lia. symmetry. apply lookup_ge_None_2. rewrite length_app, length_drop, length_take. lia.
  - rewrite list_lookup_fmap. destruct (decide (i < length c)%nat) as [Hi|Hi].
    + rewrite lookup_seq_lt by done. simpl. rewrite rotation_index by done. case_decide.
      * rewrite lookup_app_l by (rewrite length_seq; lia). by rewrite lookup_seq_lt by lia.
      * rewrite lookup_app_r by (rewrite length_seq; lia). rewrite length_seq, lookup_seq_lt by lia. done.
    + rewrite lookup_seq_ge by lia. symmetry. apply lookup_ge_None_2. rewrite length_app, !length_seq. lia.
Qed.

(** A round, from any cursor, negative or out of range included, hands out
    every candidate exactly once, in circular order from the cursor, and then
    reports exhaustion. *)
Theorem round_visits_each_once c start n :
  in_i64 start -> zlen c <= max_int64 -> c <> [] -> (length c <= n)%nat ->
  let s := Z.to_nat (start mod zlen c) in
  map fst (take_round n (newEndpointRound c start)) = (drop s c ++ take s c)%list /\
  map snd (take_round n (newEndpointRound c start)) = (seq s (length c - s) ++ seq 0 s)%list.
Proof.
  intros Hs Hc Hne Hn s. rewrite newEndpointRound_at by done. apply take_round_rotation; [|done].
  assert (0 < zlen c) as Hl by (unfold zlen; destruct c; [done|simpl; lia]).
  pose proof (Z.mod_pos_bound start (zlen c) Hl). unfold s, zlen in *. lia.
Qed.

Lemma round_visits_each_once_witness :
  map fst (take_round 5 (newEndpointRound ["a"; "b"; "c"] (-1))) = ["c"; "a"; "b"].
Proof.
  apply (round_visits_each_once ["a"; "b"; "c"] (-1) 5); [vm_compute; split; congruence|by vm_compute|done|simpl; lia].
Defined.

(** ** The login loop *)

Section LoginTheory.
Context {Run : Type} (ctxErr : nat -> option goerror) (connect : nat -> string -> result Run).

(** The attempt at candidate [i] failed with an error local to that endpoint
    and the context was alive. *)
Definition rotates (candidates : list string) (i : nat) : Prop :=
  ctxErr i = None /\ exists e err, candidates !! i = Some e /\ connect i e = Err err /\ shouldRotateEndpoint (Some err) = true.

Lemma loginLoop_skip c n k lastErr m :
  (forall i, (k <= i < k + m)%nat -> rotates c i) -> (k + m <= length c)%nat ->
  exists lastErr', loginLoop ctxErr connect (n + m) k (round_at c 0 k) lastErr =
    loginLoop ctxErr connect n (k + m) (round_at c 0 (k + m)) lastErr' /\
    (m <> 0%nat -> exists e, c !! (k + m - 1)%nat = Some e /\ connect (k + m - 1)%nat e = Err (default (EPlain "") lastErr') /\
       lastErr' <> None) /\ (m = 0%nat -> lastErr' = lastErr).
Proof.
  revert k lastErr. induction m as [|m IH]; intros k lastErr Hr Hk.
  - exists lastErr. rewrite !Nat.add_0_r. split_and!; done.
  - destruct (Hr k ltac:(lia)) as (Hc & e & err & He & Hcon & Hrot).
    replace (n + S m)%nat with (S (n + m)) by lia. cbn [loginLoop].
    assert (c <> []) as Hne by (intros ->; simpl in Hk; lia).
    rewrite exhausted_at by done. rewrite (proj2 (Nat.leb_gt _ _)) by lia. rewrite Hc.
    destruct (nextEndpoint_at c 0 k ltac:(lia)) as (e' & He' & ->). rewrite Nat.add_0_l, Nat.mod_small in He' by lia.
    assert (e' = e) as -> by congruence. rewrite Hcon, Hrot. simpl negb. cbv iota.
    destruct (IH (S k) (Some err)) as (l' & -> & Hl & H0); [intros; apply Hr; lia|lia|].
    exists l'. replace (k + S m)%nat with (S k + m)%nat by lia. split; [done|]. split; [|done]. intros _.
    destruct m as [|m]; [|by apply Hl]. rewrite H0 by done. exists e. simpl.
    replace (k + 0 - 0)%nat with k by lia. split_and!; done.
Qed.
End LoginTheory.

(** The login loop: the candidates are tried in order until one answers.  If
    the first [m] fail locally, then: success of candidate [m] gives its run and
    index; a failure that is not local to an endpoint is returned at once; and
    if all fail locally, the last failure is returned. *)
Theorem connectLoginCandidates_correct {Run} ctxErr (connect : nat -> string -> result Run) c m :
  c <> [] -> zlen c <= max_int64 -> (forall i, (i < m)%nat -> rotates ctxErr connect c i) ->
  (m <= length c)%nat ->
  match c !! m with
  | None => (* all failed *)
      exists e err, c !! (m - 1)%nat = Some e /\ connect (m - 1)%nat e = Err err /\
        connectLoginCandidates ctxErr connect c = mkLoginResult None (-1) (Some err)
  | Some e =>
      ctxErr m = None ->
      match connect m e with
      | Ok r => connectLoginCandidates ctxErr connect c = mkLoginResult (Some r) (Z.of_nat m) None
      | Err err => shouldRotateEndpoint (Some err) = false ->
          connectLoginCandidates ctxErr connect c = mkLoginResult None (Z.of_nat m) (Some err)
      end
  end.
Proof.
  intros Hne Hlen Hrot Hm. unfold connectLoginCandidates.
  rewrite newEndpointRound_at by (try done; vm_compute; split; congruence). rewrite Zmod_0_l. change (Z.to_nat 0) with 0%nat.
  destruct (loginLoop_skip ctxErr connect c (S (length c) - m) 0 None m ltac:(intros; apply Hrot; lia) ltac:(lia))
    as (lastErr & He & Hl & H0). replace (S (length c) - m + m)%nat with (S (length c)) in He by lia. rewrite He.
  simpl (0 + m)%nat in *. replace (S (length c) - m)%nat with (S (length c - m)) by lia. cbn [loginLoop].
  rewrite exhausted_at by done. destruct (c !! m) as [e|] eqn:Hcm.
  - apply lookup_lt_Some in Hcm as Hlt. intros Hctx. rewrite (proj2 (Nat.leb_gt _ _)) by done. rewrite Hctx.
    destruct (nextEndpoint_at c 0 m Hlt) as (e' & He' & ->). rewrite Nat.add_0_l, Nat.mod_small in * by lia.
    assert (e' = e) as -> by congruence. destruct (connect m e) as [r|err]; [done|]. intros Hr. by rewrite Hr.
  - apply lookup_ge_None in Hcm as Hge. rewrite (proj2 (Nat.leb_le _ _)) by done.
    assert (m <> 0%nat) as Hm0 by (destruct c; [done|simpl in *; lia]).
    destruct (Hl Hm0) as (e & Hce & Hcon & Hsome). destruct lastErr as [err|]; [|done]. exists e, err. auto.
Qed.

Lemma connectLoginCandidates_correct_witness :
  connectLoginCandidates (fun _ => None)
    (fun _ e => if String.eqb e "a" then Err (newError ErrTimeout "dial" "") else Ok e) ["a"; "b"; "c"]
  = mkLoginResult (Some "b") 1 None.
Proof.
  apply (connectLoginCandidates_correct (fun _ => None)
    (fun _ e => if String.eqb e "a" then Err (newError ErrTimeout "dial" "") else Ok e) ["a"; "b"; "c"] 1);
    [done|by vm_compute| |simpl; lia|done].
  intros i Hi. assert (i = 0%nat) as -> by lia. split; [done|]. by do 2 eexists.
Defined.

(** ** Redirects *)

Section RedirectTheory.
Context (url_Parse : string -> result urlParts) (url_String : urlParts -> string).
Context {Run : Type} (attempt : nat -> string -> dialOutcome Run).

Notation loop := (redirectLoop url_Parse url_String attempt).

(** More fuel changes nothing once every hop has some. *)
Lemma redirectLoop_fuel fuel fuel' hop seen e :
  (maxRedirectHops + 2 <= fuel + hop)%nat -> (maxRedirectHops + 2 <= fuel' + hop)%nat ->
  (hop <= maxRedirectHops + 1)%nat -> loop fuel hop seen e = loop fuel' hop seen e.
Proof.
  revert fuel' hop seen e. induction fuel as [|fuel IH]; intros [|fuel'] hop seen e H1 H2 H3; try lia.
  cbn [redirectLoop]. destruct (Nat.ltb_spec maxRedirectHops hop); [done|].
  destruct (bool_decide _); [done|]. destruct (attempt hop e) as [|err|]; try done.
  destruct (errors_As_redirect err); [|done]. destruct (redirectURL _ _ _ _); [|done].
  by rewrite (IH fuel') by lia.
Qed.

Lemma redirectLoop_spec fuel hop seen e l r :
  (hop <= maxRedirectHops + 1)%nat ->
  loop fuel hop seen e = (l, r) ->
  NoDup l /\ (forall x, x ∈ l -> x ∉ seen) /\ (length l + hop <= maxRedirectHops + 1)%nat /\
  (l <> [] -> head l = Some e) /\
  (forall run, r = Ok run -> exists x, last l = Some x /\ attempt (hop + length l - 1) x = LoginOK run None).
Proof.
  revert hop seen e l r. induction fuel as [|fuel IH]; intros hop seen e l r Hhop H; cbn [redirectLoop] in H.
  { injection H as <- <-. split_and!; try done; [by apply NoDup_nil|set_solver]. }
  destruct (Nat.ltb_spec maxRedirectHops hop) as [Hlt|Hle].
  { injection H as <- <-. split_and!; try done; [by apply NoDup_nil|set_solver]. }
  case_bool_decide as Hin.
  { injection H as <- <-. split_and!; try done; [by apply NoDup_nil|set_solver]. }
  assert (Hone : forall r', (forall run, r' = Ok run -> attempt hop e = LoginOK run None) -> ([e], r') = (l, r) ->
    NoDup l /\ (forall x, x ∈ l -> x ∉ seen) /\ (length l + hop <= maxRedirectHops + 1)%nat /\
    (l <> [] -> head l = Some e) /\
    (forall run, r = Ok run -> exists x, last l = Some x /\ attempt (hop + length l - 1) x = LoginOK run None)).
  { intros r' Hr [= <- <-]. split_and!; [apply NoDup_singleton|set_solver|cbn [length]; lia|done|].
    intros run ->. exists e. split; [done|]. simpl. replace (hop + 1 - 1)%nat with hop by lia. by apply Hr. }
  destruct (attempt hop e) as [err|err|run [err|]] eqn:Ha; try (eapply Hone; [|exact H]; naive_solver).
  destruct (errors_As_redirect err) as [info|]; [|eapply Hone; [|exact H]; naive_solver].
  destruct (redirectURL _ _ _ _) as [next|e']; [|eapply Hone; [|exact H]; naive_solver].
  destruct (loop fuel (S hop) (e :: seen) next) as [l' r'] eqn:E. injection H as <- <-.
  destruct (IH (S hop) _ _ _ _ ltac:(lia) E) as (Hn & Hs & Hlen & Hh & Hok). split_and!; try done.
  - apply NoDup_cons. split; [|done]. intros Hx. apply (Hs _ Hx). set_solver.
  - intros x [->|Hx]%elem_of_cons; [done|]. specialize (Hs _ Hx). set_solver.
  - cbn [length]. lia.
  - intros run Hr. destruct (Hok run Hr) as (x & Hx & Hat). exists x. split.
    + rewrite last_cons. by rewrite Hx.
    + simpl. by replace (hop + S (length l') - 1)%nat with (S hop + length l' - 1)%nat by lia.
Qed.

Lemma redirectLoop_head fuel e l r : loop (S fuel) 0 [] e = (l, r) -> head l = Some e.
Proof.
  intros H. cbn [redirectLoop] in H. simpl (_ <? _)%nat in H. simpl (bool_decide _) in H. cbv iota in H.
  destruct (attempt 0 e) as [?|err|? []]; try (injection H as <- _; done).
  destruct (errors_As_redirect err); [|injection H as <- _; done].
  destruct (redirectURL _ _ _ _); [|injection H as <- _; done].
  destruct (loop fuel _ _ _). by injection H as <- _.
Qed.

(** C16. Following redirects always ends: it dials at most six endpoints, never the
    same one twice, starting with the one it was given; it succeeds only with
    the run of the last endpoint dialled; and the fuel of the model does not
    matter. *)
Theorem connectWithRedirects_correct endpoint l r :
  connectWithRedirects url_Parse url_String attempt endpoint = (l, r) ->
  head l = Some endpoint /\ NoDup l /\ (length l <= 6)%nat /\
  (forall run, r = Ok run -> exists x, last l = Some x /\ attempt (length l - 1) x = LoginOK run None) /\
  (forall fuel, (maxRedirectHops + 2 <= fuel)%nat -> loop fuel 0 [] endpoint = (l, r)).
Proof.
  intros H. pose proof H as H'. unfold connectWithRedirects in H.
  destruct (redirectLoop_spec (maxRedirectHops + 2) 0 [] endpoint l r ltac:(lia) H) as (Hn & _ & Hlen & Hh & Hok).
  split_and!; try done.
  - by eapply (redirectLoop_head (maxRedirectHops + 1)).
  - change (maxRedirectHops) with 5%nat in Hlen. lia.
  - intros fuel Hf. rewrite <- H. apply redirectLoop_fuel; lia.
Qed.
End RedirectTheory.

(** Two endpoints that redirect to each other: the loop is detected. *)
Lemma connectWithRedirects_correct_witness :
  NoDup (fst (connectWithRedirects (fun _ => Ok (mkUrl "wss" "" "" "" "")) u_Host
    (fun _ e => LoginFailed (ERedirect [mkRedirectInfo "a" (if String.eqb e "a:1" then 2 else 1)]) : dialOutcome unit) "a:1")).
Proof.
  apply (connectWithRedirects_correct (fun _ => Ok (mkUrl "wss" "" "" "" "")) u_Host
    (fun _ e => LoginFailed (ERedirect [mkRedirectInfo "a" (if String.eqb e "a:1" then 2 else 1)]) : dialOutcome unit)
    "a:1" _ _ (surjective_pairing _)).
Defined.

(** ** The reconnect loop *)

Section ReconnectTheory.
Context (url_Parse : string -> result urlParts) (url_String : urlParts -> string).
Context (effective : string) (refresh : result dnsAnswer) (err : goerror).

(** The state after an attempt whose connection failed with [err]. *)
Definition failedAttempt (st : reconnectState) : reconnectState :=
  match reconnectAttempt effective refresh (fun _ => Err err) st with
  | ReconnectRetry _ st => st
  | _ => st
  end.

(** A state [k] candidates into the round that began at [s]. *)
Definition in_round (c : list string) (cursor gen : Z) (s k : nat) (st : reconnectState) : Prop :=
  exists e, c !! ((s + k) mod length c)%nat = Some e /\
  st = mkReconnect c cursor gen (round_at c s (S k)) e (Z.of_nat ((s + k) mod length c)) false.

Lemma failed_in_round c cursor gen s k st :
  shouldRotateEndpoint (Some err) = true -> (k < length c)%nat -> in_round c cursor gen s k st ->
  if decide (S k < length c)%nat then in_round c cursor gen s (S k) (failedAttempt st)
  else rc_needRefresh (failedAttempt st) = true.
Proof.
  intros Hr Hk (e & He & ->). unfold failedAttempt, reconnectAttempt, attemptEndpoint. cbn [rc_needRefresh].
  rewrite (rotating_not_terminal _ Hr), Hr. cbn [rc_round].
  destruct (decide (S k < length c)%nat) as [Hlt|Hge].
  - destruct (nextEndpoint_at c s (S k) Hlt) as (e' & He' & ->). by exists e'.
  - assert (S k = length c) as -> by lia. by rewrite nextEndpoint_done.
Qed.

Lemma failed_iter c cursor gen s st k :
  shouldRotateEndpoint (Some err) = true -> in_round c cursor gen s 0 st -> (k < length c)%nat ->
  in_round c cursor gen s k (Nat.iter k failedAttempt st).
Proof.
  intros Hr H0. induction k as [|k IH]; intros Hk; [done|].
  pose proof (failed_in_round c cursor gen s k _ Hr ltac:(lia) (IH ltac:(lia))) as H.
  rewrite decide_True in H by done. exact H.
Qed.

(** C17. When the connection was lost with a failure local to its endpoint, and
    every attempt fails the same way, the attempts of [reconnect] go once through
    all the candidates, in circular order from the cursor, before the candidates
    are resolved again; the attempt after that starts with the first of the new
    ones. *)
Theorem reconnect_round oldEndpoint c cursor gen st resolved :
  shouldRotateEndpoint (Some err) = true -> c <> [] -> zlen c <= max_int64 -> in_i64 cursor ->
  reconnectStart url_Parse url_String effective oldEndpoint c cursor gen (Some err) = Ok st ->
  errors_As_redirect err = None -> refresh = Ok resolved ->
  let s := Z.to_nat (cursor mod zlen c) in
  (forall k, (k < length c)%nat ->
     let stk := Nat.iter k failedAttempt st in
     rc_needRefresh stk = false /\ (drop s c ++ take s c)%list !! k = Some (rc_endpoint stk)) /\
  let last := Nat.iter (length c) failedAttempt st in
  rc_needRefresh last = true /\
  forall connect e, head (da_wss resolved) = Some e ->
    reconnectAttempt effective refresh connect last =
    attemptEndpoint effective (connect e) (refreshCandidates resolved) /\
    rc_endpoint (refreshCandidates resolved) = e.
Proof.
  intros Hr Hne Hlen Hcur Hstart Hred Hres s.
  assert (0 < zlen c) as Hl by (unfold zlen; destruct c; [done|simpl; lia]).
  assert (s < length c)%nat as Hs.
  { pose proof (Z.mod_pos_bound cursor (zlen c) Hl). unfold s, zlen in *. lia. }
  assert (in_round c cursor gen s 0 st) as H0.
  { unfold reconnectStart in Hstart. simpl in Hstart. rewrite Hred, Hr, newEndpointRound_at in Hstart by done.
    destruct (nextEndpoint_at c s 0 ltac:(lia)) as (e & He & Hnext). fold s in Hstart. rewrite Hnext in Hstart.
    injection Hstart as <-. by exists e. }
  split.
  - intros k Hk stk. destruct (failed_iter c cursor gen s st k Hr H0 Hk) as (e & He & Hst). fold stk in Hst.
    rewrite Hst. simpl. split; [done|]. rewrite rotation_index in He by done.
    case_decide; [rewrite lookup_app_l, lookup_drop by (rewrite length_drop; lia); done|].
    rewrite lookup_app_r, length_drop, lookup_take_lt by (rewrite ?length_drop; lia). done.
  - intros last. assert (rc_needRefresh last = true) as Hneed.
    { pose proof (failed_in_round c cursor gen s (length c - 1) _ Hr ltac:(lia)
        (failed_iter c cursor gen s st (length c - 1) Hr H0 ltac:(lia))) as H.
      rewrite decide_False in H by lia. unfold last. by replace (length c) with (S (length c - 1)) by lia. }
    split; [done|]. intros connect e He. unfold reconnectAttempt. rewrite Hneed, Hres.
    destruct (da_wss resolved) as [|x l] eqn:Hw; [done|]. injection He as ->.
    assert (rc_endpoint (refreshCandidates resolved) = e) as ->; [|done].
    unfold refreshCandidates. rewrite Hw. reflexivity.
Qed.
End ReconnectTheory.

Lemma reconnect_round_witness :
  rc_needRefresh (Nat.iter 2 (failedAttempt "eff" (Ok (mkDnsAnswer ["n"] "rest" 2)) (newError ErrTimeout "dial" ""))
    (mkReconnect ["a"; "b"] 1 1 (round_at ["a"; "b"] 1 1) "b" 1 false)) = true.
Proof.
  apply (reconnect_round (fun s => Ok (mkUrl "" s "" "" "")) u_Host "eff" (Ok (mkDnsAnswer ["n"] "rest" 2))
    (newError ErrTimeout "dial" "") "old" ["a"; "b"] 1 1 _ (mkDnsAnswer ["n"] "rest" 2));
    [done|done|by vm_compute|vm_compute; split; congruence|reflexivity|reflexivity|reflexivity].
Defined.

(** The wait before an attempt is within its tier, in nanoseconds, with no
    overflow: 5-10 s for the first three, 20-40 s up to the eighth, then
    60-120 s. *)
Theorem reconnectDelay_bounds attempt rand_Intn :
  (forall n, 0 < n -> 0 <= rand_Intn n < n) ->
  let '(lo, hi) := delayBounds attempt in
  lo * second <= reconnectDelay attempt rand_Intn <= hi * second.
Proof.
  intros Hr. unfold reconnectDelay, delayBounds.
  destruct (attempt <=? 3); [|destruct (attempt <? 9)];
    match goal with |- context [rand_Intn ?n] => pose proof (Hr n ltac:(lia)) end;
    rewrite i64_id by (unfold second; word_lia); unfold second; lia.
Qed.

Lemma reconnectDelay_bounds_witness : 20 * second <= reconnectDelay 5 (fun _ => 0) <= 40 * second.
Proof. apply (reconnectDelay_bounds 5 (fun _ => 0)). intros n Hn. lia. Defined.
