(* ===== verification/Identifiers.v ===== *)
(** * Identifiers and times

    sdk/traceid.go: trace ids from a clock that may stall or go back.
    sdk/client.go: the message ids a Client allocates, concurrently.
    sdk/connection.go, [tokenExpiryTime]; sdk/rest.go, [parseRetryAfter]. *)
From Stdlib Require Import String Sorted.
From S2P Require Import Prelude GoStrings.
Local Open Scope string_scope.
Local Open Scope Z_scope.

(** ** Trace ids *)

Definition traceTimestampBits : Z := 42.
Definition traceSequenceBits : Z := 22.
Definition traceSequenceMask : Z := u64 (Z.shiftl 1 traceSequenceBits - 1).

Record traceIDGenerator := mkTraceGen { tg_lastMs : Z; tg_sequence : Z }.

Definition zeroTraceGen : traceIDGenerator := mkTraceGen 0 0.

Section TraceID.
(** The [i]-th reading of [time.Now().UnixMilli()]. *)
Context (clock : nat -> Z).

(** The loop that waits for a new millisecond: the reading that ended it and
    the number of the next one. *)
Fixpoint waitClock (fuel : nat) (i : nat) (lastMs ms : Z) : option (Z * nat) :=
  if ms <=? lastMs then
    match fuel with
    | O => None
    | S fuel => waitClock fuel (S i) lastMs (u64 (clock i))
    end
  else Some (ms, i).

(** [next], with [i] readings done before; [None] when the wait has not ended
    within the fuel. *)
Definition next (fuel : nat) (g : traceIDGenerator) (i : nat) : option (Z * traceIDGenerator * nat) :=
  let ms := u64 (clock i) in
  let i := S i in
  let done (g : traceIDGenerator) (i : nat) :=
    Some (Z.lor (u64 (Z.shiftl (tg_lastMs g) traceSequenceBits)) (tg_sequence g), g, i) in
  if ms >? tg_lastMs g then done (mkTraceGen ms 0) i
  else
    let sequence := Z.land (u64 (tg_sequence g + 1)) traceSequenceMask in
    if sequence =? 0 then
      '(ms, i) ← waitClock fuel i (tg_lastMs g) ms;
      done (mkTraceGen ms sequence) i
    else done (mkTraceGen (tg_lastMs g) sequence) i.

(** [n] successive ids. *)
Fixpoint nextIDs (n fuel : nat) (g : traceIDGenerator) (i : nat) : option (list Z) :=
  match n with
  | O => Some []
  | S n => '(id, g, i) ← next fuel g i; ids ← nextIDs n fuel g i; Some (id :: ids)
  end.

(** *** Theory *)

(** The clock shows a time before the year 2109 and not before 1970. *)
Definition clock_ok : Prop := forall i, 0 <= clock i < 2 ^ traceTimestampBits.

Definition gen_ok (g : traceIDGenerator) : Prop :=
  0 <= tg_lastMs g < 2 ^ traceTimestampBits /\ 0 <= tg_sequence g < 2 ^ traceSequenceBits.

Definition traceID (g : traceIDGenerator) : Z := tg_lastMs g * 2 ^ traceSequenceBits + tg_sequence g.

Lemma traceID_packed g : gen_ok g ->
  Z.lor (u64 (Z.shiftl (tg_lastMs g) traceSequenceBits)) (tg_sequence g) = traceID g.
Proof.
  intros [H1 H2]. unfold traceID, traceTimestampBits, traceSequenceBits in *.
  rewrite u64_id by (rewrite Z.shiftl_mul_pow2 by lia; word_lia). by apply shiftl_lor_add.
Qed.

Lemma land_mask z : 0 <= z -> Z.land z traceSequenceMask = z mod 2 ^ traceSequenceBits.
Proof. intros Hz. change traceSequenceMask with (Z.ones 22). by apply Z.land_ones. Qed.

Lemma waitClock_spec fuel i lastMs ms ms' i' :
  waitClock fuel i lastMs ms = Some (ms', i') -> lastMs < ms' /\ (ms' = ms \/ exists j, ms' = u64 (clock j)).
Proof.
  revert i ms. induction fuel as [|fuel IH]; intros i ms H; cbn [waitClock] in H;
    destruct (Z.leb_spec ms lastMs); try done; try (injection H as <- <-; auto).
  destruct (IH _ _ H) as [? [->|?]]; eauto.
Qed.

(** A call gives the packed state, later than the state before. *)
Lemma next_spec fuel g i id g' i' :
  clock_ok -> gen_ok g -> next fuel g i = Some (id, g', i') ->
  gen_ok g' /\ id = traceID g' /\ traceID g < traceID g'.
Proof.
  intros Hclk Hg H. pose proof Hg as [H1 H2].
  assert (Hu : forall j, u64 (clock j) = clock j).
  { intros j. apply u64_id. specialize (Hclk j). unfold traceTimestampBits in Hclk. word_lia. }
  unfold next in H. rewrite Hu in H. set (q := traceSequenceBits) in *.
  assert (Hfin : forall h j, gen_ok h -> traceID g < traceID h ->
    Some (Z.lor (u64 (Z.shiftl (tg_lastMs h) q)) (tg_sequence h), h, j) = Some (id, g', i') ->
    gen_ok g' /\ id = traceID g' /\ traceID g < traceID g').
  { intros h j Hh Hlt [= <- <- _]. rewrite traceID_packed by done. done. }
  pose proof (Hclk i) as Hci. unfold traceID in *. change q with 22 in *. clear q. change traceSequenceBits with 22 in *.
  change traceTimestampBits with 42 in *.
  destruct (Z.gtb_spec (clock i) (tg_lastMs g)) as [Hgt|Hle].
  - apply (Hfin (mkTraceGen (clock i) 0) (S i)); [split; unfold traceTimestampBits, traceSequenceBits; simpl; lia|simpl; lia|exact H].
  - rewrite u64_id in H by word_lia. rewrite land_mask in H by lia. change traceSequenceBits with 22 in H.
    destruct (Z.eqb_spec ((tg_sequence g + 1) mod 2 ^ 22) 0) as [H0|H0].
    + destruct (waitClock fuel (S i) (tg_lastMs g) (clock i)) as [[ms j]|] eqn:E; [|done]. simpl in H.
      destruct (waitClock_spec _ _ _ _ _ _ E) as [Hlt Hms].
      assert (0 <= ms < 2 ^ 42) as Hb by (destruct Hms as [->|[k ->]]; [lia|rewrite Hu; apply Hclk]).
      apply (Hfin (mkTraceGen ms ((tg_sequence g + 1) mod 2 ^ 22)) j); [|rewrite H0; simpl; lia|exact H].
      split; simpl; [done|]. by apply Z.mod_pos_bound.
    + assert ((tg_sequence g + 1) mod 2 ^ 22 = tg_sequence g + 1) as Hm.
      { destruct (decide (tg_sequence g + 1 = 2 ^ 22)) as [He|He]; [rewrite He, Z_mod_same_full in H0; done|].
        apply Z.mod_small. lia. }
      rewrite Hm in H, H0.
      assert (tg_sequence g + 1 < 2 ^ 22) as Hb by (rewrite <- Hm; by apply Z.mod_pos_bound).
      apply (Hfin (mkTraceGen (tg_lastMs g) (tg_sequence g + 1)) (S i)); [split; unfold traceTimestampBits, traceSequenceBits; simpl; lia|simpl; lia|exact H].
Qed.

(** The wait ends once the clock passes the last millisecond used. *)
Lemma waitClock_returns lastMs k i ms :
  lastMs < u64 (clock (i + k)) -> is_Some (waitClock (S k) i lastMs ms).
Proof.
  revert i ms. induction k as [|k IH]; intros i ms H; rewrite ?Nat.add_0_r in H.
  - simpl. case_bool; [|eauto]. rewrite (proj2 (Z.leb_gt _ _)) by done. eauto.
  - cbn [waitClock]. destruct (ms <=? lastMs); [|eauto]. apply IH. by replace (S i + k)%nat with (i + S k)%nat by lia.
Qed.
End TraceID.

(** Trace ids are strictly increasing, hence distinct, whatever the clock does
    between 1970 and 2109: stall, go back, or exhaust the sequence of a
    millisecond. *)
Theorem trace_ids_increase clock n fuel g i ids :
  clock_ok clock -> gen_ok g -> nextIDs clock n fuel g i = Some ids ->
  length ids = n /\ Forall (fun id => traceID g < id < two64) ids /\ StronglySorted Z.lt ids.
Proof.
  intros Hclk. revert g i ids. induction n as [|n IH]; intros g i ids Hg H; cbn [nextIDs] in H.
  - injection H as <-. split; [done|]. split; constructor.
  - destruct (next clock fuel g i) as [[[id g'] i']|] eqn:E; [|done]. simpl in H.
    destruct (nextIDs clock n fuel g' i') as [ids'|] eqn:E'; [|done]. injection H as <-.
    destruct (next_spec _ _ _ _ _ _ _ Hclk Hg E) as (Hg' & -> & Hlt).
    destruct (IH _ _ _ Hg' E') as (Hlen & Hall & Hsort). split; [simpl; congruence|].
    assert (traceID g' < two64) as Hmax.
    { destruct Hg' as [H1 H2]. unfold traceID, traceSequenceBits, traceTimestampBits in *. word_lia. }
    split; constructor; try done.
    + eapply Forall_impl; [exact Hall|]. simpl. lia.
    + eapply Forall_impl; [exact Hall|]. simpl. lia.
Qed.

Lemma trace_ids_increase_witness :
  exists ids, nextIDs (fun i => if (i =? 2)%nat then 5 else 9) 4 0 zeroTraceGen 0 = Some ids /\ StronglySorted Z.lt ids.
Proof.
  exists [37748736; 37748737; 37748738; 37748739]. split; [vm_compute; reflexivity|].
  apply (trace_ids_increase (fun i => if (i =? 2)%nat then 5 else 9) 4 0 zeroTraceGen 0).
  - intros i. simpl. destruct (i =? 2)%nat; vm_compute; split; congruence.
  - split; simpl; vm_compute; split; congruence.
  - vm_compute. reflexivity.
Defined.

(** A call returns as soon as the clock has passed the last millisecond used,
    and without waiting unless the sequence of that millisecond is exhausted. *)
Theorem trace_next_returns clock g i k :
  tg_lastMs g < u64 (clock (S i + k)%nat) -> is_Some (next clock (S k) g i).
Proof.
  intros H. unfold next. destruct (_ >? _); [eauto|]. destruct (_ =? _); [|eauto].
  destruct (waitClock_returns clock (tg_lastMs g) k (S i) (u64 (clock i)) H) as [[ms j] ->]. simpl. eauto.
Qed.

Lemma trace_next_returns_witness : is_Some (next (fun i => Z.of_nat i) 8 (mkTraceGen 6 4194303) 0).
Proof. apply (trace_next_returns (fun i => Z.of_nat i) (mkTraceGen 6 4194303) 0 7). by vm_compute. Defined.

(** ** Message ids

    client.go: every Send without a ClientMessageID takes the next value of
    the counter the connections share.  A call is a loop of a load and a
    compare-and-swap; calls run concurrently, so a run is a sequence of call
    numbers, each of which does the next atomic action of that call. *)

Definition initialMessageIDCounter (seed : list Z) : Z :=
  u64 (Z.shiftl (foldl (fun acc b => acc * 256 + b) 0 (take 4 seed)) 31).

Inductive idCall :=
| IdLoop                       (* about to load the counter *)
| IdLoaded (current : Z)       (* about to compare and swap *)
| IdReturned (id : Z)
| IdExhausted.                 (* returned ErrMessageIDExhausted *)

#[export] Instance idCall_eq_dec : EqDecision idCall.
Proof. solve_decision. Defined.

Record idState := mkIdState { idCounter : Z; idCalls : gmap nat idCall; idIssued : list Z }.

Definition idCallOf (s : idState) (t : nat) : idCall := default IdLoop (idCalls s !! t).

(** One atomic action of call [t] of [nextMessageID]. *)
Definition nextMessageID_step (t : nat) (s : idState) : idState :=
  match idCallOf s t with
  | IdLoop =>
      let current := idCounter s in
      if current =? max_uint64 then mkIdState (idCounter s) (<[t := IdExhausted]> (idCalls s)) (idIssued s)
      else mkIdState (idCounter s) (<[t := IdLoaded current]> (idCalls s)) (idIssued s)
  | IdLoaded current =>
      let next := u64 (current + 1) in
      if idCounter s =? current
      then mkIdState next (<[t := IdReturned next]> (idCalls s)) (idIssued s ++ [next])%list
      else mkIdState (idCounter s) (<[t := IdLoop]> (idCalls s)) (idIssued s)
  | IdReturned _ | IdExhausted => s
  end.

Definition runIDs (schedule : list nat) (s : idState) : idState :=
  foldl (fun s t => nextMessageID_step t s) s schedule.

Definition startIDs (counter : Z) : idState := mkIdState counter ∅ [].

(** [n] consecutive values. *)
Definition upFrom (c : Z) (n : nat) : list Z := map (fun i => c + Z.of_nat i) (seq 1 n).

Definition ids_inv (c : Z) (s : idState) : Prop :=
  c <= idCounter s <= max_uint64 /\
  idIssued s = upFrom c (length (idIssued s)) /\
  idCounter s = c + zlen (idIssued s) /\
  (forall t id, idCalls s !! t = Some (IdReturned id) -> c < id <= idCounter s) /\
  (forall t t' id, idCalls s !! t = Some (IdReturned id) -> idCalls s !! t' = Some (IdReturned id) -> t = t') /\
  (forall t cur, idCalls s !! t = Some (IdLoaded cur) -> 0 <= cur < max_uint64) /\
  (forall t, idCalls s !! t = Some IdExhausted -> idCounter s = max_uint64).

Lemma upFrom_snoc c n : upFrom c (S n) = (upFrom c n ++ [c + Z.of_nat n + 1])%list.
Proof. unfold upFrom. rewrite seq_S, map_app. simpl. do 2 f_equal. lia. Qed.

Lemma length_upFrom c n : length (upFrom c n) = n.
Proof. unfold upFrom. by rewrite length_map, length_seq. Qed.

Lemma upFrom_NoDup c n : NoDup (upFrom c n).
Proof. unfold upFrom. apply NoDup_fmap_2; [intros x y H; lia|]. apply NoDup_seq. Qed.

(** A call moves on without a new id. *)
Lemma ids_put_inv c t call s :
  ids_inv c s -> (call = IdExhausted -> idCounter s = max_uint64) ->
  (forall id, call <> IdReturned id) -> (forall cur, call = IdLoaded cur -> 0 <= cur < max_uint64) ->
  ids_inv c (mkIdState (idCounter s) (<[t := call]> (idCalls s)) (idIssued s)).
Proof.
  intros (Hb & Hi & Hn & Hr & Hu & Hl & He) Hx Hnr Hld. unfold ids_inv; simpl. split_and!; try done; try lia.
  - intros t' id. rewrite lookup_insert_Some. intros [[_ ?]|[_ ?]]; [by destruct (Hnr id)|eauto].
  - intros t1 t2 id. rewrite !lookup_insert_Some. intros [[_ ?]|[_ ?]]; [by destruct (Hnr id)|].
    intros [[_ ?]|[_ ?]]; [by destruct (Hnr id)|eauto].
  - intros t' cur. rewrite lookup_insert_Some. intros [[_ ?]|[_ ?]]; eauto.
  - intros t'. rewrite lookup_insert_Some. intros [[_ ?]|[_ ?]]; eauto.
Qed.

(** A successful compare-and-swap issues the next id. *)
Lemma ids_cas_inv c t s :
  ids_inv c s -> idCounter s < max_uint64 ->
  ids_inv c (mkIdState (idCounter s + 1) (<[t := IdReturned (idCounter s + 1)]> (idCalls s))
               (idIssued s ++ [idCounter s + 1])%list).
Proof.
  intros (Hb & Hi & Hn & Hr & Hu & Hl & He) Hlt. unfold ids_inv; simpl. split_and!; try lia.
  - rewrite length_app. simpl. rewrite Nat.add_1_r, upFrom_snoc, <- Hi. do 2 f_equal. unfold zlen in Hn. lia.
  - rewrite zlen_app. unfold zlen in *. simpl. lia.
  - intros t' id. rewrite lookup_insert_Some. intros [[_ [= <-]]|[_ H]]; [lia|]. apply Hr in H. lia.
  - intros t1 t2 id. rewrite !lookup_insert_Some.
    intros [[-> H1]|[_ H1]] [[-> H2]|[_ H2]]; eauto; try congruence.
    + injection H1 as <-. apply Hr in H2. lia.
    + injection H2 as <-. apply Hr in H1. lia.
  - intros t' cur. rewrite lookup_insert_Some. intros [[_ ?]|[_ ?]]; [done|eauto].
  - intros t'. rewrite lookup_insert_Some. intros [[_ ?]|[_ H]]; [done|]. apply He in H. lia.
Qed.

Lemma ids_step_inv c t s : 0 <= c -> ids_inv c s -> ids_inv c (nextMessageID_step t s).
Proof.
  intros H0 Hinv. pose proof Hinv as (Hb & _ & _ & _ & _ & Hl & _). unfold nextMessageID_step.
  destruct (idCallOf s t) as [|cur|id|] eqn:E; try done.
  - destruct (Z.eqb_spec (idCounter s) max_uint64); apply ids_put_inv; try done. intros cur [= <-]. lia.
  - assert (idCalls s !! t = Some (IdLoaded cur)) as Hc.
    { unfold idCallOf in E. destruct (idCalls s !! t); simpl in E; congruence. }
    apply Hl in Hc. destruct (Z.eqb_spec (idCounter s) cur) as [<-|]; [|by apply ids_put_inv].
    rewrite u64_id by word_lia. apply ids_cas_inv; [done|lia].
Qed.

Lemma runIDs_inv c schedule s : 0 <= c -> ids_inv c s -> ids_inv c (runIDs schedule s).
Proof.
  intros H0. revert s. induction schedule as [|t sch IH]; intros s H; [done|]. simpl. by apply IH, ids_step_inv.
Qed.

Lemma startIDs_inv c : 0 <= c <= max_uint64 -> ids_inv c (startIDs c).
Proof. intros. unfold ids_inv, startIDs, zlen; simpl. split_and!; try done; try lia. Qed.

(** However the calls interleave, the ids issued are the consecutive values
    after the initial counter, each returned by one call only; the counter never
    wraps, and a call fails only when the last 64-bit value has been issued. *)
Theorem message_ids_unique c schedule :
  0 <= c <= max_uint64 ->
  let s := runIDs schedule (startIDs c) in
  idIssued s = upFrom c (length (idIssued s)) /\ NoDup (idIssued s) /\
  idCounter s = c + zlen (idIssued s) /\ idCounter s <= max_uint64 /\
  (forall t id, idCalls s !! t = Some (IdReturned id) -> c < id <= idCounter s) /\
  (forall t t' id, idCalls s !! t = Some (IdReturned id) -> idCalls s !! t' = Some (IdReturned id) -> t = t') /\
  (forall t, idCalls s !! t = Some IdExhausted -> idCounter s = max_uint64).
Proof.
  intros Hc s. assert (ids_inv c s) as (Hb & Hi & Hn & Hr & Hu & Hl & He).
  { apply runIDs_inv; [lia|by apply startIDs_inv]. }
  split_and!; try done; try lia. rewrite Hi. apply upFrom_NoDup.
Qed.

Lemma message_ids_unique_witness :
  let s := runIDs [0; 1; 0; 1; 1; 1]%nat (startIDs 7) in idIssued s = [8; 9] /\ NoDup (idIssued s).
Proof.
  split; [by vm_compute|].
  apply (message_ids_unique 7 [0; 1; 0; 1; 1; 1]%nat). word_lia.
Defined.

Lemma beValue_bounds l : bytes_ok l -> (length l <= 4)%nat ->
  0 <= foldl (fun acc b => acc * 256 + b) 0 l < 2 ^ 32.
Proof.
  intros H Hlen. unfold bytes_ok in H.
  destruct l as [|a [|b [|c [|d [|]]]]]; simpl in Hlen; try lia; decompose_Forall; unfold byte_ok in *; simpl; lia.
Qed.

(** Whatever the four random bytes, at least 2^63 ids remain before the
    space of a process is exhausted. *)
Theorem initial_counter_leaves_room seed :
  bytes_ok seed -> 0 <= initialMessageIDCounter seed /\ 2 ^ 63 <= max_uint64 - initialMessageIDCounter seed.
Proof.
  intros H. unfold initialMessageIDCounter.
  assert (0 <= foldl (fun acc b => acc * 256 + b) 0 (take 4 seed) < 2 ^ 32) as Hb.
  { apply beValue_bounds; [by apply Forall_take|]. rewrite length_take. lia. }
  rewrite Z.shiftl_mul_pow2 by lia. rewrite u64_id by word_lia. word_lia.
Qed.

Lemma initial_counter_leaves_room_witness :
  2 ^ 63 <= max_uint64 - initialMessageIDCounter [255; 255; 255; 255].
Proof. apply (initial_counter_leaves_room [255; 255; 255; 255]). repeat constructor; unfold byte_ok; lia. Defined.

(** A call that is not interrupted ends: from any state three actions in a row
    (a failing compare-and-swap, a load, a compare-and-swap) return an id or
    report the exhaustion. *)
Theorem nextMessageID_returns t s :
  (exists id, idCallOf (runIDs [t; t; t] s) t = IdReturned id) \/
  idCallOf (runIDs [t; t; t] s) t = IdExhausted.
Proof.
  assert (Hfix : forall s r, idCallOf s t = r -> (exists id, r = IdReturned id) \/ r = IdExhausted ->
    forall k, idCallOf (runIDs (repeat t k) s) t = r).
  { intros s0 r H Hr k. induction k as [|k IH]; [done|]. simpl.
    assert (nextMessageID_step t s0 = s0) as ->; [|done].
    unfold nextMessageID_step. rewrite H. by destruct Hr as [[id ->] | ->]. }
  assert (Hput : forall i r l m, idCallOf (mkIdState i (<[t := r]> m) l) t = r).
  { intros. unfold idCallOf. simpl. by rewrite lookup_insert_eq. }
  assert (Hrun : forall s l, runIDs (t :: l) s = runIDs l (nextMessageID_step t s)) by done.
  assert (Htwo : forall s, idCallOf s t = IdLoop -> forall k,
    (exists id, idCallOf (runIDs (repeat t (S (S k))) s) t = IdReturned id) \/
    idCallOf (runIDs (repeat t (S (S k))) s) t = IdExhausted).
  { intros s0 H k. change (repeat t (S (S k))) with (t :: t :: repeat t k). rewrite !Hrun.
    assert (nextMessageID_step t s0 =
      mkIdState (idCounter s0) (<[t := if idCounter s0 =? max_uint64 then IdExhausted else IdLoaded (idCounter s0)]>
        (idCalls s0)) (idIssued s0)) as -> by (unfold nextMessageID_step; rewrite H; by case_bool).
    destruct (_ =? max_uint64).
    - right. rewrite <- Hrun. apply (Hfix _ _ (Hput _ _ _ _) ltac:(by right) (S k)).
    - unfold nextMessageID_step. rewrite Hput. cbn [idCounter idCalls idIssued]. rewrite Z.eqb_refl.
      left. eexists. eapply (Hfix _ _ (Hput _ _ _ _)). left; eauto. }
  destruct (idCallOf s t) as [|cur|id|] eqn:E.
  - apply (Htwo s E 1%nat).
  - rewrite Hrun. unfold nextMessageID_step. rewrite E. destruct (_ =? cur).
    + left. eexists. eapply (Hfix _ _ (Hput _ _ _ _)) with (k := 2%nat). left; eauto.
    + apply (Htwo _ (Hput _ _ _ _) 0%nat).
  - left. exists id. apply (Hfix s _ E ltac:(left; eauto) 3%nat).
  - right. apply (Hfix s _ E ltac:(by right) 3%nat).
Qed.

(** ** Token expiry and Retry-After

    A [time.Time] is its number of nanoseconds since 1970, a [time.Duration]
    an [int64] of nanoseconds. *)

Definition Second : Z := 1000000000.
Definition Millisecond : Z := 1000000.

(** [time.Time{}]: year 1. *)
Definition zeroTime : Z := -62135596800 * Second.

Definition time_IsZero (t : Z) : bool := t =? zeroTime.
Definition time_UnixMilli (ms : Z) : Z := ms * Millisecond.
Definition time_Unix (sec nsec : Z) : Z := sec * Second + nsec.

Definition tokenExpiryTime (value now : Z) : Z :=
  if value <=? 0 then zeroTime
  else if value >=? 1000000000000 then time_UnixMilli value
  else if value >=? 1000000000 then time_Unix value 0
  else now + i64 (value * Second).

(** An absolute expiry, in seconds or milliseconds, is a date from September
    2001 on; a relative one is that many seconds from now, without overflow of
    the duration; only a non-positive value means no expiry. *)
Theorem tokenExpiryTime_correct value now :
  0 <= now ->
  (time_IsZero (tokenExpiryTime value now) = true <-> value <= 0) /\
  (1000000000000 <= value -> tokenExpiryTime value now = value * Millisecond) /\
  (1000000000 <= value < 1000000000000 -> tokenExpiryTime value now = value * Second) /\
  (0 < value < 1000000000 -> tokenExpiryTime value now = now + value * Second) /\
  (0 < value -> Z.min (now + Second) (time_Unix 1000000000 0) <= tokenExpiryTime value now).
Proof.
  intros Hnow. unfold tokenExpiryTime, time_IsZero, time_UnixMilli, time_Unix, zeroTime, Second, Millisecond.
  rewrite !Z.geb_leb.
  destruct (Z.leb_spec value 0); [split_and!; try lia|].
  destruct (Z.leb_spec 1000000000000 value); [split_and!; try lia|].
  destruct (Z.leb_spec 1000000000 value); [split_and!; try lia|].
  rewrite i64_id by word_lia. split_and!; try lia.
Qed.

Lemma tokenExpiryTime_correct_witness :
  tokenExpiryTime 3600 (time_Unix 1700000000 0) = time_Unix 1700003600 0.
Proof.
  assert (0 <= time_Unix 1700000000 0) as H by (vm_compute; congruence).
  destruct (tokenExpiryTime_correct 3600 _ H) as (_ & _ & _ & E & _).
  rewrite E by lia. reflexivity.
Defined.

(** rest.go.  [http.ParseTime] is the code the function relies on: the time
    when the value is one of the three HTTP date forms. *)
Definition parseRetryAfter (http_ParseTime : string -> option Z) (value : string) (now : Z) : Z :=
  let value := strings_TrimSpace value in
  if String.eqb value "" then 0
  else match strconv_ParseInt value with
  | Some seconds => if seconds <=? 0 then 0 else i64 (seconds * Second)
  | None =>
      match http_ParseTime value with
      | None => 0
      | Some when_ => if negb (now <? when_) then 0 else Z.min (when_ - now) max_int64
      end
  end.

(** A header of up to 2^63/10^9 seconds gives exactly that duration, a date the
    time left until it (0 in the past), and anything else 0. *)
Theorem parseRetryAfter_correct http_ParseTime value now :
  let v := strings_TrimSpace value in
  (forall s, strconv_ParseInt v = Some s -> s <= 9223372036 ->
     parseRetryAfter http_ParseTime value now = Z.max 0 s * Second) /\
  (strconv_ParseInt v = None -> 0 <= parseRetryAfter http_ParseTime value now) /\
  (forall t, strconv_ParseInt v = None -> v <> "" -> http_ParseTime v = Some t -> t - now <= max_int64 ->
     parseRetryAfter http_ParseTime value now = Z.max 0 (t - now)).
Proof.
  intros v. unfold parseRetryAfter. fold v. split_and!.
  - intros s Hs Hle. destruct (String.eqb_spec v "") as [Hv|_]; [by rewrite Hv in Hs|].
    rewrite Hs. destruct (Z.leb_spec s 0); [unfold Second; lia|].
    rewrite i64_id by (unfold Second; word_lia). unfold Second. lia.
  - intros Hn. destruct (String.eqb v ""); [lia|]. rewrite Hn. destruct (http_ParseTime v) as [t|]; [|lia].
    destruct (Z.ltb_spec now t); simpl; [|lia]. word_lia.
  - intros t Hn Hv Ht Hle. destruct (String.eqb_spec v ""); [done|]. rewrite Hn, Ht.
    destruct (Z.ltb_spec now t); simpl; lia.
Qed.

Lemma parseRetryAfter_correct_witness : parseRetryAfter (fun _ => None) " 120 " 0 = 120 * Second.
Proof.
  destruct (parseRetryAfter_correct (fun _ => None) " 120 " 0) as [H _].
  apply (H 120); [by vm_compute|lia].
Defined.

(** Above that bound the multiplication wraps: the wait a server asks for
    becomes negative. *)
Theorem parseRetryAfter_wraps now :
  parseRetryAfter (fun _ => None) "9223372037" now < 0.
Proof. by vm_compute. Qed.
