(* ===== verification/Message.v ===== *)
(** * Messages

    sdk/message.go and sdk/message_json.go: the public message values, their
    conversion from and to the wire values, and the JSON form of key/values.

    A Go map is a [gmap]; where the code ranges over one, the order the
    runtime chooses is an argument.  A slice the code builds with [append] is
    given its length as capacity, which nothing here observes. *)
From stdpp Require Import sorting.
From Stdlib Require Import String Ascii SpecFloat.
From S2P Require Import Prelude Protocol Errors GoStrings.
Local Open Scope string_scope.
Local Open Scope Z_scope.

(** ** The values of an [any] *)

(** [AnyOther] is a value of any other Go type. *)
Inductive goany :=
| AnyNil | AnyBool (b : bool)
| AnyInt8 (n : Z) | AnyInt16 (n : Z) | AnyInt32 (n : Z) | AnyInt64 (n : Z) | AnyInt (n : Z)
| AnyUint8 (n : Z) | AnyUint16 (n : Z) | AnyUint32 (n : Z) | AnyUint64 (n : Z) | AnyUint (n : Z)
| AnyFloat32 (f : spec_float) | AnyFloat64 (f : spec_float)
| AnyString (s : string)
| AnyOther (type : string).

(** The runtime's guarantee: an integer is in the range of its type. *)
Definition any_ok (v : goany) : Prop :=
  match v with
  | AnyInt8 n => - 2 ^ 7 <= n < 2 ^ 7 | AnyInt16 n => - 2 ^ 15 <= n < 2 ^ 15
  | AnyInt32 n => - 2 ^ 31 <= n < 2 ^ 31 | AnyInt64 n | AnyInt n => in_i64 n
  | AnyUint8 n => 0 <= n < 2 ^ 8 | AnyUint16 n => 0 <= n < 2 ^ 16
  | AnyUint32 n => 0 <= n < 2 ^ 32 | AnyUint64 n | AnyUint n => in_u64 n
  | _ => True
  end.

(** A KeyValueType is a string; the eight the SDK names and any other. *)
Inductive KeyValueType :=
| KeyValueBool | KeyValueInt | KeyValueUint | KeyValueLong | KeyValueFloat | KeyValueDouble
| KeyValueString | KeyValueJSONString | KeyValueTypeOther (s : string).

Definition KeyValueType_string (t : KeyValueType) : string :=
  match t with
  | KeyValueBool => "bool" | KeyValueInt => "int" | KeyValueUint => "uint" | KeyValueLong => "llint"
  | KeyValueFloat => "float" | KeyValueDouble => "double" | KeyValueString => "string"
  | KeyValueJSONString => "json_string" | KeyValueTypeOther s => s
  end.

Definition KeyValueType_of (s : string) : KeyValueType :=
  if String.eqb s "bool" then KeyValueBool else if String.eqb s "int" then KeyValueInt
  else if String.eqb s "uint" then KeyValueUint else if String.eqb s "llint" then KeyValueLong
  else if String.eqb s "float" then KeyValueFloat else if String.eqb s "double" then KeyValueDouble
  else if String.eqb s "string" then KeyValueString
  else if String.eqb s "json_string" then KeyValueJSONString else KeyValueTypeOther s.

Module Sdk.
Record KeyValue := mkKeyValue { Type_ : KeyValueType; Value : goany }.
End Sdk.

(** The zero value a map gives for an absent key. *)
Definition zeroKeyValue : Sdk.KeyValue := Sdk.mkKeyValue (KeyValueTypeOther "") AnyNil.

Inductive MessageBodyType :=
| MessageBodyText | MessageBodyCommand | MessageBodyCustom | MessageBodyUnknown
| MessageBodyTypeOther (s : string).

Record Body := mkBody {
  bd_Type : MessageBodyType; bd_Text : string; bd_Action : string; bd_Event : string;
  bd_CustomExts : gmap string Sdk.KeyValue; bd_RawType : Z; bd_RawPayload : bytes }.

Definition zeroBody : Body := mkBody (MessageBodyTypeOther "") "" "" "" ∅ 0 [].

Inductive MessageOnlineState :=
| MessageOnlineStateUnknown | MessageOnlineStateOnline | MessageOnlineStateOffline.

Record SendRequest := mkSendRequest {
  rq_ClientMessageID : Z; rq_To : string; rq_IsGroup : bool; rq_DirectedUsers : list string;
  rq_Ext : gmap string Sdk.KeyValue; rq_Body : Body }.

Record SendResult := mkSendResult {
  rs_MessageID : Z; rs_ClientMessageID : Z; rs_ServerMessageID : Z; rs_ServerTimestamp : Z }.

(** ** Numeric conversions *)

(** [float64(f)] of a float32 and [float32(f)] of a float64. *)
Definition float64_of_float32 (f : spec_float) : spec_float :=
  match f with S754_finite s m e => binary_normalize 53 1024 (cond_Zopp s (Z.pos m)) e s | _ => f end.

Definition float32_of_float64 (f : spec_float) : spec_float :=
  match f with S754_finite s m e => binary_normalize 24 128 (cond_Zopp s (Z.pos m)) e s | _ => f end.

Definition asInt64 (v : goany) : option Z :=
  match v with
  | AnyInt8 n | AnyInt16 n | AnyInt32 n | AnyInt64 n | AnyInt n => Some n
  | _ => None
  end.

(** The value of a float when it is an integer, i.e. [math.Trunc(n) == n] and
    [n] is not an infinity. *)
Definition float64_integer (f : spec_float) : option Z :=
  match f with
  | S754_zero _ => Some 0
  | S754_finite s m e =>
      if 0 <=? e then Some (cond_Zopp s (Z.pos m) * 2 ^ e)
      else if Z.pos m mod 2 ^ (- e) =? 0 then Some (cond_Zopp s (Z.pos m / 2 ^ (- e))) else None
  | _ => None
  end.

(** [n <= math.MaxUint64] compares with the constant converted to float64,
    which is 2^64; [uint64(n)] of that float is what the architecture gives. *)
Definition asUint64 (uint64_of_2_64 : Z) (v : goany) : option Z :=
  match v with
  | AnyUint8 n | AnyUint16 n | AnyUint32 n | AnyUint64 n | AnyUint n => Some n
  | AnyInt8 n | AnyInt16 n | AnyInt32 n | AnyInt64 n | AnyInt n => if n >=? 0 then Some n else None
  | AnyFloat64 f =>
      match float64_integer f with
      | Some n =>
          if (n >=? 0) && (n <=? two64) then Some (if n =? two64 then uint64_of_2_64 else n) else None
      | None => None
      end
  | _ => None
  end.

Definition asFloat64 (v : goany) : option spec_float :=
  match v with AnyFloat32 f => Some (float64_of_float32 f) | AnyFloat64 f => Some f | _ => None end.

(** ** Key/values *)

Definition zeroFloat : spec_float := S754_zero false.

(** The wire key/value of a key, of a kind, with every value field zero. *)
Definition wireKV (key : string) (kind : KeyValueKind) : KeyValue :=
  mkKeyValue key kind false 0 0 zeroFloat zeroFloat "".

Section Messages.
(** fmt's [%q]; [uint64(float64(1<<64))]. *)
Context (quoted : string -> string) (uint64_of_2_64 : Z).

Definition encodeExtValue (key : string) (value : Sdk.KeyValue) : result KeyValue :=
  let bad (reason : string) := Err (EPlain (quoted key ++ ": " ++ reason)) in
  let enc := mkKeyValue key in
  match Sdk.Type_ value with
  | KeyValueBool =>
      match Sdk.Value value with
      | AnyBool v => Ok (enc KVBool v 0 0 zeroFloat zeroFloat "")
      | _ => bad "bool KeyValue requires bool"
      end
  | KeyValueInt =>
      match asInt64 (Sdk.Value value) with
      | Some v => Ok (enc KVInt false v 0 zeroFloat zeroFloat "")
      | None => bad "int KeyValue requires an integer"
      end
  | KeyValueUint =>
      match asUint64 uint64_of_2_64 (Sdk.Value value) with
      | Some v => Ok (enc KVUint false 0 v zeroFloat zeroFloat "")
      | None => bad "uint KeyValue requires a non-negative integer"
      end
  | KeyValueLong =>
      match asInt64 (Sdk.Value value) with
      | Some v => Ok (enc KVLong false v 0 zeroFloat zeroFloat "")
      | None => bad "llint KeyValue requires an integer"
      end
  | KeyValueFloat =>
      match asFloat64 (Sdk.Value value) with
      | Some v => Ok (enc KVFloat false 0 0 (float32_of_float64 v) zeroFloat "")
      | None => bad "float KeyValue requires float32 or float64"
      end
  | KeyValueDouble =>
      match asFloat64 (Sdk.Value value) with
      | Some v => Ok (enc KVDouble false 0 0 zeroFloat v "")
      | None => bad "double KeyValue requires float32 or float64"
      end
  | KeyValueString | KeyValueJSONString =>
      match Sdk.Value value with
      | AnyString v =>
          Ok (enc (match Sdk.Type_ value with KeyValueJSONString => KVJSONString | _ => KVString end)
                false 0 0 zeroFloat zeroFloat v)
      | _ => bad (KeyValueType_string (Sdk.Type_ value) ++ " KeyValue requires string")
      end
  | KeyValueTypeOther s => bad ("unsupported KeyValue type " ++ quoted s)
  end.

(** The loop over the sorted keys. *)
Fixpoint encodeExtKeys (values : gmap string Sdk.KeyValue) (keys : list string) : result (list KeyValue) :=
  match keys with
  | [] => Ok []
  | key :: keys =>
      if String.eqb key "" then Err (EPlain "extension key is empty")
      else
        encoded ← encodeExtValue key (default zeroKeyValue (values !! key));
        rest ← encodeExtKeys values keys;
        Ok (encoded :: rest)
  end.

(** [order] is the order in which the runtime ranges over the keys. *)
Definition encodeMessageExt (order : list string) (values : gmap string Sdk.KeyValue) : result (list KeyValue) :=
  if (size values =? 0)%nat then Ok []
  else encodeExtKeys values (merge_sort String.le order).

(** [range] is the order in which the runtime ranges over the map. *)
Fixpoint encodeStringKeyValues (range : list (string * Sdk.KeyValue)) : result (list KeyValue) :=
  match range with
  | [] => Ok []
  | (key, value) :: range =>
      match Sdk.Type_ value with
      | KeyValueString | KeyValueJSONString =>
          match Sdk.Value value with
          | AnyString s =>
              let t := match Sdk.Type_ value with KeyValueJSONString => KVJSONString | _ => KVString end in
              rest ← encodeStringKeyValues range;
              Ok (mkKeyValue key t false 0 0 zeroFloat zeroFloat s :: rest)
          | _ => Err (EPlain (quoted key ++ ": KeyValue value must be string"))
          end
      | _ => Err (EPlain (quoted key ++ ": sending only supports string and json_string KeyValue"))
      end
  end.

Definition decodeKeyValue (value : KeyValue) : option Sdk.KeyValue :=
  match kv_Kind value with
  | KVBool => Some (Sdk.mkKeyValue KeyValueBool (AnyBool (kv_Bool value)))
  | KVInt => Some (Sdk.mkKeyValue KeyValueInt (AnyInt64 (kv_Int64 value)))
  | KVUint => Some (Sdk.mkKeyValue KeyValueUint (AnyUint64 (kv_Uint64 value)))
  | KVLong => Some (Sdk.mkKeyValue KeyValueLong (AnyInt64 (kv_Int64 value)))
  | KVFloat => Some (Sdk.mkKeyValue KeyValueFloat (AnyFloat64 (float64_of_float32 (kv_Float value))))
  | KVDouble => Some (Sdk.mkKeyValue KeyValueDouble (AnyFloat64 (kv_Double value)))
  | KVString => Some (Sdk.mkKeyValue KeyValueString (AnyString (kv_String value)))
  | KVJSONString => Some (Sdk.mkKeyValue KeyValueJSONString (AnyString (kv_String value)))
  | KVOther _ => None
  end.

(** The nil map of an empty result is the empty map. *)
Definition decodeKeyValues (values : list KeyValue) : gmap string Sdk.KeyValue :=
  foldl (fun result value =>
    match decodeKeyValue value with Some decoded => <[kv_Key value := decoded]> result | None => result end)
    ∅ values.

(** ** Contents *)

Definition encodeOutgoingContent (range : list (string * Sdk.KeyValue)) (body : Body) : result Content :=
  match bd_Type body with
  | MessageBodyText => Ok (mkContent ContentText (bd_Text body) "" [] "" [] [])
  | MessageBodyCommand => Ok (mkContent ContentCommand "" (bd_Action body) [] "" [] [])
  | MessageBodyCustom =>
      match encodeStringKeyValues range with
      | Ok exts => Ok (mkContent ContentCustom "" "" [] (bd_Event body) exts [])
      | Err err => Err (EWrap ("custom extensions: " ++ Error err) err)
      end
  | MessageBodyUnknown => Err (EPlain ("unsupported outgoing message body type " ++ quoted "unknown"))
  | MessageBodyTypeOther s => Err (EPlain ("unsupported outgoing message body type " ++ quoted s))
  end.

Definition decodeContent (content : Content) : Body :=
  if ct_Kind content =? ContentText
  then mkBody MessageBodyText (ct_Text content) "" "" ∅ 0 []
  else if ct_Kind content =? ContentCommand
  then mkBody MessageBodyCommand "" (ct_Action content) "" ∅ 0 []
  else if ct_Kind content =? ContentCustom
  then mkBody MessageBodyCustom "" "" (ct_Event content) (decodeKeyValues (ct_CustomExts content)) 0 []
  else mkBody MessageBodyUnknown "" "" "" ∅ (i32 (ct_Kind content)) (ct_RawPayload content).

Definition shouldDeliverToHandler (body : option MessageBody) : bool :=
  match body with
  | None => false
  | Some body =>
      if (mb_Kind body =? MessageChat) || (mb_Kind body =? MessageGroupChat) then
        match mb_Contents body with
        | [] => false
        | c :: _ => (ct_Kind c =? ContentText) || (ct_Kind c =? ContentCommand) || (ct_Kind c =? ContentCustom)
        end
      else false
  end.
End Messages.

(** ** Theory of the key/values *)

Section KVTheory.
Context (quoted : string -> string) (uint64_of_2_64 : Z).
Local Abbreviation encExt := (encodeMessageExt quoted uint64_of_2_64).
Local Abbreviation encVal := (encodeExtValue quoted uint64_of_2_64).

Lemma sorted_keys_unique order order' :
  order ≡ₚ order' -> merge_sort String.le order = merge_sort String.le order'.
Proof.
  intros H. apply (Sorted_unique String.le).
  - apply Sorted_merge_sort; apply _.
  - apply Sorted_merge_sort; apply _.
  - by rewrite !merge_sort_Permutation.
Qed.

Lemma encodeExtValue_key key v kv : encVal key v = Ok kv -> kv_Key kv = key.
Proof. unfold encodeExtValue. intros H. repeat case_match; simplify_eq; done. Qed.

Lemma encodeExtKeys_Ok m keys kvs :
  encodeExtKeys quoted uint64_of_2_64 m keys = Ok kvs <->
  Forall2 (fun key kv => key <> "" /\ encVal key (default zeroKeyValue (m !! key)) = Ok kv) keys kvs.
Proof.
  split.
  - revert kvs. induction keys as [|key keys IH]; intros kvs H; cbn [encodeExtKeys] in H.
    + injection H as <-. constructor.
    + destruct (String.eqb_spec key ""); [done|]. inv_ok. constructor; [done|]. by apply IH.
  - induction 1 as [|key kv keys kvs [Hne Hkv] _ IH]; [done|]. cbn [encodeExtKeys].
    destruct (String.eqb_spec key ""); [done|]. rewrite Hkv. rsimpl. rewrite IH. done.
Qed.

(** The wire keys are the sorted keys of the map. *)
Lemma encodeExt_keys order m kvs :
  order ≡ₚ elements (dom m) -> encExt order m = Ok kvs ->
  map kv_Key kvs = merge_sort String.le order /\
  Forall (fun kv => exists v, m !! kv_Key kv = Some v /\ encVal (kv_Key kv) v = Ok kv) kvs.
Proof.
  intros Ho. unfold encodeMessageExt. destruct (Nat.eqb_spec (size m) 0) as [Hs|Hs].
  { intros [= <-]. apply map_size_empty_inv in Hs as ->.
    rewrite dom_empty_L, elements_empty in Ho. apply Permutation_nil_r in Ho as ->. done. }
  intros H. apply encodeExtKeys_Ok in H. split.
  - clear Ho. induction H as [|key kv keys kvs [_ Hkv] _ IH]; [done|].
    simpl. f_equal; [by eapply encodeExtValue_key|done].
  - assert (Hin : forall key, key ∈ merge_sort String.le order -> is_Some (m !! key)).
    { intros key Hk. rewrite merge_sort_Permutation, Ho in Hk. by apply elem_of_elements, elem_of_dom in Hk. }
    revert Hin. clear Ho. induction H as [|key kv keys kvs [_ Hkv] _ IH]; intros Hin; constructor.
    + destruct (Hin key) as [v Hv]; [by left|]. rewrite (encodeExtValue_key _ _ _ Hkv), Hv in *. eauto.
    + apply IH. intros k Hk. apply Hin. by right.
Qed.

Lemma decodeKeyValues_snoc l kv :
  decodeKeyValues (l ++ [kv]) =
  match decodeKeyValue kv with Some d => <[kv_Key kv := d]> (decodeKeyValues l) | None => decodeKeyValues l end.
Proof. unfold decodeKeyValues. by rewrite foldl_app. Qed.

Lemma decodeKeyValues_lookup l k d :
  NoDup (map kv_Key l) ->
  decodeKeyValues l !! k = Some d <-> exists kv, kv ∈ l /\ kv_Key kv = k /\ decodeKeyValue kv = Some d.
Proof.
  induction l as [|kv l IH] using rev_ind; intros Hnd.
  { unfold decodeKeyValues. simpl. rewrite lookup_empty. split; [done|]. intros (kv & H & _). set_solver. }
  rewrite map_app in Hnd. apply NoDup_app in Hnd as (Hl & Hni & _). specialize (IH Hl).
  rewrite decodeKeyValues_snoc.
  assert (Hfresh : kv_Key kv ∉ map kv_Key l).
  { intros Hin. apply (Hni _ Hin). set_solver. }
  assert (Hspl : (exists kv', kv' ∈ (l ++ [kv])%list /\ kv_Key kv' = k /\ decodeKeyValue kv' = Some d) <->
    (exists kv', kv' ∈ l /\ kv_Key kv' = k /\ decodeKeyValue kv' = Some d) \/ (kv_Key kv = k /\ decodeKeyValue kv = Some d)).
  { set_solver. }
  rewrite Hspl, <- IH. destruct (decodeKeyValue kv) as [d'|].
  - rewrite lookup_insert_Some. split; [intros [[-> ->]|[? ?]]; auto|].
    intros [Hin|[-> [= ->]]]; [|auto]. right. split; [|done]. intros <-.
    apply IH in Hin as (kv' & Hin & Hk & _). apply Hfresh. rewrite <- Hk. by apply list_elem_of_fmap_2.
  - split; [auto|]. intros [?|[_ ?]]; done.
Qed.

(** The value a receiver sees for a value sent: the same type, the payload in
    the one Go type of the kind; a float rounded to float32. *)
Definition canonicalKV (v : Sdk.KeyValue) : Sdk.KeyValue :=
  Sdk.mkKeyValue (Sdk.Type_ v)
    (match Sdk.Type_ v with
     | KeyValueInt | KeyValueLong => AnyInt64 (default 0 (asInt64 (Sdk.Value v)))
     | KeyValueUint => AnyUint64 (default 0 (asUint64 uint64_of_2_64 (Sdk.Value v)))
     | KeyValueFloat => AnyFloat64 (float64_of_float32 (float32_of_float64 (default zeroFloat (asFloat64 (Sdk.Value v)))))
     | KeyValueDouble => AnyFloat64 (default zeroFloat (asFloat64 (Sdk.Value v)))
     | _ => Sdk.Value v
     end).

Lemma encode_decode_value key v kv : encVal key v = Ok kv -> decodeKeyValue kv = Some (canonicalKV v).
Proof.
  unfold encodeExtValue, decodeKeyValue, canonicalKV. destruct v as [t v]; simpl. intros H.
  destruct t; repeat case_match; simplify_eq; done.
Qed.

(** The receiver's map after a send: every key with its canonical value. *)
Lemma encode_decode_ext order m kvs :
  order ≡ₚ elements (dom m) -> encExt order m = Ok kvs -> decodeKeyValues kvs = canonicalKV <$> m.
Proof.
  intros Ho H. destruct (encodeExt_keys _ _ _ Ho H) as [Hk Hall].
  assert (NoDup (map kv_Key kvs)) as Hnd.
  { rewrite Hk, merge_sort_Permutation, Ho. apply NoDup_elements. }
  rewrite Forall_forall in Hall. apply map_eq. intros k. apply option_eq. intros d.
  rewrite decodeKeyValues_lookup by done. rewrite lookup_fmap_Some. split.
  - intros (kv & Hin & <- & Hd). destruct (Hall _ Hin) as (v & Hv & He).
    apply encode_decode_value in He. simplify_eq. eauto.
  - intros (v & <- & Hv). assert (k ∈ map kv_Key kvs) as Hin.
    { rewrite Hk, merge_sort_Permutation, Ho. apply elem_of_elements, elem_of_dom. eauto. }
    apply list_elem_of_fmap in Hin as (kv & -> & Hin). destruct (Hall _ Hin) as (v' & Hv' & He).
    apply encode_decode_value in He. simplify_eq. eauto.
Qed.
End KVTheory.

(** The extension list sent does not depend on the order in which the runtime
    ranges over the map, errors included; it has one entry per key, in byte
    order; it fails exactly when a key is empty or a value has not the Go type
    its KeyValue type asks for. *)
Theorem encodeMessageExt_correct quoted c order order' m :
  order ≡ₚ elements (dom m) -> order' ≡ₚ order ->
  encodeMessageExt quoted c order m = encodeMessageExt quoted c order' m /\
  (forall kvs, encodeMessageExt quoted c order m = Ok kvs ->
     Sorted String.le (map kv_Key kvs) /\ NoDup (map kv_Key kvs) /\ map kv_Key kvs ≡ₚ elements (dom m)) /\
  (is_ok (encodeMessageExt quoted c order m) = true <->
     map_Forall (fun key v => key <> "" /\ is_ok (encodeExtValue quoted c key v) = true) m).
Proof.
  intros Ho Ho'. split_and!.
  - unfold encodeMessageExt. by rewrite (sorted_keys_unique order' order).
  - intros kvs H. destruct (encodeExt_keys _ _ _ _ _ Ho H) as [-> _].
    split; [apply Sorted_merge_sort; apply _|]. rewrite merge_sort_Permutation. split; [|done].
    rewrite Ho. apply NoDup_elements.
  - assert (Hel : forall k, k ∈ merge_sort String.le order <-> is_Some (m !! k)).
    { intros k. rewrite merge_sort_Permutation, Ho, elem_of_elements. apply elem_of_dom. }
    unfold encodeMessageExt. destruct (Nat.eqb_spec (size m) 0) as [Hs|Hs].
    { apply map_size_empty_inv in Hs as ->. split; [intros _; apply map_Forall_empty|done]. }
    split.
    + destruct (encodeExtKeys _ _ _ _) as [kvs|] eqn:E; [|done]. intros _. apply encodeExtKeys_Ok in E.
      intros k v Hv. pose proof (proj2 (Hel k) (mk_is_Some _ _ Hv)) as Hk.
      apply list_elem_of_lookup in Hk as [i Hi].
      destruct (Forall2_lookup_l _ _ _ _ _ E Hi) as (kv & _ & Hne & Hkv). rewrite Hv in Hkv. simpl in Hkv.
      by rewrite Hkv.
    + intros Hall. assert (Hf : Forall (fun k => k <> "" /\
        is_ok (encodeExtValue quoted c k (default zeroKeyValue (m !! k))) = true) (merge_sort String.le order)).
      { apply Forall_forall. intros k Hk. apply Hel in Hk as [v Hv]. rewrite Hv. by apply (Hall k v). }
      clear Hel. induction Hf as [|k ks [Hne Hk] _ IH]; [done|]. cbn [encodeExtKeys].
      destruct (String.eqb_spec k ""); [done|]. destruct (encodeExtValue _ _ _ _); [|done]. rsimpl.
      by destruct (encodeExtKeys _ _ _ ks).
Qed.

Definition sampleExt : gmap string Sdk.KeyValue :=
  {[ "b" := Sdk.mkKeyValue KeyValueUint (AnyInt 7); "a" := Sdk.mkKeyValue KeyValueString (AnyString "x") ]}.

Lemma encodeMessageExt_correct_witness :
  encodeMessageExt id 0 (elements (dom sampleExt)) sampleExt =
  encodeMessageExt id 0 (rev (elements (dom sampleExt))) sampleExt.
Proof.
  apply (encodeMessageExt_correct id 0 _ (rev (elements (dom sampleExt)))); [done|].
  symmetry. apply Permutation_rev.
Defined.

(** What a receiver decodes from a sent extension map is that map with every
    value in the canonical Go type of its kind: nothing is lost or renamed. *)
Theorem ext_roundtrip quoted c order m kvs :
  order ≡ₚ elements (dom m) -> encodeMessageExt quoted c order m = Ok kvs ->
  decodeKeyValues kvs = canonicalKV c <$> m.
Proof. apply encode_decode_ext. Qed.

Lemma ext_roundtrip_witness :
  exists kvs, encodeMessageExt id 0 (elements (dom sampleExt)) sampleExt = Ok kvs /\
    decodeKeyValues kvs = canonicalKV 0 <$> sampleExt.
Proof.
  eexists. split; [vm_compute; reflexivity|].
  apply (ext_roundtrip id 0 (elements (dom sampleExt)) sampleExt); [done|vm_compute; reflexivity].
Defined.

(** The integer an [any] stands for. *)
Definition any_integer (v : goany) : option Z :=
  match v with
  | AnyUint8 n | AnyUint16 n | AnyUint32 n | AnyUint64 n | AnyUint n => Some n
  | AnyInt8 n | AnyInt16 n | AnyInt32 n | AnyInt64 n | AnyInt n => Some n
  | AnyFloat64 f => float64_integer f
  | _ => None
  end.

(** The unsigned value of an [any] is its integer value, accepted exactly when
    it lies in [0, 2^64), the float 2^64 apart. *)
Theorem asUint64_exact c v :
  any_ok v -> any_integer v <> Some two64 ->
  asUint64 c v = match any_integer v with
                 | Some n => if decide (in_u64 n) then Some n else None
                 | None => None
                 end.
Proof.
  intros Hv Hne. destruct v; cbn [asUint64 any_integer any_ok] in *; try done;
    try (destruct (decide _) as [|Hu]; [reflexivity|]; exfalso; apply Hu; word_lia);
    try (destruct (Z.geb_spec n 0), (decide (in_u64 n)) as [Hu|Hu]; try done; [exfalso; apply Hu|exfalso]; word_lia).
  destruct (float64_integer f) as [n|]; [|done].
  destruct (Z.geb_spec n 0), (Z.leb_spec n two64), (decide (in_u64 n)) as [Hu|Hu]; simpl; try done;
    try (exfalso; word_lia).
  - destruct (Z.eqb_spec n two64); [by subst|done].
  - exfalso. apply Hu. assert (n <> two64) by congruence. word_lia.
Qed.

Lemma asUint64_exact_witness : asUint64 0 (AnyFloat64 (S754_finite false 6755399441055744 (-52))) = None.
Proof. refine (asUint64_exact 0 _ _ _); [done|]. by vm_compute. Defined.

(** The float 2^64 passes the range test although no uint64 has that value:
    what is sent is whatever the conversion gives. *)
Theorem asUint64_admits_two64 c :
  asUint64 c (AnyFloat64 (S754_finite false 4503599627370496 12)) = Some c /\
  float64_integer (S754_finite false 4503599627370496 12) = Some two64.
Proof. by split. Qed.

(** A message reaches the handler exactly when it is a chat or group message
    whose first content decodes to a text, command or custom body. *)
Theorem shouldDeliverToHandler_spec body :
  shouldDeliverToHandler (Some body) = true <->
  (mb_Kind body = MessageChat \/ mb_Kind body = MessageGroupChat) /\
  exists c cs, mb_Contents body = c :: cs /\
    bd_Type (decodeContent c) ∈ [MessageBodyText; MessageBodyCommand; MessageBodyCustom].
Proof.
  unfold shouldDeliverToHandler. split.
  - destruct (_ || _) eqn:Ek; [|done]. destruct (mb_Contents body) as [|c cs]; [done|]. intros Hc.
    apply orb_true_iff in Ek. rewrite !Z.eqb_eq in Ek. split; [done|]. exists c, cs. split; [done|].
    unfold decodeContent. destruct (_ =? ContentText); [simpl; set_solver|].
    destruct (_ =? ContentCommand); [simpl; set_solver|]. destruct (_ =? ContentCustom); [simpl; set_solver|done].
  - intros [Hk (c & cs & -> & Ht)]. unfold decodeContent in Ht.
    assert ((mb_Kind body =? MessageChat) || (mb_Kind body =? MessageGroupChat) = true) as ->.
    { apply orb_true_iff. rewrite !Z.eqb_eq. done. }
    repeat case_bool; try done. simpl in Ht. exfalso. set_solver.
Qed.
