(* ===== verification/MessageJSON.v ===== *)
(** * Messages in and out, and their JSON

    sdk/message.go: [parseOnlineState], [KeyValue.MarshalJSON],
    [KeyValue.UnmarshalJSON], [buildOutgoingMeta], [parseIncomingMessage].
    sdk/message_json.go: [NewOutgoingMessage], [messageFromProtocol] and the
    collection snapshot behind [ToJSON].

    A JSON document is a [json] value; the parser of encoding/json, from bytes
    to values, is a parameter, its decoding rules for Go types are definitions. *)
From stdpp Require Import sorting.
From Stdlib Require Import String Ascii SpecFloat.
From S2P Require Import Prelude Protocol Errors GoStrings Message.
Local Open Scope string_scope.
Local Open Scope Z_scope.

Inductive json :=
| JNull | JBool (b : bool) | JNumber (literal : string) | JString (s : string)
| JArray (l : list json) | JObject (fields : list (string * json)).

(** ** json.Unmarshal into the types the code uses

    A JSON null leaves the destination at its zero value without an error. *)

(** [map[string]json.RawMessage]: of a repeated key the last value stays. *)
Definition unmarshalObject (j : json) : option (gmap string json) :=
  match j with
  | JNull => Some ∅
  | JObject fields => Some (foldl (fun m '(k, v) => <[k := v]> m) ∅ fields)
  | _ => None
  end.

(** [*int64], [*bool]: the pointer, nil for null. *)
Definition unmarshalInt64Ptr (j : json) : option (option Z) :=
  match j with
  | JNull => Some None
  | JNumber lit => match strconv_ParseInt lit with Some n => Some (Some n) | None => None end
  | _ => None
  end.

Definition unmarshalBoolPtr (j : json) : option (option bool) :=
  match j with JNull => Some None | JBool b => Some (Some b) | _ => None end.

(** [string], [bool], [int64]. *)
Definition unmarshalString (j : json) : option string :=
  match j with JNull => Some "" | JString s => Some s | _ => None end.

Definition unmarshalBool (j : json) : option bool := default false <$> unmarshalBoolPtr j.
Definition unmarshalInt64 (j : json) : option Z := default 0 <$> unmarshalInt64Ptr j.

(** The value of a struct field: the names match without regard to case, the
    last match stays. *)
Definition structField (name : string) (fields : list (string * json)) : option json :=
  foldl (fun acc '(k, v) => if String.eqb (strings_ToLower k) name then Some v else acc) None fields.

Section JSON.
(** encoding/json: the parser; the replacement of invalid UTF-8 when a string is
    written; the text of a float64 or a float32 ([None] for NaN and the
    infinities) and the value of a number read into a float64; what is written
    for a value of another Go type. *)
Context (json_parse : bytes -> option json) (utf8_coerce : string -> string)
  (format64 format32 : spec_float -> option string) (parse64 : string -> option spec_float)
  (json_other : string -> result json).

Definition messageOnlineStateKey : string := "is_online".

Definition parseOnlineState (attributes : bytes) : MessageOnlineState :=
  match attributes with
  | [] => MessageOnlineStateUnknown
  | _ =>
      match json_parse attributes ≫= unmarshalObject with
      | None => MessageOnlineStateUnknown
      | Some decoded =>
          match decoded !! messageOnlineStateKey with
          | None => MessageOnlineStateUnknown
          | Some raw =>
              match unmarshalInt64Ptr raw with
              | Some None => MessageOnlineStateUnknown
              | Some (Some number) =>
                  if number =? 0 then MessageOnlineStateOffline else MessageOnlineStateOnline
              | None =>
                  match unmarshalBoolPtr raw with
                  | None | Some None => MessageOnlineStateUnknown
                  | Some (Some flag) => if flag then MessageOnlineStateOnline else MessageOnlineStateOffline
                  end
              end
          end
      end
  end.

(** ** KeyValue.MarshalJSON and UnmarshalJSON *)

Definition marshalAny (v : goany) : result json :=
  let float (text : option string) :=
    match text with Some t => Ok (JNumber t) | None => Err (EPlain "json: unsupported value") end in
  match v with
  | AnyNil => Ok JNull
  | AnyBool b => Ok (JBool b)
  | AnyInt8 n | AnyInt16 n | AnyInt32 n | AnyInt64 n | AnyInt n => Ok (JNumber (strconv_FormatInt n))
  | AnyUint8 n | AnyUint16 n | AnyUint32 n | AnyUint64 n | AnyUint n => Ok (JNumber (strconv_FormatUint n))
  | AnyFloat32 f => float (format32 f)
  | AnyFloat64 f => float (format64 f)
  | AnyString s => Ok (JString (utf8_coerce s))
  | AnyOther t => json_other t
  end.

Definition KeyValue_MarshalJSON (uint64_of_2_64 : Z) (v : Sdk.KeyValue) : result json :=
  value ←
    match Sdk.Type_ v with
    | KeyValueLong =>
        match asInt64 (Sdk.Value v) with
        | Some n => Ok (AnyString (strconv_FormatInt n))
        | None => Err (EPlain (KeyValueType_string (Sdk.Type_ v) ++ " KeyValue requires int64"))
        end
    | KeyValueUint =>
        match asUint64 uint64_of_2_64 (Sdk.Value v) with
        | Some n => Ok (AnyString (strconv_FormatUint n))
        | None => Err (EPlain (KeyValueType_string (Sdk.Type_ v) ++ " KeyValue requires uint64"))
        end
    | _ => Ok (Sdk.Value v)
    end;
  j ← marshalAny value;
  Ok (JObject [("type", JString (utf8_coerce (KeyValueType_string (Sdk.Type_ v)))); ("value", j)]).

(** [None] when an error is returned.  A missing ["value"] is an empty
    [RawMessage], which does not decode. *)
Definition KeyValue_UnmarshalJSON (data : json) : option Sdk.KeyValue :=
  fields ← match data with JNull => Some [] | JObject fields => Some fields | _ => None end;
  type ← unmarshalString (default JNull (structField "type" fields));
  let value := structField "value" fields in
  let t := KeyValueType_of type in
  v ← match t with
      | KeyValueLong => s ← value ≫= unmarshalString; n ← strconv_ParseInt s; Some (AnyInt64 n)
      | KeyValueUint => s ← value ≫= unmarshalString; n ← strconv_ParseUint s; Some (AnyUint64 n)
      | KeyValueBool => b ← value ≫= unmarshalBool; Some (AnyBool b)
      | KeyValueString | KeyValueJSONString => s ← value ≫= unmarshalString; Some (AnyString s)
      | KeyValueInt => n ← value ≫= unmarshalInt64; Some (AnyInt64 n)
      | KeyValueFloat | KeyValueDouble =>
          j ← value;
          match j with
          | JNull => Some (AnyFloat64 zeroFloat)
          | JNumber lit => f ← parse64 lit; Some (AnyFloat64 f)
          | _ => None
          end
      | KeyValueTypeOther _ => None
      end;
  Some (Sdk.mkKeyValue t v).

(** ** The collection snapshot *)

Record protocolKVJSON := mkProtocolKV {
  pk_Key : string; pk_Type : Z; pk_VarintValue : Z; pk_FloatValue : spec_float;
  pk_DoubleValue : spec_float; pk_StringValue : string }.

Record protocolContentJSON := mkProtocolContent {
  pc_Type : Z; pc_Text : string; pc_Action : string; pc_Params : list protocolKVJSON;
  pc_CustomEvent : string; pc_CustomExts : list protocolKVJSON }.

Record protocolBodyJSON := mkProtocolBody {
  pb_Type : Z; pb_From : JID; pb_To : JID; pb_Bodies : list protocolContentJSON;
  pb_Ext : list protocolKVJSON }.

(** [mp_Meta] is the raw JSON text. *)
Record messageProtocol := mkMessageProtocol {
  mp_ID : Z; mp_From : JID; mp_To : JID; mp_Timestamp : Z; mp_NS : Z; mp_RouteType : Z;
  mp_Ext : list protocolKVJSON; mp_Meta : bytes; mp_DirectedUsers : list string;
  mp_ExpireTime : Z; mp_LocalTimestamp : Z; mp_Env : string; mp_Payload : protocolBodyJSON }.

Definition KeyValueKind_int (k : KeyValueKind) : Z :=
  match k with
  | KVBool => 1 | KVInt => 2 | KVUint => 3 | KVLong => 4 | KVFloat => 5 | KVDouble => 6
  | KVString => 7 | KVJSONString => 8 | KVOther n => n
  end.

Definition protocolKV (value : KeyValue) : protocolKVJSON :=
  let item := mkProtocolKV (kv_Key value) (KeyValueKind_int (kv_Kind value)) in
  match kv_Kind value with
  | KVBool => item (if kv_Bool value then 1 else 0) zeroFloat zeroFloat ""
  | KVInt | KVLong => item (kv_Int64 value) zeroFloat zeroFloat ""
  | KVUint => item 0 zeroFloat zeroFloat (strconv_FormatUint (kv_Uint64 value))
  | KVFloat => item 0 (kv_Float value) zeroFloat ""
  | KVDouble => item 0 zeroFloat (kv_Double value) ""
  | KVString | KVJSONString => item 0 zeroFloat zeroFloat (kv_String value)
  | KVOther _ => item 0 zeroFloat zeroFloat ""
  end.

Definition protocolKVs (values : list KeyValue) : list protocolKVJSON := map protocolKV values.

Definition emptyObject : bytes := [123; 125].

(** 123 is the opening brace. *)
Definition attributesJSON (raw : bytes) : bytes :=
  match raw with
  | [] => emptyObject
  | c :: _ => if is_some (json_parse raw) && (c =? 123) then raw else emptyObject
  end.

Definition protocolContent (content : Content) : protocolContentJSON :=
  mkProtocolContent (i32 (ct_Kind content)) (ct_Text content) (ct_Action content)
    (protocolKVs (ct_Params content)) (ct_Event content) (protocolKVs (ct_CustomExts content)).

Definition zeroJID : JID := mkJID "" "" "" "".
Definition zeroMessageBody : MessageBody := mkMessageBody 0 zeroJID zeroJID [] [].

Definition protocolJSONFromWire (meta : Meta) (body : option MessageBody) : messageProtocol :=
  let body := default zeroMessageBody body in
  mkMessageProtocol (m_ID meta) (m_From meta) (m_To meta) (m_Timestamp meta) (i32 (m_Namespace meta))
    (i32 (m_Route meta)) (protocolKVs (sl_elems (m_Ext meta))) (attributesJSON (sl_elems (m_Attributes meta)))
    (sl_elems (m_DirectedUsers meta)) (m_ExpireTime meta) (m_LocalTimestamp meta) (m_Environment meta)
    (mkProtocolBody (i32 (mb_Kind body)) (mb_From body) (mb_To body) (map protocolContent (mb_Contents body))
       (protocolKVs (mb_Ext body))).

(** ** Messages *)

Record Message := mkMessage {
  ms_From : string; ms_To : string; ms_IsGroup : bool; ms_MetaID : Z; ms_Timestamp : Z;
  ms_Body : option Body; ms_Ext : gmap string Sdk.KeyValue; ms_OnlineState : MessageOnlineState;
  ms_protocol : option messageProtocol }.

Definition messageFromProtocol (meta : Meta) (body : MessageBody) : Message :=
  mkMessage (j_Name (mb_From body)) (j_Name (mb_To body)) (mb_Kind body =? MessageGroupChat)
    (m_ID meta) (m_Timestamp meta)
    (match mb_Contents body with c :: _ => Some (decodeContent c) | [] => None end)
    (decodeKeyValues (mb_Ext body)) (parseOnlineState (sl_elems (m_Attributes meta)))
    (Some (protocolJSONFromWire meta (Some body))).

(** ** Wire values the SDK cannot tell apart

    A receiver reads the value of a key/value in the field of its kind. *)
Definition kv_equiv (a b : KeyValue) : Prop :=
  kv_Key a = kv_Key b /\ kv_Kind a = kv_Kind b /\
  match kv_Kind a with
  | KVBool => kv_Bool a = kv_Bool b
  | KVInt | KVLong => kv_Int64 a = kv_Int64 b
  | KVUint => kv_Uint64 a = kv_Uint64 b
  | KVFloat => kv_Float a = kv_Float b
  | KVDouble => kv_Double a = kv_Double b
  | KVString | KVJSONString => kv_String a = kv_String b
  | KVOther _ => True
  end.

Definition content_equiv (a b : Content) : Prop :=
  ct_Kind a = ct_Kind b /\ ct_Text a = ct_Text b /\ ct_Action a = ct_Action b /\ ct_Event a = ct_Event b /\
  Forall2 kv_equiv (ct_Params a) (ct_Params b) /\ Forall2 kv_equiv (ct_CustomExts a) (ct_CustomExts b) /\
  ct_RawPayload a = ct_RawPayload b.

Definition body_equiv (a b : MessageBody) : Prop :=
  mb_Kind a = mb_Kind b /\ mb_From a = mb_From b /\ mb_To a = mb_To b /\
  Forall2 content_equiv (mb_Contents a) (mb_Contents b) /\ Forall2 kv_equiv (mb_Ext a) (mb_Ext b).

#[export] Instance kv_equiv_refl : Reflexive kv_equiv.
Proof. intros a. unfold kv_equiv. by destruct (kv_Kind a). Qed.
#[export] Instance content_equiv_refl : Reflexive content_equiv.
Proof. intros a. by unfold content_equiv. Qed.
#[export] Instance body_equiv_refl : Reflexive body_equiv.
Proof. intros a. by unfold body_equiv. Qed.

#[export] Instance decodeKeyValue_proper : Proper (kv_equiv ==> eq) decodeKeyValue.
Proof.
  intros a b (_ & Hk & Hv). unfold decodeKeyValue. rewrite <- Hk. destruct (kv_Kind a); by rewrite ?Hv.
Qed.

#[export] Instance protocolKV_proper : Proper (kv_equiv ==> eq) protocolKV.
Proof.
  intros a b (Hkey & Hk & Hv). unfold protocolKV. rewrite <- Hk, Hkey. destruct (kv_Kind a); by rewrite ?Hv.
Qed.

#[export] Instance protocolKVs_proper : Proper (Forall2 kv_equiv ==> eq) protocolKVs.
Proof. intros a b H. unfold protocolKVs. induction H as [|x y a b Hxy _ IH]; simpl; [done|]. by rewrite IH, Hxy. Qed.

#[export] Instance decodeKeyValues_proper : Proper (Forall2 kv_equiv ==> eq) decodeKeyValues.
Proof.
  intros a b H. unfold decodeKeyValues. generalize (∅ : gmap string Sdk.KeyValue).
  induction H as [|x y a b Hxy _ IH]; intros m; simpl; [done|]. rewrite <- (decodeKeyValue_proper _ _ Hxy).
  destruct Hxy as [Hkey _]. rewrite <- Hkey. apply IH.
Qed.

#[export] Instance decodeContent_proper : Proper (content_equiv ==> eq) decodeContent.
Proof.
  intros a b (Hk & Ht & Ha & He & _ & Hc & Hr). unfold decodeContent. by rewrite Hk, Ht, Ha, He, Hc, Hr.
Qed.

#[export] Instance protocolContent_proper : Proper (content_equiv ==> eq) protocolContent.
Proof.
  intros a b (Hk & Ht & Ha & He & Hp & Hc & _). unfold protocolContent. by rewrite Hk, Ht, Ha, He, Hp, Hc.
Qed.

#[export] Instance messageFromProtocol_proper meta : Proper (body_equiv ==> eq) (messageFromProtocol meta).
Proof.
  intros a b (Hk & Hf & Ht & Hc & He). unfold messageFromProtocol, protocolJSONFromWire. simpl.
  rewrite Hk, Hf, Ht, He. assert (map protocolContent (mb_Contents a) = map protocolContent (mb_Contents b)) as ->.
  { clear -Hc. induction Hc as [|x y l k Hxy _ IH]; simpl; [done|]. by rewrite IH, Hxy. }
  f_equal. destruct Hc as [|x y l k Hxy _]; [done|]. by rewrite Hxy.
Qed.

(** A slice made by [append]. *)
Definition appended {A} (l : list A) : gslice A := GSlice l (zlen l).

Definition zeroMeta : Meta :=
  mkMeta 0 zeroJID zeroJID 0 0 nil_slice 0 nil_slice nil_slice 0 0 "" nil_slice.

(** The part of the codec interface that messages use. *)
Record MessageCodec := mkMessageCodec {
  EncodeMessageBody : MessageBody -> result bytes;
  DecodeMessageBody : bytes -> result MessageBody;
  DecodeStatistic : bytes -> result Statistic }.

Section Outgoing.
Context (quoted : string -> string) (uint64_of_2_64 : Z).
(** The orders in which the runtime ranges over the two maps of a request. *)
Context (extOrder : list string) (customRange : list (string * Sdk.KeyValue)).

Definition outgoingTo (appKey domain : string) (req : SendRequest) : JID :=
  mkJID appKey (rq_To req) (if rq_IsGroup req then "conference." ++ domain else "") "".

Definition outgoingBody (userID : string) (req : SendRequest) (content : Content) (ext : list KeyValue) : MessageBody :=
  mkMessageBody (if rq_IsGroup req then MessageGroupChat else MessageChat)
    (mkJID "" userID "" "") (mkJID "" (rq_To req) "" "") [content] ext.

Definition outgoingMeta (appKey domain : string) (req : SendRequest) (payload : gslice Z) : Meta :=
  mkMeta (rq_ClientMessageID req) zeroJID (outgoingTo appKey domain req) 0 NamespaceChat payload
    (match rq_DirectedUsers req with [] => RouteAll | _ => RouteDirect end)
    nil_slice (appended (rq_DirectedUsers req)) 0 0 "" nil_slice.

Definition directedWithoutGroup (req : SendRequest) : bool :=
  match rq_DirectedUsers req with [] => false | _ => negb (rq_IsGroup req) end.

Definition buildOutgoingMeta (codec : MessageCodec) (appKey userID domain resource : string)
    (req : SendRequest) : result Meta :=
  if rq_ClientMessageID req =? 0 then Err (EPlain "ClientMessageID is required")
  else if String.eqb (rq_To req) "" then Err (EPlain "message recipient is required")
  else if directedWithoutGroup req then Err (EPlain "directed users require a group message")
  else
    content ← encodeOutgoingContent quoted customRange (rq_Body req);
    ext ← match encodeMessageExt quoted uint64_of_2_64 extOrder (rq_Ext req) with
          | Ok ext => Ok ext
          | Err err => Err (EWrap ("message ext: " ++ Error err) err)
          end;
    payload ← match EncodeMessageBody codec (outgoingBody userID req content ext) with
              | Ok payload => Ok payload
              | Err err =>
                  let code := if errors_Is ErrLimitExceeded err then ErrProtocolLimit else ErrProtocol in
                  Err (wrapError code "marshal message body" err)
              end;
    Ok (outgoingMeta appKey domain req (appended payload)).

Definition NewOutgoingMessage (appKey userID domain : string) (req : SendRequest) : result Message :=
  if String.eqb (rq_To req) "" then Err (EPlain "message recipient is required")
  else if directedWithoutGroup req then Err (EPlain "directed users require a group message")
  else
    content ← encodeOutgoingContent quoted customRange (rq_Body req);
    ext ← encodeMessageExt quoted uint64_of_2_64 extOrder (rq_Ext req);
    Ok (messageFromProtocol (outgoingMeta appKey domain req nil_slice) (outgoingBody userID req content ext)).

Definition parseIncomingMessage (codec : MessageCodec) (meta : Meta) : result Message :=
  match DecodeMessageBody codec (sl_elems (m_Payload meta)) with
  | Err err => Err (EWrap ("unmarshal message body: " ++ Error err) err)
  | Ok wire => Ok (messageFromProtocol meta wire)
  end.

(** The snapshot of a message built by the user, without one. *)
Definition isOnlineJSON (digit : Z) : bytes :=
  (bytes_of_string "{" ++ [34] ++ bytes_of_string "is_online" ++ [34] ++ bytes_of_string ":" ++ [digit] ++ bytes_of_string "}")%list.

Definition protocolJSONFromPublic (m : Message) : messageProtocol :=
  let contents :=
    match ms_Body m with
    | Some body => match encodeOutgoingContent quoted customRange body with Ok encoded => [encoded] | Err _ => [] end
    | None => []
    end in
  let ext := match encodeMessageExt quoted uint64_of_2_64 extOrder (ms_Ext m) with Ok ext => ext | Err _ => [] end in
  let from := mkJID "" (ms_From m) "" "" in
  let to := mkJID "" (ms_To m) "" "" in
  let body := mkMessageBody (if ms_IsGroup m then MessageGroupChat else MessageChat) from to contents ext in
  let attributes :=
    match ms_OnlineState m with
    | MessageOnlineStateOnline => isOnlineJSON 49
    | MessageOnlineStateOffline => isOnlineJSON 48
    | MessageOnlineStateUnknown => []
    end in
  protocolJSONFromWire
    (mkMeta (ms_MetaID m) from to (ms_Timestamp m) NamespaceChat nil_slice RouteAll nil_slice nil_slice 0 0 ""
       (appended attributes)) (Some body).

(** The document [ToJSON] marshals. *)
Definition Message_ToJSON (m : option Message) : option messageProtocol :=
  match m with
  | None => None
  | Some m => Some (match ms_protocol m with Some p => p | None => protocolJSONFromPublic m end)
  end.
End Outgoing.

(** ** Theory *)

(** What JSON keeps of a value: integers as int64 or uint64, strings with
    invalid UTF-8 replaced. *)
Definition jsonKV (uint64_of_2_64 : Z) (v : Sdk.KeyValue) : Sdk.KeyValue :=
  Sdk.mkKeyValue (Sdk.Type_ v)
    (match Sdk.Type_ v with
     | KeyValueInt | KeyValueLong => AnyInt64 (default 0 (asInt64 (Sdk.Value v)))
     | KeyValueUint => AnyUint64 (default 0 (asUint64 uint64_of_2_64 (Sdk.Value v)))
     | KeyValueString | KeyValueJSONString =>
         match Sdk.Value v with AnyString s => AnyString (utf8_coerce s) | w => w end
     | _ => Sdk.Value v
     end).

Lemma asInt64_range v n : any_ok v -> asInt64 v = Some n -> in_i64 n.
Proof. destruct v; simpl; intros Hv H; simplify_eq; word_lia. Qed.

Lemma asUint64_range c v n : in_u64 c -> any_ok v -> asUint64 c v = Some n -> in_u64 n.
Proof.
  intros Hc. destruct v; cbn [asUint64 any_ok]; intros Hv H; try done;
    try (destruct (Z.geb_spec n0 0)); simplify_eq; try word_lia.
  destruct (float64_integer f) as [m|]; [|done].
  destruct (Z.geb_spec m 0); [|done]. destruct (Z.leb_spec m two64); [|done]. simpl in H.
  destruct (Z.eqb_spec m two64); simplify_eq; [done|word_lia].
Qed.

Lemma KeyValueType_of_string t :
  (forall s, t <> KeyValueTypeOther s) -> KeyValueType_of (KeyValueType_string t) = t.
Proof. destruct t; try reflexivity. intros H. by destruct (H s). Qed.

(** What the document of a value is, and how a document is read, once the type
    name is known. *)
Definition documentOf (t : KeyValueType) (j : json) : json :=
  JObject [("type", JString (KeyValueType_string t)); ("value", j)].
End JSON.

Section JSONTheory.
Context (utf8_coerce : string -> string) (format64 format32 : spec_float -> option string)
  (parse64 : string -> option spec_float) (json_other : string -> result json) (c : Z).
(** encoding/json leaves ASCII text as it is, and reads back the float64 it
    wrote. *)
Context (coerce_ascii : forall s, is_ascii s = true -> utf8_coerce s = s)
  (parse_format : forall f text, format64 f = Some text -> parse64 text = Some f).
Local Abbreviation marshal := (KeyValue_MarshalJSON utf8_coerce format64 format32 json_other c).
Local Abbreviation unmarshal := (KeyValue_UnmarshalJSON parse64).

(** A value that can be sent, and holds no float32, survives a round trip
    through JSON: the 64-bit integers exactly, as decimal text. *)
Lemma marshal_unmarshal quoted key v kv j :
  in_u64 c -> any_ok (Sdk.Value v) -> (forall f, Sdk.Value v <> AnyFloat32 f) ->
  encodeExtValue quoted c key v = Ok kv -> marshal v = Ok j ->
  unmarshal j = Some (jsonKV utf8_coerce c v).
Proof.
  intros Hc Hok Hf He Hm. destruct v as [t v]. unfold encodeExtValue in He.
  unfold KeyValue_MarshalJSON in Hm. unfold jsonKV. simpl in *.
  destruct t; try discriminate He; simpl in *; rewrite coerce_ascii in Hm by reflexivity.
  - destruct v; simplify_eq/=. done.
  - destruct (asInt64 v) as [n|] eqn:E; [|done]. pose proof (asInt64_range _ _ Hok E) as Hn.
    assert (j = documentOf KeyValueInt (JNumber (strconv_FormatInt n))) as -> by (destruct v; simplify_eq/=; done).
    unfold KeyValue_UnmarshalJSON, documentOf. simpl. unfold unmarshalInt64, unmarshalInt64Ptr.
    rewrite ParseInt_FormatInt by done. done.
  - destruct (asUint64 c v) as [n|] eqn:E; [|done]. pose proof (asUint64_range _ _ _ Hc Hok E) as Hn.
    simpl in Hm. rewrite coerce_ascii in Hm by (apply FormatUint_ascii; word_lia). injection Hm as <-.
    unfold KeyValue_UnmarshalJSON. simpl. rewrite ParseUint_FormatUint by done. done.
  - destruct (asInt64 v) as [n|] eqn:E; [|done]. pose proof (asInt64_range _ _ Hok E) as Hn.
    simpl in Hm. rewrite coerce_ascii in Hm by (apply FormatInt_ascii). injection Hm as <-.
    unfold KeyValue_UnmarshalJSON. simpl. rewrite ParseInt_FormatInt by done. done.
  - destruct v; try done; [by destruct (Hf f)|]. simpl in Hm. destruct (format64 f) as [text|] eqn:E; [|done].
    simplify_eq/=. unfold KeyValue_UnmarshalJSON. simpl. by rewrite (parse_format _ _ E).
  - destruct v; try done; [by destruct (Hf f)|]. simpl in Hm. destruct (format64 f) as [text|] eqn:E; [|done].
    simplify_eq/=. unfold KeyValue_UnmarshalJSON. simpl. by rewrite (parse_format _ _ E).
  - destruct v; simplify_eq/=. done.
  - destruct v; simplify_eq/=. done.
Qed.
End JSONTheory.

(** A value that can be sent, and holds no float32, survives a round trip
    through JSON: the 64-bit integers exactly, as decimal text. *)
Theorem keyvalue_json_roundtrip utf8_coerce format64 format32 parse64 json_other c quoted key v kv j :
  (forall s, is_ascii s = true -> utf8_coerce s = s) ->
  (forall f text, format64 f = Some text -> parse64 text = Some f) ->
  in_u64 c -> any_ok (Sdk.Value v) -> (forall f, Sdk.Value v <> AnyFloat32 f) ->
  encodeExtValue quoted c key v = Ok kv ->
  KeyValue_MarshalJSON utf8_coerce format64 format32 json_other c v = Ok j ->
  KeyValue_UnmarshalJSON parse64 j = Some (jsonKV utf8_coerce c v).
Proof. intros. by eapply marshal_unmarshal. Qed.

Definition noFloats (f : spec_float) : option string := None.

Lemma keyvalue_json_roundtrip_witness :
  KeyValue_UnmarshalJSON (fun _ => None) (documentOf KeyValueLong (JString "-9223372036854775808")) =
  Some (Sdk.mkKeyValue KeyValueLong (AnyInt64 (-9223372036854775808))).
Proof.
  apply (keyvalue_json_roundtrip id noFloats noFloats (fun _ => None) (fun _ => Ok JNull) 0 id "k"
    (Sdk.mkKeyValue KeyValueLong (AnyInt (-9223372036854775808)))
    (mkKeyValue "k" KVLong false (-9223372036854775808) 0 zeroFloat zeroFloat "")); try reflexivity; try done.
Defined.

(** ** Outgoing and incoming messages *)

(** The custom extensions of an outgoing content decode to the map they were
    taken from. *)
Lemma encodeStringKeyValues_keys quoted range kvs :
  encodeStringKeyValues quoted range = Ok kvs ->
  Forall2 (fun kvp kv => kv_Key kv = fst kvp /\ decodeKeyValue kv = Some (snd kvp)) range kvs.
Proof.
  revert kvs. induction range as [|[key [t v]] range IH]; intros kvs H; cbn [encodeStringKeyValues] in H.
  - injection H as <-. constructor.
  - destruct t; try done; destruct v; try done; simpl in H;
      destruct (encodeStringKeyValues _ range) as [rest|] eqn:E; try done;
      injection H as <-; constructor; auto.
Qed.

Lemma encodeStringKeyValues_roundtrip quoted range m kvs :
  range ≡ₚ map_to_list m -> encodeStringKeyValues quoted range = Ok kvs -> decodeKeyValues kvs = m.
Proof.
  intros Hr H. apply encodeStringKeyValues_keys in H.
  assert (map kv_Key kvs = range.*1) as Hk.
  { clear Hr. induction H as [|? ? ? ? [Hh _] _ IH]; csimpl; [done|]. by rewrite Hh, IH. }
  assert (NoDup (map kv_Key kvs)) as Hnd by (rewrite Hk, Hr; apply NoDup_fst_map_to_list).
  apply map_eq. intros k. apply option_eq. intros d. rewrite decodeKeyValues_lookup by done.
  rewrite <- elem_of_map_to_list, <- Hr. split.
  - intros (kv & Hin & <- & Hd). apply list_elem_of_lookup in Hin as [i Hi].
    destruct (Forall2_lookup_r _ _ _ _ _ H Hi) as ([k' d'] & Hi' & Hkk & Hdd). simpl in *. simplify_eq.
    apply list_elem_of_lookup. eauto.
  - intros Hin. apply list_elem_of_lookup in Hin as [i Hi].
    destruct (Forall2_lookup_l _ _ _ _ _ H Hi) as (kv & Hi' & Hkk & Hdd). simpl in *. subst.
    exists kv. split; [|done]. apply list_elem_of_lookup. eauto.
Qed.

(** The body a receiver sees: the fields of the sender's body that its type
    uses. *)
Definition sentBody (body : Body) : Body :=
  match bd_Type body with
  | MessageBodyText => mkBody MessageBodyText (bd_Text body) "" "" ∅ 0 []
  | MessageBodyCommand => mkBody MessageBodyCommand "" (bd_Action body) "" ∅ 0 []
  | MessageBodyCustom => mkBody MessageBodyCustom "" "" (bd_Event body) (bd_CustomExts body) 0 []
  | _ => body
  end.

Lemma content_roundtrip quoted range body content :
  range ≡ₚ map_to_list (bd_CustomExts body) ->
  encodeOutgoingContent quoted range body = Ok content -> decodeContent content = sentBody body.
Proof.
  intros Hr. unfold encodeOutgoingContent, sentBody. destruct (bd_Type body); try done; try by intros [= <-].
  destruct (encodeStringKeyValues quoted range) as [exts|] eqn:E; [|done]. intros [= <-].
  unfold decodeContent. simpl. by rewrite (encodeStringKeyValues_roundtrip _ _ _ _ Hr E).
Qed.

(** A message built for sending is what its receiver will see: the sender and
    recipient, the body's own fields, the extensions in canonical form, and no
    claim about the online state; directed users only go with groups. *)
Theorem NewOutgoingMessage_correct json_parse quoted c extOrder customRange appKey userID domain req m :
  extOrder ≡ₚ elements (dom (rq_Ext req)) ->
  customRange ≡ₚ map_to_list (bd_CustomExts (rq_Body req)) ->
  NewOutgoingMessage json_parse quoted c extOrder customRange appKey userID domain req = Ok m ->
  ms_From m = userID /\ ms_To m = rq_To req /\ rq_To req <> "" /\ ms_IsGroup m = rq_IsGroup req /\
  ms_MetaID m = rq_ClientMessageID req /\ ms_Body m = Some (sentBody (rq_Body req)) /\
  ms_Ext m = canonicalKV c <$> rq_Ext req /\ ms_OnlineState m = MessageOnlineStateUnknown /\
  (rq_DirectedUsers req <> [] -> rq_IsGroup req = true) /\
  mp_To <$> ms_protocol m = Some (outgoingTo appKey domain req).
Proof.
  intros Ho Hr H. unfold NewOutgoingMessage in H.
  destruct (String.eqb_spec (rq_To req) ""); [done|].
  destruct (directedWithoutGroup req) eqn:Ed; [done|].
  destruct (encodeOutgoingContent _ _ _) as [content|] eqn:Ec; [|done].
  destruct (encodeMessageExt _ _ _ _) as [ext|] eqn:Ee; [|done]. injection H as <-.
  apply content_roundtrip in Ec; [|done]. apply encode_decode_ext in Ee; [|done].
  unfold messageFromProtocol, outgoingBody. simpl. rewrite Ec, Ee. split_and!; try done.
  - by destruct (rq_IsGroup req).
  - unfold directedWithoutGroup in Ed. destruct (rq_DirectedUsers req); [done|]. intros _.
    by destruct (rq_IsGroup req).
Qed.

Definition sampleRequest : SendRequest :=
  mkSendRequest 5 "room" true ["bob"] sampleExt (mkBody MessageBodyText "hi" "" "" ∅ 0 []).

Lemma NewOutgoingMessage_correct_witness :
  exists m, NewOutgoingMessage (fun _ => None) id 0 (elements (dom sampleExt)) [] "org#app" "alice" "easemob.com"
    sampleRequest = Ok m /\ ms_From m = "alice" /\ ms_IsGroup m = true.
Proof.
  eexists. split; [vm_compute; reflexivity|].
  edestruct (NewOutgoingMessage_correct (fun _ => None) id 0 (elements (dom sampleExt)) [] "org#app" "alice"
    "easemob.com" sampleRequest) as (H1 & _ & _ & H2 & _); [done|done|vm_compute; reflexivity|done].
Defined.

(** A receiver that decodes what the sender encoded gets the message
    [NewOutgoingMessage] describes, the two request paths agreeing on every
    check but the id's: the codec need only keep what the SDK reads of the body. *)
Theorem incoming_is_outgoing json_parse codec quoted c extOrder customRange appKey userID domain resource req meta :
  (forall content ext p, encodeOutgoingContent quoted customRange (rq_Body req) = Ok content ->
     encodeMessageExt quoted c extOrder (rq_Ext req) = Ok ext ->
     EncodeMessageBody codec (outgoingBody userID req content ext) = Ok p ->
     exists b, DecodeMessageBody codec p = Ok b /\ body_equiv (outgoingBody userID req content ext) b) ->
  buildOutgoingMeta quoted c extOrder customRange codec appKey userID domain resource req = Ok meta ->
  parseIncomingMessage json_parse codec meta =
  NewOutgoingMessage json_parse quoted c extOrder customRange appKey userID domain req.
Proof.
  intros Hcodec H. unfold buildOutgoingMeta in H. unfold NewOutgoingMessage.
  destruct (_ =? 0); [done|]. destruct (String.eqb _ _); [done|]. destruct (directedWithoutGroup req); [done|].
  destruct (encodeOutgoingContent _ _ _) as [content|] eqn:Ec; [|done]. simpl in *.
  destruct (encodeMessageExt _ _ _ _) as [ext|] eqn:Ex; [|done]. simpl in *.
  destruct (EncodeMessageBody _ _) as [payload|] eqn:E; [|done]. injection H as <-.
  destruct (Hcodec _ _ _ eq_refl eq_refl E) as (b & Hb & Heq).
  unfold parseIncomingMessage. simpl. rewrite Hb. f_equal. symmetry. by etransitivity; [|exact (messageFromProtocol_proper _ _ _ _ Heq)].
Qed.

#[export] Instance spec_float_eq_dec : EqDecision spec_float.
Proof. solve_decision. Defined.
#[export] Instance KeyValueKind_eq_dec : EqDecision KeyValueKind.
Proof. solve_decision. Defined.
#[export] Instance wire_KeyValue_eq_dec : EqDecision KeyValue.
Proof. solve_decision. Defined.
#[export] Instance Content_eq_dec : EqDecision Content.
Proof. solve_decision. Defined.
#[export] Instance MessageBody_eq_dec : EqDecision MessageBody.
Proof. solve_decision. Defined.

(** A codec that knows one text message. *)
Definition sampleWire : MessageBody :=
  mkMessageBody MessageChat (mkJID "" "a" "" "") (mkJID "" "b" "" "") [mkContent ContentText "x" "" [] "" [] []] [].

Definition sampleCodec : MessageCodec :=
  mkMessageCodec (fun b => if decide (b = sampleWire) then Ok [1] else Err (EPlain "unknown body"))
    (fun p => if decide (p = [1]) then Ok sampleWire else Err (EPlain "unknown payload"))
    (fun _ => Err (EPlain "no statistic")).

Lemma incoming_is_outgoing_witness :
  exists meta, buildOutgoingMeta id 0 [] [] sampleCodec "org#app" "a" "d" "r"
    (mkSendRequest 9 "b" false [] ∅ (mkBody MessageBodyText "x" "" "" ∅ 0 [])) = Ok meta /\
  parseIncomingMessage (fun _ => None) sampleCodec meta =
  NewOutgoingMessage (fun _ => None) id 0 [] [] "org#app" "a" "d"
    (mkSendRequest 9 "b" false [] ∅ (mkBody MessageBodyText "x" "" "" ∅ 0 [])).
Proof.
  eexists. split; [vm_compute; reflexivity|].
  apply (incoming_is_outgoing (fun _ => None) sampleCodec id 0 [] [] "org#app" "a" "d" "r"); [|vm_compute; reflexivity].
  intros content ext p [= <-] [= <-] [= <-]. exists sampleWire. split; [reflexivity|apply body_equiv_refl].
Defined.

(** The collection document keeps every key/value of a declared kind: two
    different ones have different documents, the full uint64 range included. *)
Definition kv_normal (kv : KeyValue) : Prop :=
  let put := mkKeyValue (kv_Key kv) (kv_Kind kv) in
  match kv_Kind kv with
  | KVBool => kv = put (kv_Bool kv) 0 0 zeroFloat zeroFloat ""
  | KVInt | KVLong => kv = put false (kv_Int64 kv) 0 zeroFloat zeroFloat ""
  | KVUint => kv = put false 0 (kv_Uint64 kv) zeroFloat zeroFloat "" /\ in_u64 (kv_Uint64 kv)
  | KVFloat => kv = put false 0 0 (kv_Float kv) zeroFloat ""
  | KVDouble => kv = put false 0 0 zeroFloat (kv_Double kv) ""
  | KVString | KVJSONString => kv = put false 0 0 zeroFloat zeroFloat (kv_String kv)
  | KVOther n => False
  end.

Theorem protocolKV_injective a b :
  kv_normal a -> kv_normal b -> protocolKV a = protocolKV b -> a = b.
Proof.
  destruct a as [k1 t1 b1 i1 u1 f1 d1 s1], b as [k2 t2 b2 i2 u2 f2 d2 s2].
  unfold kv_normal, protocolKV. simpl. intros Ha Hb H.
  destruct t1, t2; simpl in *; try done; destruct_and?; simplify_eq/=; try done.
  - by destruct b1, b2.
  - match goal with E : strconv_FormatUint _ = _ |- _ => apply (f_equal strconv_ParseUint) in E;
      rewrite !ParseUint_FormatUint in E by done; by simplify_eq end.
Qed.

Lemma protocolKV_injective_witness :
  protocolKV (mkKeyValue "k" KVUint false 0 1 zeroFloat zeroFloat "") <>
  protocolKV (mkKeyValue "k" KVUint false 0 18446744073709551615 zeroFloat zeroFloat "").
Proof.
  intros H. apply (protocolKV_injective (mkKeyValue "k" KVUint false 0 1 zeroFloat zeroFloat "")
    (mkKeyValue "k" KVUint false 0 18446744073709551615 zeroFloat zeroFloat "")) in H.
  - discriminate H.
  - split; [done|]. by vm_compute.
  - split; [done|]. by vm_compute.
Defined.

(** The snapshot of a user-built message reports the online state it holds:
    reading its attribute blob back gives the same state. *)
Theorem public_snapshot_online_state json_parse quoted c extOrder customRange m :
  (forall d n, (d, n) ∈ [(48, "0"); (49, "1")] ->
     json_parse (isOnlineJSON d) = Some (JObject [(messageOnlineStateKey, JNumber n)])) ->
  json_parse emptyObject = Some (JObject []) ->
  parseOnlineState json_parse (mp_Meta (protocolJSONFromPublic json_parse quoted c extOrder customRange m)) =
  ms_OnlineState m.
Proof.
  intros Hj He. unfold protocolJSONFromPublic, protocolJSONFromWire. simpl.
  pose proof (Hj 48 "0" ltac:(set_solver)) as H0. pose proof (Hj 49 "1" ltac:(set_solver)) as H1.
  destruct (ms_OnlineState m); unfold attributesJSON, parseOnlineState; cbn [isOnlineJSON] in *; simpl in *.
  - by rewrite He.
  - rewrite H1. simpl. rewrite H1. simpl. reflexivity.
  - rewrite H0. simpl. rewrite H0. simpl. reflexivity.
Qed.

Definition sampleParse (b : bytes) : option json :=
  if decide (b = isOnlineJSON 48) then Some (JObject [(messageOnlineStateKey, JNumber "0")])
  else if decide (b = isOnlineJSON 49) then Some (JObject [(messageOnlineStateKey, JNumber "1")])
  else if decide (b = emptyObject) then Some (JObject []) else None.

Lemma public_snapshot_online_state_witness :
  parseOnlineState sampleParse (mp_Meta (protocolJSONFromPublic sampleParse id 0 [] []
    (mkMessage "a" "b" false 1 2 None ∅ MessageOnlineStateOffline None))) = MessageOnlineStateOffline.
Proof.
  apply (public_snapshot_online_state sampleParse id 0 [] []
    (mkMessage "a" "b" false 1 2 None ∅ MessageOnlineStateOffline None)).
  - intros d n Hd. assert ((d, n) = (48, "0") \/ (d, n) = (49, "1")) as [H|H] by set_solver; injection H as -> ->; reflexivity.
  - reflexivity.
Defined.
