(* ===== verification/Delivery.v ===== *)
(** * Delivery of a batch to the handler

    sdk/queue.go: [processMetas], [deliverMessage], [handleStatistic].

    What the environment does is an argument: the successive answers of
    [r.ctx.Err()], and for each attempt how the handler ends.  What the code
    does to the outside is a trace of events. *)
From Stdlib Require Import String.
From S2P Require Import Prelude Protocol Errors GoStrings Message MessageJSON.
Local Open Scope string_scope.
Local Open Scope Z_scope.

Definition handlerMaxAttempts : nat := 3.

(** How one call of [Config.MessageHandler] ends, and whether it lasted longer
    than [handlerTimeout]. *)
Inductive handlerEnd :=
| HandlerReturns (err : option goerror) (late : bool)
| HandlerPanics (value : string).

(** One attempt: its end, and whether the run's context is done during the
    pause after it. *)
Record attemptEnv := mkAttemptEnv { ae_end : handlerEnd; ae_cancelled : bool }.

(** The watchdog timer of an attempt: stopped before it fired, fired and taken
    back by the code, or left running ([WatchdogLeft] fires later). *)
Inductive watchdog := WatchdogStopped | WatchdogFired | WatchdogLeft.

(** What [stuckHandlers] has gained from a watchdog once no timer is pending. *)
Definition watchdogNet (w : watchdog) : Z :=
  match w with WatchdogStopped => 0 | WatchdogFired => 1 + (-1) | WatchdogLeft => 1 end.

Record deliveryResult := mkDelivery {
  dl_err : option goerror; dl_attempts : nat; dl_watchdogs : list watchdog }.

Definition panicError (value : string) : goerror := EPlain ("handler panic: " ++ value).

(** The loop of [deliverMessage] from a given attempt number: [fuel] attempts
    remain. *)
Fixpoint deliverLoop (fuel attempt : nat) (env : nat -> attemptEnv) (err : option goerror)
    (watchdogs : list watchdog) : deliveryResult :=
  match fuel with
  | O => mkDelivery err (attempt - 1) watchdogs
  | S fuel =>
      match ae_end (env attempt) with
      | HandlerPanics v => mkDelivery (Some (panicError v)) attempt (watchdogs ++ [WatchdogLeft])%list
      | HandlerReturns err late =>
          let watchdogs := (watchdogs ++ [if late : bool then WatchdogFired else WatchdogStopped])%list in
          match err with
          | None => mkDelivery None attempt watchdogs
          | Some e =>
              if (attempt <? handlerMaxAttempts)%nat && ae_cancelled (env attempt)
              then mkDelivery (Some e) attempt watchdogs
              else deliverLoop fuel (S attempt) env (Some e) watchdogs
          end
      end
  end.

Definition deliverMessage (env : nat -> attemptEnv) : deliveryResult :=
  deliverLoop handlerMaxAttempts 1 env None [].

(** ** Statistic notifications *)

Definition statisticError (operation : Z) : option goerror :=
  if operation =? StatisticInformation then None
  else if operation =? StatisticUserRemoved then Some (newError ErrAuthentication "session" "user removed")
  else if operation =? StatisticUserLoginAnotherDevice
  then Some (newError ErrAuthentication "session" "another device login")
  else if operation =? StatisticUserKickedByChangePassword
  then Some (newError ErrKickedChangePass "session" "password changed")
  else if operation =? StatisticUserKickedByOtherDevice
  then Some (newError ErrAuthentication "session" "kicked by other device")
  else None.

(** The error [handleStatistic] fails the run with. *)
Definition handleStatistic (codec : MessageCodec) (payload : bytes) : option goerror :=
  match DecodeStatistic codec payload with
  | Err _ => None
  | Ok s => statisticError (sc_Operation s)
  end.

(** ** processMetas *)

Inductive deliveryEvent :=
| EvUndecodable (metaID : Z) (err : goerror)     (* "dropping undecodable message" *)
| EvIgnored (metaID : Z)
| EvDelivered (msg : Message) (r : deliveryResult)
| EvFail (err : goerror)                         (* r.fail *)
| EvDiscarded (metaID : Z).                      (* an unknown namespace *)

Section Batch.
Context (json_parse : bytes -> option json) (codec : MessageCodec).
(** The [i]-th answer of [r.ctx.Err()], and the handler's behaviour on a
    message. *)
Context (ctxErr : nat -> option goerror) (handler : Message -> nat -> attemptEnv).

(** [i] counts the calls of [r.ctx.Err()]. *)
Fixpoint processMetas (i : nat) (metas : list Meta) : list deliveryEvent * option goerror :=
  match metas with
  | [] => ([], None)
  | m :: metas =>
      match ctxErr i with
      | Some e => ([], Some e)
      | None =>
          let i := S i in
          let continue (i : nat) (ev : list deliveryEvent) :=
            let '(rest, err) := processMetas i metas in ((ev ++ rest)%list, err) in
          if m_Namespace m =? NamespaceChat then
            match DecodeMessageBody codec (sl_elems (m_Payload m)) with
            | Err e => continue i [EvUndecodable (m_ID m) e]
            | Ok wire =>
                if negb (shouldDeliverToHandler (Some wire)) then continue i [EvIgnored (m_ID m)]
                else
                  let msg := messageFromProtocol json_parse m wire in
                  match ctxErr i with
                  | Some e => ([], Some e)
                  | None => continue (S i) [EvDelivered msg (deliverMessage (handler msg))]
                  end
            end
          else if m_Namespace m =? NamespaceStatistic then
            continue i (match handleStatistic codec (sl_elems (m_Payload m)) with
                        | Some e => [EvFail e] | None => [] end)
          else continue i [EvDiscarded (m_ID m)]
      end
  end.

(** The messages of a batch the handler is meant to see. *)
Definition deliverable (m : Meta) : option Message :=
  if m_Namespace m =? NamespaceChat then
    match DecodeMessageBody codec (sl_elems (m_Payload m)) with
    | Ok wire => if shouldDeliverToHandler (Some wire) then Some (messageFromProtocol json_parse m wire) else None
    | Err _ => None
    end
  else None.

Definition deliveredMessages (evs : list deliveryEvent) : list Message :=
  omap (fun ev => match ev with EvDelivered m _ => Some m | _ => None end) evs.

(** ** Theory *)

Lemma processMetas_delivered i metas :
  exists k, deliveredMessages (fst (processMetas i metas)) = omap deliverable (take k metas) /\
    (k <= length metas)%nat /\ (snd (processMetas i metas) = None -> k = length metas).
Proof.
  revert i. induction metas as [|m metas IH]; intros i; [exists 0%nat; done|].
  assert (Hcont : forall j ev,
    deliveredMessages ev = match deliverable m with Some x => [x] | None => [] end ->
    exists k, deliveredMessages (fst (let '(rest, err) := processMetas j metas in ((ev ++ rest)%list, err))) =
      omap deliverable (take k (m :: metas)) /\ (k <= length (m :: metas))%nat /\
      (snd (let '(rest, err) := processMetas j metas in ((ev ++ rest)%list, err)) = None -> k = length (m :: metas))).
  { intros j ev Hev. destruct (IH j) as (k & Hk & Hle & Hn). exists (S k).
    destruct (processMetas j metas) as [rest err]. simpl in *.
    unfold deliveredMessages in *. rewrite omap_app, Hev, Hk. split_and!; [by destruct (deliverable m)|lia|].
    intros H. by rewrite Hn. }
  cbn [processMetas]. unfold deliverable in Hcont.
  destruct (ctxErr i); [exists 0%nat; split_and!; [done|lia|done]|].
  destruct (m_Namespace m =? NamespaceChat).
  - destruct (DecodeMessageBody codec _) as [wire|e]; [|by apply Hcont].
    destruct (shouldDeliverToHandler _); simpl negb; cbv iota; [|by apply Hcont].
    destruct (ctxErr (S i)); [exists 0%nat; split_and!; [done|lia|done]|by apply Hcont].
  - destruct (m_Namespace m =? NamespaceStatistic); [|by apply Hcont].
    apply Hcont. by destruct (handleStatistic _ _).
Qed.

Lemma processMetas_uncancelled i metas :
  (forall j, ctxErr j = None) -> snd (processMetas i metas) = None.
Proof.
  intros Hctx. revert i. induction metas as [|m metas IH]; intros i; [done|]. cbn [processMetas]. rewrite !Hctx.
  assert (Hcont : forall j ev,
    snd (let '(rest, err) := processMetas j metas in ((ev ++ rest : list deliveryEvent)%list, err)) = None).
  { intros j ev. specialize (IH j). by destruct (processMetas j metas). }
  destruct (m_Namespace m =? NamespaceChat).
  - destruct (DecodeMessageBody codec _); [|by apply Hcont].
    destruct (shouldDeliverToHandler _); by apply Hcont.
  - destruct (m_Namespace m =? NamespaceStatistic); by apply Hcont.
Qed.
End Batch.

(** C7. A batch hands the handler its chat messages in order, each in one delivery
    (of up to three attempts), whatever the handler does to the others: bad
    payloads, ignored kinds and failing or panicking handlers never stop the
    batch.  Only the end of the run's context does, and then what was delivered
    is a prefix. *)
Theorem processMetas_delivers json_parse codec ctxErr handler metas :
  let '(evs, err) := processMetas json_parse codec ctxErr handler 0 metas in
  (exists k, deliveredMessages evs = omap (deliverable json_parse codec) (take k metas) /\
     (k <= length metas)%nat /\ (err = None -> k = length metas)) /\
  ((forall j, ctxErr j = None) ->
     err = None /\ deliveredMessages evs = omap (deliverable json_parse codec) metas).
Proof.
  pose proof (processMetas_delivered json_parse codec ctxErr handler 0 metas) as H.
  pose proof (processMetas_uncancelled json_parse codec ctxErr handler 0 metas) as Hu.
  destruct (processMetas _ _ _ _ 0 metas) as [evs err]. simpl in *. split; [done|].
  intros Hctx. specialize (Hu Hctx). destruct H as (k & Hk & _ & Hn). rewrite (Hn Hu), firstn_all in Hk. done.
Qed.

(** The sequence of attempts: [n] of them, the first [n - 1] returned an error
    and were not cancelled after. *)
Definition attemptsBefore (env : nat -> attemptEnv) (n : nat) : Prop :=
  forall a, (1 <= a < n)%nat ->
    (exists e late, ae_end (env a) = HandlerReturns (Some e) late) /\ ae_cancelled (env a) = false.

(** Delivery ends after at most three attempts.  It succeeds exactly when the
    last attempt returned without an error; before it every attempt returned an
    error; it stops early on a success, a panic or the end of the run. *)
Theorem deliverMessage_correct env :
  let r := deliverMessage env in
  let last := ae_end (env (dl_attempts r)) in
  (1 <= dl_attempts r <= handlerMaxAttempts)%nat /\ attemptsBefore env (dl_attempts r) /\
  length (dl_watchdogs r) = dl_attempts r /\
  (dl_err r = None <-> exists late, last = HandlerReturns None late) /\
  (forall e, dl_err r = Some e ->
     (exists late, last = HandlerReturns (Some e) late) \/ (exists v, last = HandlerPanics v /\ e = panicError v)) /\
  ((dl_attempts r < handlerMaxAttempts)%nat -> dl_err r <> None ->
     (exists v, last = HandlerPanics v) \/ ae_cancelled (env (dl_attempts r)) = true).
Proof.
  unfold deliverMessage, handlerMaxAttempts. cbn [deliverLoop app].
  assert (B1 : attemptsBefore env 1) by (intros a Ha; lia).
  assert (Bs : forall n e late, attemptsBefore env n -> ae_end (env n) = HandlerReturns (Some e) late ->
    ae_cancelled (env n) = false -> attemptsBefore env (S n)).
  { intros n e late Hb He Hc a Ha. destruct (decide (a = n)) as [->|]; [eauto|apply Hb; lia]. }
  destruct (ae_end (env 1%nat)) as [[e1|] l1|v1] eqn:E1; simpl; [|rewrite E1; naive_solver lia..].
  destruct (ae_cancelled (env 1%nat)) eqn:C1; simpl; [rewrite E1; naive_solver lia|].
  pose proof (Bs _ _ _ B1 E1 C1) as B2.
  destruct (ae_end (env 2%nat)) as [[e2|] l2|v2] eqn:E2; simpl; [|rewrite E2; naive_solver lia..].
  destruct (ae_cancelled (env 2%nat)) eqn:C2; simpl; [rewrite E2; naive_solver lia|].
  pose proof (Bs _ _ _ B2 E2 C2) as B3.
  destruct (ae_end (env 3%nat)) as [[e3|] l3|v3] eqn:E3; simpl; rewrite E3; naive_solver lia.
Qed.

(** Once every timer has settled, a delivery has left [stuckHandlers] as it
    was, however late its handlers were, unless a handler panicked: then its
    watchdog is never stopped and the count keeps one handler that has ended. *)
Theorem stuckHandlers_balance env :
  let r := deliverMessage env in
  zsum (map watchdogNet (dl_watchdogs r)) =
  match ae_end (env (dl_attempts r)) with HandlerPanics _ => 1 | HandlerReturns _ _ => 0 end.
Proof.
  unfold deliverMessage, handlerMaxAttempts. cbn [deliverLoop app].
  destruct (ae_end (env 1%nat)) as [[e1|] [] |v1] eqn:E1; simpl; rewrite ?E1; try done;
  destruct (ae_cancelled (env 1%nat)); simpl; rewrite ?E1; try done;
  destruct (ae_end (env 2%nat)) as [[e2|] [] |v2] eqn:E2; simpl; rewrite ?E2; try done;
  destruct (ae_cancelled (env 2%nat)); simpl; rewrite ?E2; try done;
  destruct (ae_end (env 3%nat)) as [[e3|] [] |v3] eqn:E3; simpl; rewrite ?E3; try done.
Qed.

(** A notification ends the session or changes nothing: every error
    [handleStatistic] fails the run with is terminal. *)
Theorem handleStatistic_terminal codec payload e :
  handleStatistic codec payload = Some e -> isTerminal (Some e) = true.
Proof.
  unfold handleStatistic, statisticError. destruct (DecodeStatistic _ _); [|done].
  intros H. repeat case_bool; simplify_eq; done.
Qed.

Lemma handleStatistic_terminal_witness :
  isTerminal (Some (newError ErrKickedChangePass "session" "password changed")) = true.
Proof.
  apply (handleStatistic_terminal
    (mkMessageCodec (fun _ => Ok []) (fun _ => Ok zeroMessageBody) (fun _ => Ok (mkStatistic 3 "" "" ""))) []).
  reflexivity.
Defined.
