(* ===== verification/BatchWorker.v ===== *)
(** * The batch workers: the scheduler and the delivery together

    sdk/queue.go: [batchWorker] and [processBatchJob], which join the scheduler
    (Queue) and the delivery of a batch (Delivery).  A worker receives a job,
    begins it (or drops it, when its run is over), hands its messages to the
    handler and tells the scheduler that the batch is done.  The workers run
    between the other steps of the scheduler, in any interleaving.  What was done
    with each job of the run is logged. *)
From Stdlib Require Import String.
From S2P Require Import Prelude Protocol Errors RetainedWeight ByteBudget ResourceBudgets DeferredRing Queue QueueInvariant QueueTheory Message MessageJSON Delivery.
Local Open Scope Z_scope.

(** Where the worker of a job is: it has received the job, it handles it, or it
    has dropped it. *)
Inductive jobPC := JobTaken | JobRuns | JobSkipped.

(** [bw_jobs] goes along [qs_handling]; [bw_log] holds the finished jobs. *)
Record batchWorkers := mkWorkers {
  bw_sys : queueSys; bw_jobs : list jobPC; bw_log : list (batchJob * list deliveryEvent) }.

(** [ends] says whether, and from which of its checks on with which error, the
    worker sees the context of the run done. *)
Inductive workerOp :=
| WorkerOp (op : queueOp)
| WorkerTake
| WorkerBegin (i : nat)
| WorkerDone (i : nat) (ends : option (nat * goerror)) (handler : Message -> nat -> attemptEnv).

Definition ctxErrOf (ends : option (nat * goerror)) (k : nat) : option goerror :=
  match ends with Some (n, e) => if (n <=? k)%nat then Some e else None | None => None end.

(** The errors a batch fails its run with; such a failure ends the context, and
    with it the batch. *)
Definition failsOf (evs : list deliveryEvent) : list goerror :=
  omap (fun ev => match ev with EvFail e => Some e | _ => None end) evs.

Fixpoint failsLast (evs : list deliveryEvent) : bool :=
  match evs with
  | [] | [_] => true
  | EvFail _ :: _ => false
  | _ :: evs => failsLast evs
  end.

Section Workers.
Context (json_parse : bytes -> option json) (codec : MessageCodec).

(** [processMetas] on a job, if it was begun. *)
Definition handleJob (job : batchJob) (pc : jobPC) (ends : option (nat * goerror))
    (handler : Message -> nat -> attemptEnv) : list deliveryEvent * option goerror :=
  match pc with
  | JobRuns => processMetas json_parse codec (ctxErrOf ends) handler 0 (sl_elems (sy_Metas (bj_d job)))
  | _ => ([], None)
  end.

(** The end of a job of this run.  It fails the run before it asks the scheduler
    to go on; a context that was seen done is done. *)
Definition finishJob (w : batchWorkers) (i : nat) (job : batchJob) (pc : jobPC)
    (ends : option (nat * goerror)) (handler : Message -> nat -> attemptEnv) : option batchWorkers :=
  let '(evs, err) := handleJob job pc ends handler in
  s ← queueRun (bw_sys w) (map OpFail (failsOf evs));
  if failsLast evs && (negb (is_some ends) || r_cancelled (qs_run s)) then
    s ← queueStep s (OpDoneBatch i err);
    Some (mkWorkers s (delete i (bw_jobs w)) (bw_log w ++ [(job, evs)]))
  else None.

Definition workerStep (w : batchWorkers) (op : workerOp) : option batchWorkers :=
  let s := bw_sys w in
  match op with
  | WorkerOp (OpTakeBatch | OpDoneBatch _ _) => None
  | WorkerOp op => s ← queueStep s op; Some (mkWorkers s (bw_jobs w) (bw_log w))
  | WorkerTake => s ← queueStep s OpTakeBatch; Some (mkWorkers s (bw_jobs w ++ [JobTaken]) (bw_log w))
  | WorkerBegin i =>
      match qs_handling s !! i, bw_jobs w !! i with
      | Some job, Some JobTaken =>
          let pc := if jobStarts job (qs_run s) then JobRuns else JobSkipped in
          Some (mkWorkers s (<[i := pc]> (bw_jobs w)) (bw_log w))
      | _, _ => None
      end
  | WorkerDone i ends handler =>
      match qs_handling s !! i, bw_jobs w !! i with
      | Some job, Some pc =>
          if negb (bj_run job =? r_generation (qs_run s)) then
            s ← queueStep s (OpDoneBatch i None); Some (mkWorkers s (delete i (bw_jobs w)) (bw_log w))
          else match pc with JobTaken => None | _ => finishJob w i job pc ends handler end
      | _, _ => None
      end
  end.

Fixpoint workerRun (w : batchWorkers) (ops : list workerOp) : option batchWorkers :=
  match ops with [] => Some w | op :: ops => w' ← workerStep w op; workerRun w' ops end.

Definition startWorkers (r : connectionRun) : batchWorkers := mkWorkers (startPullScheduler r) [] [].

(** ** The workers take the steps of the scheduler *)

Lemma workerRun_app w ops ops' : workerRun w (ops ++ ops') = w' ← workerRun w ops; workerRun w' ops'.
Proof.
  revert w. induction ops as [|op ops IH]; intros w; [done|]. simpl. destruct (workerStep w op); [apply IH|done].
Qed.

(** What a step of the workers is. *)
Inductive worker_case (w w' : batchWorkers) : Prop :=
| wc_op op : (forall i e, op <> OpDoneBatch i e) -> queueStep (bw_sys w) op = Some (bw_sys w') ->
    qs_handling (bw_sys w') = qs_handling (bw_sys w) -> bw_jobs w' = bw_jobs w -> bw_log w' = bw_log w -> worker_case w w'
| wc_take job : queueStep (bw_sys w) OpTakeBatch = Some (bw_sys w') ->
    qs_handling (bw_sys w') = qs_handling (bw_sys w) ++ [job] -> bw_jobs w' = bw_jobs w ++ [JobTaken] ->
    bw_log w' = bw_log w -> worker_case w w'
| wc_begin i job : qs_handling (bw_sys w) !! i = Some job -> bw_sys w' = bw_sys w ->
    bw_jobs w' = <[i := if jobStarts job (qs_run (bw_sys w)) then JobRuns else JobSkipped]> (bw_jobs w) ->
    bw_log w' = bw_log w -> worker_case w w'
| wc_other i job : qs_handling (bw_sys w) !! i = Some job -> bj_run job <> r_generation (qs_run (bw_sys w)) ->
    queueStep (bw_sys w) (OpDoneBatch i None) = Some (bw_sys w') ->
    qs_handling (bw_sys w') = delete i (qs_handling (bw_sys w)) ->
    bw_jobs w' = delete i (bw_jobs w) -> bw_log w' = bw_log w -> worker_case w w'
| wc_done i job pc ends handler evs err s :
    qs_handling (bw_sys w) !! i = Some job -> bw_jobs w !! i = Some pc -> pc <> JobTaken ->
    handleJob job pc ends handler = (evs, err) ->
    queueRun (bw_sys w) (map OpFail (failsOf evs)) = Some s -> (ends <> None -> r_cancelled (qs_run s) = true) ->
    queueStep s (OpDoneBatch i err) = Some (bw_sys w') -> qs_handling s = qs_handling (bw_sys w) ->
    qs_handling (bw_sys w') = delete i (qs_handling (bw_sys w)) ->
    bw_jobs w' = delete i (bw_jobs w) -> bw_log w' = bw_log w ++ [(job, evs)] -> worker_case w w'.

(** Only the workers of batches change [qs_handling]. *)
Lemma handling_kept s op s' : queueStep s op = Some s' -> op <> OpTakeBatch -> (forall i e, op <> OpDoneBatch i e) ->
  qs_handling s' = qs_handling s.
Proof.
  intros H Ht Hd. destruct op; try (by destruct (Ht eq_refl)); try (by destruct (Hd _ _ eq_refl)); cbn [queueStep] in H;
    repeat match type of H with context [match ?x with _ => _ end] => destruct x; try discriminate H end;
    by injection H as <-.
Qed.

Lemma handling_take s s' : queueStep s OpTakeBatch = Some s' -> exists job, qs_handling s' = qs_handling s ++ [job].
Proof. simpl. destruct (bc_batches _); [done|]. intros [= <-]. by eexists. Qed.

Lemma handling_done s i e s' : queueStep s (OpDoneBatch i e) = Some s' -> qs_handling s' = delete i (qs_handling s).
Proof. simpl. destruct (qs_handling s !! i); [|done]. by intros [= <-]. Qed.

Lemma handling_fails es s s' : queueRun s (map OpFail es) = Some s' -> qs_handling s' = qs_handling s.
Proof.
  revert s. induction es as [|e es IH]; intros s; [by intros [= <-]|]. cbn [map queueRun].
  destruct (queueStep s (OpFail e)) as [s1|] eqn:E; [|done]. intros H. cbn [mbind option_bind] in H.
  rewrite (IH _ H). by apply (handling_kept _ _ _ E).
Qed.

Lemma workerStep_case w op w' : workerStep w op = Some w' -> worker_case w w'.
Proof.
  destruct op as [op| |i|i ends handler]; cbn [workerStep].
  - intros H. assert (op <> OpTakeBatch /\ (forall i e, op <> OpDoneBatch i e) /\
      exists s', queueStep (bw_sys w) op = Some s' /\ w' = mkWorkers s' (bw_jobs w) (bw_log w)) as (Ht & Hd & s' & E & ->).
    { destruct op; try done; apply bind_Some in H as (s' & E & H); injection H as <-; eauto. }
    eapply wc_op; try done. by eapply handling_kept.
  - intros H. apply bind_Some in H as (s' & E & H). injection H as <-.
    destruct (handling_take _ _ E) as [job Hj]. by eapply wc_take.
  - destruct (qs_handling _ !! i) as [job|] eqn:Hi; [|done]. destruct (bw_jobs w !! i) as [[]|]; try done.
    intros [= <-]. by eapply wc_begin.
  - destruct (qs_handling _ !! i) as [job|] eqn:Hi; [|done]. destruct (bw_jobs w !! i) as [pc|] eqn:Hpc; [|done].
    destruct (Z.eqb_spec (bj_run job) (r_generation (qs_run (bw_sys w)))) as [Hr|Hr]; cbn [negb]; intros H.
    + assert (pc <> JobTaken /\ finishJob w i job pc ends handler = Some w') as [Hn H'] by (by destruct pc).
      unfold finishJob in H'. destruct (handleJob job pc ends handler) as [evs err] eqn:Hj.
      apply bind_Some in H' as (s & Hs & H'). destruct (_ && _) eqn:G; [|done].
      apply bind_Some in H' as (s' & E & H'). injection H' as <-. apply andb_true_iff in G as [_ G].
      eapply wc_done; try done; [|by eapply handling_fails|].
      * intros Hne. by destruct ends.
      * rewrite <- (handling_fails _ _ _ Hs). by eapply handling_done.
    + apply bind_Some in H as (s' & E & H). injection H as <-. eapply wc_other; try done. by eapply handling_done.
Qed.

Lemma workerStep_run w op w' : workerStep w op = Some w' -> exists ops, queueRun (bw_sys w) ops = Some (bw_sys w').
Proof.
  intros H. destruct (workerStep_case _ _ _ H) as [op' _ E|? E|? ? _ E|? ? _ _ E|? ? ? ? ? ? err ? _ _ _ _ Hs _ E].
  - exists [op']. simpl. by rewrite E.
  - exists [OpTakeBatch]. simpl in *. by rewrite E.
  - exists []. by rewrite E.
  - exists [OpDoneBatch i None]. cbn [queueRun]. by rewrite E.
  - eexists (map OpFail _ ++ [OpDoneBatch i err]). rewrite queueRun_app, Hs. cbn [mbind option_bind queueRun]. by rewrite E.
Qed.

Lemma workerRun_run w ops w' : workerRun w ops = Some w' -> exists qops, queueRun (bw_sys w) qops = Some (bw_sys w').
Proof.
  revert w. induction ops as [|op ops IH]; intros w H; [exists []; simpl in *; congruence|].
  apply bind_Some in H as (w1 & E & H). destruct (workerStep_run _ _ _ E) as [o1 H1]. destruct (IH _ H) as [o2 H2].
  exists (o1 ++ o2). by rewrite queueRun_app, H1.
Qed.

Lemma queueRun_live s ops s' : queueRun s ops = Some s' ->
  r_generation (qs_run s') = r_generation (qs_run s) /\ (live (qs_run s') -> live (qs_run s)).
Proof.
  revert s. induction ops as [|op ops IH]; intros s H; [by simplify_eq/=|].
  apply bind_Some in H as (s1 & E & H). destruct (queueStep_onward _ _ _ E) as (Hg & Hl & _).
  destruct (IH _ H) as [Hg' Hl']. split; [congruence|auto].
Qed.

Lemma workerStep_live w op w' : workerStep w op = Some w' ->
  r_generation (qs_run (bw_sys w')) = r_generation (qs_run (bw_sys w)) /\
  (live (qs_run (bw_sys w')) -> live (qs_run (bw_sys w))).
Proof. intros H. destruct (workerStep_run _ _ _ H) as [ops Hr]. by eapply queueRun_live. Qed.

(** ** While the run lasts, no job of it is dropped *)

(** The messages of a job the handler is meant to see. *)
Definition jobMessages (job : batchJob) : list Message :=
  omap (deliverable json_parse codec) (sl_elems (sy_Metas (bj_d job))).

Definition none_skipped (w : batchWorkers) : Prop :=
  length (bw_jobs w) = length (qs_handling (bw_sys w)) /\
  (live (qs_run (bw_sys w)) -> forall i job pc, qs_handling (bw_sys w) !! i = Some job -> bw_jobs w !! i = Some pc ->
     own_job (qs_run (bw_sys w)) job = true -> pc <> JobSkipped).

Lemma jobStarts_own job r : live r -> own_job r job = true -> jobStarts job r = true.
Proof.
  intros [Hc Hg] H. unfold own_job in H. apply andb_true_iff in H as [Hr Hre]. unfold jobStarts.
  by rewrite Hre, Hc, <- Hg, Hr.
Qed.

(** Entry [j] of two lists without their entry [i] is an entry of both. *)
Lemma delete_aligned (i j : nat) : exists j', forall (A : Type) (xs : list A), delete i xs !! j = xs !! j'.
Proof.
  destruct (decide (j < i)%nat); [exists j|exists (S j)]; intros A xs; [by apply list_lookup_delete_lt|].
  apply list_lookup_delete_ge. lia.
Qed.

Lemma delete_length {A B} (l : list A) (l' : list B) i :
  length l = length l' -> length (delete i l) = length (delete i l').
Proof.
  revert l' i. induction l as [|x l IH]; intros l' i H; destruct l' as [|y l'], i as [|i]; simpl in *; try lia.
  by rewrite (IH l' i) by lia.
Qed.

Lemma none_skipped_delete w w' i :
  (live (qs_run (bw_sys w')) -> live (qs_run (bw_sys w))) ->
  (forall job, own_job (qs_run (bw_sys w')) job = own_job (qs_run (bw_sys w)) job) ->
  qs_handling (bw_sys w') = delete i (qs_handling (bw_sys w)) -> bw_jobs w' = delete i (bw_jobs w) ->
  none_skipped w -> none_skipped w'.
Proof.
  intros Hl Ho Hh Hj [Hlen Hns]. split; [rewrite Hh, Hj; by apply delete_length|]. intros Hl' k job pc.
  rewrite Hh, Hj, Ho. destruct (delete_aligned i k) as [k' Hk]. rewrite !Hk. by apply Hns, Hl.
Qed.

Lemma workerStep_none_skipped w op w' : workerStep w op = Some w' -> none_skipped w -> none_skipped w'.
Proof.
  intros H [Hlen Hns]. destruct (workerStep_live _ _ _ H) as [Hg Hl].
  assert (forall job, own_job (qs_run (bw_sys w')) job = own_job (qs_run (bw_sys w)) job) as Ho
    by (intros; unfold own_job; by rewrite Hg).
  destruct (workerStep_case _ _ _ H) as [op' _ _ Hh Hj _|job _ Hh Hj _|i job Hi Hs Hj _|i job _ _ _ Hh Hj _|
    i ? ? ? ? ? ? ? _ _ _ _ _ _ _ _ Hh Hj _].
  - split; [by rewrite Hh, Hj|]. intros Hl' i job pc. rewrite Hh, Hj, Ho. by apply Hns, Hl.
  - split; [rewrite Hh, Hj, !length_app; simpl; lia|]. intros Hl' i job' pc. rewrite Hh, Hj, Ho.
    intros H1 [Hp|[_ Hp]]%lookup_app_Some Hown.
    + rewrite lookup_app_l in H1 by (rewrite <- Hlen; by eapply lookup_lt_Some). by eapply Hns; eauto.
    + apply list_lookup_singleton_Some in Hp as [_ <-]. done.
  - split; [by rewrite Hj, length_insert, Hs|]. intros Hl' k job' pc. rewrite Hj, Hs. intros H1 H2 Hown.
    destruct (decide (k = i)) as [->|Hne].
    + assert (job' = job) as -> by congruence. apply list_lookup_insert_Some in H2 as [(_ & <- & _)|(? & _)]; [|done].
      rewrite jobStarts_own; [done| |done]. by rewrite <- Hs.
    + rewrite list_lookup_insert_ne in H2 by done. rewrite <- Hs in Hown. rewrite Ho in Hown. by eapply Hns; eauto.
  - by apply (none_skipped_delete w w' i).
  - by apply (none_skipped_delete w w' i).
Qed.

Lemma workerRun_none_skipped w ops w' : workerRun w ops = Some w' -> none_skipped w -> none_skipped w'.
Proof.
  revert w. induction ops as [|op ops IH]; intros w H Hn; [by simplify_eq/=|].
  apply bind_Some in H as (w1 & E & H). eapply IH; [done|]. by eapply workerStep_none_skipped.
Qed.

Lemma start_none_skipped r : none_skipped (startWorkers r).
Proof. split; [done|]. by intros _ i job pc. Qed.

(** ** What a worker does with a job *)

Lemma handled_uncancelled job handler :
  deliveredMessages (fst (handleJob job JobRuns None handler)) = jobMessages job.
Proof.
  unfold handleJob, jobMessages.
  destruct (processMetas_delivered json_parse codec (ctxErrOf None) handler 0 (sl_elems (sy_Metas (bj_d job))))
    as (k & Hk & _ & Hn).
  by rewrite Hk, (Hn (processMetas_uncancelled _ _ _ _ _ _ (fun _ => eq_refl))), firstn_all.
Qed.

Lemma queueRun_fails_waiting es s s' job : queueRun s (map OpFail es) = Some s' -> job ∈ waiting s -> job ∈ waiting s'.
Proof.
  revert s. induction es as [|e es IH]; intros s H Hj; [by injection H as <-|].
  apply bind_Some in H as (s1 & E & H). apply (IH _ H). destruct (queueStep_onward _ _ _ E) as (_ & _ & Hw).
  destruct (Hw _ Hj) as [|(i & e' & [=] & _)]; done.
Qed.

(** A job of a run that is still live waits, or was handed to the handler in
    full. *)
Lemma workerStep_exact w op w' job :
  workerStep w op = Some w' -> none_skipped w -> live (qs_run (bw_sys w')) ->
  own_job (qs_run (bw_sys w)) job = true -> job ∈ waiting (bw_sys w) ->
  job ∈ waiting (bw_sys w') \/
  exists evs, bw_log w' = bw_log w ++ [(job, evs)] /\ deliveredMessages evs = jobMessages job.
Proof.
  intros H [_ Hns] Hl Hown Hj. destruct (workerStep_live _ _ _ H) as [_ Hback].
  destruct (workerStep_case _ _ _ H) as [op' Hd E _ _ _|? E _ _ _|? ? _ E _ _|i x Hi Hr E _ _ _|
    i x pc ends handler evs err s Hi Hpc Hnt Hh Hs He E Hhs _ _ Hlog].
  - destruct (queueStep_onward _ _ _ E) as (_ & _ & Hw). destruct (Hw _ Hj) as [|(i & e & -> & _)]; [by left|].
    by destruct (Hd i e).
  - destruct (queueStep_onward _ _ _ E) as (_ & _ & Hw). destruct (Hw _ Hj) as [|(i & e & [=] & _)]; by left.
  - left. by rewrite E.
  - destruct (queueStep_onward _ _ _ E) as (_ & _ & Hw). destruct (Hw _ Hj) as [|(i' & e & [= <- <-] & Hi')]; [by left|].
    assert (x = job) as -> by congruence. unfold own_job in Hown. apply andb_true_iff in Hown as [Hown%Z.eqb_eq _]. done.
  - destruct (queueStep_onward _ _ _ E) as (_ & Hls & Hw).
    destruct (Hw _ (queueRun_fails_waiting _ _ _ _ Hs Hj)) as [|(i' & e & [= <- <-] & Hi')]; [by left|right].
    assert (x = job) as -> by congruence. exists evs. split; [done|].
    assert (pc = JobRuns) as -> by (pose proof (Hns (Hback Hl) _ _ _ Hi Hpc Hown); by destruct pc).
    destruct (Hls Hl) as [Hc _]. destruct ends as [p|]; [rewrite He in Hc; done|].
    pose proof (handled_uncancelled job handler) as Hu. by rewrite Hh in Hu.
Qed.

Lemma workerStep_log w op w' : workerStep w op = Some w' -> bw_log w `prefix_of` bw_log w'.
Proof. intros H. destruct (workerStep_case _ _ _ H); simplify_eq; repeat match goal with E : bw_log _ = _ |- _ => rewrite E; clear E end; [done..|by eexists]. Qed.

Lemma workerRun_log w ops w' : workerRun w ops = Some w' -> bw_log w `prefix_of` bw_log w'.
Proof.
  revert w. induction ops as [|op ops IH]; intros w H; [by simplify_eq/=|].
  apply bind_Some in H as (w1 & E & H). transitivity (bw_log w1); [by eapply workerStep_log|by apply IH].
Qed.

Lemma workerRun_live w ops w' : workerRun w ops = Some w' ->
  r_generation (qs_run (bw_sys w')) = r_generation (qs_run (bw_sys w)) /\
  (live (qs_run (bw_sys w')) -> live (qs_run (bw_sys w))).
Proof. intros H. destruct (workerRun_run _ _ _ H) as [qops Hr]. by eapply queueRun_live. Qed.

Lemma prefix_drop_elem {A} (l l1 l2 : list A) x : (l ++ [x]) `prefix_of` l1 -> l2 `prefix_of` l -> x ∈ drop (length l2) l1.
Proof.
  intros [k ->] [k' ->]. rewrite <- !app_assoc, drop_app_length. rewrite !elem_of_app, list_elem_of_singleton. tauto.
Qed.

Lemma workerRun_exact w ops w' job :
  workerRun w ops = Some w' -> none_skipped w -> live (qs_run (bw_sys w')) ->
  own_job (qs_run (bw_sys w)) job = true -> job ∈ waiting (bw_sys w) ->
  job ∈ waiting (bw_sys w') \/
  exists evs, (job, evs) ∈ drop (length (bw_log w)) (bw_log w') /\ deliveredMessages evs = jobMessages job.
Proof.
  revert w. induction ops as [|op ops IH]; intros w H Hn Hl Hown Hj; [left; by simplify_eq/=|].
  apply bind_Some in H as (w1 & E & H). destruct (workerRun_live _ _ _ H) as [_ Hl1].
  destruct (workerStep_live _ _ _ E) as [Hg _].
  destruct (workerStep_exact _ _ _ job E Hn (Hl1 Hl) Hown Hj) as [Hj1|(evs & Hlog & Hev)].
  - destruct (IH w1 H) as [|(evs & Hin & Hev)]; [by eapply workerStep_none_skipped|done|unfold own_job in *; by rewrite Hg|done|by left|].
    right. exists evs. split; [|done]. destruct (workerStep_log _ _ _ E) as [k Hk]. rewrite Hk, length_app in Hin.
    rewrite <- drop_drop in Hin. rewrite <- (take_drop (length k)). apply elem_of_app. by right.
  - right. exists evs. split; [|done]. eapply prefix_drop_elem; [|done]. rewrite <- Hlog. by eapply workerRun_log.
Qed.

(** ** A worker can finish what it received *)

(** No notification among the messages of the job ends the session. *)
Definition keepsSession (m : Meta) : Prop :=
  m_Namespace m = NamespaceStatistic -> handleStatistic codec (sl_elems (m_Payload m)) = None.

Lemma processMetas_keeps ctxErr handler i metas :
  Forall keepsSession metas -> failsOf (fst (processMetas json_parse codec ctxErr handler i metas)) = [].
Proof.
  intros H. revert i. induction H as [|m metas Hm _ IH]; intros i; [done|]. cbn [processMetas].
  assert (Hcont : forall j ev, failsOf ev = [] ->
    failsOf (fst (let '(rest, err) := processMetas json_parse codec ctxErr handler j metas in ((ev ++ rest)%list, err))) = []).
  { intros j ev Hev. specialize (IH j). destruct (processMetas _ _ _ _ j metas). simpl in *.
    unfold failsOf in *. by rewrite omap_app, Hev, IH. }
  destruct (ctxErr i); [done|]. destruct (m_Namespace m =? NamespaceChat).
  - destruct (DecodeMessageBody codec _); [|by apply Hcont].
    destruct (shouldDeliverToHandler _); simpl negb; cbv iota; [|by apply Hcont].
    destruct (ctxErr (S i)); [done|by apply Hcont].
  - destruct (Z.eqb_spec (m_Namespace m) NamespaceStatistic) as [E|]; [|by apply Hcont].
    apply Hcont. by rewrite (Hm E).
Qed.

Lemma fails_none_last evs : failsOf evs = [] -> failsLast evs = true.
Proof.
  induction evs as [|ev evs IH]; [done|]. intros H. destruct ev; simpl in *; try done; destruct evs; auto.
Qed.

(** A worker that has received a job of a live run begins it, hands the handler
    its messages, whatever the handler makes of them, and the scheduler goes on
    with the queue. *)
Lemma worker_finishes gen pb cl qops w i job handler :
  fresh_run gen pb cl -> queueRun (startPullScheduler (newRun gen pb cl)) qops = Some (bw_sys w) ->
  live (qs_run (bw_sys w)) -> qs_handling (bw_sys w) !! i = Some job -> bw_jobs w !! i = Some JobTaken ->
  own_job (qs_run (bw_sys w)) job = true -> Forall keepsSession (sl_elems (sy_Metas (bj_d job))) ->
  exists w' evs l q, workerRun w [WorkerBegin i; WorkerDone i None handler] = Some w' /\
    bw_log w' = bw_log w ++ [(job, evs)] /\ deliveredMessages evs = jobMessages job /\
    queues_of (qs_run (bw_sys w)) !! bj_queue job = Some l /\ r_heap (qs_run (bw_sys w)) !! l = Some q /\
    finishes l q (bj_d job) (qs_run (bw_sys w)) (qs_run (bw_sys w')).
Proof.
  intros Hf Hr Hl Hi Hpc Hown Hk. cbn [workerRun workerStep]. rewrite Hi, Hpc, (jobStarts_own _ _ Hl Hown).
  cbn [mbind option_bind workerStep bw_sys bw_jobs bw_log]. rewrite Hi, list_lookup_insert_eq by (by eapply lookup_lt_Some).
  pose proof Hown as Hrun. unfold own_job in Hrun. apply andb_true_iff in Hrun as [-> _]. cbn [negb]. unfold finishJob.
  pose proof (handled_uncancelled job handler) as Hu.
  pose proof (processMetas_keeps (ctxErrOf None) handler 0 _ Hk) as Hfs. unfold handleJob in *.
  destruct (processMetas _ _ _ _ _ _) as [evs err]. cbn [fst] in Hu, Hfs. rewrite Hfs, (fails_none_last _ Hfs).
  cbn [map queueRun mbind option_bind is_some negb andb orb bw_sys].
  destruct (done_batch _ _ _ _ _ _ _ err Hf Hr Hl Hi Hown) as (s' & l & q & E & _ & H1 & H2 & H3).
  rewrite E. cbn [mbind option_bind]. eexists _, evs, l, q. split; [reflexivity|]. by split_and!.
Qed.
End Workers.
