(* ===== verification/Provisioning.v ===== *)
(** * The codec interface and the provisioning handshake

    internal/protocol/codec.go: the frames a connection encodes and decodes, as a
    class, so that what a connection does with frames is proved against the
    interface.  sdk/connection.go: [login] sends the PROVISION request and waits
    for its outcome, which [dispatch] puts into the channel [r.provision];
    [parseProvisionState] reads what an accepted login grants. *)
From Stdlib Require Import String.
From S2P Require Import Prelude Protocol Errors GoStrings Config Identifiers.
Local Open Scope string_scope.
Local Open Scope Z_scope.

(** ** The codec *)

Class FrameCodec := {
  EncodeProvision : ProvisionRequest -> result bytes;
  EncodeUnread : result bytes;
  EncodeSync : SyncRequest -> result bytes;
  EncodeLogout : LogoutRequest -> result bytes;
  DecodeFrame : bytes -> result Frame;
  (** [DecodeAdmissionEstimator], when the codec implements it. *)
  EstimateDecodeAdmission : option (bytes -> result DecodeAdmissionClass) }.

(** ** The outcome of a PROVISION frame *)

Record provisionResult := mkProvisionResult { pr_provision : option Provision; pr_err : option goerror }.

(** The PROVISION case of [dispatch]. *)
Definition provisionOutcome (p : option Provision) : provisionResult :=
  match p with
  | None => mkProvisionResult None (Some (newError ErrProtocol "provision" "missing payload"))
  | Some p =>
      match pv_Status p with
      | None => mkProvisionResult None (Some (newError ErrProtocol "provision" "missing status"))
      | Some st =>
          if st_Code st =? StatusOK then mkProvisionResult (Some p) None
          else if st_Code st =? StatusRedirect
          then mkProvisionResult None (Some (ERedirect (sl_elems (st_Redirects st))))
          else mkProvisionResult None (Some (protocolError "provision" (i32 (st_Code st)) (st_Reason st)))
      end
  end.

(** [r.provision] has capacity 1: a second outcome is dropped. *)
Definition tryProvision (out : provisionResult) (ch : option provisionResult) : option provisionResult :=
  match ch with None => Some out | Some _ => ch end.

(** ** [login] *)

(** What ends its wait. *)
Inductive loginWait :=
| LoginProvision                     (* out := <-r.provision *)
| LoginContext (err : goerror)       (* <-ctx.Done() *)
| LoginDone.                         (* <-r.done *)

Section Login.
Context `{FrameCodec} (cfg : Config) (json_Marshal : string -> bytes).

Definition jid (name : string) : JID := mkJID (cf_AppKey cfg) name (cf_Domain cfg) (cf_Resource cfg).

Definition loginRequest (userID token : string) : ProvisionRequest :=
  mkProvisionRequest (jid userID) sdkVersion (cf_Resource cfg) (json_Marshal token).

(** [sendErr] is what [sendFrame] returned, [ch] what the channel holds when the
    wait ends; [None] when the select is not ready that way. *)
Definition login (userID token : string) (sendErr : option goerror) (wait : loginWait) (ch : option provisionResult)
  : option (result (option Provision)) :=
  match EncodeProvision (loginRequest userID token) with
  | Err err => Some (Err err)
  | Ok _ =>
      match sendErr with
      | Some err => Some (Err err)
      | None =>
          match wait, ch with
          | LoginProvision, Some out =>
              Some match pr_err out with Some err => Err err | None => Ok (pr_provision out) end
          | LoginProvision, None => None
          | LoginContext err, _ =>
              Some (Err (default err (classifyNetworkError "provision" (Some err))))
          | LoginDone, _ => Some (Err (newError ErrStreamClosed "provision" "connection closed"))
          end
      end
  end.
End Login.

(** ** What an accepted login grants *)

Record provisionState := mkProvisionState { ps_sessionID : string; ps_token : string; ps_expiresAt : Z }.

Section Parse.
(** [json.Unmarshal] into [struct{ Token string; ExpiresIn int64 }]. *)
Context (json_Unmarshal : bytes -> option (string * Z)).

Definition parseProvisionState (p : option Provision) (now : Z) : provisionState :=
  match p with
  | None => mkProvisionState "" "" zeroTime
  | Some p =>
      if zlen (pv_AuthToken p) >? 0 then
        match json_Unmarshal (pv_AuthToken p) with
        | Some (token, expiresIn) =>
            if String.eqb token "" then mkProvisionState (pv_SessionID p) "" zeroTime
            else mkProvisionState (pv_SessionID p) token (tokenExpiryTime expiresIn now)
        | None => mkProvisionState (pv_SessionID p) "" zeroTime
        end
      else mkProvisionState (pv_SessionID p) "" zeroTime
  end.
End Parse.

(** ** Properties *)

(** The outcomes of the PROVISION frames a connection receives, in order: the
    channel keeps the first. *)
Lemma tryProvision_first outs ch :
  foldl (fun ch out => tryProvision out ch) ch outs = match ch with Some _ => ch | None => head outs end.
Proof.
  revert ch. induction outs as [|out outs IH]; intros ch; simpl; [by destruct ch|].
  rewrite IH. by destruct ch.
Qed.

(** An outcome is a provision with an OK status, or an error; it is a redirect
    exactly for that status. *)
Lemma provisionOutcome_spec p :
  match pr_provision (provisionOutcome p), pr_err (provisionOutcome p) with
  | Some q, None => p = Some q /\ exists st, pv_Status q = Some st /\ st_Code st = StatusOK
  | None, Some (ERedirect info) =>
      exists q st, p = Some q /\ pv_Status q = Some st /\ st_Code st = StatusRedirect /\ info = sl_elems (st_Redirects st)
  | None, Some _ => forall q st, p = Some q -> pv_Status q = Some st -> st_Code st <> StatusOK /\ st_Code st <> StatusRedirect
  | _, _ => False
  end.
Proof.
  unfold provisionOutcome, protocolError, newError. destruct p as [p|]; simpl; [|done].
  destruct (pv_Status p) as [st|] eqn:E; simpl; [|by intros q st [= <-]; congruence].
  destruct (st_Code st =? StatusOK) eqn:E0; breflect; simpl; [eauto|].
  destruct (st_Code st =? StatusRedirect) eqn:E5; breflect; simpl; [by exists p, st|].
  intros q st' [= <-] E'. rewrite E in E'. by injection E' as <-.
Qed.

(** [login] succeeds only with the payload of the first PROVISION frame of the
    connection, when its status is OK; a redirect is reported with the servers the
    frame names, and any other status as the error of that status. *)
Theorem login_accepts_first_provision `{FrameCodec} cfg json_Marshal userID token sendErr wait frames res :
  login cfg json_Marshal userID token sendErr wait
    (foldl (fun ch p => tryProvision (provisionOutcome p) ch) None frames) = Some res ->
  match res with
  | Ok p => exists q st rest, p = Some q /\ frames = Some q :: rest /\ pv_Status q = Some st /\ st_Code st = StatusOK /\
      sendErr = None /\ is_ok (EncodeProvision (loginRequest cfg json_Marshal userID token)) = true
  | Err err =>
      wait = LoginProvision -> sendErr = None -> is_ok (EncodeProvision (loginRequest cfg json_Marshal userID token)) = true ->
      exists p rest, frames = p :: rest /\ pr_err (provisionOutcome p) = Some err
  end.
Proof.
  assert (foldl (fun ch p => tryProvision (provisionOutcome p) ch) None frames = provisionOutcome <$> head frames) as ->.
  { transitivity (foldl (fun ch out => tryProvision out ch) None (map provisionOutcome frames)).
    - generalize (@None provisionResult). induction frames as [|p frames IH]; intros ch; simpl; [done|]. apply IH.
    - rewrite tryProvision_first. by destruct frames. }
  unfold login. destruct (EncodeProvision _) as [f|e] eqn:Ee; [|intros [= <-]; done].
  destruct sendErr as [e|]; [by intros [= <-]|].
  destruct wait as [|e|]; [|by intros [= <-]|by intros [= <-]].
  destruct frames as [|p rest]; simpl; [done|]. intros [= <-]. pose proof (provisionOutcome_spec p) as Hp.
  destruct (pr_err (provisionOutcome p)) as [e|] eqn:E.
  - intros _ _ _. by exists p, rest.
  - destruct (pr_provision (provisionOutcome p)) as [q|] eqn:Eq; [|done].
    destruct Hp as (-> & st & Hst & Hcode). by exists q, st, rest.
Qed.

(** The state of a session: its id is the frame's; a token is taken only when the
    answer carries a non-empty one, with the expiry it names; no provision, no
    token or an unreadable answer leave the token of the Client as it is. *)
Theorem parseProvisionState_correct json_Unmarshal p now :
  let s := parseProvisionState json_Unmarshal p now in
  ps_sessionID s = match p with Some p => pv_SessionID p | None => "" end /\
  (ps_token s = "" -> ps_expiresAt s = zeroTime) /\
  (forall token, token <> "" -> ps_token s = token <->
     exists q expiresIn, p = Some q /\ pv_AuthToken q <> [] /\ json_Unmarshal (pv_AuthToken q) = Some (token, expiresIn) /\
       ps_expiresAt s = tokenExpiryTime expiresIn now).
Proof.
  unfold parseProvisionState. destruct p as [p|].
  2: { split_and!; try done. intros token Ht. split; [by intros <-|by intros (? & ? & ? & _)]. }
  destruct (zlen (pv_AuthToken p) >? 0) eqn:El.
  2: { split_and!; try done. intros token Ht. split; [by intros <-|]. intros (q & ? & [= <-] & Hne & _).
       destruct (pv_AuthToken p); [done|]. breflect. rewrite zlen_cons in El. pose proof (zlen_nonneg l). lia. }
  assert (pv_AuthToken p <> []) as Hp by (by intros E; rewrite E in El).
  destruct (json_Unmarshal (pv_AuthToken p)) as [[tok exp]|] eqn:Ej.
  2: { split_and!; try done. intros token Ht. split; [by intros <-|].
       intros (q & ? & [= <-] & _ & Hj & _). by rewrite Ej in Hj. }
  destruct (String.eqb_spec tok "") as [->|Hne].
  { split_and!; try done. intros token Ht. split; [by intros <-|].
    intros (q & ? & [= <-] & _ & Hj & _). congruence. }
  split_and!; try done. intros token Ht. split.
  - intros <-. exists p, exp. done.
  - intros (q & e & [= <-] & _ & Hj & _). simpl. congruence.
Qed.

(** A codec that encodes a login, and a connection that answers it. *)
Definition handshakeCodec : FrameCodec :=
  {| EncodeProvision := fun _ => Ok [1]; EncodeUnread := Ok []; EncodeSync := fun _ => Ok []; EncodeLogout := fun _ => Ok [];
     DecodeFrame := fun _ => Err (EPlain "no frame"); EstimateDecodeAdmission := None |}.

Definition okProvision : Provision := mkProvision (Some (mkStatus StatusOK "" nil_slice)) "session" [].

Lemma login_accepts_first_provision_witness :
  exists q st rest, Some okProvision = Some q /\ [Some okProvision; None] = Some q :: rest /\ pv_Status q = Some st /\ st_Code st = StatusOK.
Proof.
  destruct (@login_accepts_first_provision handshakeCodec (mkConfig "o#a" "d" "r" true None) (fun _ => []) "u" "t" None LoginProvision
    [Some okProvision; None] (Ok (Some okProvision)) eq_refl) as (q & st & rest & ? & ? & ? & ? & _).
  exists q, st, rest. done.
Defined.
