(* ===== verification/Pending.v ===== *)
(** * Sends waiting for their ACK

    sdk/queue.go: the pending table of a connectionRun, used by [Client.Send]
    (concurrent calls), by [completeACK] (the reader) and by [cancelPending]
    (the end of the run).  Each critical section of [pendingMu], each channel
    operation and each return is one step. *)
From Stdlib Require Import String.
From S2P Require Import Prelude Protocol Errors Message.
Local Open Scope string_scope.
Local Open Scope Z_scope.

Record ackResult := mkAck { ak_result : option SendResult; ak_err : option goerror }.

(** A call of [Send] from its critical section on; its channel bears its number. *)
Inductive sendCall :=
| SendSending (id : Z)                       (* registered, in [sendFrame] *)
| SendWaiting (id : Z)                       (* in the final select *)
| SendReturning (id : Z) (out : ackResult)   (* before the deferred delete *)
| SendReturned (id : Z) (out : ackResult).

Record pendingState := mkPending {
  pd_pending : gmap Z nat;                   (* r.pending: id to channel *)
  pd_calls : gmap nat sendCall;
  pd_chan : gmap nat ackResult;              (* a channel of capacity 1 that holds a value *)
  pd_acking : list (nat * ackResult);        (* taken from the table, not yet put into the channel *)
  pd_done : bool }.                          (* r.done is closed *)

Definition startPending : pendingState := mkPending ∅ ∅ ∅ [] false.

(** The result an ACK gives. *)
Definition ackOf (d : Sync) : ackResult :=
  let ok := mkAck (Some (mkSendResult (sy_ServerID d) (sy_MetaID d) (sy_ServerID d) (sy_Timestamp d))) None in
  match sy_Status d with
  | Some st =>
      if st_Code st =? StatusOK then ok
      else mkAck None (Some (protocolError "send ack" (i32 (st_Code st)) (st_Reason st)))
  | None => ok
  end.

Definition cancelledAck (cause : option goerror) : ackResult :=
  mkAck None (Some (ESDK ErrSendOutcomeUnknown "send" "connection closed before ACK" 0 0 cause)).

Definition failedSend (e : goerror) : ackResult := mkAck None (Some e).

Inductive pendingEvent :=
| PRegister (t : nat) (id : Z)               (* Send: the table entry, or "already pending" *)
| PSendFailed (t : nat) (e : goerror)        (* sendFrame returns an error *)
| PSent (t : nat)
| PReceive (t : nat)                         (* the channel's value *)
| PTimeout (t : nat) (cause : goerror)       (* sendCtx is done *)
| PDone (t : nat)                            (* r.done is closed *)
| PUnregister (t : nat)                      (* the deferred delete, and the return *)
| PAckTake (d : Sync)                        (* completeACK up to the unlock *)
| PAckPut                                    (* completeACK's channel send *)
| PCancel (cause : option goerror)           (* cancelPending *)
| PClose.                                    (* close(r.done) *)

Definition setCall (s : pendingState) (t : nat) (c : sendCall) : pendingState :=
  mkPending (pd_pending s) (<[t := c]> (pd_calls s)) (pd_chan s) (pd_acking s) (pd_done s).

(** [None] when the step cannot happen; a channel send to a full channel
    blocks. *)
Definition pendingStep (s : pendingState) (ev : pendingEvent) : option pendingState :=
  match ev with
  | PRegister t id =>
      match pd_calls s !! t with
      | Some _ => None
      | None =>
          match pd_pending s !! id with
          | Some _ =>
              Some (setCall s t (SendReturned id (failedSend
                (EPlain ("ClientMessageID " ++ pretty id ++ " is already pending")))))
          | None =>
              Some (mkPending (<[id := t]> (pd_pending s)) (<[t := SendSending id]> (pd_calls s))
                      (pd_chan s) (pd_acking s) (pd_done s))
          end
      end
  | PSendFailed t e =>
      match pd_calls s !! t with
      | Some (SendSending id) => Some (setCall s t (SendReturning id (failedSend e)))
      | _ => None
      end
  | PSent t =>
      match pd_calls s !! t with
      | Some (SendSending id) => Some (setCall s t (SendWaiting id))
      | _ => None
      end
  | PReceive t =>
      match pd_calls s !! t, pd_chan s !! t with
      | Some (SendWaiting id), Some out =>
          Some (setCall (mkPending (pd_pending s) (pd_calls s) (delete t (pd_chan s)) (pd_acking s) (pd_done s))
                  t (SendReturning id out))
      | _, _ => None
      end
  | PTimeout t cause =>
      match pd_calls s !! t with
      | Some (SendWaiting id) =>
          Some (setCall s t (SendReturning id (failedSend
            (ESDK ErrSendOutcomeUnknown "send" "ACK timeout" 0 0 (Some cause)))))
      | _ => None
      end
  | PDone t =>
      match pd_calls s !! t with
      | Some (SendWaiting id) =>
          if pd_done s
          then Some (setCall s t (SendReturning id (failedSend
            (newError ErrSendOutcomeUnknown "send" "connection closed before ACK"))))
          else None
      | _ => None
      end
  | PUnregister t =>
      match pd_calls s !! t with
      | Some (SendReturning id out) =>
          Some (setCall (mkPending (delete id (pd_pending s)) (pd_calls s) (pd_chan s) (pd_acking s) (pd_done s))
                  t (SendReturned id out))
      | _ => None
      end
  | PAckTake d =>
      match pd_pending s !! sy_MetaID d with
      | None => Some s
      | Some ch =>
          Some (mkPending (delete (sy_MetaID d) (pd_pending s)) (pd_calls s) (pd_chan s)
                  (pd_acking s ++ [(ch, ackOf d)])%list (pd_done s))
      end
  | PAckPut =>
      match pd_acking s with
      | (ch, out) :: rest =>
          match pd_chan s !! ch with
          | Some _ => None
          | None => Some (mkPending (pd_pending s) (pd_calls s) (<[ch := out]> (pd_chan s)) rest (pd_done s))
          end
      | [] => None
      end
  | PCancel cause =>
      if forallb (fun '(_, ch) => negb (is_some (pd_chan s !! ch))) (map_to_list (pd_pending s)) then
        Some (mkPending ∅ (pd_calls s)
                (foldl (fun m '(_, ch) => <[ch := cancelledAck cause]> m) (pd_chan s) (map_to_list (pd_pending s)))
                (pd_acking s) (pd_done s))
      else None
  | PClose => Some (mkPending (pd_pending s) (pd_calls s) (pd_chan s) (pd_acking s) true)
  end.

Fixpoint runPending (s : pendingState) (evs : list pendingEvent) : option pendingState :=
  match evs with
  | [] => Some s
  | ev :: evs => s' ← pendingStep s ev; runPending s' evs
  end.

(** [Send] before its critical section: what it refuses without a connection. *)
Definition sendRefusal (loggedOutOrLoggingIn connected hasRun : bool) : option goerror :=
  if loggedOutOrLoggingIn then Some (newError ErrNotLoggedIn "send" "call Login successfully before Send")
  else if negb connected || negb hasRun then Some (newError ErrNotConnected "send" "")
  else None.

(** ** Invariant *)

Definition callID (c : sendCall) : Z :=
  match c with
  | SendSending id | SendWaiting id | SendReturning id _ | SendReturned id _ => id
  end.

(** An outcome belongs to a send of [id]: an error, or the result of that id. *)
Definition ackFor (id : Z) (a : ackResult) : Prop :=
  match ak_result a with Some r => rs_ClientMessageID r = id /\ ak_err a = None | None => ak_err a <> None end.

(** A channel is reachable from the table, from the reader or filled: at most
    one of them, once. *)
Definition pendingInv (s : pendingState) : Prop :=
  (forall id ch, pd_pending s !! id = Some ch ->
     (exists c, pd_calls s !! ch = Some c /\ callID c = id) /\
     ch ∉ (pd_acking s).*1 /\ pd_chan s !! ch = None) /\
  NoDup ((pd_acking s).*1) /\
  (forall ch a, (ch, a) ∈ pd_acking s ->
     pd_chan s !! ch = None /\ exists c, pd_calls s !! ch = Some c /\ ackFor (callID c) a) /\
  (forall ch a, pd_chan s !! ch = Some a -> exists c, pd_calls s !! ch = Some c /\ ackFor (callID c) a) /\
  (forall t id out, pd_calls s !! t = Some (SendReturning id out) \/ pd_calls s !! t = Some (SendReturned id out) ->
     ackFor id out).

Lemma ackFor_failed id e : ackFor id (failedSend e).
Proof. done. Qed.
Lemma ackFor_cancelled id cause : ackFor id (cancelledAck cause).
Proof. done. Qed.
Lemma ackFor_ack d : ackFor (sy_MetaID d) (ackOf d).
Proof. unfold ackOf. destruct (sy_Status d) as [st|]; [case_bool|]; done. Qed.
#[export] Hint Resolve ackFor_failed ackFor_cancelled ackFor_ack : gosdk.

(** Changing the state of a call, not its id. *)
Lemma set_call_inv s t c' :
  pendingInv s -> (forall c, pd_calls s !! t = Some c -> callID c' = callID c) ->
  (forall id out, c' = SendReturning id out \/ c' = SendReturned id out -> ackFor id out) ->
  pendingInv (setCall s t c').
Proof.
  intros (Ht & Hn & Ha & Hc & Hr) Hid Hout.
  assert (Hmono : forall ch P, (exists c0, pd_calls s !! ch = Some c0 /\ P (callID c0)) ->
    exists c0, <[t := c']> (pd_calls s) !! ch = Some c0 /\ P (callID c0)).
  { intros ch P (c0 & H0 & HP). destruct (decide (ch = t)) as [->|Hne].
    - exists c'. rewrite lookup_insert_eq. split; [done|]. by rewrite (Hid _ H0).
    - exists c0. by rewrite lookup_insert_ne. }
  unfold pendingInv, setCall; simpl. split_and!; try done.
  - intros id ch H. destruct (Ht _ _ H) as (Hcall & ? & ?).
    split; [by apply (Hmono ch (fun i => i = id))|done].
  - intros ch a H. destruct (Ha _ _ H) as [? Hcall]. split; [done|]. by apply (Hmono ch (fun i => ackFor i a)).
  - intros ch a H. apply (Hmono ch (fun i => ackFor i a)). eauto.
  - intros t0 id out [H|H]; apply lookup_insert_Some in H as [[<- ->]|[_ H]]; eauto.
Qed.

Lemma register_inv s t id :
  pendingInv s -> pd_calls s !! t = None -> pd_pending s !! id = None ->
  pendingInv (mkPending (<[id := t]> (pd_pending s)) (<[t := SendSending id]> (pd_calls s))
                (pd_chan s) (pd_acking s) (pd_done s)).
Proof.
  intros (Ht & Hn & Ha & Hc & Hr) Hct Hp.
  assert (Hmono : forall ch (P : sendCall -> Prop), (exists c0, pd_calls s !! ch = Some c0 /\ P c0) ->
    exists c0, <[t := SendSending id]> (pd_calls s) !! ch = Some c0 /\ P c0).
  { intros ch P (c0 & H0 & HP). exists c0. rewrite lookup_insert_ne; [done|]. congruence. }
  unfold pendingInv; simpl. split_and!; try done.
  - intros id' ch [[<- <-]|[Hne H]]%lookup_insert_Some.
    + split; [eexists; by rewrite lookup_insert_eq|]. split.
      * intros Hin. apply list_elem_of_fmap in Hin as ([ch a] & -> & Hin).
        destruct (Ha _ _ Hin) as (_ & c & H & _). simpl in *. congruence.
      * destruct (pd_chan s !! t) as [a|] eqn:E; [|done]. destruct (Hc _ _ E) as (c & H & _). congruence.
    + destruct (Ht _ _ H) as (Hcall & ? & ?). split; [by apply Hmono|done].
  - intros ch a H. destruct (Ha _ _ H) as [? Hcall]. split; [done|by apply Hmono].
  - intros ch a H. apply Hmono. eauto.
  - intros t0 id0 out [H|H]; apply lookup_insert_Some in H as [[<- ?]|[_ H]]; try done; eauto.
Qed.

(** Removing table entries keeps the invariant. *)
Lemma shrink_inv s p' chan' :
  pendingInv s -> p' ⊆ pd_pending s -> chan' ⊆ pd_chan s ->
  pendingInv (mkPending p' (pd_calls s) chan' (pd_acking s) (pd_done s)).
Proof.
  intros (Ht & Hn & Ha & Hc & Hr) Hp Hch.
  assert (Hnone : forall ch, pd_chan s !! ch = None -> chan' !! ch = None).
  { intros ch H. by eapply lookup_weaken_None. }
  unfold pendingInv; simpl. split_and!; try done.
  - intros id ch H. apply (lookup_weaken _ _ _ _ H) in Hp. destruct (Ht _ _ Hp) as (? & ? & ?). auto.
  - intros ch a H. destruct (Ha _ _ H). auto.
  - intros ch a H. apply (lookup_weaken _ _ _ _ H) in Hch. eauto.
Qed.

Lemma ack_take_inv s id ch out :
  pendingInv s -> pd_pending s !! id = Some ch -> ackFor id out ->
  pendingInv (mkPending (delete id (pd_pending s)) (pd_calls s) (pd_chan s)
                (pd_acking s ++ [(ch, out)])%list (pd_done s)).
Proof.
  intros (Ht & Hn & Ha & Hc & Hr) Hp Hout. destruct (Ht _ _ Hp) as ((c & Hcc & Hid) & Hni & Hnone).
  unfold pendingInv; simpl. split_and!; try done.
  - intros id' ch' [Hne H]%lookup_delete_Some. destruct (Ht _ _ H) as ((c' & Hcc' & Hid') & Hni' & Hnone').
    split; [eauto|]. split; [|done]. rewrite fmap_app, elem_of_app. intros [?|Hin]; [done|].
    apply list_elem_of_singleton in Hin as ->. simpl in *. simplify_eq.
  - rewrite fmap_app. apply NoDup_app. split_and!; [done| |apply NoDup_singleton].
    intros x Hx Hin. apply list_elem_of_singleton in Hin as ->. done.
  - intros ch' a [Hin|Hin]%elem_of_app; [eauto|]. apply list_elem_of_singleton in Hin. simplify_eq.
    split; [done|]. eauto.
Qed.

Lemma ack_put_inv s ch out rest :
  pendingInv s -> pd_acking s = (ch, out) :: rest ->
  pd_chan s !! ch = None /\
  pendingInv (mkPending (pd_pending s) (pd_calls s) (<[ch := out]> (pd_chan s)) rest (pd_done s)).
Proof.
  intros (Ht & Hn & Ha & Hc & Hr) E. rewrite E in *. csimpl in *. apply NoDup_cons in Hn as [Hni Hn].
  destruct (Ha ch out) as [Hnone Hcall]; [by left|]. split; [done|].
  unfold pendingInv; simpl. split_and!; try done.
  - intros id ch' H. destruct (Ht _ _ H) as (? & Hnin & ?). apply not_elem_of_cons in Hnin as [? ?].
    split; [done|]. split; [done|]. by rewrite lookup_insert_ne.
  - intros ch' a H. destruct (Ha ch' a) as [? ?]; [by right|]. split; [|done].
    rewrite lookup_insert_ne; [done|]. intros ->. apply Hni. apply list_elem_of_fmap. by exists (ch', a).
  - intros ch' a [[<- <-]|[_ H]]%lookup_insert_Some; eauto.
Qed.

(** The channels [cancelPending] fills. *)
Lemma cancel_chan_lookup (l : list (Z * nat)) a (m : gmap nat ackResult) ch x :
  foldl (fun m '(_, ch) => <[ch := a]> m) m l !! ch = Some x ->
  (x = a /\ ch ∈ l.*2) \/ m !! ch = Some x.
Proof.
  revert m. induction l as [|[id c0] l IH]; intros m H; simpl in H; [auto|].
  apply IH in H as [[-> Hin]|H]; [left; split; [done|]; csimpl; by right|].
  apply lookup_insert_Some in H as [[<- <-]|[_ H]]; [left; split; [done|]; csimpl; by left|auto].
Qed.

Lemma cancel_inv s cause :
  pendingInv s ->
  pendingInv (mkPending ∅ (pd_calls s)
    (foldl (fun m '(_, ch) => <[ch := cancelledAck cause]> m) (pd_chan s) (map_to_list (pd_pending s)))
    (pd_acking s) (pd_done s)).
Proof.
  intros (Ht & Hn & Ha & Hc & Hr).
  assert (Hin : forall ch, ch ∈ (map_to_list (pd_pending s)).*2 -> exists id, pd_pending s !! id = Some ch).
  { intros ch H. apply list_elem_of_fmap in H as ([id ch'] & -> & H). apply elem_of_map_to_list in H. eauto. }
  unfold pendingInv; simpl. split_and!; try done.
  - intros ch a H. destruct (Ha _ _ H) as [Hnone Hcall]. split; [|done].
    destruct (foldl _ _ _ !! ch) as [x|] eqn:E; [|done].
    apply cancel_chan_lookup in E as [[-> E]|E]; [|congruence].
    apply Hin in E as (id & E). destruct (Ht _ _ E) as (_ & Hni & _). destruct Hni.
    apply list_elem_of_fmap. by exists (ch, a).
  - intros ch a H. apply cancel_chan_lookup in H as [[-> E]|E]; [|eauto].
    apply Hin in E as (id & E). destruct (Ht _ _ E) as ((c & Hc' & _) & _). eauto with gosdk.
Qed.

Lemma pendingStep_inv s ev s' : pendingInv s -> pendingStep s ev = Some s' -> pendingInv s'.
Proof.
  intros Hinv H. pose proof Hinv as (Ht & Hn & Ha & Hc & Hr). destruct ev; simpl in H.
  - destruct (pd_calls s !! t) eqn:Ect; [done|]. destruct (pd_pending s !! id) eqn:Ep; simplify_eq.
    + apply set_call_inv; [done|congruence|]. intros ? ? [?|?]; simplify_eq. done.
    + by apply register_inv.
  - destruct (pd_calls s !! t) as [[]|] eqn:Ect; simplify_eq.
    apply set_call_inv; [done|by intros; simplify_eq|]. intros ? ? [?|?]; simplify_eq. done.
  - destruct (pd_calls s !! t) as [[]|] eqn:Ect; simplify_eq.
    apply set_call_inv; [done|by intros; simplify_eq|]. intros ? ? [?|?]; simplify_eq.
  - destruct (pd_calls s !! t) as [[]|] eqn:Ect; try done. destruct (pd_chan s !! t) as [out|] eqn:Eo; simplify_eq.
    apply set_call_inv.
    + apply shrink_inv; [done|done|apply delete_subseteq].
    + simpl. by intros; simplify_eq.
    + intros ? ? [?|?]; simplify_eq. destruct (Hc _ _ Eo) as (c & ? & ?). by simplify_eq.
  - destruct (pd_calls s !! t) as [[]|] eqn:Ect; simplify_eq.
    apply set_call_inv; [done|by intros; simplify_eq|]. intros ? ? [?|?]; simplify_eq. done.
  - destruct (pd_calls s !! t) as [[]|] eqn:Ect; try done. destruct (pd_done s) eqn:Ed; simplify_eq.
    apply set_call_inv; [done|by intros; simplify_eq|]. intros ? ? [?|?]; simplify_eq. done.
  - destruct (pd_calls s !! t) as [[]|] eqn:Ect; simplify_eq.
    apply set_call_inv.
    + apply shrink_inv; [done|apply delete_subseteq|done].
    + simpl. by intros; simplify_eq.
    + intros ? ? [?|?]; simplify_eq. eauto.
  - destruct (pd_pending s !! sy_MetaID d) as [ch|] eqn:Ep; simplify_eq; [|done].
    apply ack_take_inv; [done|done|apply ackFor_ack].
  - destruct (pd_acking s) as [|[ch out] rest] eqn:E; [done|].
    destruct (ack_put_inv _ _ _ _ Hinv E) as [Hnone Hi]. rewrite Hnone in H. by simplify_eq.
  - case_bool; simplify_eq. by apply cancel_inv.
  - simplify_eq. done.
Qed.

Lemma runPending_inv evs s s' : pendingInv s -> runPending s evs = Some s' -> pendingInv s'.
Proof.
  revert s. induction evs as [|ev evs IH]; intros s Hinv H; cbn [runPending] in H; [by simplify_eq|].
  destruct (pendingStep s ev) as [s1|] eqn:E; [|done]. simpl in H. eauto using pendingStep_inv.
Qed.

Lemma startPending_inv : pendingInv startPending.
Proof. unfold pendingInv, startPending; simpl. split_and!; try done; [constructor|set_solver|naive_solver]. Qed.

(** [cancelPending] and the reader's channel send never block. *)
Lemma cancel_enabled s cause : pendingInv s -> is_Some (pendingStep s (PCancel cause)).
Proof.
  intros (Ht & _). simpl. rewrite (proj2 (forallb_forall _ _)); [eauto|].
  intros [id ch] Hin. apply list_elem_of_In, elem_of_map_to_list in Hin. by destruct (Ht _ _ Hin) as (_ & _ & ->).
Qed.

Lemma put_enabled s : pendingInv s -> pd_acking s <> [] -> is_Some (pendingStep s PAckPut).
Proof.
  intros H. destruct (pd_acking s) as [|[ch out] rest] eqn:E; [done|]. intros _. simpl. rewrite E.
  destruct (ack_put_inv _ _ _ _ H E) as [-> _]. eauto.
Qed.

(** C5. In every interleaving of sends, ACKs and the end of the run: the reader is
    never blocked on a waiting channel, nor is [cancelPending]; and what a Send
    returns is an error or the server's answer to its own message id. *)
Theorem pending_acks evs s :
  runPending startPending evs = Some s ->
  (pd_acking s <> [] -> is_Some (pendingStep s PAckPut)) /\
  (forall cause, is_Some (pendingStep s (PCancel cause))) /\
  (forall t id out, pd_calls s !! t = Some (SendReturned id out) -> ackFor id out).
Proof.
  intros H. apply runPending_inv in H; [|apply startPending_inv]. pose proof H as (Ht & _ & _ & _ & Hr). split_and!.
  - by apply put_enabled.
  - intros cause. by apply cancel_enabled.
  - intros t id out Hc. eauto.
Qed.

Definition sampleSync (id : Z) : Sync := mkSync None id 70 nil_slice 0 None false 80.

Lemma pending_acks_witness :
  exists s, runPending startPending [PRegister 0 5; PSent 0; PAckTake (sampleSync 5); PAckPut; PReceive 0; PUnregister 0] = Some s /\
    ackFor 5 (mkAck (Some (mkSendResult 70 5 70 80)) None).
Proof.
  eexists. split; [vm_compute; reflexivity|].
  eapply (pending_acks [PRegister 0 5; PSent 0; PAckTake (sampleSync 5); PAckPut; PReceive 0; PUnregister 0])
    with (t := 0%nat); [vm_compute; reflexivity|vm_compute; reflexivity].
Defined.

(** ** No ACK is lost *)

Definition activeID (c : sendCall) : option Z :=
  match c with SendSending id | SendWaiting id | SendReturning id _ => Some id | SendReturned _ _ => None end.

(** No two calls in progress use one id. *)
Definition distinctActive (s : pendingState) : Prop :=
  forall t t' c c' id, pd_calls s !! t = Some c -> pd_calls s !! t' = Some c' ->
    activeID c = Some id -> activeID c' = Some id -> t = t'.

Fixpoint distinctRun (s : pendingState) (evs : list pendingEvent) : Prop :=
  distinctActive s /\
  match evs with
  | [] => True
  | ev :: evs => match pendingStep s ev with Some s' => distinctRun s' evs | None => True end
  end.

(** A call that waits for its ACK can still be reached. *)
Definition reachableWait (s : pendingState) : Prop :=
  forall t id, pd_calls s !! t = Some (SendSending id) \/ pd_calls s !! t = Some (SendWaiting id) ->
    pd_pending s !! id = Some t \/ t ∈ (pd_acking s).*1 \/ is_Some (pd_chan s !! t).

(** Moving a call to a state in which it no longer waits. *)
Lemma stop_waiting s t c :
  reachableWait s -> (forall id, c <> SendSending id /\ c <> SendWaiting id) -> reachableWait (setCall s t c).
Proof.
  intros H Hc t' id [Ht|Ht]; simpl in Ht; apply lookup_insert_Some in Ht as [[-> Ht]|[_ Ht]];
    try (by destruct (Hc id)); simpl; eauto.
Qed.

Lemma cancel_chan_filled (l : list (Z * nat)) a (m : gmap nat ackResult) ch :
  ch ∈ l.*2 \/ is_Some (m !! ch) -> is_Some (foldl (fun m '(_, ch) => <[ch := a]> m) m l !! ch).
Proof.
  revert m. induction l as [|[id c0] l IH]; intros m H; simpl.
  - destruct H as [H|H]; [by apply not_elem_of_nil in H|done].
  - apply IH. csimpl in *. rewrite elem_of_cons in H. destruct (decide (ch = c0)) as [->|Hne].
    + right. rewrite lookup_insert_eq. eauto.
    + destruct H as [[?|?]|?]; [done|auto|right; by rewrite lookup_insert_ne].
Qed.

Lemma pendingStep_reachable s ev s' :
  distinctActive s -> reachableWait s -> pendingStep s ev = Some s' -> reachableWait s'.
Proof.
  intros Hd Hw H. destruct ev; simpl in H.
  - destruct (pd_calls s !! t) eqn:Ect; [done|]. destruct (pd_pending s !! id) eqn:Ep; simplify_eq.
    + by apply stop_waiting.
    + intros t' id' Hc. simpl in *. destruct (decide (t' = t)) as [->|Hne].
      { rewrite lookup_insert_eq in Hc. left. destruct Hc; simplify_eq. by rewrite lookup_insert_eq. }
      rewrite lookup_insert_ne in Hc by done. destruct (Hw _ _ Hc) as [Hp|?]; [|auto].
      left. rewrite lookup_insert_ne; [done|]. congruence.
  - destruct (pd_calls s !! t) as [[]|] eqn:Ect; simplify_eq. by apply stop_waiting.
  - destruct (pd_calls s !! t) as [[]|] eqn:Ect; simplify_eq.
    intros t' id' Hc. simpl in *. apply Hw. destruct (decide (t' = t)) as [->|Hne].
    + rewrite lookup_insert_eq in Hc. destruct Hc; simplify_eq. auto.
    + by rewrite lookup_insert_ne in Hc by done.
  - destruct (pd_calls s !! t) as [[]|] eqn:Ect; try done. destruct (pd_chan s !! t) as [out|] eqn:Eo; simplify_eq.
    intros t' id' Hc. simpl in *. destruct (decide (t' = t)) as [->|Hne].
    + rewrite lookup_insert_eq in Hc. destruct Hc; simplify_eq.
    + rewrite lookup_insert_ne in Hc by done. rewrite lookup_delete_ne by done. auto.
  - destruct (pd_calls s !! t) as [[]|] eqn:Ect; simplify_eq. by apply stop_waiting.
  - destruct (pd_calls s !! t) as [[]|] eqn:Ect; try done. destruct (pd_done s) eqn:Ed; simplify_eq.
    by apply stop_waiting.
  - destruct (pd_calls s !! t) as [[]|] eqn:Ect; simplify_eq.
    intros t' id' Hc. simpl in *. destruct (decide (t' = t)) as [->|Hne].
    { rewrite lookup_insert_eq in Hc. destruct Hc; simplify_eq. }
    rewrite lookup_insert_ne in Hc by done. destruct (Hw _ _ Hc) as [Hp|?]; [|auto].
    left. rewrite lookup_delete_ne; [done|]. intros ->. apply Hne.
    destruct Hc as [Hc|Hc]; by apply (Hd _ _ _ _ id' Hc Ect).
  - destruct (pd_pending s !! sy_MetaID d) as [ch|] eqn:Ep; simplify_eq; [|done].
    intros t' id' Hc. simpl in *. rewrite fmap_app, elem_of_app. destruct (Hw _ _ Hc) as [Hp|[?|?]]; [|auto..].
    destruct (decide (id' = sy_MetaID d)) as [->|Hne]; [|left; by rewrite lookup_delete_ne].
    simplify_eq. right. left. right. csimpl. by left.
  - destruct (pd_acking s) as [|[ch out] rest] eqn:E; [done|]. destruct (pd_chan s !! ch); simplify_eq.
    intros t' id' Hc. simpl in *. destruct (Hw _ _ Hc) as [?|[Hin|?]]; [auto| |].
    + rewrite E in Hin. csimpl in *. apply elem_of_cons in Hin as [->|?]; [|auto].
      right. right. rewrite lookup_insert_eq. eauto.
    + right. right. destruct (decide (ch = t')) as [->|]; [rewrite lookup_insert_eq; eauto|by rewrite lookup_insert_ne].
  - case_bool; simplify_eq. intros t' id' Hc. simpl in *. right. destruct (Hw _ _ Hc) as [Hp|[?|?]]; [|by left|].
    + right. apply cancel_chan_filled. left. apply list_elem_of_fmap. exists (id', t'). split; [done|].
      by apply elem_of_map_to_list.
    + right. apply cancel_chan_filled. by right.
  - by simplify_eq.
Qed.

Lemma runPending_reachable evs s s' :
  distinctRun s evs -> reachableWait s -> runPending s evs = Some s' -> reachableWait s' /\ distinctActive s'.
Proof.
  revert s. induction evs as [|ev evs IH]; intros s Hd Hw H; cbn [runPending distinctRun] in *; destruct Hd as [Hd Hrest].
  { by simplify_eq. }
  destruct (pendingStep s ev) as [s1|] eqn:E; [|done]. simpl in *. eauto using pendingStep_reachable.
Qed.

(** C6. As long as no two Sends in progress share a message id, no ACK is lost:
    when the server answers a message whose Send still waits, the answer (or an
    earlier outcome) reaches that Send. *)
Theorem ack_reaches_its_send evs s t id d :
  runPending startPending evs = Some s -> distinctRun startPending evs ->
  pd_calls s !! t = Some (SendWaiting id) -> sy_MetaID d = id ->
  exists s', pendingStep s (PAckTake d) = Some s' /\
    (t ∈ (pd_acking s').*1 \/ is_Some (pd_chan s' !! t)).
Proof.
  intros H Hd Hc <-. apply runPending_reachable in H as [Hw _]; [|done|by intros ? ? [?|?]].
  simpl. destruct (Hw t (sy_MetaID d)) as [Hp|Hr]; [by right| |].
  - rewrite Hp. eexists. split; [done|]. simpl. left. rewrite fmap_app, elem_of_app. right. csimpl. by left.
  - destruct (pd_pending s !! sy_MetaID d) as [ch|]; eexists; (split; [done|]); simpl; [|done].
    rewrite fmap_app, elem_of_app. naive_solver.
Qed.

Lemma distinctRun_cons s ev evs s' :
  distinctActive s -> pendingStep s ev = Some s' -> distinctRun s' evs -> distinctRun s (ev :: evs).
Proof. intros Hd Hs Hr. cbn [distinctRun]. by rewrite Hs. Qed.

Lemma one_call_distinct p t c ch a d : distinctActive (mkPending p {[t := c]} ch a d).
Proof. intros t1 t2 c1 c2 id. simpl. rewrite !lookup_singleton_Some. naive_solver. Qed.

Lemma ack_reaches_its_send_witness :
  exists s s', runPending startPending [PRegister 0 5; PSent 0] = Some s /\
    pendingStep s (PAckTake (sampleSync 5)) = Some s' /\ (0%nat ∈ (pd_acking s').*1 \/ is_Some (pd_chan s' !! 0%nat)).
Proof.
  eexists. assert (exists s', pendingStep (mkPending {[5 := 0%nat]} {[0%nat := SendWaiting 5]} ∅ [] false)
    (PAckTake (sampleSync 5)) = Some s' /\ (0%nat ∈ (pd_acking s').*1 \/ is_Some (pd_chan s' !! 0%nat))) as [s' Hs'].
  { apply (ack_reaches_its_send [PRegister 0 5; PSent 0] _ 0 5); [vm_compute; reflexivity| |reflexivity|reflexivity].
    apply (distinctRun_cons _ _ _ (mkPending {[5 := 0%nat]} {[0%nat := SendSending 5]} ∅ [] false));
      [by intros ? ? ? ? ? ?|vm_compute; reflexivity|].
    apply (distinctRun_cons _ _ _ (mkPending {[5 := 0%nat]} {[0%nat := SendWaiting 5]} ∅ [] false));
      [by apply one_call_distinct|vm_compute; reflexivity|]. split; [by apply one_call_distinct|done]. }
  exists s'. split; [vm_compute; reflexivity|done].
Defined.

(** Without that condition an ACK can be lost: call 0 has received its answer
    but not yet run its deferred delete when call 1 registers the same id; the
    delete removes call 1's entry, and the answer to call 1 finds no waiter. *)
Theorem reused_id_loses_ack :
  exists s, runPending startPending
      [PRegister 0 5; PSent 0; PAckTake (sampleSync 5); PAckPut; PReceive 0;
       PRegister 1 5; PSent 1; PUnregister 0; PAckTake (sampleSync 5)] = Some s /\
    pd_calls s !! 1%nat = Some (SendWaiting 5) /\
    pd_pending s = ∅ /\ pd_acking s = [] /\ pd_chan s = ∅.
Proof. eexists. split; [vm_compute; reflexivity|]. by vm_compute. Qed.
