(* ===== verification/Writer.v ===== *)
(** * Writing frames

    sdk/connection.go: [sendFrame], called concurrently, and [writePump], the one
    goroutine that writes to the connection.  A call puts its request into
    [r.writes] and waits for the answer in the channel of its request; each
    select, each channel operation and each write is one step. *)
From Stdlib Require Import String.
From S2P Require Import Prelude Errors Config.
Local Open Scope string_scope.

(** A call of [sendFrame]; its request bears its number. *)
Inductive frameCall :=
| FrameQueueing                              (* in the first select *)
| FrameWaiting                               (* in the second select *)
| FrameChecking                              (* in the select after [<-r.done] *)
| FrameReturned (err : option goerror).

Inductive pumpPC :=
| PumpSelect
| PumpWriting (t : nat)
| PumpAnswering (t : nat) (err : option goerror)
| PumpFailing (err : goerror)
| PumpStopped.

(** [wr_order] is the history of [wr_queue], [wr_written] the frames
    [WriteMessage] accepted. *)
Record writer := mkWriter {
  wr_calls : gmap nat frameCall;
  wr_queue : list nat;                       (* r.writes *)
  wr_answers : gmap nat (option goerror);    (* the done channels, of capacity 1, that hold a value *)
  wr_pump : pumpPC;
  wr_done : bool;                            (* r.done is closed *)
  wr_cancelled : bool;                       (* r.ctx is done *)
  wr_order : list nat;
  wr_written : list nat }.

Definition startWriter : writer := mkWriter ∅ [] ∅ PumpSelect false false [] [].

Definition set_call t c s := mkWriter (<[t := c]> (wr_calls s)) (wr_queue s) (wr_answers s) (wr_pump s) (wr_done s) (wr_cancelled s) (wr_order s) (wr_written s).
Definition set_pump p s := mkWriter (wr_calls s) (wr_queue s) (wr_answers s) p (wr_done s) (wr_cancelled s) (wr_order s) (wr_written s).
Definition take_answer t s := mkWriter (wr_calls s) (wr_queue s) (delete t (wr_answers s)) (wr_pump s) (wr_done s) (wr_cancelled s) (wr_order s) (wr_written s).

Definition streamClosed : goerror := newError ErrStreamClosed "write" "".

Inductive writerOp :=
| WCall (t : nat)
| WQueue (t : nat)                           (* r.writes <- req *)
| WContext (t : nat) (err : goerror)         (* <-ctx.Done() *)
| WDone (t : nat)                            (* <-r.done *)
| WAnswer (t : nat)                          (* err := <-req.done *)
| WNoAnswer (t : nat)                        (* default *)
| PTake                                      (* req := <-r.writes *)
| PWrite (err : option goerror)              (* WriteMessage *)
| PAnswer                                    (* req.done <- ... *)
| PFail                                      (* r.fail(err) *)
| PStop                                      (* <-r.ctx.Done() *)
| RClose                                     (* another failure of the run: close(r.done) ... *)
| RCancel.                                   (* ... and then r.cancel() *)

(** [None] when the step is not possible. *)
Definition writerStep (s : writer) (op : writerOp) : option writer :=
  match op with
  | WCall t => match wr_calls s !! t with None => Some (set_call t FrameQueueing s) | Some _ => None end
  | WQueue t =>
      match wr_calls s !! t with
      | Some FrameQueueing =>
          if (length (wr_queue s) <? writeQueueSize)%nat
          then Some (mkWriter (<[t := FrameWaiting]> (wr_calls s)) (wr_queue s ++ [t]) (wr_answers s) (wr_pump s)
                       (wr_done s) (wr_cancelled s) (wr_order s ++ [t]) (wr_written s))
          else None
      | _ => None
      end
  | WContext t err =>
      match wr_calls s !! t with
      | Some FrameQueueing | Some FrameWaiting => Some (set_call t (FrameReturned (Some err)) s)
      | _ => None
      end
  | WDone t =>
      if wr_done s then
        match wr_calls s !! t with
        | Some FrameQueueing => Some (set_call t (FrameReturned (Some streamClosed)) s)
        | Some FrameWaiting => Some (set_call t FrameChecking s)
        | _ => None
        end
      else None
  | WAnswer t =>
      match wr_calls s !! t, wr_answers s !! t with
      | Some FrameWaiting, Some err | Some FrameChecking, Some err =>
          Some (set_call t (FrameReturned err) (take_answer t s))
      | _, _ => None
      end
  | WNoAnswer t =>
      match wr_calls s !! t, wr_answers s !! t with
      | Some FrameChecking, None => Some (set_call t (FrameReturned (Some streamClosed)) s)
      | _, _ => None
      end
  | PTake =>
      match wr_pump s, wr_queue s with
      | PumpSelect, t :: rest =>
          Some (mkWriter (wr_calls s) rest (wr_answers s) (PumpWriting t) (wr_done s) (wr_cancelled s) (wr_order s) (wr_written s))
      | _, _ => None
      end
  | PWrite err =>
      match wr_pump s with
      | PumpWriting t =>
          Some (mkWriter (wr_calls s) (wr_queue s) (wr_answers s) (PumpAnswering t err) (wr_done s) (wr_cancelled s)
                  (wr_order s) match err with None => (wr_written s ++ [t])%list | Some _ => wr_written s end)
      | _ => None
      end
  | PAnswer =>
      match wr_pump s with
      | PumpAnswering t err =>
          match wr_answers s !! t with
          | Some _ => None
          | None =>
              Some (mkWriter (wr_calls s) (wr_queue s) (<[t := classifyNetworkError "websocket write" err]> (wr_answers s))
                      match err with Some e => PumpFailing e | None => PumpSelect end
                      (wr_done s) (wr_cancelled s) (wr_order s) (wr_written s))
          end
      | _ => None
      end
  | PFail =>
      match wr_pump s with
      | PumpFailing _ =>
          Some (mkWriter (wr_calls s) (wr_queue s) (wr_answers s) PumpStopped true (wr_cancelled s) (wr_order s) (wr_written s))
      | _ => None
      end
  | PStop =>
      match wr_pump s with
      | PumpSelect => if wr_cancelled s then Some (set_pump PumpStopped s) else None
      | _ => None
      end
  | RClose => Some (mkWriter (wr_calls s) (wr_queue s) (wr_answers s) (wr_pump s) true (wr_cancelled s) (wr_order s) (wr_written s))
  | RCancel =>
      if wr_done s
      then Some (mkWriter (wr_calls s) (wr_queue s) (wr_answers s) (wr_pump s) true true (wr_order s) (wr_written s))
      else None
  end.

Fixpoint writerRun (s : writer) (ops : list writerOp) : option writer :=
  match ops with
  | [] => Some s
  | op :: ops => s' ← writerStep s op; writerRun s' ops
  end.

(** ** Invariant *)

Definition pumping (p : pumpPC) : option nat :=
  match p with PumpWriting t | PumpAnswering t _ => Some t | _ => None end.

(** The requests taken from the queue and not written. *)
Definition unwritten (s : writer) (l : list nat) : Prop :=
  match wr_pump s with
  | PumpSelect => l = []
  | PumpWriting t | PumpAnswering t (Some _) => l = [t]
  | PumpAnswering t None => l = [] /\ t ∈ wr_written s
  | PumpFailing _ | PumpStopped => (length l <= 1)%nat
  end.

Record writerInv (s : writer) : Prop := {
  wi_order : exists l, unwritten s l /\ wr_order s = (wr_written s ++ l ++ wr_queue s)%list;
  wi_nodup : NoDup (wr_order s);
  wi_calls : forall t, t ∈ wr_order s -> exists c, wr_calls s !! t = Some c /\ c <> FrameQueueing;
  wi_answers : forall t a, wr_answers s !! t = Some a ->
    t ∉ wr_queue s /\ pumping (wr_pump s) <> Some t /\ t ∈ wr_order s /\ (a = None -> t ∈ wr_written s);
  wi_nil : forall t, wr_calls s !! t = Some (FrameReturned None) -> t ∈ wr_written s;
  wi_waiting : forall t c, wr_calls s !! t = Some c -> c = FrameWaiting \/ c = FrameChecking ->
    t ∈ wr_queue s \/ pumping (wr_pump s) = Some t \/ is_Some (wr_answers s !! t);
  wi_stopped : wr_pump s = PumpStopped -> wr_done s = true;
  wi_cancelled : wr_cancelled s = true -> wr_done s = true }.

Lemma writer_start_inv : writerInv startWriter.
Proof.
  split; simpl; try done; [by exists []|by constructor|by intros t ?%not_elem_of_nil].
Qed.

(** A call that moves on by itself. *)
Lemma writer_call_inv s t c c' :
  writerInv s -> wr_calls s !! t = Some c -> c' <> FrameQueueing -> c' <> FrameReturned None ->
  (c' = FrameWaiting \/ c' = FrameChecking -> c = FrameWaiting \/ c = FrameChecking) ->
  writerInv (set_call t c' s).
Proof.
  intros [I1 I2 I3 I4 I5 I6 I7 I8] Hc Hq Hr Hw. split; simpl; try done.
  - intros u Hu. destruct (decide (u = t)) as [->|]; [rewrite lookup_insert_eq; eauto|rewrite lookup_insert_ne by done; auto].
  - intros u [[<- E]|[_ Hu]]%lookup_insert_Some; [congruence|auto].
  - intros u c0 [[<- <-]|[_ Hu]]%lookup_insert_Some Hc0; [|eauto]. apply (I6 t c Hc). auto.
Qed.

(** A call that receives its answer. *)
Lemma writer_answer_inv s t c a :
  writerInv s -> wr_calls s !! t = Some c -> wr_answers s !! t = Some a ->
  writerInv (set_call t (FrameReturned a) (take_answer t s)).
Proof.
  intros [I1 I2 I3 I4 I5 I6 I7 I8] Hc Ha. split; simpl; try done.
  - intros u Hu. destruct (decide (u = t)) as [->|]; [rewrite lookup_insert_eq; eauto|rewrite lookup_insert_ne by done; auto].
  - intros u b [_ Hu]%lookup_delete_Some. auto.
  - intros u [[<- E]|[_ Hu]]%lookup_insert_Some; [|auto]. injection E as ->. by apply (I4 t None).
  - intros u c0 [[<- <-]|[Hn Hu]]%lookup_insert_Some Hc0; [by destruct Hc0|].
    destruct (I6 u c0 Hu Hc0) as [?|[?|?]]; [auto|auto|]. rewrite lookup_delete_ne by done. auto.
Qed.

Lemma writer_queue_inv s t :
  writerInv s -> wr_calls s !! t = Some FrameQueueing ->
  writerInv (mkWriter (<[t := FrameWaiting]> (wr_calls s)) (wr_queue s ++ [t]) (wr_answers s) (wr_pump s)
               (wr_done s) (wr_cancelled s) (wr_order s ++ [t]) (wr_written s)).
Proof.
  intros [(l & Hl & E) I2 I3 I4 I5 I6 I7 I8] Hc.
  assert (t ∉ wr_order s) as Hnew.
  { intros Hin. destruct (I3 t Hin) as (c & Hc' & Hn). congruence. }
  split; simpl; try done.
  - exists l. split; [done|]. by rewrite E, !app_assoc.
  - apply NoDup_app. split_and!; [done|set_solver|apply NoDup_singleton].
  - intros u Hu. destruct (decide (u = t)) as [->|]; [rewrite lookup_insert_eq; eauto|rewrite lookup_insert_ne by done].
    apply I3. set_solver.
  - intros u a Hu. destruct (I4 u a Hu) as (? & ? & ? & ?). split_and!; [|done|set_solver|done].
    intros [?|Hx]%elem_of_app; [done|]. apply list_elem_of_singleton in Hx as ->. done.
  - intros u [[<- E']|[_ Hu]]%lookup_insert_Some; [congruence|auto].
  - intros u c0 [[<- <-]|[Hn Hu]]%lookup_insert_Some Hc0; [left; set_solver|].
    destruct (I6 u c0 Hu Hc0) as [?|[?|?]]; [left; set_solver|auto|auto].
Qed.

Lemma writer_take_inv s t rest :
  writerInv s -> wr_pump s = PumpSelect -> wr_queue s = t :: rest ->
  writerInv (mkWriter (wr_calls s) rest (wr_answers s) (PumpWriting t) (wr_done s) (wr_cancelled s) (wr_order s) (wr_written s)).
Proof.
  intros [(l & Hl & E) I2 I3 I4 I5 I6 I7 I8] Hp Hq. unfold unwritten in Hl. rewrite Hp in Hl. subst l.
  rewrite Hq in *. split; simpl; try done.
  - exists [t]. split; [done|exact E].
  - intros u a Hu. destruct (I4 u a Hu) as (H1 & _ & ? & ?). split_and!; [set_solver|intros [= ->]; set_solver|done|done].
  - intros u c Hu Hc. destruct (I6 u c Hu Hc) as [Hx|[Hx|?]]; [|rewrite Hp in Hx; done|auto].
    apply elem_of_cons in Hx as [->|?]; auto.
Qed.

Lemma writer_write_inv s t err :
  writerInv s -> wr_pump s = PumpWriting t ->
  writerInv (mkWriter (wr_calls s) (wr_queue s) (wr_answers s) (PumpAnswering t err) (wr_done s) (wr_cancelled s)
    (wr_order s) match err with None => (wr_written s ++ [t])%list | Some _ => wr_written s end).
Proof.
  intros [(l & Hl & E) I2 I3 I4 I5 I6 I7 I8] Hp. unfold unwritten in Hl. rewrite Hp in Hl. subst l. rewrite Hp in *.
  split; simpl; try done.
  - destruct err; [by exists [t]|]. exists []. split; [split; [done|set_solver]|]. rewrite E. simpl. by rewrite <- app_assoc.
  - intros u a Hu. destruct (I4 u a Hu) as (? & ? & ? & Hw). split_and!; [done|done|done|].
    intros Ha. destruct err; [auto|]. apply elem_of_app. auto.
  - intros u Hu. destruct err; [auto|]. apply elem_of_app. auto.
Qed.

Lemma writer_put_inv s t err :
  writerInv s -> wr_pump s = PumpAnswering t err ->
  writerInv (mkWriter (wr_calls s) (wr_queue s) (<[t := classifyNetworkError "websocket write" err]> (wr_answers s))
    match err with Some e => PumpFailing e | None => PumpSelect end (wr_done s) (wr_cancelled s) (wr_order s) (wr_written s)).
Proof.
  intros [(l & Hl & E) I2 I3 I4 I5 I6 I7 I8] Hp. unfold unwritten in Hl. rewrite Hp in Hl, I4, I6.
  split; simpl; try done.
  - exists l. split; [|done]. unfold unwritten. simpl. destruct err; [by subst|by destruct Hl].
  - intros u a [[<- <-]|[Hn Hu]]%lookup_insert_Some.
    + rewrite E in I2. destruct err as [e|].
      * subst l. split_and!; [|done|rewrite E; set_solver|destruct (classify_Some "websocket write" e) as [e' ->]; discriminate].
        simpl in I2. apply NoDup_app in I2 as (_ & _ & I2). by apply NoDup_cons in I2 as [? _].
      * destruct Hl as [-> Hin]. split_and!; [|done|rewrite E; set_solver|done].
        intros Hq. apply NoDup_app in I2 as (_ & I2 & _). by apply (I2 t).
    + destruct (I4 u a Hu) as (? & _ & ? & ?). split_and!; try done. by destruct err.
  - intros u c Hu Hc. destruct (decide (u = t)) as [->|]; [rewrite lookup_insert_eq; eauto|].
    rewrite lookup_insert_ne by done. destruct (I6 u c Hu Hc) as [?|[[= ?]|?]]; [auto|congruence|auto].
  - by destruct err.
Qed.

Lemma writerStep_inv s op s' : writerInv s -> writerStep s op = Some s' -> writerInv s'.
Proof.
  intros I H. pose proof I as [(l & Hl & E) I2 I3 I4 I5 I6 I7 I8]. destruct op as [t|t|t err|t|t|t| |err| | | | |]; simpl in H.
  - destruct (wr_calls s !! t) eqn:Ec; [done|]. injection H as <-.
    assert (t ∉ wr_order s) by (intros (c & Hc & _)%I3; congruence).
    split; simpl; eauto.
    + intros u Hu. rewrite lookup_insert_ne by (by intros ->). auto.
    + intros u [[<- ?]|[_ Hu]]%lookup_insert_Some; [done|auto].
    + intros u c0 [[<- <-]|[_ Hu]]%lookup_insert_Some Hc0; [by destruct Hc0|eauto].
  - destruct (wr_calls s !! t) as [[]|] eqn:Ec; try done. case_bool; [|done]. injection H as <-. by apply writer_queue_inv.
  - destruct (wr_calls s !! t) as [[]|] eqn:Ec; try done; injection H as <-;
      (eapply writer_call_inv; [exact I|exact Ec|done|done|by intros [|]]).
  - destruct (wr_done s); [|done]. destruct (wr_calls s !! t) as [[]|] eqn:Ec; try done; injection H as <-;
      (eapply writer_call_inv; [exact I|exact Ec|done|done|auto]). by intros [|].
  - destruct (wr_calls s !! t) as [[]|] eqn:Ec; try done; destruct (wr_answers s !! t) eqn:Ea; try done;
      injection H as <-; by eapply writer_answer_inv.
  - destruct (wr_calls s !! t) as [[]|] eqn:Ec; try done; destruct (wr_answers s !! t) eqn:Ea; try done;
      injection H as <-. eapply writer_call_inv; [exact I|exact Ec|done|done|by intros [|]].
  - destruct (wr_pump s) eqn:Ep; try done. destruct (wr_queue s) eqn:Eq; try done. injection H as <-. by apply writer_take_inv.
  - destruct (wr_pump s) eqn:Ep; try done. injection H as <-. by apply writer_write_inv.
  - destruct (wr_pump s) eqn:Ep; try done. destruct (wr_answers s !! t); [done|]. injection H as <-. by apply writer_put_inv.
  - destruct (wr_pump s) eqn:Ep; try done. injection H as <-. unfold unwritten in Hl. rewrite Ep in Hl.
    split; simpl; try done. by exists l.
  - destruct (wr_pump s) eqn:Ep; try done. destruct (wr_cancelled s) eqn:Ecn; [|done]. injection H as <-.
    unfold unwritten in Hl. rewrite Ep in Hl. split; simpl; auto. exists l. split; [rewrite Hl; unfold unwritten; simpl; lia|done].
  - injection H as <-. split; simpl; eauto.
  - destruct (wr_done s); [|done]. injection H as <-. split; simpl; eauto.
Qed.

Lemma writerRun_inv ops s s' : writerInv s -> writerRun s ops = Some s' -> writerInv s'.
Proof.
  revert s. induction ops as [|op ops IH]; intros s I H; simpl in H; [by injection H as <-|].
  destruct (writerStep s op) as [s1|] eqn:E; [|done]. eapply IH; [|exact H]. by eapply writerStep_inv.
Qed.

(** ** Properties *)

(** C34. However concurrent calls of [sendFrame] interleave with the pump and with the
    end of the run: frames are written in the order of the queue, each at most
    once, with no gap before the last one written; a call returns nil only when
    its frame was written; a call that waits is in the queue, in the hands of the
    pump, or has its answer ready; and the pump never waits to hand over an
    answer. *)
Theorem writes_in_order ops s :
  writerRun startWriter ops = Some s ->
  (exists l, wr_order s = (wr_written s ++ l)%list) /\ NoDup (wr_order s) /\
  (forall t, wr_calls s !! t = Some (FrameReturned None) -> t ∈ wr_written s) /\
  (wr_pump s <> PumpStopped -> forall t, wr_calls s !! t = Some FrameWaiting ->
     t ∈ wr_queue s \/ pumping (wr_pump s) = Some t \/ is_Some (writerStep s (WAnswer t))) /\
  (forall t err, wr_pump s = PumpAnswering t err -> is_Some (writerStep s PAnswer)).
Proof.
  intros H. pose proof (writerRun_inv _ _ _ writer_start_inv H) as [(l & _ & E) I2 I3 I4 I5 I6 I7 I8].
  split_and!; [by eexists|done|done| |].
  - intros _ t Ht. destruct (I6 t _ Ht (or_introl eq_refl)) as [?|[?|[a Ha]]]; [by left|auto|].
    right; right. simpl. rewrite Ht, Ha. by eexists.
  - intros t err Hp. simpl. rewrite Hp. destruct (wr_answers s !! t) as [a|] eqn:Ea; [|by eexists].
    destruct (I4 t a Ea) as (_ & Hn & _). by rewrite Hp in Hn.
Qed.

Definition finishes (s : writer) (t : nat) : Prop :=
  exists ops s' err, (length ops <= 2)%nat /\
    Forall (fun op => op = WDone t \/ op = WAnswer t \/ op = WNoAnswer t) ops /\
    writerRun s ops = Some s' /\ wr_calls s' !! t = Some (FrameReturned err).

(** When the run has ended, or its pump has stopped, no call is stuck: two steps
    of its own make it return, and a pump between two frames can stop. *)
Theorem writer_unblocks ops s :
  writerRun startWriter ops = Some s ->
  wr_done s = true \/ wr_pump s = PumpStopped ->
  (forall t c, wr_calls s !! t = Some c -> (exists err, c = FrameReturned err) \/ finishes s t) /\
  (wr_cancelled s = true -> wr_pump s = PumpSelect -> is_Some (writerStep s PStop)).
Proof.
  intros H Hd. pose proof (writerRun_inv _ _ _ writer_start_inv H) as I.
  assert (wr_done s = true) as Hd' by (destruct Hd as [?|?]; [done|by apply (wi_stopped _ I)]).
  split; [|intros Hc Hp; simpl; rewrite Hp, Hc; eauto].
  intros t c Ht. destruct c; [| | |left; by eexists]; right.
  - exists [WDone t], (set_call t (FrameReturned (Some streamClosed)) s), (Some streamClosed).
    split_and!; [simpl; lia|rewrite ?Forall_cons; auto|simpl; by rewrite Hd', Ht|apply lookup_insert_eq].
  - destruct (wr_answers s !! t) as [a|] eqn:Ea.
    + exists [WAnswer t], (set_call t (FrameReturned a) (take_answer t s)), a.
      split_and!; [simpl; lia|rewrite ?Forall_cons; auto|simpl; by rewrite Ht, Ea|apply lookup_insert_eq].
    + exists [WDone t; WNoAnswer t], (set_call t (FrameReturned (Some streamClosed)) (set_call t FrameChecking s)), (Some streamClosed).
      split_and!; [simpl; lia|rewrite ?Forall_cons; auto| |apply lookup_insert_eq].
      simpl. rewrite Hd', Ht. simpl. by rewrite lookup_insert_eq, Ea.
  - destruct (wr_answers s !! t) as [a|] eqn:Ea.
    + exists [WAnswer t], (set_call t (FrameReturned a) (take_answer t s)), a.
      split_and!; [simpl; lia|rewrite ?Forall_cons; auto|simpl; by rewrite Ht, Ea|apply lookup_insert_eq].
    + exists [WNoAnswer t], (set_call t (FrameReturned (Some streamClosed)) s), (Some streamClosed).
      split_and!; [simpl; lia|rewrite ?Forall_cons; auto|simpl; by rewrite Ht, Ea|apply lookup_insert_eq].
Qed.

(** Two calls; the second frame fails after the first was written. *)
Definition twoFrames : list writerOp :=
  [WCall 0; WCall 1; WQueue 0; WQueue 1; PTake; PWrite None; PAnswer; WAnswer 0; PTake;
   PWrite (Some (EPlain "reset")); PAnswer; PFail].

Definition twoFramesEnd : writer := default startWriter (writerRun startWriter twoFrames).

Lemma twoFrames_run : writerRun startWriter twoFrames = Some twoFramesEnd.
Proof. by vm_compute. Qed.

Lemma writes_in_order_witness :
  wr_calls twoFramesEnd !! 0%nat = Some (FrameReturned None) /\ 0%nat ∈ wr_written twoFramesEnd.
Proof.
  assert (wr_calls twoFramesEnd !! 0%nat = Some (FrameReturned None)) as H0 by (by vm_compute). split; [exact H0|].
  destruct (writes_in_order twoFrames twoFramesEnd twoFrames_run) as (_ & _ & H & _). exact (H 0%nat H0).
Defined.

Lemma writer_unblocks_witness : wr_calls twoFramesEnd !! 1%nat = Some FrameWaiting /\ finishes twoFramesEnd 1.
Proof.
  assert (wr_calls twoFramesEnd !! 1%nat = Some FrameWaiting) as H1 by (by vm_compute). split; [exact H1|].
  assert (wr_done twoFramesEnd = true) as Hd by (by vm_compute).
  destruct (writer_unblocks twoFrames twoFramesEnd twoFrames_run (or_introl Hd)) as [H _].
  destruct (H 1%nat FrameWaiting H1) as [[err E]|Hf]; [discriminate E|exact Hf].
Defined.
