(* ===== verification/Connection.v ===== *)
(** * The reader and the heartbeat of a connection

    sdk/connection.go: [readPump] reads frames, reserves decode memory, decodes
    and dispatches them; [heartbeat] asks for unread queues and fails the run when
    no answer came for too long.  The run's queues are those of Queue.v, its sends
    those of Pending.v, the decode budget that of ByteBudget.v; here they are
    composed the way the reader uses them. *)
From Stdlib Require Import String.
From S2P Require Import Prelude Protocol Errors Config RetainedWeight ByteBudget ResourceBudgets DeferredRing Queue QueueInvariant Identifiers Message Pending Provisioning.
Local Open Scope string_scope.
Local Open Scope Z_scope.

(** ** State *)

(** A connectionRun seen by its reader: [rd_run] and [rd_pending] are its queues
    and sends, [rd_provision] and [rd_logout] channels of capacity 1,
    [rd_decode] the process-wide budget of frames being decoded. *)
Record reader := mkReader {
  rd_run : connectionRun;
  rd_pending : pendingState;
  rd_provision : option provisionResult;
  rd_logout : option (option goerror);
  rd_lastPong : Z;
  rd_lastInbound : Z;
  rd_decode : byteBudget;
  rd_decodeTimeouts : Z }.

Definition rset_run v s := mkReader v (rd_pending s) (rd_provision s) (rd_logout s) (rd_lastPong s) (rd_lastInbound s) (rd_decode s) (rd_decodeTimeouts s).
Definition rset_pending v s := mkReader (rd_run s) v (rd_provision s) (rd_logout s) (rd_lastPong s) (rd_lastInbound s) (rd_decode s) (rd_decodeTimeouts s).
Definition rset_provision v s := mkReader (rd_run s) (rd_pending s) v (rd_logout s) (rd_lastPong s) (rd_lastInbound s) (rd_decode s) (rd_decodeTimeouts s).
Definition rset_logout v s := mkReader (rd_run s) (rd_pending s) (rd_provision s) v (rd_lastPong s) (rd_lastInbound s) (rd_decode s) (rd_decodeTimeouts s).
Definition rset_lastPong v s := mkReader (rd_run s) (rd_pending s) (rd_provision s) (rd_logout s) v (rd_lastInbound s) (rd_decode s) (rd_decodeTimeouts s).
Definition rset_lastInbound v s := mkReader (rd_run s) (rd_pending s) (rd_provision s) (rd_logout s) (rd_lastPong s) v (rd_decode s) (rd_decodeTimeouts s).
Definition rset_decode v s := mkReader (rd_run s) (rd_pending s) (rd_provision s) (rd_logout s) (rd_lastPong s) (rd_lastInbound s) v (rd_decodeTimeouts s).
Definition add_decodeTimeout s := mkReader (rd_run s) (rd_pending s) (rd_provision s) (rd_logout s) (rd_lastPong s) (rd_lastInbound s) (rd_decode s) (u64 (rd_decodeTimeouts s + 1)).

(** ** Failure

    [fail] records the error, closes [r.done] and hands the failure to the
    waiting sends; once.  [None] is a step that would block for ever. *)
Definition failReader (err : goerror) (s : reader) : option reader :=
  if r_closed (rd_run s) then Some s else
  p ← runPending (rd_pending s) [PClose; PCancel (Some err)];
  Some (rset_pending p (rset_run (fail err (rd_run s)) s)).

(** An operation of Queue.v that may fail the run; its errors are SDKErrors,
    which [fail] records as they are. *)
Definition onQueues (f : connectionRun -> connectionRun) (s : reader) : option reader :=
  let r := f (rd_run s) in
  if negb (r_closed (rd_run s)) && r_closed r then
    p ← runPending (rd_pending s) [PClose; PCancel (r_lastErr r)];
    Some (rset_pending p (rset_run r s))
  else Some (rset_run r s).

(** ** [dispatch] *)

Definition completeACK (d : Sync) (s : reader) : option reader :=
  p ← pendingStep (rd_pending s) (PAckTake d);
  p ← match pd_pending (rd_pending s) !! sy_MetaID d with None => Some p | Some _ => pendingStep p PAckPut end;
  Some (rset_pending p s).

(** The UNREAD case: the error that fails the run, or the queues to start. *)
Definition unreadOutcome (u : option Unread) : result (list JID) :=
  match u with
  | None => Err (newError ErrProtocol "unread" "missing payload")
  | Some u =>
      match un_Status u with
      | Some st =>
          if st_Code st =? StatusRedirect then Err (ERedirect (sl_elems (st_Redirects st)))
          else if negb (st_Code st =? StatusOK) then Err (protocolError "unread" (i32 (st_Code st)) (st_Reason st))
          else Ok (un_Queues u)
      | None => Ok (un_Queues u)
      end
  end.

Definition logoutOutcome (l : option Logout) : option goerror :=
  match l with
  | Some l =>
      match lo_Status l with
      | Some st => if negb (st_Code st =? StatusOK)
                   then Some (protocolError "logout" (i32 (st_Code st)) (st_Reason st)) else None
      | None => None
      end
  | None => None
  end.

Fixpoint startQueues (queues : list JID) (s : reader) : option reader :=
  match queues with
  | [] => Some s
  | j :: queues => s' ← onQueues (startQueue j) s; startQueues queues s'
  end.

(** [cancelFirst] is the choice of [enqueueBatch], [now] the clock. *)
Definition dispatch (cancelFirst : bool) (now : Z) (frame : Frame) (s : reader) : option reader :=
  if fr_Command frame =? CommandProvision then
    Some (rset_provision (tryProvision (provisionOutcome (fr_Provision frame)) (rd_provision s)) s)
  else if fr_Command frame =? CommandUnread then
    match unreadOutcome (fr_Unread frame) with
    | Err err => failReader err s
    | Ok queues => s' ← startQueues queues s; Some (rset_lastPong now s')
    end
  else if fr_Command frame =? CommandNotice then
    match fr_Notice frame with Some j => onQueues (startQueue j) s | None => Some s end
  else if fr_Command frame =? CommandSync then
    match fr_Sync frame with
    | None => failReader (newError ErrProtocol "sync" "missing payload") s
    | Some d => if sy_MetaID d >? 0 then completeACK d s else onQueues (handleBatch cancelFirst d) s
    end
  else if fr_Command frame =? CommandLogout then
    Some (rset_logout match rd_logout s with None => Some (logoutOutcome (fr_Logout frame)) | l => l end s)
  else Some s.

(** ** [decodeAndDispatch]

    [admitted] is what [Acquire] returned: nil needs room in the budget now. *)
Section Codec.
Context `{FrameCodec}.

Definition limitCode (err : goerror) : ErrorCode := if errors_Is ErrLimitExceeded err then ErrProtocolLimit else ErrProtocol.

Definition decodeAndDispatch (cancelFirst : bool) (now : Z) (admitted : option goerror) (data : bytes) (s : reader)
  : option (option goerror * reader) :=
  match decodeAdmissionWeight EstimateDecodeAdmission data with
  | Err err => Some (Some (wrapError (limitCode err) "decode frame" err), s)
  | Ok weight =>
      match admitted with
      | Some err =>
          if r_cancelled (rd_run s) then Some (Some (ESentinel ContextCanceled), s) else
          Some (Some (wrapError ErrHandlerBacklog "decode admission" err),
                if errors_Is ContextDeadlineExceeded err then add_decodeTimeout s else s)
      | None =>
          match tryAcquireLocked (rd_decode s) weight with
          | (Ok true, b) =>
              let s := rset_decode b s in
              out ← match DecodeFrame data with
                    | Err err => Some (Some (wrapError (limitCode err) "decode frame" err), s)
                    | Ok frame => s' ← dispatch cancelFirst now frame s; Some (None, s')
                    end;
              let '(err, s) := out in
              Some (err, rset_decode (snd (releaseLocked (rd_decode s) weight)) s)
          | _ => None
          end
      end
  end.

(** ** [readPump]

    What [ReadMessage] returns; the result says whether the pump goes on. *)
Inductive readMessage :=
| ReadError (err : goerror)
| ReadOther                                     (* not a binary message *)
| ReadFrame (data : bytes) (admitted : option goerror) (cancelFirst : bool).

Definition readStep (now : Z) (m : readMessage) (s : reader) : option (bool * reader) :=
  match m with
  | ReadError err => s' ← failReader err s; Some (false, s')
  | ReadOther => Some (true, s)
  | ReadFrame data admitted cancelFirst =>
      out ← decodeAndDispatch cancelFirst now admitted data (rset_lastInbound now s);
      match out with
      | (None, s') => Some (true, s')
      | (Some err, s') =>
          if r_cancelled (rd_run s') then Some (false, s') else s'' ← failReader err s'; Some (false, s'')
      end
  end.

(** ** [heartbeat]

    One tick; [sendErr] is what [sendFrame] returned. *)
Definition sendUnread (sendErr : option goerror) : option goerror :=
  match EncodeUnread with Err err => Some err | Ok _ => sendErr end.

Definition heartbeatTick (now : Z) (sendErr : option goerror) (s : reader) : option (bool * reader) :=
  if now - rd_lastPong s >? heartbeatTimeout then
    s' ← failReader (newError ErrTimeout "heartbeat" "pong timeout") s; Some (false, s')
  else
    match sendUnread sendErr with
    | Some err => s' ← failReader err s; Some (false, s')
    | None => Some (true, s)
    end.
End Codec.
