(* ===== verification/ConnectionTheory.v ===== *)
(** * Properties of the reader and the heartbeat

    The reader never blocks, what ends it is reported to every waiting Send, the
    decode memory is given back on every path, what it does to the queues and the
    sends are steps of Queue.v and Pending.v, and a silent server is detected. *)
From Stdlib Require Import String.
From S2P Require Import Prelude Protocol Errors Config RetainedWeight ByteBudget ResourceBudgets DeferredRing Queue QueueInvariant QueueTheory Identifiers Message Pending Provisioning Connection.
Local Open Scope string_scope.
Local Open Scope Z_scope.

(** ** The reader never blocks *)

(** Between two frames the reader holds no ACK. *)
Definition readerOk (s : reader) : Prop := pendingInv (rd_pending s) /\ pd_acking (rd_pending s) = [].

Lemma cancel_all p err :
  pendingInv p -> pd_acking p = [] ->
  exists p', runPending p [PClose; PCancel err] = Some p' /\ pendingInv p' /\ pd_acking p' = [] /\ pd_pending p' = ∅ /\ pd_done p' = true.
Proof.
  intros Hp Ha. set (p1 := mkPending (pd_pending p) (pd_calls p) (pd_chan p) (pd_acking p) true).
  assert (pendingInv p1) as H1 by exact Hp. destruct (cancel_enabled p1 err H1) as [p2 H2]. exists p2.
  split; [transitivity (p' ← pendingStep p1 (PCancel err); Some p'); [done|by rewrite H2]|].
  split; [by eapply pendingStep_inv|]. simpl in H2. case_bool; [|done]. by injection H2 as <-.
Qed.

Lemma failReader_ok err s :
  readerOk s -> exists s', failReader err s = Some s' /\ readerOk s' /\ r_closed (rd_run s') = true.
Proof.
  intros [Hp Ha]. unfold failReader. destruct (r_closed (rd_run s)) eqn:E; [by exists s|].
  destruct (cancel_all _ (Some err) Hp Ha) as (p' & -> & Hp' & Ha' & _). simpl. eexists. split; [done|]. split; [by split|].
  simpl. unfold fail. by rewrite E.
Qed.

Lemma onQueues_ok f s :
  readerOk s -> exists s', onQueues f s = Some s' /\ readerOk s' /\ rd_run s' = f (rd_run s) /\
    rd_provision s' = rd_provision s /\ rd_logout s' = rd_logout s /\ rd_decode s' = rd_decode s.
Proof.
  intros [Hp Ha]. unfold onQueues. destruct (negb _ && _).
  - destruct (cancel_all _ (r_lastErr (f (rd_run s))) Hp Ha) as (p' & -> & Hp' & Ha' & _). simpl. by eexists.
  - by eexists.
Qed.

Lemma startQueues_ok queues s : readerOk s -> exists s', startQueues queues s = Some s' /\ readerOk s' /\ rd_decode s' = rd_decode s.
Proof.
  revert s. induction queues as [|j queues IH]; intros s Hs; simpl; [eauto|].
  destruct (onQueues_ok (startQueue j) s Hs) as (s1 & -> & H1 & _ & _ & _ & E). simpl.
  destruct (IH s1 H1) as (s2 & ? & ? & ?). exists s2. split_and!; [done|done|congruence].
Qed.

Lemma completeACK_ok d s : readerOk s -> exists s', completeACK d s = Some s' /\ readerOk s' /\ rd_decode s' = rd_decode s.
Proof.
  intros [Hp Ha]. unfold completeACK. simpl. destruct (pd_pending (rd_pending s) !! sy_MetaID d) as [ch|] eqn:E; simpl; [|by eexists].
  rewrite Ha. simpl. destruct Hp as (Ht & Hrest). destruct (Ht _ _ E) as (_ & _ & ->). simpl.
  eexists. split; [done|]. split; [|done]. split; simpl; [|done].
  eapply (pendingStep_inv _ (PAckPut)); [eapply (pendingStep_inv _ (PAckTake d)); [split; [exact Ht|exact Hrest]|simpl; by rewrite E]|].
  simpl. rewrite Ha. simpl. destruct (Ht _ _ E) as (_ & _ & ->). done.
Qed.

Lemma dispatch_ok c now fr s : readerOk s -> exists s', dispatch c now fr s = Some s' /\ readerOk s' /\ rd_decode s' = rd_decode s.
Proof.
  intros Hs. unfold dispatch.
  assert (forall err, exists s', failReader err s = Some s' /\ readerOk s' /\ rd_decode s' = rd_decode s) as Hfail.
  { intros err. destruct (failReader_ok err s Hs) as (s' & E & H & _). exists s'. split_and!; [done|done|].
    unfold failReader in E. destruct (r_closed _); [by injection E as <-|].
    destruct (runPending _ _); [|done]. by injection E as <-. }
  assert (forall f, exists s', onQueues f s = Some s' /\ readerOk s' /\ rd_decode s' = rd_decode s) as Hq.
  { intros f. destruct (onQueues_ok f s Hs) as (s' & ? & ? & _ & _ & _ & ?). eauto. }
  destruct (fr_Command fr =? CommandProvision); [by eexists|].
  destruct (fr_Command fr =? CommandUnread).
  { destruct (unreadOutcome (fr_Unread fr)) as [queues|err]; [|apply Hfail].
    destruct (startQueues_ok queues s Hs) as (s' & -> & ? & ?). simpl. by eexists. }
  destruct (fr_Command fr =? CommandNotice); [destruct (fr_Notice fr); [apply Hq|by eexists]|].
  destruct (fr_Command fr =? CommandSync).
  { destruct (fr_Sync fr) as [d|]; [|apply Hfail]. destruct (sy_MetaID d >? 0); [by apply completeACK_ok|apply Hq]. }
  destruct (fr_Command fr =? CommandLogout); by eexists.
Qed.

(** ** The queues only see their own operations *)

(** A failed run stays failed, and only [finalizeQueues] finalizes. *)
Definition stable (r r' : connectionRun) : Prop :=
  r_finalized r' = r_finalized r /\ (r_closed r = true -> r_closed r' = true).

#[local] Instance stable_preorder : PreOrder stable.
Proof. split; [by intros r|]. intros r1 r2 r3 [H1 H2] [H3 H4]. split; [congruence|auto]. Qed.

Lemma stable_fail e r : stable r (fail e r).
Proof. unfold fail. destruct (r_closed r) eqn:E; [done|]. split; [done|]. by rewrite E. Qed.

(** Up to the fields a failure sets. *)
Lemma stable_same r r' : r_finalized r' = r_finalized r -> r_closed r' = r_closed r -> stable r r'.
Proof. intros Hf Hc. split; [done|]. by rewrite Hc. Qed.

Lemma stable_ensure r : stable r (ensureQueueStructuresLocked r).
Proof.
  unfold ensureQueueStructuresLocked. destruct (r_queues r); simpl; destruct (dq_items (r_deferred r)); simpl;
    destruct (r_pullRequests r); simpl; destruct (r_queueBudget r); simpl; case_bool; by apply stable_same.
Qed.

Lemma stable_reserve w r : stable r (snd (reserveQueueLocked w r)).
Proof.
  transitivity (ensureQueueStructuresLocked r); [apply stable_ensure|]. unfold reserveQueueLocked.
  generalize (ensureQueueStructuresLocked r) as r0. intros r0.
  destruct (local_TryAcquire _ _) as [[[]|] lb]; simpl; try by apply stable_same.
  destruct (tryAcquireLocked _ _) as [[[]|] pb]; simpl; try by apply stable_same.
  all: destruct (local_Release _ _); by apply stable_same.
Qed.

Lemma stable_enqueue q r : stable r (snd (enqueuePullLocked q r)).
Proof.
  unfold enqueuePullLocked. destruct (l ← q; _) as [[l s]|]; [|done]. case_bool; [done|]. simpl.
  destruct (r_pullRequests r); [case_bool|]; by apply stable_same.
Qed.

Lemma stable_activate l r : stable r (snd (activateOrDeferLocked l r)).
Proof.
  unfold activateOrDeferLocked. case_bool.
  - etransitivity; [|apply stable_enqueue]. by apply stable_same.
  - destruct (ring_Push _ _) as [[] d]; by apply stable_same.
Qed.

Lemma stable_notice l r : stable r (snd (noticeKnown l r)).
Proof.
  unfold noticeKnown. destruct (_ <$> _) as [[]|]; [apply stable_activate|by apply stable_same..].
Qed.

Lemma stable_failScheduled e r : stable r (failScheduled e r).
Proof.
  destruct e as [e|]; simpl; [|done]. transitivity (capacityHit r); [by apply stable_same|apply stable_fail].
Qed.

Lemma stable_startKnown l q j r : stable r (startKnown l q j r).
Proof.
  unfold startKnown.
  match goal with |- context [if ?b then ?x else ?y] => destruct (if b then x else y) as [got r1] eqn:E end.
  assert (stable r r1) as Hr1.
  { revert E. case_bool; intros E; [|by simplify_eq]. change r1 with (snd (got, r1)). rewrite <- E. apply stable_reserve. }
  transitivity r1; [done|]. case_bool; [transitivity (capacityHit r1); [by apply stable_same|apply stable_fail]|].
  set (r2 := upd _ _ _). pose proof (stable_notice l r2) as Hn. destruct (noticeKnown l r2) as [e r3].
  transitivity r3; [|apply stable_failScheduled]. transitivity r2; [by apply stable_same|done].
Qed.

Lemma stable_startNew k j r : stable r (startNew k j r).
Proof.
  unfold startNew. pose proof (stable_reserve (queueRetainedWeight j) r) as Hr.
  destruct (reserveQueueLocked _ _) as [got r1]. transitivity r1; [done|].
  case_bool; [transitivity (capacityHit r1); [by apply stable_same|apply stable_fail]|].
  pose proof (stable_activate (alloc r1) (trackQueue k j (queueRetainedWeight j) r1)) as Ha.
  destruct (activateOrDeferLocked _ _) as [[e|] r2]; (transitivity r2; [by etransitivity; [|exact Ha]; apply stable_same|]); [|done].
  etransitivity; [|apply stable_fail]. unfold forgetQueue. cbn -[local_Release releaseLocked].
  destruct (_ <$> _) as [[]|]; by apply stable_same.
Qed.

Lemma stable_startQueue j r : stable r (startQueue j r).
Proof.
  unfold startQueue. destruct (validateQueueJID j); [apply stable_fail|].
  transitivity (ensureQueueStructuresLocked r); [apply stable_ensure|].
  destruct (l ← _; _) as [[l q]|]; [apply stable_startKnown|apply stable_startNew].
Qed.

Lemma stable_reset k l r : stable r (resetProcessing k l r).
Proof. unfold resetProcessing. case_decide; by apply stable_same. Qed.

Lemma stable_admit c k l d r : stable r (admitBatch c k l d r).
Proof.
  unfold admitBatch. destruct (SyncRetainedWeight _) as [w|e]; [|etransitivity; [apply stable_reset|apply stable_fail]].
  destruct (bc_batchBudget _); [|etransitivity; [apply stable_reset|apply stable_fail]].
  destruct (tryReserveBatchScoped _ _ _ _) as [res st]. cbn zeta.
  etransitivity; [apply (stable_same r (set_client (set_bc_store st (r_client r)) r)); done|].
  case_bool; [etransitivity; [|apply stable_fail]; etransitivity; [apply stable_reset|by apply stable_same]|].
  unfold enqueueBatch. case_bool; [etransitivity; [apply stable_reset|by apply stable_same]|].
  case_bool; [by apply stable_same|]. etransitivity; [|apply stable_fail]. etransitivity; [apply stable_reset|by apply stable_same].
Qed.

Lemma stable_handleBatch c d r : stable r (handleBatch c d r).
Proof.
  unfold handleBatch. destruct (badStatus _ _); [apply stable_fail|]. destruct (sy_Queue d) as [j|]; [|done].
  destruct (validateQueueJID j); [apply stable_fail|]. unfold handleQueueBatch. destruct (l ← _; _) as [[l q]|]; [|done].
  case_bool; [done|]. etransitivity; [|apply stable_admit]. by apply stable_same.
Qed.

(** An operation on the queues that [ops] perform leaves the reader's sends in a
    state steps of Pending.v lead to. *)
Definition refines (s s' : reader) (ops : list queueOp) : Prop :=
  (forall ws hs, queueRun (mkQueueSys (rd_run s) ws hs) ops = Some (mkQueueSys (rd_run s') ws hs)) /\
  exists evs, runPending (rd_pending s) evs = Some (rd_pending s').

Lemma runPending_app s evs evs' s' : runPending s evs = Some s' -> runPending s (evs ++ evs') = runPending s' evs'.
Proof.
  revert s. induction evs as [|ev evs IH]; intros s H; cbn [runPending app] in *; [by simplify_eq|].
  destruct (pendingStep s ev); [|done]. simpl in *. by apply IH.
Qed.

Lemma refines_same s s' : rd_run s' = rd_run s -> rd_pending s' = rd_pending s -> refines s s' [].
Proof. intros Hr Hp. split; [by rewrite Hr|]. exists []. by rewrite Hp. Qed.

Lemma refines_trans s1 s2 s3 ops ops' : refines s1 s2 ops -> refines s2 s3 ops' -> refines s1 s3 (ops ++ ops').
Proof.
  intros [H1 [e1 H2]] [H3 [e2 H4]]. split.
  - intros ws hs. rewrite queueRun_app, (H1 ws hs). apply H3.
  - exists (e1 ++ e2)%list. by rewrite (runPending_app _ _ _ _ H2).
Qed.

Lemma refines_fail err s s' : failReader err s = Some s' -> refines s s' [OpFail err].
Proof.
  unfold failReader. destruct (r_closed (rd_run s)) eqn:E.
  - intros [= <-]. split; [|by exists []]. intros ws hs. cbn [queueRun queueStep mbind option_bind on_run qs_run].
    unfold on_run, fail. simpl. by rewrite E.
  - destruct (runPending _ _) as [p|] eqn:Ep; [|done]. intros [= <-]. split; [done|]. by eexists.
Qed.

Lemma refines_queues f op s s' :
  onQueues f s = Some s' -> (forall ws hs, queueStep (mkQueueSys (rd_run s) ws hs) op = Some (mkQueueSys (f (rd_run s)) ws hs)) ->
  refines s s' [op].
Proof.
  unfold onQueues. intros H Hop. assert (rd_run s' = f (rd_run s) /\ exists evs, runPending (rd_pending s) evs = Some (rd_pending s')) as [E Hp].
  { destruct (negb _ && _); [|injection H as <-; split; [done|by exists []]].
    destruct (runPending _ _) as [p|] eqn:Ep; [|done]. injection H as <-. split; [done|]. by eexists. }
  split; [|done]. intros ws hs. cbn [queueRun]. rewrite Hop. by rewrite E.
Qed.

Lemma refines_notice j s s' :
  r_finalized (rd_run s) = false -> onQueues (startQueue j) s = Some s' -> refines s s' [OpNotice j].
Proof. intros Hf H. eapply refines_queues; [done|]. intros ws hs. cbn [queueStep qs_run]. by rewrite Hf. Qed.

Lemma refines_unread queues s s' :
  r_finalized (rd_run s) = false -> startQueues queues s = Some s' -> refines s s' (OpNotice <$> queues).
Proof.
  revert s. induction queues as [|j queues IH]; intros s Hf H; cbn [startQueues] in H.
  { injection H as <-. by apply refines_same. }
  destruct (onQueues (startQueue j) s) as [s1|] eqn:E; [|done]. cbn [mbind option_bind] in H.
  csimpl. apply (refines_trans _ s1 _ [_]); [by apply refines_notice|]. apply IH; [|done].
  assert (rd_run s1 = startQueue j (rd_run s)) as ->; [|by rewrite (proj1 (stable_startQueue j _))].
  unfold onQueues in E. destruct (negb _ && _); [|by injection E as <-].
  destruct (runPending _ _); [|done]. by injection E as <-.
Qed.

Lemma refines_ack d s s' : completeACK d s = Some s' -> refines s s' [].
Proof.
  unfold completeACK. destruct (pendingStep (rd_pending s) (PAckTake d)) as [p|] eqn:E; [|done]. cbn [mbind option_bind].
  destruct (pd_pending (rd_pending s) !! sy_MetaID d).
  - destruct (pendingStep p PAckPut) as [p'|] eqn:E'; [|done]. intros [= <-]. split; [done|].
    exists [PAckTake d; PAckPut]. cbn [runPending]. rewrite E. cbn [mbind option_bind]. by rewrite E'.
  - intros [= <-]. split; [done|]. exists [PAckTake d]. cbn [runPending]. by rewrite E.
Qed.

(** The queue operations a frame stands for. *)
Definition frameOps (c : bool) (frame : Frame) : list queueOp :=
  if fr_Command frame =? CommandProvision then []
  else if fr_Command frame =? CommandUnread then
    match unreadOutcome (fr_Unread frame) with Err err => [OpFail err] | Ok queues => OpNotice <$> queues end
  else if fr_Command frame =? CommandNotice then
    match fr_Notice frame with Some j => [OpNotice j] | None => [] end
  else if fr_Command frame =? CommandSync then
    match fr_Sync frame with
    | None => [OpFail (newError ErrProtocol "sync" "missing payload")]
    | Some d => if sy_MetaID d >? 0 then [] else [OpBatch c d]
    end
  else [].

(** C25. Dispatching a frame performs exactly the operations of Queue.v it stands for
    (a NOTICE per unread queue, one for a NOTICE, one batch for a SYNC without a
    meta id, a failure for an unusable UNREAD or SYNC, nothing for the other
    commands), and what it does to the sends are steps of Pending.v: what is
    proved of those holds of every run its reader drives. *)
Theorem dispatch_refines c now frame s s' :
  r_finalized (rd_run s) = false -> dispatch c now frame s = Some s' -> refines s s' (frameOps c frame).
Proof.
  intros Hf. unfold dispatch, frameOps.
  destruct (fr_Command frame =? CommandProvision); [intros [= <-]; by apply refines_same|].
  destruct (fr_Command frame =? CommandUnread).
  { destruct (unreadOutcome _) as [queues|err]; [|apply refines_fail].
    destruct (startQueues queues s) as [s1|] eqn:E; [|done]. intros [= <-]. by apply refines_unread in E. }
  destruct (fr_Command frame =? CommandNotice).
  { destruct (fr_Notice frame); [by apply refines_notice|]. intros [= <-]. by apply refines_same. }
  destruct (fr_Command frame =? CommandSync).
  { destruct (fr_Sync frame) as [d|]; [|apply refines_fail].
    destruct (sy_MetaID d >? 0); [apply refines_ack|]. intros H. eapply refines_queues; [exact H|].
    intros ws hs. cbn [queueStep qs_run]. by rewrite Hf. }
  destruct (fr_Command frame =? CommandLogout); intros [= <-]; by apply refines_same.
Qed.

(** ** What ends the reader *)

Lemma decode_weight_pos est data w : decodeAdmissionWeight est data = Ok w -> 0 < w <= decodeAdmissionMaxBytes.
Proof.
  unfold decodeAdmissionWeight. destruct est as [f|]; [|intros [= <-]; done].
  destruct (f data) as [[]|]; simpl; try done; by intros [= <-].
Qed.

(** A granted reservation is returned in full, without an invariant failure. *)
Lemma grant_returned b w b' :
  budget_ok b -> 0 < w -> tryAcquireLocked b w = (Ok true, b') ->
  exists b'', releaseLocked b' w = (None, b'') /\ budget_ok b'' /\ bb_used b'' = bb_used b.
Proof.
  intros Hb Hw. rewrite (tryAcquireLocked_spec _ _ Hb).
  do 3 (case_bool; [done|]). intros [= <-]. breflect. pose proof (bo_used _ Hb).
  destruct (release_exact (set_used (bb_used b + w) b) w) as (b'' & E & Hok & _ & Hu).
  - apply set_used_ok; [done|lia].
  - simpl. lia.
  - exists b''. simpl in Hu. split_and!; [|done|lia]. done.
Qed.

Lemma cancel_chan_value (l : list (Z * nat)) a (m : gmap nat ackResult) ch :
  ch ∈ l.*2 -> foldl (fun m '(_, ch) => <[ch := a]> m) m l !! ch = Some a.
Proof.
  revert m. induction l as [|[id c0] l IH]; intros m H; csimpl in *; [by apply not_elem_of_nil in H|].
  destruct (decide (ch ∈ l.*2)) as [Hin|Hni]; [by apply IH|]. apply elem_of_cons in H as [->|?]; [|done].
  clear IH. assert (forall m : gmap nat ackResult, m !! c0 = Some a ->
    foldl (fun m '(_, ch) => <[ch := a]> m) m l !! c0 = Some a) as Hkeep; [|apply Hkeep, lookup_insert_eq].
  clear m. induction l as [|[id' c1] l IH]; intros m Hm; csimpl in *; [done|].
  apply not_elem_of_cons in Hni as [Hne Hni]. apply IH; [done|]. by rewrite lookup_insert_ne.
Qed.

(** The run ended with [err]: it is the run's error, no Send waits any more and
    every one that did is told. *)
Definition endedWith (err : goerror) (s s' : reader) : Prop :=
  r_closed (rd_run s') = true /\ r_cancelled (rd_run s') = true /\
  r_lastErr (rd_run s') = classifyNetworkError "connection" (Some err) /\
  r_queues (rd_run s') = r_queues (rd_run s) /\
  pd_pending (rd_pending s') = ∅ /\ pd_done (rd_pending s') = true /\
  forall id ch, pd_pending (rd_pending s) !! id = Some ch -> pd_chan (rd_pending s') !! ch = Some (cancelledAck (Some err)).

Lemma failReader_ends err s s' :
  r_closed (rd_run s) = false -> failReader err s = Some s' ->
  endedWith err s s' /\ rd_decode s' = rd_decode s /\ rd_lastPong s' = rd_lastPong s.
Proof.
  intros Ho. unfold failReader. rewrite Ho. cbn [runPending pendingStep mbind option_bind].
  case_bool; [|done]. intros [= <-]. split; [|done]. unfold endedWith, fail. cbn. rewrite Ho. split_and!; try done.
  intros id ch H. apply cancel_chan_value, list_elem_of_fmap. exists (id, ch). split; [done|].
  by apply elem_of_map_to_list.
Qed.

Section Reading.
Context `{FrameCodec}.

(** What makes a message end the pump. *)
Definition readFailure (m : readMessage) : option goerror :=
  match m with
  | ReadError err => Some err
  | ReadOther => None
  | ReadFrame data admitted _ =>
      match decodeAdmissionWeight EstimateDecodeAdmission data, admitted with
      | Err err, _ => Some (wrapError (limitCode err) "decode frame" err)
      | Ok _, Some err => Some (wrapError ErrHandlerBacklog "decode admission" err)
      | Ok _, None =>
          match DecodeFrame data with Err err => Some (wrapError (limitCode err) "decode frame" err) | Ok _ => None end
      end
  end.

Lemma decodeAndDispatch_cases c now admitted data s :
  readerOk s -> budget_ok (rd_decode s) -> r_cancelled (rd_run s) = false ->
  forall err s', decodeAndDispatch c now admitted data s = Some (err, s') ->
  err = readFailure (ReadFrame data admitted c) /\ readerOk s' /\ budget_ok (rd_decode s') /\
  bb_used (rd_decode s') = bb_used (rd_decode s) /\ (err <> None -> rd_run s' = rd_run s /\ rd_pending s' = rd_pending s).
Proof.
  intros Hs Hb Hc err s'. unfold decodeAndDispatch, readFailure.
  destruct (decodeAdmissionWeight _ data) as [w|e] eqn:Ew; [|by intros [= <- <-]].
  destruct admitted as [e|]; [rewrite Hc; intros [= <- <-]; by case_bool|].
  apply decode_weight_pos in Ew as [Hw _].
  destruct (tryAcquireLocked (rd_decode s) w) as [[[]|] b] eqn:Et; try done.
  destruct (grant_returned _ _ _ Hb Hw Et) as (b'' & Er & Hok & Hu).
  destruct (DecodeFrame data) as [frame|e]; cbn [mbind option_bind].
  - destruct (dispatch_ok c now frame (rset_decode b s) Hs) as (s1 & E1 & H1 & Hd). rewrite E1. cbn [mbind option_bind].
    intros [= <- <-]. rewrite Hd. cbn [rd_decode rset_decode]. rewrite Er. by split_and!.
  - intros [= <- <-]. cbn [rd_decode rset_decode]. rewrite Er. by split_and!.
Qed.

(** [Acquire] returned nil: the reservation was granted. *)
Definition admissible (m : readMessage) (s : reader) : Prop :=
  match m with
  | ReadFrame data None _ =>
      forall w, decodeAdmissionWeight EstimateDecodeAdmission data = Ok w -> exists b, tryAcquireLocked (rd_decode s) w = (Ok true, b)
  | _ => True
  end.

Lemma decodeAndDispatch_runs c now admitted data s :
  readerOk s -> admissible (ReadFrame data admitted c) s ->
  exists out, decodeAndDispatch c now admitted data s = Some out.
Proof.
  intros Hs Had. unfold decodeAndDispatch. destruct (decodeAdmissionWeight _ data) as [w|e] eqn:Ew; [|by eexists].
  destruct admitted as [e|]; [case_bool; by eexists|]. destruct (Had _ Ew) as [b ->].
  destruct (DecodeFrame data) as [frame|e]; cbn [mbind option_bind]; [|by eexists].
  destruct (dispatch_ok c now frame (rset_decode b s) Hs) as (s1 & -> & _). by eexists.
Qed.

(** C26. The reader never blocks on a message, whatever the other goroutines do with
    the sends and the queues between its steps.  A transport error, an
    inadmissible, a malformed or an over-limit frame ends the pump and the run of
    an open connection with that error (a limit as ErrProtocolLimit, no room for
    decoding as ErrHandlerBacklog): every waiting Send is told its outcome is
    unknown with that cause, and no queue is touched; after any other message the
    pump goes on.  On every path the memory reserved for decoding is given back. *)
Theorem read_failure_ends_the_run now m s :
  readerOk s -> budget_ok (rd_decode s) -> r_closed (rd_run s) = false -> r_cancelled (rd_run s) = false ->
  admissible m s ->
  exists go s', readStep now m s = Some (go, s') /\
    match readFailure m with
    | Some err => go = false /\ endedWith err s s'
    | None => go = true
    end /\ readerOk s' /\ bb_used (rd_decode s') = bb_used (rd_decode s).
Proof.
  intros Hs Hb Ho Hc Had. destruct m as [err| |data admitted c]; cbn [readStep].
  - destruct (failReader_ok err s Hs) as (s1 & E & H1 & _). rewrite E. do 2 eexists. split; [done|].
    apply failReader_ends in E as (? & -> & _); [|done]. done.
  - by do 2 eexists.
  - destruct (decodeAndDispatch_runs c now admitted data (rset_lastInbound now s) Hs Had) as [[err s1] E]. rewrite E.
    cbn [mbind option_bind]. apply decodeAndDispatch_cases in E as (<- & H1 & Hb1 & Hu & Hsame); [|done..].
    destruct err as [err|]; [|by do 2 eexists]. destruct (Hsame ltac:(done)) as [Hr Hp]. rewrite Hr. cbn [rd_run rset_lastInbound].
    rewrite Hc. destruct (failReader_ok err s1 H1) as (s2 & E & H2 & _). rewrite E. do 2 eexists. split; [done|].
    apply failReader_ends in E as (He & -> & _); [|by rewrite Hr]. split; [|done]. split; [done|].
    unfold endedWith in *. by rewrite Hr, Hp in He.
Qed.
End Reading.

(** ** A silent server

    What the reader and the heartbeat of one connection do, in any order; a
    stopped goroutine does nothing more. *)
Inductive connEvent :=
| EvRead (now : Z) (m : readMessage)
| EvTick (now : Z) (sendErr : option goerror).

Record connState := mkConn { cn_reader : reader; cn_reading : bool; cn_beating : bool }.

Section Heartbeat.
Context `{FrameCodec}.

Definition connStep (s : connState) (ev : connEvent) : option connState :=
  match ev with
  | EvRead now m =>
      if cn_reading s then out ← readStep now m (cn_reader s); Some (mkConn (snd out) (fst out) (cn_beating s)) else Some s
  | EvTick now sendErr =>
      if cn_beating s then out ← heartbeatTick now sendErr (cn_reader s); Some (mkConn (snd out) (cn_reading s) (fst out)) else Some s
  end.

Fixpoint connRun (s : connState) (evs : list connEvent) : option connState :=
  match evs with [] => Some s | ev :: evs => s' ← connStep s ev; connRun s' evs end.

(** A message that answers the heartbeat. *)
Definition answersUnread (m : readMessage) : bool :=
  match m with
  | ReadFrame data None _ =>
      match DecodeFrame data with
      | Ok frame => (fr_Command frame =? CommandUnread) && is_ok (unreadOutcome (fr_Unread frame))
      | Err _ => false
      end
  | _ => false
  end.

(** Nothing but an answer refreshes [lastPong], and a failed run stays failed. *)
Definition quiet (s s' : reader) : Prop :=
  rd_lastPong s' = rd_lastPong s /\ (r_closed (rd_run s) = true -> r_closed (rd_run s') = true).

Lemma quiet_fail err s s' : failReader err s = Some s' -> quiet s s' /\ r_closed (rd_run s') = true.
Proof.
  unfold failReader, quiet. destruct (r_closed (rd_run s)) eqn:E; [by intros [= <-]|].
  destruct (runPending _ _); [|done]. intros [= <-]. cbn. unfold fail. by rewrite E.
Qed.

Lemma onQueues_quiet f s s' : (forall r, stable r (f r)) -> onQueues f s = Some s' -> quiet s s'.
Proof.
  intros Hf. unfold onQueues, quiet. destruct (negb _ && _); [destruct (runPending _ _); [|done]|];
    intros [= <-]; (split; [done|apply Hf]).
Qed.

Lemma startQueues_quiet queues s s' : startQueues queues s = Some s' -> quiet s s'.
Proof.
  revert s. induction queues as [|j queues IH]; intros s; cbn [startQueues]; [by intros [= <-]|].
  destruct (onQueues (startQueue j) s) as [s1|] eqn:E; [|done]. cbn [mbind option_bind]. intros H1.
  apply onQueues_quiet in E as [E1 E2]; [|apply stable_startQueue]. apply IH in H1 as [H1 H2].
  split; [congruence|auto].
Qed.

Lemma dispatch_quiet c now frame s s' :
  dispatch c now frame s = Some s' ->
  (r_closed (rd_run s) = true -> r_closed (rd_run s') = true) /\
  ((fr_Command frame =? CommandUnread) && is_ok (unreadOutcome (fr_Unread frame)) = false -> rd_lastPong s' = rd_lastPong s).
Proof.
  unfold dispatch. destruct (fr_Command frame =? CommandProvision); [by intros [= <-]|].
  destruct (fr_Command frame =? CommandUnread).
  { destruct (unreadOutcome _) as [q|err]; [|intros E; by apply quiet_fail in E as [[? ?] _]].
    destruct (startQueues q s) as [s1|] eqn:E; [|done]. intros [= <-]. by apply startQueues_quiet in E as [_ ?]. }
  destruct (fr_Command frame =? CommandNotice).
  { destruct (fr_Notice frame); [|by intros [= <-]]. intros E. by apply onQueues_quiet in E as [? ?]; [|apply stable_startQueue]. }
  destruct (fr_Command frame =? CommandSync).
  { destruct (fr_Sync frame) as [d|]; [|intros E; by apply quiet_fail in E as [[? ?] _]].
    destruct (sy_MetaID d >? 0); [|intros E; by apply onQueues_quiet in E as [? ?]; [|apply stable_handleBatch]].
    unfold completeACK. destruct (pendingStep (rd_pending s) (PAckTake d)) as [p|]; [|done]. cbn [mbind option_bind].
    destruct (pd_pending _ !! _); [destruct (pendingStep p PAckPut); [|done]|]; by intros [= <-]. }
  destruct (fr_Command frame =? CommandLogout); by intros [= <-].
Qed.

Lemma decode_quiet c now admitted data s err s' :
  decodeAndDispatch c now admitted data s = Some (err, s') ->
  (r_closed (rd_run s) = true -> r_closed (rd_run s') = true) /\
  (answersUnread (ReadFrame data admitted c) = false -> rd_lastPong s' = rd_lastPong s).
Proof.
  unfold decodeAndDispatch, answersUnread. destruct (decodeAdmissionWeight _ data) as [w|e]; [|by intros [= <- <-]].
  destruct admitted as [e|]; [destruct (r_cancelled _); [|destruct (errors_Is _ _)]; by intros [= <- <-]|].
  destruct (tryAcquireLocked _ w) as [[[]|] b]; try done. destruct (DecodeFrame data) as [frame|e]; cbn [mbind option_bind].
  - destruct (dispatch c now frame (rset_decode b s)) as [s1|] eqn:E; [|done]. cbn [mbind option_bind].
    intros [= <- <-]. by apply dispatch_quiet in E.
  - by intros [= <- <-].
Qed.

Lemma read_quiet now m s go s' :
  readStep now m s = Some (go, s') ->
  (r_closed (rd_run s) = true -> r_closed (rd_run s') = true) /\ (answersUnread m = false -> rd_lastPong s' = rd_lastPong s).
Proof.
  destruct m as [err| |data admitted c]; cbn [readStep].
  - destruct (failReader err s) as [s1|] eqn:E; [|done]. intros [= <- <-]. by apply quiet_fail in E as [[? ?] _].
  - by intros [= <- <-].
  - destruct (decodeAndDispatch _ _ _ _ _) as [[[err|] s1]|] eqn:E; cbn [mbind option_bind]; [| |done];
      apply decode_quiet in E as [E1 E2]; [|by intros [= <- <-]].
    destruct (r_cancelled _); [by intros [= <- <-]|]. destruct (failReader err s1) as [s2|] eqn:E3; [|done].
    intros [= <- <-]. apply quiet_fail in E3 as [[E3 E4] _]. split; [by auto|]. intros Ha. rewrite E3. by apply E2.
Qed.

Lemma tick_quiet now e s go s' :
  heartbeatTick now e s = Some (go, s') -> quiet s s' /\ (go = false -> r_closed (rd_run s') = true) /\
  (now - rd_lastPong s > heartbeatTimeout -> go = false).
Proof.
  unfold heartbeatTick. destruct (now - rd_lastPong s >? heartbeatTimeout) eqn:E; breflect.
  - destruct (failReader _ s) as [s1|] eqn:E1; [|done]. intros [= <- <-]. by apply quiet_fail in E1 as [? ?].
  - destruct (sendUnread e) as [err|].
    + destruct (failReader err s) as [s1|] eqn:E1; [|done]. intros [= <- <-]. by apply quiet_fail in E1 as [? ?].
    + intros [= <- <-]. split_and!; [done..|lia].
Qed.

(** The heartbeat stops only when the run has failed. *)
Lemma connRun_stops s evs s' :
  connRun s evs = Some s' -> (cn_beating s = false -> r_closed (rd_run (cn_reader s)) = true) ->
  Forall (fun ev => match ev with EvRead _ m => answersUnread m = false | EvTick _ _ => True end) evs ->
  (r_closed (rd_run (cn_reader s)) = true \/
   Exists (fun ev => match ev with EvTick now _ => now - rd_lastPong (cn_reader s) > heartbeatTimeout | EvRead _ _ => False end) evs) ->
  r_closed (rd_run (cn_reader s')) = true.
Proof.
  revert s. induction evs as [|ev evs IH]; intros s Hr Hb Hq Hex; cbn [connRun] in Hr.
  { injection Hr as <-. destruct Hex as [?|Hex]; [done|by apply Exists_nil in Hex]. }
  destruct (connStep s ev) as [s1|] eqn:E; [|done]. cbn [mbind option_bind] in Hr. apply Forall_cons in Hq as [Hev Hq].
  apply (IH s1 Hr); [| done |]; destruct ev as [now m|now e]; cbn [connStep] in E.
  - destruct (cn_reading s); [|by injection E as <-]. destruct (readStep now m _) as [[go s2]|] eqn:E1; [|done].
    injection E as <-. cbn. intros Hb'. apply read_quiet in E1 as [E1 _]. by apply E1, Hb.
  - destruct (cn_beating s) eqn:Hbs; [|injection E as <-; by rewrite Hbs]. destruct (heartbeatTick now e _) as [[go s2]|] eqn:E1; [|done].
    injection E as <-. cbn. by apply tick_quiet in E1 as (_ & ? & _).
  - destruct (cn_reading s) eqn:Hrs; [|injection E as <-; rewrite Exists_cons in Hex; tauto].
    destruct (readStep now m _) as [[go s2]|] eqn:E1; [|done]. injection E as <-. cbn. apply read_quiet in E1 as [E1 E2].
    rewrite (E2 Hev). rewrite Exists_cons in Hex. destruct Hex as [?|[[]|?]]; [left; auto|by right].
  - destruct (cn_beating s) eqn:Hbs; [|injection E as <-; left; auto]. destruct (heartbeatTick now e _) as [[go s2]|] eqn:E1; [|done].
    injection E as <-. cbn. apply tick_quiet in E1 as ([E1 E2] & E3 & E4). rewrite E1.
    rewrite Exists_cons in Hex. destruct Hex as [?|[?|?]]; [left; auto|left; auto|by right].
Qed.

(** C33. A server that stopped answering is detected: while no UNREAD answer arrives, a
    run does not survive the third heartbeat after the last one, whatever else it
    receives and whatever the results of the heartbeats' sends. *)
Theorem silent_server_detected evs s s' t0 sendErr :
  connRun s evs = Some s' -> cn_beating s = true -> rd_lastPong (cn_reader s) < t0 ->
  (forall now m, EvRead now m ∈ evs -> answersUnread m = false) ->
  EvTick (t0 + 2 * heartbeatInterval) sendErr ∈ evs ->
  r_closed (rd_run (cn_reader s')) = true.
Proof.
  intros Hr Hb Ht Hq Hin. apply (connRun_stops s evs); [done|congruence| |].
  - apply Forall_forall. intros [now m|] Hev; [|done]. by apply (Hq now).
  - right. apply Exists_exists. eexists. split; [exact Hin|]. cbn beta iota. unfold heartbeatInterval, heartbeatTimeout, time_Second. lia.
Qed.
End Heartbeat.

(** ** A concrete connection

    One Send waits for its ACK; the codec accepts no frame. *)
Definition demo_pending : pendingState := mkPending {[5 := 0%nat]} {[0%nat := SendWaiting 5]} ∅ [] false.

Definition demo_reader : reader :=
  mkReader (qs_run demo_start) demo_pending None None 0 0 (mkByteBudget processDecodeBudgetBytes 0 (Some 0%nat) 1 []) 0.

Definition demo_notice : Frame := mkFrame CommandNotice 0 None None (Some demo_jid) None None.

Lemma demo_reader_ok : readerOk demo_reader.
Proof.
  split; [|done]. split_and!; simpl.
  - intros id ch [<- <-]%lookup_singleton_Some. split; [|split; [by apply not_elem_of_nil|done]].
    eexists. by rewrite lookup_singleton_eq.
  - constructor.
  - intros ch a H. by apply not_elem_of_nil in H.
  - intros ch a H. by rewrite lookup_empty in H.
  - intros t id out [H|H]; by apply lookup_singleton_Some in H as [_ H].
Qed.

Lemma demo_decode_ok : budget_ok (rd_decode demo_reader).
Proof. apply empty_budget_ok. by vm_compute. Qed.

Lemma dispatch_refines_witness :
  exists s', dispatch false 1 demo_notice demo_reader = Some s' /\ refines demo_reader s' [OpNotice demo_jid].
Proof.
  destruct (onQueues_ok (startQueue demo_jid) demo_reader demo_reader_ok) as (s' & E & _). exists s'. split; [exact E|].
  exact (dispatch_refines false 1 demo_notice demo_reader s' eq_refl E).
Defined.

(** A frame the codec refuses: the Send learns that its outcome is unknown. *)
Lemma read_failure_ends_the_run_witness :
  exists s' err, @readStep handshakeCodec 7 (ReadFrame [1] None false) demo_reader = Some (false, s') /\
    r_closed (rd_run s') = true /\ pd_chan (rd_pending s') !! 0%nat = Some (cancelledAck (Some err)).
Proof.
  destruct (@read_failure_ends_the_run handshakeCodec 7 (ReadFrame [1] None false) demo_reader
    demo_reader_ok demo_decode_ok eq_refl eq_refl) as (go & s' & E & (-> & Hclosed & _ & _ & _ & _ & _ & Hsends) & _).
  { intros w [= <-]. eexists. reflexivity. }
  exists s'. eexists. split; [exact E|]. split; [exact Hclosed|]. apply (Hsends 5). apply lookup_singleton_eq.
Defined.

Definition demo_conn : connState := mkConn demo_reader true true.

(** No answer since 0; the heartbeats at 1 ns, 120 s and 240 s later. *)
Definition demo_beats : list connEvent :=
  [EvTick 1 None; EvTick (1 + heartbeatInterval) None; EvTick (1 + 2 * heartbeatInterval) None].

Lemma silent_server_detected_witness :
  exists s', @connRun handshakeCodec demo_conn demo_beats = Some s' /\ r_closed (rd_run (cn_reader s')) = true.
Proof.
  eexists. assert (@connRun handshakeCodec demo_conn demo_beats = Some
    (mkConn (rset_pending (mkPending ∅ {[0%nat := SendWaiting 5]}
       (<[0%nat := cancelledAck (Some (newError ErrTimeout "heartbeat" "pong timeout"))]> ∅) [] true)
       (rset_run (fail (newError ErrTimeout "heartbeat" "pong timeout") (rd_run demo_reader)) demo_reader)) true false)) as E
    by (by vm_compute).
  split; [exact E|].
  refine (@silent_server_detected handshakeCodec demo_beats demo_conn _ 1 None E eq_refl _ _ _).
  - done.
  - intros now m. unfold demo_beats. rewrite !elem_of_cons, elem_of_nil. intros [?|[?|[?|[]]]]; discriminate.
  - unfold demo_beats. rewrite !elem_of_cons. auto.
Defined.
