(* ===== verification/Construct.v ===== *)
(** * Making a Client and a connection

    sdk/client.go, [New]; sdk/connection.go, [dial], [connectEndpoint]: the states
    the other components start from. *)
From Stdlib Require Import String.
From S2P Require Import Prelude Protocol Errors GoStrings Config Identifiers ByteBudget ResourceBudgets DeferredRing Queue QueueInvariant QueueTheory Pending Provisioning Connection ConnectionTheory.
Local Open Scope string_scope.
Local Open Scope Z_scope.

(** ** New *)

Definition handlerConcurrency : nat := 4.

(** What [New] sets of a Client besides what Lifecycle starts from: the
    configuration with its defaults, its logger, the counter of message ids, the
    codec, the budget for batches and the number of batch workers. *)
Record newClientState (Codec : Type) := mkNewClient {
  nc_cfg : Config; nc_logger : option nat; nc_idCounter : Z; nc_codec : Codec; nc_batchBudget : option byteBudget; nc_batchWorkers : nat }.
Arguments mkNewClient {Codec}. Arguments nc_cfg {Codec}. Arguments nc_logger {Codec}. Arguments nc_idCounter {Codec}. Arguments nc_codec {Codec}.
Arguments nc_batchBudget {Codec}. Arguments nc_batchWorkers {Codec}.

(** [slogDefault] is the process's logger, [randRead] the seed [crypto/rand] gives,
    [newProtocolCodec] the codec. *)
Definition New {Codec} (slogDefault : nat) (randRead : result (list Z)) (newProtocolCodec : result Codec) (cfg : Config) : result (newClientState Codec) :=
  cfg ← applyDefaultsAndValidate slogDefault cfg;
  match randRead with
  | Err err => Err (EWrap ("generate message id prefix: " ++ Error err) err)
  | Ok seed =>
      match newProtocolCodec with
      | Err err => Err (EWrap ("initialize protocol codec: " ++ Error err) err)
      | Ok codec => Ok (mkNewClient cfg (cf_Logger cfg) (initialMessageIDCounter seed) codec
                          (mustNewByteBudget clientBatchBudgetBytes) handlerConcurrency)
      end
  end.

(** ** dial *)

(** What the WebSocket dialer answers: an error, with the status of the HTTP
    response when there was one, or a connection. *)
Inductive dialAnswer := DialError (err : goerror) (response : option Z) | DialOpen.

(** The error of [dial], or the reader of the new run and its scheduler; [gen] is
    the value [c.generation.Add(1)] gives. *)
Definition dial (gen : Z) (processQueue processDecode : byteBudget) (c : batchClient) (now : Z) (answer : dialAnswer)
  : result (reader * queueSys) :=
  match answer with
  | DialError err (Some status) => Err (ESDK ErrHandshake "websocket handshake" "" 0 status (Some err))
  | DialError err None => Err (default err (classifyNetworkError "websocket dial" (Some err)))
  | DialOpen =>
      let sys := startPullScheduler (newRun gen processQueue c) in
      Ok (mkReader (qs_run sys) startPending None None now 0 processDecode 0, sys)
  end.

(** ** What holds at the start *)

(** A handshake the server refused is an error of its own, whatever the cause. *)
Lemma dial_handshake_error gen pq pd c now err status :
  exists e, dial gen pq pd c now (DialError err (Some status)) = Err e /\ errorCode (Some e) = ErrHandshake.
Proof. by eexists. Qed.

(** A new Client has a valid configuration, a logger and at least 2^63 message ids
    before it. *)
Lemma New_ok {Codec} slogDefault seed codec cfg (s : newClientState Codec) :
  bytes_ok seed -> New slogDefault (Ok seed) codec cfg = Ok s ->
  applyDefaultsAndValidate slogDefault cfg = Ok (nc_cfg s) /\ nc_logger s <> None /\ codec = Ok (nc_codec s) /\ 2 ^ 63 <= max_uint64 - nc_idCounter s.
Proof.
  intros Hs. unfold New. destruct (applyDefaultsAndValidate slogDefault cfg) as [cfg'|] eqn:E; [|done]. cbn [mbind result_bind].
  destruct codec as [c|]; [|done]. intros [= <-]. split_and!; [done| |done|].
  { cbn [nc_logger]. unfold applyDefaultsAndValidate, defaultLogger in E. destruct (strings_Cut _ _) as [[org app] ok].
    repeat (case_bool; [done|]). injection E as <-. cbn [cf_Logger]. by destruct (cf_Logger cfg). } by apply initial_counter_leaves_room.
Qed.

(** A new connection satisfies the invariants of its reader and of its scheduler. *)
Lemma dial_starts gen pq pd c now rd sys :
  fresh_run gen pq c -> dial gen pq pd c now DialOpen = Ok (rd, sys) ->
  readerOk rd /\ sys_inv sys /\ r_closed (rd_run rd) = false /\ r_cancelled (rd_run rd) = false /\
  r_finalized (rd_run rd) = false /\ rd_run rd = qs_run sys.
Proof.
  intros Hf [= <- <-]. split_and!; try done; [split; [apply startPending_inv|done]|by apply newRun_inv].
Qed.
