(* ===== verification/NativeDecode.v ===== *)
(** * Reading what the native codec decoded

    internal/protocol/nativecodec/codec.go, the decoding half: the C library
    decodes a frame into a handle whose accessors are [EMCodecFrame] below, and the
    code copies the fields into Go values while a [decodeTracker] bounds what a
    frame may make the process allocate. *)
From Stdlib Require Import String SpecFloat.
From S2P Require Import Prelude Protocol Errors RetainedWeight Wire Message.
Local Open Scope string_scope.
Local Open Scope Z_scope.

(** ** The C side

    A [char *]: NULL, or the bytes at the pointer, which a NUL follows. *)
Definition cstring := option string.

(** [strlen]: the bytes before the first NUL. *)
Fixpoint c_strlen (s : string) : Z :=
  match s with
  | "" => 0
  | String c s => if Ascii.eqb c Ascii.zero then 0 else 1 + c_strlen s
  end.

Definition strnlen (s : string) (n : Z) : Z := Z.min (c_strlen s) n.
Definition GoStringN (s : string) (n : Z) : string := String.substring 0 (Z.to_nat (i32 n)) s.
Definition GoBytes (b : bytes) (n : Z) : bytes := take (Z.to_nat (i32 n)) b.

(** A [uint8_t *] with its size. *)
Record cbytes := mkCBytes { cb_data : option bytes; cb_size : Z }.

Record EMCodecJID := mkCJID { cj_app_key : cstring; cj_name : cstring; cj_domain : cstring; cj_resource : cstring }.

Record EMCodecKeyValue := mkCKeyValue {
  ck_key : cstring; ck_type : Z; ck_integer_value : Z; ck_number_value : spec_float; ck_string_value : cstring }.

(** A decoded frame, by what its accessors return; one that fills a struct and
    returns non-zero gives [Some] of the struct. *)
Record EMCodecFrame := mkCFrame {
  em_codec_frame_command : Z;
  em_codec_frame_trace_id : Z;
  em_codec_frame_kind : Z;
  em_codec_frame_status_code : Z;
  em_codec_frame_status_reason : cstring;
  em_codec_frame_redirect_count : Z;
  em_codec_frame_redirect_host : Z -> cstring;
  em_codec_frame_redirect_port : Z -> Z;
  em_codec_frame_session_id : cstring;
  em_codec_frame_auth_token : cbytes;
  em_codec_frame_ack_client_id : Z;
  em_codec_frame_ack_server_id : Z;
  em_codec_frame_timestamp : Z;
  em_codec_frame_unread_queue_count : Z;
  em_codec_frame_unread_queue : Z -> option EMCodecJID;
  em_codec_frame_next_key : Z;
  em_codec_frame_is_last : Z;
  em_codec_frame_queue : option EMCodecJID;
  em_codec_frame_meta_count : Z;
  em_codec_meta_id : Z -> Z;
  em_codec_meta_timestamp : Z -> Z;
  em_codec_meta_namespace : Z -> Z;
  em_codec_meta_route_type : Z -> Z;
  em_codec_meta_payload : Z -> cbytes;
  em_codec_meta_attributes : Z -> cbytes;
  em_codec_meta_from : Z -> option EMCodecJID;
  em_codec_meta_to : Z -> option EMCodecJID;
  em_codec_meta_directed_user_count : Z -> Z;
  em_codec_meta_directed_user : Z -> Z -> cstring;
  em_codec_meta_message_type : Z -> Z;
  em_codec_message_from : Z -> option EMCodecJID;
  em_codec_message_to : Z -> option EMCodecJID;
  em_codec_meta_key_value_count : Z -> Z;
  em_codec_meta_key_value : Z -> Z -> option EMCodecKeyValue;
  em_codec_meta_content_count : Z -> Z;
  em_codec_content_type : Z -> Z -> Z;
  em_codec_content_text : Z -> Z -> cstring;
  em_codec_content_action : Z -> Z -> cstring;
  em_codec_content_custom_event : Z -> Z -> cstring;
  em_codec_content_raw : Z -> Z -> cbytes;
  em_codec_content_key_value_count : Z -> Z -> Z;
  em_codec_content_key_value : Z -> Z -> Z -> option EMCodecKeyValue;
  em_codec_meta_statistic_operation : Z -> Z;
  em_codec_meta_statistic_device : Z -> cstring;
  em_codec_meta_statistic_reason : Z -> cstring;
  em_codec_meta_statistic_session_id : Z -> cstring }.

Definition EM_CODEC_OK : Z := 0.
Definition EM_CODEC_LIMIT_EXCEEDED : Z := 2.
Definition EM_CODEC_FRAME_PROVISION : Z := 1.
Definition EM_CODEC_FRAME_UNREAD : Z := 2.
Definition EM_CODEC_FRAME_NOTICE : Z := 3.
Definition EM_CODEC_FRAME_SYNC_ACK : Z := 4.
Definition EM_CODEC_FRAME_SYNC_BATCH : Z := 5.
Definition EM_CODEC_FRAME_LOGOUT : Z := 6.

(** ** The tracker *)

Record decodeTracker := mkTracker { stringBytes : Z; payloadBytes : Z; directedUsers : Z }.

(** A read that charges the tracker and may fail. *)
Definition tracked (A : Type) : Type := decodeTracker -> result (A * decodeTracker).

#[export] Instance tracked_ret : MRet tracked := fun _ a t => Ok (a, t).
#[export] Instance tracked_bind : MBind tracked := fun _ _ f m t =>
  match m t with Ok (a, t) => f a t | Err e => Err e end.

Definition lift {A} (r : result A) : tracked A := fun t => match r with Ok a => Ok (a, t) | Err e => Err e end.
Definition failWith {A} (e : goerror) : tracked A := fun _ => Err e.

Definition exceedsLimit (what : string) (n : Z) : goerror := limitError (what ++ " " ++ pretty n).

Definition stringsExceed : goerror := exceedsLimit "decoded string bytes exceed" MaxSyncStringBytes.

Definition copyCStringPointer (p : cstring) (length : Z) : string :=
  match p with
  | None => ""
  | Some s => if length =? 0 then "" else GoStringN s length
  end.

Definition readString (p : cstring) : tracked string := fun t =>
  match p with
  | None => Ok ("", t)
  | Some s =>
      if stringBytes t >? MaxSyncStringBytes then Err stringsExceed else
      let remaining := u64 (MaxSyncStringBytes - stringBytes t) in
      let length := strnlen s (u64 (remaining + 1)) in
      if length >? remaining then Err stringsExceed else
      Ok (copyCStringPointer p length, mkTracker (u64 (stringBytes t + length)) (payloadBytes t) (directedUsers t))
  end.

Definition reserveStringBytes (size : Z) : tracked unit := fun t =>
  if (stringBytes t >? MaxSyncStringBytes) || (size >? u64 (MaxSyncStringBytes - stringBytes t)) then Err stringsExceed
  else Ok (tt, mkTracker (u64 (stringBytes t + size)) (payloadBytes t) (directedUsers t)).

Definition addPayload (size : Z) : tracked unit := fun t =>
  if (payloadBytes t >? MaxSyncPayloadBytes) || (size >? u64 (MaxSyncPayloadBytes - payloadBytes t))
  then Err (exceedsLimit "sync payload bytes exceed" MaxSyncPayloadBytes)
  else Ok (tt, mkTracker (stringBytes t) (u64 (payloadBytes t + size)) (directedUsers t)).

Definition addDirectedUsers (count : Z) : tracked unit := fun t =>
  if (directedUsers t >? MaxSyncDirectedUsers) || (count >? u64 (MaxSyncDirectedUsers - directedUsers t))
  then Err (exceedsLimit "sync directed users exceed" MaxSyncDirectedUsers)
  else Ok (tt, mkTracker (stringBytes t) (payloadBytes t) (u64 (directedUsers t + count))).

(** ** JIDs *)

Definition jidComponentExceeds : goerror := limitError ("JID component exceeds " ++ pretty MaxJIDComponentBytes ++ " bytes").
Definition jidExceeds : goerror := limitError ("JID exceeds " ++ pretty MaxJIDBytes ++ " bytes").

(** The loop of [readJIDPointers]: the lengths and their total. *)
Fixpoint jidLengths (pointers : list cstring) (total : Z) : result (list Z * Z) :=
  match pointers with
  | [] => Ok ([], total)
  | None :: pointers => r ← jidLengths pointers total; Ok (0 :: fst r, snd r)
  | Some s :: pointers =>
      let length := strnlen s (MaxJIDComponentBytes + 1) in
      if length >? MaxJIDComponentBytes then Err jidComponentExceeds else
      if total >? u64 (MaxJIDBytes - length) then Err jidExceeds else
      r ← jidLengths pointers (u64 (total + length)); Ok (length :: fst r, snd r)
  end.

Definition readJID (v : EMCodecJID) : tracked JID :=
  r ← lift (jidLengths [cj_app_key v; cj_name v; cj_domain v; cj_resource v] 0);
  _ ← reserveStringBytes (snd r);
  let lengths i := nth i (fst r) 0 in
  mret (mkJID (copyCStringPointer (cj_app_key v) (lengths 0%nat)) (copyCStringPointer (cj_name v) (lengths 1%nat))
              (copyCStringPointer (cj_domain v) (lengths 2%nat)) (copyCStringPointer (cj_resource v) (lengths 3%nat))).

(** [if em_codec_...(f, &j) != 0 { x, err = readJID(j, tracker) }]. *)
Definition readOptionalJID (v : option EMCodecJID) : tracked (option JID) :=
  match v with None => mret None | Some j => q ← readJID j; mret (Some q) end.

(** ** Byte fields *)

Definition nilField (size : Z) : goerror := EPlain ("native codec returned nil byte field with size " ++ pretty size).

Definition readBytes (p : cbytes) : result (gslice Z) :=
  let size := u64 (cb_size p) in
  if size =? 0 then Ok nil_slice else
  if size >? MaxCodecInputBytes
  then Err (limitError ("native byte field exceeds " ++ pretty MaxCodecInputBytes ++ " bytes")) else
  match cb_data p with
  | None => Err (nilField size)
  | Some b => Ok (GSlice (GoBytes b size) size)
  end.

(** ** Loops

    [for i := 0; i < count; i++], appending what the body yields. *)
Fixpoint readEach {A} (f : Z -> tracked (option A)) (ixs : list Z) : tracked (list A) :=
  match ixs with
  | [] => mret []
  | i :: ixs => x ← f i; xs ← readEach f ixs; mret (option_list x ++ xs)%list
  end.

Definition indices (count : Z) : list Z := map Z.of_nat (seq 0 (Z.to_nat count)).

(** A slice made with [make([]T, 0, count)] and filled. *)
Definition readSlice {A} (count : Z) (f : Z -> tracked A) : tracked (gslice A) :=
  xs ← readEach (fun i => x ← f i; mret (Some x)) (indices count); mret (GSlice xs (i64 count)).

(** The guard in front of a loop over a collection of the frame. *)
Definition checkCount (what : string) (limit count : Z) : tracked unit :=
  if count >? limit then failWith (exceedsLimit what limit) else mret tt.

(** ** Frames *)

Definition readStatus (f : EMCodecFrame) : tracked (option Status) :=
  let code := em_codec_frame_status_code f in
  if code <? 0 then mret None else
  reason ← readString (em_codec_frame_status_reason f);
  let redirectCount := u64 (em_codec_frame_redirect_count f) in
  _ ← checkCount "status redirect count exceeds" MaxFrameCollectionItems redirectCount;
  redirects ← readSlice redirectCount (fun i =>
    host ← readString (em_codec_frame_redirect_host f i);
    mret (mkRedirectInfo host (em_codec_frame_redirect_port f i)));
  mret (Some (mkStatus code reason redirects)).

(** One turn of the loop of [readSync]. *)
Definition readMeta (f : EMCodecFrame) (i : Z) : tracked Meta :=
  let payload := em_codec_meta_payload f i in
  _ ← addPayload (u64 (cb_size payload));
  payload ← lift (readBytes payload);
  let attributes := em_codec_meta_attributes f i in
  _ ← addPayload (u64 (cb_size attributes));
  attributes ← lift (readBytes attributes);
  from ← readOptionalJID (em_codec_meta_from f i);
  to ← readOptionalJID (em_codec_meta_to f i);
  let userCount := u64 (em_codec_meta_directed_user_count f i) in
  _ ← addDirectedUsers userCount;
  users ← readSlice userCount (fun u => readString (em_codec_meta_directed_user f i u));
  let zeroJID := mkJID "" "" "" "" in
  mret (mkMeta (em_codec_meta_id f i) (default zeroJID from) (default zeroJID to) (em_codec_meta_timestamp f i)
          (i32 (em_codec_meta_namespace f i)) payload (i32 (em_codec_meta_route_type f i)) nil_slice users 0 0 "" attributes).

Definition readSync (f : EMCodecFrame) (st : option Status) : tracked Sync :=
  let metaCount := u64 (em_codec_frame_meta_count f) in
  _ ← checkCount "sync meta count exceeds" MaxSyncMetas metaCount;
  queue ← readOptionalJID (em_codec_frame_queue f);
  metas ← readSlice metaCount (readMeta f);
  let s := mkSync st (em_codec_frame_ack_client_id f) (em_codec_frame_ack_server_id f) metas
             (em_codec_frame_next_key f) queue (negb (em_codec_frame_is_last f =? 0)) (em_codec_frame_timestamp f) in
  _ ← lift (SyncRetainedWeight (Some s));
  mret s.

Definition decodeFrameBody (f : EMCodecFrame) : tracked Frame :=
  let kind := em_codec_frame_kind f in
  let out := mkFrame (i32 (em_codec_frame_command f)) (em_codec_frame_trace_id f) in
  st ← readStatus f;
  if kind =? EM_CODEC_FRAME_PROVISION then
    sessionID ← readString (em_codec_frame_session_id f);
    authToken ← lift (readBytes (em_codec_frame_auth_token f));
    mret (out (Some (mkProvision st sessionID (sl_elems authToken))) None None None None)
  else if kind =? EM_CODEC_FRAME_UNREAD then
    let queueCount := u64 (em_codec_frame_unread_queue_count f) in
    _ ← checkCount "unread queue count exceeds" MaxFrameCollectionItems queueCount;
    queues ← readEach (fun i => readOptionalJID (em_codec_frame_unread_queue f i)) (indices queueCount);
    mret (out None (Some (mkUnread st queues (em_codec_frame_timestamp f))) None None None)
  else if kind =? EM_CODEC_FRAME_NOTICE then
    queue ← readOptionalJID (em_codec_frame_queue f);
    mret (out None None queue None None)
  else if (kind =? EM_CODEC_FRAME_SYNC_ACK) || (kind =? EM_CODEC_FRAME_SYNC_BATCH) then
    sync ← readSync f st;
    mret (out None None None (Some sync) None)
  else if kind =? EM_CODEC_FRAME_LOGOUT then
    mret (out None None None None (Some (mkLogout st)))
  else mret (out None None None None None).

(** Runs a read with a new tracker. *)
Definition untracked {A} (m : tracked A) : result A := r ← m (mkTracker 0 0 0); Ok (fst r).

Definition decodeFrame (f : EMCodecFrame) : result Frame := untracked (decodeFrameBody f).

(** ** Message bodies and statistics *)

(** [protocol.KeyValueKind(v._type)]. *)
Definition KeyValueKind_of (n : Z) : KeyValueKind :=
  if n =? 1 then KVBool else if n =? 2 then KVInt else if n =? 3 then KVUint else if n =? 4 then KVLong
  else if n =? 5 then KVFloat else if n =? 6 then KVDouble else if n =? 7 then KVString
  else if n =? 8 then KVJSONString else KVOther n.

Definition readKV (v : EMCodecKeyValue) : tracked KeyValue :=
  key ← readString (ck_key v);
  value ← readString (ck_string_value v);
  mret (mkKeyValue key (KeyValueKind_of (i32 (ck_type v))) (negb (ck_integer_value v =? 0)) (ck_integer_value v)
          (u64 (ck_integer_value v)) (float32_of_float64 (ck_number_value v)) (ck_number_value v) value).

(** [content] is [None] for the extensions of the message ([-1] in the code). *)
Definition readKVs (f : EMCodecFrame) (m : Z) (content : option Z) : tracked (list KeyValue) :=
  let count := u64 match content with
                   | None => em_codec_meta_key_value_count f m
                   | Some c => em_codec_content_key_value_count f m c end in
  _ ← checkCount "key/value count exceeds" MaxFrameCollectionItems count;
  readEach (fun i =>
    match match content with
          | None => em_codec_meta_key_value f m i
          | Some c => em_codec_content_key_value f m c i end with
    | None => mret None
    | Some v => kv ← readKV v; mret (Some kv)
    end) (indices count).

Definition readContent (f : EMCodecFrame) (i : Z) : tracked Content :=
  let kind := i32 (em_codec_content_type f 0 i) in
  text ← readString (em_codec_content_text f 0 i);
  action ← readString (em_codec_content_action f 0 i);
  event ← readString (em_codec_content_custom_event f 0 i);
  if kind =? ContentCommand then
    params ← readKVs f 0 (Some i); mret (mkContent kind text action params event [] [])
  else if kind =? ContentCustom then
    exts ← readKVs f 0 (Some i); mret (mkContent kind text action [] event exts [])
  else if kind >? ContentCustom then
    raw ← lift (readBytes (em_codec_content_raw f 0 i)); mret (mkContent kind text action [] event [] (sl_elems raw))
  else mret (mkContent kind text action [] event [] []).

Definition decodeBody (f : EMCodecFrame) : tracked MessageBody :=
  let zeroJID := mkJID "" "" "" "" in
  from ← readOptionalJID (em_codec_message_from f 0);
  to ← readOptionalJID (em_codec_message_to f 0);
  ext ← readKVs f 0 None;
  let contentCount := u64 (em_codec_meta_content_count f 0) in
  _ ← checkCount "message content count exceeds" MaxFrameCollectionItems contentCount;
  contents ← readSlice contentCount (readContent f);
  mret (mkMessageBody (i32 (em_codec_meta_message_type f 0)) (default zeroJID from) (default zeroJID to)
          (sl_elems contents) ext).

Definition decodeStatistic (f : EMCodecFrame) : tracked Statistic :=
  device ← readString (em_codec_meta_statistic_device f 0);
  reason ← readString (em_codec_meta_statistic_reason f 0);
  sessionID ← readString (em_codec_meta_statistic_session_id f 0);
  mret (mkStatistic (em_codec_meta_statistic_operation f 0) device sessionID reason).
