(* ===== verification/NativeLimits.v ===== *)
(** * What a decoded frame may contain

    The reads of NativeDecode.v against a specification without a tracker: what a
    read copies, what it costs, and when it is admissible.  A frame is decoded
    exactly when it is admissible, into exactly its contents. *)
From Stdlib Require Import String SpecFloat.
From S2P Require Import Prelude Protocol Errors RetainedWeight Queue QueueInvariant NativeDecode.
Local Open Scope string_scope.
Local Open Scope Z_scope.

(** ** Costs *)

Definition cost_zero : decodeTracker := mkTracker 0 0 0.
Definition cost_add (a b : decodeTracker) : decodeTracker :=
  mkTracker (stringBytes a + stringBytes b) (payloadBytes a + payloadBytes b) (directedUsers a + directedUsers b).
Definition costs (cs : list decodeTracker) : decodeTracker := foldr cost_add cost_zero cs.

(** Within the budget of a frame. *)
Definition fits (t : decodeTracker) : bool :=
  (stringBytes t <=? MaxSyncStringBytes) && (payloadBytes t <=? MaxSyncPayloadBytes) && (directedUsers t <=? MaxSyncDirectedUsers).

Definition cost_ok (t : decodeTracker) : Prop := 0 <= stringBytes t /\ 0 <= payloadBytes t /\ 0 <= directedUsers t.

Lemma fits_true t :
  fits t = true <-> stringBytes t <= MaxSyncStringBytes /\ payloadBytes t <= MaxSyncPayloadBytes /\ directedUsers t <= MaxSyncDirectedUsers.
Proof. unfold fits. rewrite !andb_true_iff, !Z.leb_le. tauto. Qed.

Lemma fits_mono t c : cost_ok c -> fits (cost_add t c) = true -> fits t = true.
Proof. intros (? & ? & ?). rewrite !fits_true. unfold cost_add. simpl. lia. Qed.

Lemma cost_add_assoc a b c : cost_add (cost_add a b) c = cost_add a (cost_add b c).
Proof. unfold cost_add. simpl. f_equal; lia. Qed.

Lemma cost_add_zero a : cost_add a cost_zero = a.
Proof. destruct a. unfold cost_add. simpl. f_equal; lia. Qed.

Lemma cost_ok_add a b : cost_ok a -> cost_ok b -> cost_ok (cost_add a b).
Proof. unfold cost_ok, cost_add. simpl. lia. Qed.

Lemma cost_ok_costs cs : Forall cost_ok cs -> cost_ok (costs cs).
Proof. induction 1; simpl; [done|by apply cost_ok_add]. Qed.

(** ** The errors of the decoder *)

Inductive codecErr : goerror -> Prop :=
| codec_limit msg : codecErr (limitError msg)
| codec_nil size : codecErr (nilField size).

(** ** Specification of a read

    [m] yields [a] for the cost [c] when [ok] holds and the cost still fits, and
    fails otherwise. *)
Definition reads {A} (m : tracked A) (ok : bool) (c : decodeTracker) (a : A) : Prop :=
  cost_ok c /\ forall t, cost_ok t -> fits t = true ->
  if ok && fits (cost_add t c) then m t = Ok (a, cost_add t c) else exists e, m t = Err e /\ codecErr e.

Lemma reads_ret {A} (a : A) : reads (mret a) true cost_zero a.
Proof. split; [done|]. intros t _ Ht. rewrite cost_add_zero, Ht. done. Qed.

Lemma reads_bind {A B} (m : tracked A) (k : A -> tracked B) ok ok' c c' a b :
  reads m ok c a -> reads (k a) ok' c' b -> reads (m ≫= k) (ok && ok') (cost_add c c') b.
Proof.
  intros [Hc Hm] [Hc' Hk]. split; [by apply cost_ok_add|]. intros t Ht Hft. specialize (Hm t Ht Hft).
  unfold mbind, tracked_bind. rewrite <- cost_add_assoc. destruct (ok && fits (cost_add t c)) eqn:E.
  - rewrite Hm. apply andb_true_iff in E as [-> Hf]. cbn [andb]. apply Hk; [by apply cost_ok_add|done].
  - destruct Hm as (e & -> & He). destruct (ok && ok' && _) eqn:E'; [|by exists e]. exfalso.
    rewrite !andb_true_iff in E'. destruct E' as [[-> _] Hf]. by rewrite (fits_mono _ _ Hc' Hf) in E.
Qed.

Lemma reads_weaken {A} (m : tracked A) ok ok' c c' a a' :
  reads m ok c a -> ok = ok' -> c = c' -> a = a' -> reads m ok' c' a'.
Proof. by intros H -> -> ->. Qed.

(** A pure step behind a read. *)
Lemma reads_map {A B} (m : tracked A) (g : A -> B) ok c a :
  reads m ok c a -> reads (x ← m; mret (g x)) ok c (g a).
Proof.
  intros H. eapply reads_weaken; [eapply reads_bind; [exact H|apply reads_ret]|apply andb_true_r|apply cost_add_zero|done].
Qed.

(** A check that costs nothing. *)
Lemma reads_lift {A} (r : result A) (a : A) :
  (forall x, r = Ok x -> x = a) -> (forall e, r = Err e -> codecErr e) -> reads (lift r) (is_ok r) cost_zero a.
Proof.
  intros Ho He. split; [done|]. intros t _ Ht. rewrite cost_add_zero, Ht. unfold lift. destruct r as [x|e]; simpl.
  - by rewrite (Ho x).
  - eauto.
Qed.

Lemma reads_check {A B} (r : result A) (b : B) :
  (forall e, r = Err e -> codecErr e) -> reads (_ ← lift r; mret b) (is_ok r) cost_zero b.
Proof.
  intros He. split; [done|]. intros t _ Ht. rewrite cost_add_zero, Ht. unfold lift, mbind, tracked_bind. destruct r as [x|e]; simpl; eauto.
Qed.

Lemma reads_checkCount what limit count :
  reads (checkCount what limit count) (count <=? limit) cost_zero tt.
Proof.
  split; [done|]. intros t _ Ht. rewrite cost_add_zero, Ht, andb_true_r. unfold checkCount. rewrite Z.gtb_ltb, Z.ltb_antisym.
  destruct (count <=? limit); simpl; [done|]. eexists. split; [done|]. apply codec_limit.
Qed.

Lemma reads_each {A} (f : Z -> tracked (option A)) (ok : Z -> bool) (c : Z -> decodeTracker) (a : Z -> option A) ixs :
  (forall i, i ∈ ixs -> reads (f i) (ok i) (c i) (a i)) ->
  reads (readEach f ixs) (forallb ok ixs) (costs (map c ixs)) (omap a ixs).
Proof.
  induction ixs as [|i ixs IH]; intros H; [apply reads_ret|].
  eapply reads_bind; [apply H; by left|]. eapply reads_weaken.
  - apply (reads_map _ (fun xs => (option_list (a i) ++ xs)%list)). apply IH. intros j Hj. apply H. by right.
  - done.
  - done.
  - simpl. by destruct (a i).
Qed.

Lemma reads_slice {A} (f : Z -> tracked A) (ok : Z -> bool) (c : Z -> decodeTracker) (a : Z -> A) count :
  (forall i, i ∈ indices count -> reads (f i) (ok i) (c i) (a i)) ->
  reads (readSlice count f) (forallb ok (indices count)) (costs (map c (indices count))) (GSlice (map a (indices count)) (i64 count)).
Proof.
  intros H. unfold readSlice. eapply reads_weaken.
  - apply (reads_map _ (fun xs => GSlice xs (i64 count))). apply (reads_each _ ok c (fun i => Some (a i))).
    intros i Hi. by apply (reads_map (f i) Some), H.
  - done.
  - done.
  - done.
Qed.

(** ** Strings and JIDs *)

Definition cstring_len (p : cstring) : Z := match p with None => 0 | Some s => c_strlen s end.

(** The Go string of a C string. *)
Definition copyString (p : cstring) : string :=
  match p with None => "" | Some s => String.substring 0 (Z.to_nat (c_strlen s)) s end.

Lemma c_strlen_bound s : 0 <= c_strlen s <= slen s.
Proof.
  unfold slen. induction s as [|c s IH]; cbn [c_strlen String.length]; [lia|]. destruct (Ascii.eqb c Ascii.zero); lia.
Qed.

Lemma cstring_len_nonneg p : 0 <= cstring_len p.
Proof. destruct p as [s|]; simpl; [apply c_strlen_bound|lia]. Qed.

Lemma slen_copyString p : slen (copyString p) = cstring_len p.
Proof.
  destruct p as [s|]; simpl; [|done]. pose proof (c_strlen_bound s) as Hb. unfold slen in *.
  assert (forall n s, (n <= String.length s)%nat -> String.length (String.substring 0 n s) = n) as Hsub.
  { clear. intros n s. revert n. induction s as [|c s IH]; intros [|n]; simpl; try lia. intros H. f_equal. apply IH. lia. }
  rewrite Hsub; lia.
Qed.

(** A length within the budget survives the conversion to [C.int]. *)
Lemma copyCString_exact p : cstring_len p <= MaxSyncStringBytes -> copyCStringPointer p (cstring_len p) = copyString p.
Proof.
  destruct p as [s|]; cbn [copyCStringPointer copyString cstring_len]; [|done]. pose proof (c_strlen_bound s).
  change MaxSyncStringBytes with 1048576. intros Hl. destruct (c_strlen s =? 0) eqn:E.
  - apply Z.eqb_eq in E. rewrite E. by destruct s.
  - unfold GoStringN. by rewrite i32_id by lia.
Qed.

Definition string_cost (p : cstring) : decodeTracker := mkTracker (cstring_len p) 0 0.

Lemma reads_string p : reads (readString p) true (string_cost p) (copyString p).
Proof.
  pose proof (cstring_len_nonneg p) as Hn. split; [done|]. intros [s pl d] (Hs & Hp & Hd) Hf. apply fits_true in Hf as (Hs' & Hp' & Hd').
  simpl in *. unfold cost_add, string_cost, fits. simpl. rewrite !Z.add_0_r.
  rewrite (proj2 (Z.leb_le pl _) Hp'), (proj2 (Z.leb_le d _) Hd'), !andb_true_r.
  destruct p as [x|]; cbn [readString cstring_len copyString stringBytes payloadBytes directedUsers] in *.
  2: { rewrite Z.add_0_r. rewrite (proj2 (Z.leb_le s _) Hs'). done. }
  change MaxSyncStringBytes with 1048576 in *. rewrite Z.gtb_ltb, (proj2 (Z.ltb_ge 1048576 s)) by lia.
  rewrite (u64_id (1048576 - s)) by word_lia. rewrite (u64_id (1048576 - s + 1)) by word_lia.
  unfold strnlen. rewrite Z.gtb_ltb. destruct (s + c_strlen x <=? 1048576) eqn:E; breflect.
  - rewrite Z.min_l by lia. rewrite (proj2 (Z.ltb_ge _ _)) by lia. rewrite u64_id by word_lia.
    pose proof (copyCString_exact (Some x)) as Hc. cbn [cstring_len] in Hc. rewrite Hc; [done|].
    change MaxSyncStringBytes with 1048576. lia.
  - rewrite (proj2 (Z.ltb_lt _ _)) by lia. eexists. split; [done|]. apply codec_limit.
Qed.

Definition jid_pointers (v : EMCodecJID) : list cstring := [cj_app_key v; cj_name v; cj_domain v; cj_resource v].

Definition jid_admissible (v : EMCodecJID) : bool :=
  forallb (fun p => cstring_len p <=? MaxJIDComponentBytes) (jid_pointers v) &&
  (zsum (map cstring_len (jid_pointers v)) <=? MaxJIDBytes).

Definition jid_cost (v : EMCodecJID) : decodeTracker := mkTracker (zsum (map cstring_len (jid_pointers v))) 0 0.

Definition copyJID (v : EMCodecJID) : JID :=
  mkJID (copyString (cj_app_key v)) (copyString (cj_name v)) (copyString (cj_domain v)) (copyString (cj_resource v)).

Lemma zsum_lens_nonneg ps : 0 <= zsum (map cstring_len ps).
Proof. apply zsum_nonneg, Forall_map, Forall_true. intros p. apply cstring_len_nonneg. Qed.

Lemma jidLengths_spec ps total :
  0 <= total <= MaxJIDBytes ->
  if forallb (fun p => cstring_len p <=? MaxJIDComponentBytes) ps && (total + zsum (map cstring_len ps) <=? MaxJIDBytes)
  then jidLengths ps total = Ok (map cstring_len ps, total + zsum (map cstring_len ps))
  else exists e, jidLengths ps total = Err e /\ codecErr e.
Proof.
  revert total. induction ps as [|[s|] ps IH]; intros total Ht; cbn [jidLengths forallb map cstring_len].
  - change (zsum []) with 0. rewrite Z.add_0_r. cbn [andb]. rewrite (proj2 (Z.leb_le _ _)) by lia. done.
  - pose proof (c_strlen_bound s) as [Hn _]. pose proof (zsum_lens_nonneg ps) as Hz. rewrite !zsum_cons. unfold strnlen.
    change MaxJIDComponentBytes with 4096 in *. change MaxJIDBytes with 16384 in *.
    destruct (c_strlen s <=? 4096) eqn:E1; breflect; cbn [andb].
    2: { rewrite Z.gtb_ltb, (proj2 (Z.ltb_lt _ _)) by lia. eexists. split; [done|]. apply codec_limit. }
    rewrite Z.min_l by lia. rewrite (Z.gtb_ltb (c_strlen s)), (proj2 (Z.ltb_ge _ _)) by lia. rewrite u64_id by word_lia.
    rewrite Z.gtb_ltb. destruct (16384 - c_strlen s <? total) eqn:E2; breflect.
    { rewrite (proj2 (Z.leb_gt _ _)), andb_false_r by lia. eexists. split; [done|]. apply codec_limit. }
    rewrite u64_id by word_lia. specialize (IH (total + c_strlen s) ltac:(lia)). rewrite <- Z.add_assoc in IH.
    destruct (forallb _ ps && _) eqn:E3.
    + rewrite IH. rsimpl. done.
    + destruct IH as (e & -> & He). rsimpl. eauto.
  - rewrite zsum_cons, Z.add_0_l. change (0 <=? MaxJIDComponentBytes) with true. cbn [andb]. specialize (IH total Ht).
    destruct (forallb _ ps && _) eqn:E3.
    + rewrite IH. done.
    + destruct IH as (e & -> & He). rsimpl. eauto.
Qed.

Lemma jid_len_bounds v p : jid_admissible v = true -> p ∈ jid_pointers v -> cstring_len p <= MaxSyncStringBytes.
Proof.
  intros [Hc _]%andb_true_iff Hp. rewrite forallb_forall in Hc. apply list_elem_of_In, Hc, Z.leb_le in Hp.
  change MaxJIDComponentBytes with 4096 in Hp. change MaxSyncStringBytes with 1048576. lia.
Qed.

Lemma reads_reserve n : 0 <= n -> reads (reserveStringBytes n) true (mkTracker n 0 0) tt.
Proof.
  intros Hn. split; [done|]. intros [s pl d] (Hs & Hp & Hd) Hf. apply fits_true in Hf as (Hs' & Hp' & Hd'). simpl in *.
  unfold cost_add, fits, reserveStringBytes. simpl. rewrite !Z.add_0_r.
  rewrite (proj2 (Z.leb_le pl _) Hp'), (proj2 (Z.leb_le d _) Hd'), !andb_true_r.
  change MaxSyncStringBytes with 1048576 in *. rewrite u64_id by word_lia. rewrite !Z.gtb_ltb, (proj2 (Z.ltb_ge 1048576 s)) by lia.
  cbn [orb]. destruct (s + n <=? 1048576) eqn:E; breflect.
  - rewrite (proj2 (Z.ltb_ge _ _)) by lia. rewrite u64_id by word_lia. done.
  - rewrite (proj2 (Z.ltb_lt _ _)) by lia. eexists. split; [done|]. apply codec_limit.
Qed.

Lemma reads_jid v : reads (readJID v) (jid_admissible v) (jid_cost v) (copyJID v).
Proof.
  unfold readJID. fold (jid_pointers v). pose proof (jidLengths_spec (jid_pointers v) 0 ltac:(by vm_compute)) as Hl.
  rewrite Z.add_0_l in Hl. fold (jid_admissible v) in Hl. destruct (jid_admissible v) eqn:E.
  - rewrite Hl. eapply reads_weaken.
    + eapply (reads_bind _ _ _ true _ (jid_cost v)); [apply (reads_lift _ (map cstring_len (jid_pointers v), zsum (map cstring_len (jid_pointers v))))|].
      * by intros x [= <-].
      * done.
      * cbn [fst snd]. apply (reads_map _ (fun _ => mkJID _ _ _ _) true _ tt). by apply reads_reserve, zsum_lens_nonneg.
    + done.
    + unfold cost_add, cost_zero, jid_cost. simpl. done.
    + unfold copyJID. cbn [map jid_pointers nth].
      rewrite !copyCString_exact; [done|apply (jid_len_bounds v); [done|set_solver]..].
  - destruct Hl as (e & -> & He). split; [split; [apply zsum_lens_nonneg|done]|]. intros t _ _. cbn [andb]. exists e. done.
Qed.

Definition optional_admissible (v : option EMCodecJID) : bool := match v with None => true | Some j => jid_admissible j end.
Definition optional_cost (v : option EMCodecJID) : decodeTracker := match v with None => cost_zero | Some j => jid_cost j end.

Lemma reads_optional v : reads (readOptionalJID v) (optional_admissible v) (optional_cost v) (copyJID <$> v).
Proof. destruct v as [j|]; [apply (reads_map _ Some), reads_jid|apply reads_ret]. Qed.

(** ** Bytes and counters *)

Definition bytes_admissible (p : cbytes) : bool :=
  let size := u64 (cb_size p) in
  (size =? 0) || (size <=? MaxCodecInputBytes) && is_some (cb_data p).

Definition copyBytes (p : cbytes) : gslice Z :=
  let size := u64 (cb_size p) in
  if size =? 0 then nil_slice else GSlice (GoBytes (default [] (cb_data p)) size) size.

Lemma reads_bytes p : reads (lift (readBytes p)) (bytes_admissible p) cost_zero (copyBytes p).
Proof.
  eapply reads_weaken; [apply (reads_lift _ (copyBytes p))| |done|done]; unfold readBytes, bytes_admissible, copyBytes.
  - intros x. destruct (_ =? 0); [by intros [= <-]|]. destruct (_ >? _); [done|]. destruct (cb_data p); [by intros [= <-]|done].
  - intros e. destruct (_ =? 0); [done|]. destruct (_ >? _); [intros [= <-]; apply codec_limit|].
    destruct (cb_data p); [done|]. intros [= <-]. apply codec_nil.
  - destruct (_ =? 0); [done|]. rewrite Z.gtb_ltb, Z.ltb_antisym. destruct (_ <=? _); simpl; [|done]. by destruct (cb_data p).
Qed.

Lemma reads_payload n : in_u64 n -> reads (addPayload n) true (mkTracker 0 n 0) tt.
Proof.
  intros Hn. split; [split_and!; simpl; [lia|word_lia|lia]|]. intros [s pl d] (Hs & Hp & Hd) Hf.
  apply fits_true in Hf as (Hs' & Hp' & Hd'). simpl in *. unfold cost_add, fits, addPayload. simpl. rewrite !Z.add_0_r.
  rewrite (proj2 (Z.leb_le s _) Hs'), (proj2 (Z.leb_le d _) Hd'), !andb_true_r. cbn [andb].
  change MaxSyncPayloadBytes with 2097152 in *. rewrite u64_id by word_lia. rewrite !Z.gtb_ltb, (proj2 (Z.ltb_ge 2097152 pl)) by lia.
  cbn [orb]. destruct (pl + n <=? 2097152) eqn:E; breflect.
  - rewrite (proj2 (Z.ltb_ge _ _)) by lia. rewrite u64_id by word_lia. done.
  - rewrite (proj2 (Z.ltb_lt _ _)) by lia. eexists. split; [done|]. apply codec_limit.
Qed.

Lemma reads_directed n : in_u64 n -> reads (addDirectedUsers n) true (mkTracker 0 0 n) tt.
Proof.
  intros Hn. split; [split_and!; simpl; [lia|lia|word_lia]|]. intros [s pl d] (Hs & Hp & Hd) Hf.
  apply fits_true in Hf as (Hs' & Hp' & Hd'). simpl in *. unfold cost_add, fits, addDirectedUsers. simpl. rewrite !Z.add_0_r.
  rewrite (proj2 (Z.leb_le s _) Hs'), (proj2 (Z.leb_le pl _) Hp'). cbn [andb].
  change MaxSyncDirectedUsers with 1024 in *. rewrite u64_id by word_lia. rewrite !Z.gtb_ltb, (proj2 (Z.ltb_ge 1024 d)) by lia.
  cbn [orb]. destruct (d + n <=? 1024) eqn:E; breflect.
  - rewrite (proj2 (Z.ltb_ge _ _)) by lia. rewrite u64_id by word_lia. done.
  - rewrite (proj2 (Z.ltb_lt _ _)) by lia. eexists. split; [done|]. apply codec_limit.
Qed.
#[local] Hint Resolve u64_range : core.

(** ** Frames *)

Definition has_status (f : EMCodecFrame) : bool := 0 <=? em_codec_frame_status_code f.
Definition redirects_of (f : EMCodecFrame) : list Z := indices (u64 (em_codec_frame_redirect_count f)).

Definition status_admissible (f : EMCodecFrame) : bool :=
  negb (has_status f) || (u64 (em_codec_frame_redirect_count f) <=? MaxFrameCollectionItems).

Definition status_cost (f : EMCodecFrame) : decodeTracker :=
  if has_status f
  then cost_add (string_cost (em_codec_frame_status_reason f))
         (costs (map (fun i => string_cost (em_codec_frame_redirect_host f i)) (redirects_of f)))
  else cost_zero.

Definition copyStatus (f : EMCodecFrame) : option Status :=
  if has_status f
  then Some (mkStatus (em_codec_frame_status_code f) (copyString (em_codec_frame_status_reason f))
    (GSlice (map (fun i => mkRedirectInfo (copyString (em_codec_frame_redirect_host f i)) (em_codec_frame_redirect_port f i)) (redirects_of f))
            (i64 (u64 (em_codec_frame_redirect_count f)))))
  else None.

Lemma cost_zero_add a : cost_add cost_zero a = a.
Proof. by destruct a. Qed.

Lemma forallb_const {A} (l : list A) : forallb (fun _ => true) l = true.
Proof. by induction l. Qed.

Lemma reads_status f : reads (readStatus f) (status_admissible f) (status_cost f) (copyStatus f).
Proof.
  unfold readStatus, status_admissible, status_cost, copyStatus, has_status. rewrite Z.ltb_antisym.
  destruct (0 <=? em_codec_frame_status_code f); cbn [negb orb]; [|apply reads_ret].
  eapply reads_weaken.
  - eapply reads_bind; [apply reads_string|]. eapply reads_bind; [apply reads_checkCount|].
    eapply (reads_map _ (fun x => Some (mkStatus _ _ x))). apply reads_slice. intros i _.
    eapply (reads_map _ (fun h => mkRedirectInfo h _)). apply reads_string.
  - simpl. by rewrite forallb_const, andb_true_r.
  - rewrite cost_zero_add. done.
  - done.
Qed.

Definition users_of (f : EMCodecFrame) (i : Z) : list Z := indices (u64 (em_codec_meta_directed_user_count f i)).

Definition meta_admissible (f : EMCodecFrame) (i : Z) : bool :=
  bytes_admissible (em_codec_meta_payload f i) && bytes_admissible (em_codec_meta_attributes f i) &&
  optional_admissible (em_codec_meta_from f i) && optional_admissible (em_codec_meta_to f i).

Definition meta_cost (f : EMCodecFrame) (i : Z) : decodeTracker :=
  costs [mkTracker 0 (u64 (cb_size (em_codec_meta_payload f i))) 0; mkTracker 0 (u64 (cb_size (em_codec_meta_attributes f i))) 0;
         optional_cost (em_codec_meta_from f i); optional_cost (em_codec_meta_to f i);
         mkTracker 0 0 (u64 (em_codec_meta_directed_user_count f i));
         costs (map (fun u => string_cost (em_codec_meta_directed_user f i u)) (users_of f i))].

Definition copyMeta (f : EMCodecFrame) (i : Z) : Meta :=
  mkMeta (em_codec_meta_id f i) (default (mkJID "" "" "" "") (copyJID <$> em_codec_meta_from f i))
    (default (mkJID "" "" "" "") (copyJID <$> em_codec_meta_to f i)) (em_codec_meta_timestamp f i)
    (i32 (em_codec_meta_namespace f i)) (copyBytes (em_codec_meta_payload f i)) (i32 (em_codec_meta_route_type f i)) nil_slice
    (GSlice (map (fun u => copyString (em_codec_meta_directed_user f i u)) (users_of f i))
            (i64 (u64 (em_codec_meta_directed_user_count f i)))) 0 0 "" (copyBytes (em_codec_meta_attributes f i)).

Lemma reads_meta f i : reads (readMeta f i) (meta_admissible f i) (meta_cost f i) (copyMeta f i).
Proof.
  unfold readMeta. eapply reads_weaken.
  - eapply reads_bind; [by apply reads_payload|]. eapply reads_bind; [apply reads_bytes|].
    eapply reads_bind; [by apply reads_payload|]. eapply reads_bind; [apply reads_bytes|].
    eapply reads_bind; [apply reads_optional|]. eapply reads_bind; [apply reads_optional|].
    eapply reads_bind; [by apply reads_directed|]. eapply (reads_map _ (fun us => mkMeta _ _ _ _ _ _ _ _ us _ _ _ _)).
    apply reads_slice. intros u _. apply reads_string.
  - unfold meta_admissible. cbn [andb]. rewrite forallb_const. cbn [andb]. rewrite !andb_true_r, !andb_assoc. done.
  - unfold meta_cost. cbn [costs foldr]. rewrite !cost_zero_add, cost_add_zero. done.
  - done.
Qed.

(** The estimator fails only with a limit error. *)
Definition only_limits (f : Z -> result Z) : Prop := forall t e, f t = Err e -> exists msg, e = limitError msg.

Lemma limits_bind f g : only_limits f -> only_limits g -> only_limits (fun t => t ← f t; g t).
Proof. intros Hf Hg t e. unfold mbind, result_bind. destruct (f t) eqn:E; [apply Hg|]. intros [= <-]. by apply (Hf t). Qed.

Lemma limits_each {A} (f : A -> Z -> result Z) xs : (forall x, only_limits (f x)) -> only_limits (est_each f xs).
Proof.
  intros Hf. induction xs as [|x xs IH]; [done|]. apply (limits_bind (f x) (est_each f xs)); [apply Hf|exact IH].
Qed.

Lemma limits_allocation n : only_limits (est_allocation n).
Proof.
  intros t e. unfold est_allocation. destruct (n =? 0); [done|]. destruct (checkedRetainedRoundUp _ _) as [? []]; cbn [negb]; [|intros [= <-]; eauto].
  destruct (checkedRetainedAdd _ retainedAllocationOverhead) as [? []]; cbn [negb]; [|intros [= <-]; eauto].
  destruct (checkedRetainedAdd _ _) as [? []]; cbn [negb]; [done|]. intros [= <-]. eauto.
Qed.

Lemma limits_slice c n : only_limits (est_slice c n).
Proof.
  intros t e. unfold est_slice. destruct (c <=? 0); [done|]. destruct (checkedRetainedMul _ _) as [? []]; cbn [negb]; [|intros [= <-]; eauto].
  apply limits_allocation.
Qed.

#[local] Hint Resolve limits_allocation limits_slice : limits.

Lemma limits_string s : only_limits (est_string s).
Proof. apply limits_allocation. Qed.
Lemma limits_jid j : only_limits (est_jid j).
Proof. apply limits_each, limits_string. Qed.
#[local] Hint Resolve limits_string limits_jid : limits.

Lemma limits_status st : only_limits (est_status st).
Proof.
  apply (limits_bind (est_allocation _)); [auto with limits|]. apply (limits_bind (est_string _)); [auto with limits|].
  apply (limits_bind (est_slice _ _)); [auto with limits|]. apply limits_each. auto with limits.
Qed.

Lemma limits_meta m : only_limits (est_meta m).
Proof.
  do 2 (apply (limits_bind (est_slice _ _)); [auto with limits|]). do 2 (apply (limits_bind (est_jid _)); [auto with limits|]).
  apply (limits_bind (est_slice _ _)); [auto with limits|].
  apply (limits_bind (est_each est_ext _)); [apply limits_each; intros kv; apply (limits_bind (est_string _)); auto with limits|].
  apply (limits_bind (est_slice _ _)); [auto with limits|].
  apply (limits_bind (est_each est_string _)); [apply limits_each; auto with limits|auto with limits].
Qed.

Lemma limits_sync s : only_limits (est_sync s).
Proof.
  apply (limits_bind (est_allocation _)); [auto with limits|].
  apply (limits_bind (fun t => match sy_Status s with Some st => est_status st t | None => Ok t end)).
  { destruct (sy_Status s); [apply limits_status|done]. }
  apply (limits_bind (fun t => match sy_Queue s with Some q => est_queue q t | None => Ok t end)).
  { destruct (sy_Queue s); [|done]. apply (limits_bind (est_allocation _)); auto with limits. }
  apply (limits_bind (est_slice _ _)); [auto with limits|]. apply limits_each, limits_meta.
Qed.

Lemma weight_codecErr s e : SyncRetainedWeight s = Err e -> codecErr e.
Proof.
  destruct s as [s|]; [|done]. unfold SyncRetainedWeight, mbind, result_bind. destruct (est_sync s 0) as [t|e'] eqn:E.
  - destruct (checkedRetainedMul _ _) as [? []]; cbn [negb]; [|intros [= <-]; apply codec_limit].
    destruct (checkedRetainedRoundUp _ _) as [? []]; cbn [negb orb]; [|intros [= <-]; apply codec_limit].
    destruct (_ >? _); [|done]. intros [= <-]. apply codec_limit.
  - intros [= <-]. apply limits_sync in E as [msg ->]. apply codec_limit.
Qed.

Definition metas_of (f : EMCodecFrame) : list Z := indices (u64 (em_codec_frame_meta_count f)).

Definition copySync (f : EMCodecFrame) : Sync :=
  mkSync (copyStatus f) (em_codec_frame_ack_client_id f) (em_codec_frame_ack_server_id f)
    (GSlice (map (copyMeta f) (metas_of f)) (i64 (u64 (em_codec_frame_meta_count f))))
    (em_codec_frame_next_key f) (copyJID <$> em_codec_frame_queue f) (negb (em_codec_frame_is_last f =? 0)) (em_codec_frame_timestamp f).

Definition sync_admissible (f : EMCodecFrame) : bool :=
  (u64 (em_codec_frame_meta_count f) <=? MaxSyncMetas) && optional_admissible (em_codec_frame_queue f) &&
  forallb (meta_admissible f) (metas_of f) && is_ok (SyncRetainedWeight (Some (copySync f))).

Definition sync_cost (f : EMCodecFrame) : decodeTracker :=
  cost_add (optional_cost (em_codec_frame_queue f)) (costs (map (meta_cost f) (metas_of f))).

Lemma reads_sync f : reads (readSync f (copyStatus f)) (sync_admissible f) (sync_cost f) (copySync f).
Proof.
  unfold readSync. eapply reads_weaken.
  - eapply reads_bind; [apply reads_checkCount|]. eapply reads_bind; [apply reads_optional|].
    eapply reads_bind; [apply reads_slice; intros i _; apply reads_meta|].
    apply reads_check. intros e. apply weight_codecErr.
  - unfold sync_admissible. rewrite !andb_assoc. done.
  - unfold sync_cost. rewrite cost_zero_add, cost_add_zero. done.
  - done.
Qed.

(** ** Whole frames *)

Definition queues_of (f : EMCodecFrame) : list Z := indices (u64 (em_codec_frame_unread_queue_count f)).

Definition copyFrame (f : EMCodecFrame) : Frame :=
  let kind := em_codec_frame_kind f in
  let out := mkFrame (i32 (em_codec_frame_command f)) (em_codec_frame_trace_id f) in
  if kind =? EM_CODEC_FRAME_PROVISION then
    out (Some (mkProvision (copyStatus f) (copyString (em_codec_frame_session_id f)) (sl_elems (copyBytes (em_codec_frame_auth_token f)))))
      None None None None
  else if kind =? EM_CODEC_FRAME_UNREAD then
    out None (Some (mkUnread (copyStatus f) (omap (fun i => copyJID <$> em_codec_frame_unread_queue f i) (queues_of f)) (em_codec_frame_timestamp f)))
      None None None
  else if kind =? EM_CODEC_FRAME_NOTICE then out None None (copyJID <$> em_codec_frame_queue f) None None
  else if (kind =? EM_CODEC_FRAME_SYNC_ACK) || (kind =? EM_CODEC_FRAME_SYNC_BATCH) then out None None None (Some (copySync f)) None
  else if kind =? EM_CODEC_FRAME_LOGOUT then out None None None None (Some (mkLogout (copyStatus f)))
  else out None None None None None.

Definition body_admissible (f : EMCodecFrame) : bool :=
  let kind := em_codec_frame_kind f in
  if kind =? EM_CODEC_FRAME_PROVISION then bytes_admissible (em_codec_frame_auth_token f)
  else if kind =? EM_CODEC_FRAME_UNREAD then
    (u64 (em_codec_frame_unread_queue_count f) <=? MaxFrameCollectionItems) &&
    forallb (fun i => optional_admissible (em_codec_frame_unread_queue f i)) (queues_of f)
  else if kind =? EM_CODEC_FRAME_NOTICE then optional_admissible (em_codec_frame_queue f)
  else if (kind =? EM_CODEC_FRAME_SYNC_ACK) || (kind =? EM_CODEC_FRAME_SYNC_BATCH) then sync_admissible f
  else true.

Definition body_cost (f : EMCodecFrame) : decodeTracker :=
  let kind := em_codec_frame_kind f in
  if kind =? EM_CODEC_FRAME_PROVISION then string_cost (em_codec_frame_session_id f)
  else if kind =? EM_CODEC_FRAME_UNREAD then costs (map (fun i => optional_cost (em_codec_frame_unread_queue f i)) (queues_of f))
  else if kind =? EM_CODEC_FRAME_NOTICE then optional_cost (em_codec_frame_queue f)
  else if (kind =? EM_CODEC_FRAME_SYNC_ACK) || (kind =? EM_CODEC_FRAME_SYNC_BATCH) then sync_cost f
  else cost_zero.

(** What the protocol limits say of a frame: its collections, its JIDs, its byte
    fields, and the totals of its strings, payloads and directed users. *)
Definition frame_admissible (f : EMCodecFrame) : bool :=
  status_admissible f && body_admissible f && fits (cost_add (status_cost f) (body_cost f)).

Lemma reads_frame f :
  reads (decodeFrameBody f) (status_admissible f && body_admissible f) (cost_add (status_cost f) (body_cost f)) (copyFrame f).
Proof.
  unfold decodeFrameBody. eapply reads_bind; [apply reads_status|]. unfold body_admissible, body_cost, copyFrame.
  destruct (_ =? EM_CODEC_FRAME_PROVISION).
  { eapply reads_weaken; [eapply reads_bind; [apply reads_string|];
      eapply (reads_map _ (fun x => mkFrame _ _ (Some (mkProvision _ _ (sl_elems x))) _ _ _ _)); apply reads_bytes
      |done|apply cost_add_zero|done]. }
  destruct (_ =? EM_CODEC_FRAME_UNREAD).
  { eapply reads_weaken; [eapply reads_bind; [apply reads_checkCount|];
      eapply (reads_map _ (fun x => mkFrame _ _ _ (Some (mkUnread _ x _)) _ _ _)); apply reads_each; intros i _; apply reads_optional
      |done|apply cost_zero_add|done]. }
  destruct (_ =? EM_CODEC_FRAME_NOTICE); [apply (reads_map _ (fun x => mkFrame _ _ _ _ x _ _)), reads_optional|].
  destruct (_ || _); [apply (reads_map _ (fun x => mkFrame _ _ _ _ _ (Some x) _)), reads_sync|].
  destruct (_ =? EM_CODEC_FRAME_LOGOUT); apply reads_ret.
Qed.

Lemma untracked_reads {A} (m : tracked A) ok c a :
  reads m ok c a ->
  if ok && fits c then untracked m = Ok a else exists e, untracked m = Err e /\ codecErr e.
Proof.
  intros [_ H]. specialize (H cost_zero ltac:(by vm_compute) eq_refl). rewrite cost_zero_add in H. unfold untracked.
  change (mkTracker 0 0 0) with cost_zero. destruct (ok && fits c).
  - rewrite H. done.
  - destruct H as (e & -> & He). rsimpl. eauto.
Qed.

(** C27. A frame is decoded exactly when it is within the protocol limits, and then into
    exactly what its accessors return: whole strings, no element lost.  Any other
    frame is refused, with a limit error or for a byte field without data; no
    combination of counts and lengths makes the decoder read or allocate beyond
    the limits. *)
Theorem decodeFrame_correct f :
  if frame_admissible f then decodeFrame f = Ok (copyFrame f)
  else exists e, decodeFrame f = Err e /\ codecErr e.
Proof. apply untracked_reads, reads_frame. Qed.

(** ** What the SDK may rely on *)

Definition jid_strings (j : JID) : list string := [j_AppKey j; j_Name j; j_Domain j; j_ClientResource j].

Definition status_strings (st : option Status) : list string :=
  match st with Some st => st_Reason st :: map ri_Host (sl_elems (st_Redirects st)) | None => [] end.

Definition meta_strings (m : Meta) : list string :=
  (jid_strings (m_From m) ++ jid_strings (m_To m) ++ sl_elems (m_DirectedUsers m))%list.

Definition frame_status (fr : Frame) : option Status :=
  match fr_Provision fr, fr_Unread fr, fr_Sync fr, fr_Logout fr with
  | Some p, _, _, _ => pv_Status p
  | _, Some u, _, _ => un_Status u
  | _, _, Some s, _ => sy_Status s
  | _, _, _, Some l => lo_Status l
  | _, _, _, _ => None
  end.

(** The queues a frame names. *)
Definition frame_jids (fr : Frame) : list JID :=
  (match fr_Unread fr with Some u => un_Queues u | None => [] end ++ option_list (fr_Notice fr) ++
   match fr_Sync fr with Some s => option_list (sy_Queue s) | None => [] end)%list.

Definition frame_metas (fr : Frame) : list Meta := match fr_Sync fr with Some s => sl_elems (sy_Metas s) | None => [] end.

Definition frame_strings (fr : Frame) : list string :=
  (status_strings (frame_status fr) ++ match fr_Provision fr with Some p => [pv_SessionID p] | None => [] end ++
   concat (map jid_strings (frame_jids fr)) ++ concat (map meta_strings (frame_metas fr)))%list.

Definition total_len (ss : list string) : Z := zsum (map slen ss).

Lemma total_app a b : total_len (a ++ b) = total_len a + total_len b.
Proof. unfold total_len. by rewrite map_app, zsum_app. Qed.

Lemma total_concat (ll : list (list string)) : total_len (concat ll) = zsum (map total_len ll).
Proof. induction ll as [|l ll IH]; simpl; [done|]. rewrite total_app, zsum_cons. lia. Qed.

Lemma total_nonneg ss : 0 <= total_len ss.
Proof. apply zsum_nonneg, Forall_map, Forall_true. intros s. apply slen_nonneg. Qed.

(** A projection of a total cost. *)
Lemma costs_string {A} (c : A -> decodeTracker) l : stringBytes (costs (map c l)) = zsum (map (fun x => stringBytes (c x)) l).
Proof. induction l; simpl; [done|]. rewrite zsum_cons. lia. Qed.
Lemma costs_payload {A} (c : A -> decodeTracker) l : payloadBytes (costs (map c l)) = zsum (map (fun x => payloadBytes (c x)) l).
Proof. induction l; simpl; [done|]. rewrite zsum_cons. lia. Qed.
Lemma costs_directed {A} (c : A -> decodeTracker) l : directedUsers (costs (map c l)) = zsum (map (fun x => directedUsers (c x)) l).
Proof. induction l; simpl; [done|]. rewrite zsum_cons. lia. Qed.

Lemma zsum_map_zero {A} (f : A -> Z) l : (forall x, f x = 0) -> zsum (map f l) = 0.
Proof. intros H. induction l; simpl; [done|]. rewrite zsum_cons, H, IHl. done. Qed.

Lemma zsum_map_ext {A} (f g : A -> Z) l : (forall x, f x = g x) -> zsum (map f l) = zsum (map g l).
Proof. intros H. induction l; simpl; [done|]. by rewrite !zsum_cons, H, IHl. Qed.

Lemma total_jid v : total_len (jid_strings (copyJID v)) = stringBytes (jid_cost v).
Proof. unfold total_len, jid_strings, copyJID, jid_cost, jid_pointers. cbn [map j_AppKey j_Name j_Domain j_ClientResource stringBytes]. by rewrite !slen_copyString. Qed.

Lemma total_optional v : total_len (concat (map jid_strings (option_list (copyJID <$> v)))) = stringBytes (optional_cost v).
Proof. destruct v as [v|]; [|done]. transitivity (total_len (jid_strings (copyJID v))); [done|apply total_jid]. Qed.

Lemma total_default v : total_len (jid_strings (default (mkJID "" "" "" "") (copyJID <$> v))) = stringBytes (optional_cost v).
Proof. destruct v as [v|]; [apply total_jid|done]. Qed.

Lemma total_status f : total_len (status_strings (copyStatus f)) = stringBytes (status_cost f).
Proof.
  unfold copyStatus, status_cost. destruct (has_status f); [|done]. cbn [status_strings st_Reason st_Redirects sl_elems].
  unfold total_len. cbn [map]. rewrite zsum_cons, slen_copyString, !map_map. cbn [ri_Host]. simpl. rewrite costs_string. f_equal.
  apply zsum_map_ext. intros i. apply slen_copyString.
Qed.

Lemma total_users f i :
  total_len (map (fun u => copyString (em_codec_meta_directed_user f i u)) (users_of f i)) =
  zsum (map (fun u => stringBytes (string_cost (em_codec_meta_directed_user f i u))) (users_of f i)).
Proof. unfold total_len. rewrite map_map. apply zsum_map_ext. intros u. apply slen_copyString. Qed.

Lemma total_meta f i : total_len (meta_strings (copyMeta f i)) = stringBytes (meta_cost f i).
Proof.
  unfold meta_strings, copyMeta, meta_cost. cbn [m_From m_To m_DirectedUsers sl_elems].
  rewrite !total_app, !total_default, total_users, <- costs_string. cbn [costs foldr cost_add stringBytes cost_zero]. lia.
Qed.

Lemma zsum_omap {A B} (F : B -> Z) (h : A -> option B) l :
  zsum (map F (omap h l)) = zsum (map (fun i => match h i with Some x => F x | None => 0 end) l).
Proof.
  induction l as [|i l IH]; [done|]. csimpl. destruct (h i); csimpl; rewrite !zsum_cons; lia.
Qed.

Lemma total_omap (g : Z -> option EMCodecJID) l :
  total_len (concat (map jid_strings (omap (fun i => copyJID <$> g i) l))) = stringBytes (costs (map (fun i => optional_cost (g i)) l)).
Proof.
  rewrite total_concat, costs_string, map_map, zsum_omap. apply zsum_map_ext. intros i. destruct (g i); [apply total_jid|done].
Qed.

Lemma total_metas f :
  total_len (concat (map meta_strings (map (copyMeta f) (metas_of f)))) = stringBytes (costs (map (meta_cost f) (metas_of f))).
Proof. rewrite total_concat, !map_map, costs_string. apply zsum_map_ext. intros i. apply total_meta. Qed.

Lemma total_frame f :
  total_len (frame_strings (copyFrame f)) <= stringBytes (cost_add (status_cost f) (body_cost f)).
Proof.
  cbn [cost_add stringBytes]. pose proof (total_nonneg (status_strings (copyStatus f))) as Hs. pose proof (total_status f) as Hst.
  unfold frame_strings, copyFrame, body_cost.
  destruct (_ =? EM_CODEC_FRAME_PROVISION).
  { cbn -[Z.add]. rewrite total_app, Hst. unfold total_len. cbn [map]. rewrite zsum_cons, slen_copyString. change (zsum []) with 0. lia. }
  destruct (_ =? EM_CODEC_FRAME_UNREAD).
  { unfold frame_status, frame_jids, frame_metas. cbn [fr_Provision fr_Unread fr_Sync fr_Notice un_Status un_Queues option_list].
    rewrite !app_nil_r, !total_app, total_omap, Hst. change (total_len (concat (map meta_strings []))) with 0. change (total_len []) with 0. lia. }
  destruct (_ =? EM_CODEC_FRAME_NOTICE).
  { unfold frame_status, frame_jids, frame_metas. cbn [fr_Provision fr_Unread fr_Sync fr_Notice fr_Logout status_strings].
    rewrite !total_app. cbn [map concat app]. rewrite app_nil_r, total_optional. change (total_len []) with 0. lia. }
  destruct (_ || _).
  { unfold frame_status, frame_jids, frame_metas. cbn [fr_Provision fr_Unread fr_Sync fr_Notice fr_Logout copySync sy_Status sy_Queue sy_Metas sl_elems].
    change (option_list (@None JID)) with (@nil JID). rewrite !total_app. cbn [app]. rewrite total_optional, total_metas, Hst. cbn [sync_cost cost_add stringBytes].
    change (total_len []) with 0. unfold sync_cost. cbn [cost_add stringBytes]. lia. }
  destruct (_ =? EM_CODEC_FRAME_LOGOUT).
  - unfold frame_status, frame_jids, frame_metas. cbn. rewrite app_nil_r, Hst. lia.
  - cbn. change (total_len []) with 0. lia.
Qed.

Lemma copyJID_valid v : jid_admissible v = true -> validateQueueJID (copyJID v) = None.
Proof.
  unfold jid_admissible, validateQueueJID, jid_pointers, copyJID. cbn [j_AppKey j_Name j_Domain j_ClientResource map forallb existsb].
  rewrite !slen_copyString, !andb_true_iff, !Z.leb_le. intros [(H1 & H2 & H3 & H4 & _) Ht].
  rewrite !Z.gtb_ltb. rewrite (proj2 (Z.ltb_ge _ (cstring_len (cj_app_key v)))), (proj2 (Z.ltb_ge _ (cstring_len (cj_name v)))),
    (proj2 (Z.ltb_ge _ (cstring_len (cj_domain v)))), (proj2 (Z.ltb_ge _ (cstring_len (cj_resource v)))) by done. cbn [orb].
  by rewrite (proj2 (Z.ltb_ge _ _)).
Qed.

Lemma optional_valid v : optional_admissible v = true -> Forall (fun j => validateQueueJID j = None) (option_list (copyJID <$> v)).
Proof. destruct v as [v|]; [|constructor]. intros H. constructor; [by apply copyJID_valid|constructor]. Qed.

Lemma jids_valid f : body_admissible f = true -> Forall (fun j => validateQueueJID j = None) (frame_jids (copyFrame f)).
Proof.
  unfold body_admissible, copyFrame, frame_jids. destruct (_ =? EM_CODEC_FRAME_PROVISION); [constructor|].
  destruct (_ =? EM_CODEC_FRAME_UNREAD).
  { intros [_ Hq]%andb_true_iff. cbn [fr_Unread fr_Notice fr_Sync un_Queues option_list]. rewrite app_nil_r.
    rewrite forallb_forall in Hq. apply Forall_forall. intros j (i & Hi & Hj)%list_elem_of_omap.
    destruct (em_codec_frame_unread_queue f i) as [v|] eqn:Ev; [|done]. injection Hj as <-. apply copyJID_valid.
    apply list_elem_of_In, Hq in Hi. by rewrite Ev in Hi. }
  destruct (_ =? EM_CODEC_FRAME_NOTICE).
  { intros H. cbn [fr_Unread fr_Notice fr_Sync app]. rewrite app_nil_r. by apply optional_valid. }
  destruct (_ || _); [|destruct (_ =? EM_CODEC_FRAME_LOGOUT); constructor].
  intros H. cbn [fr_Unread fr_Notice fr_Sync copySync sy_Queue]. change (option_list (@None JID)) with (@nil JID). cbn [app]. apply optional_valid.
  unfold sync_admissible in H. rewrite !andb_true_iff in H. tauto.
Qed.

(** The bytes a message keeps outside of its strings. *)
Definition meta_blob (m : Meta) : Z := zlen (sl_elems (m_Payload m)) + zlen (sl_elems (m_Attributes m)).

Lemma copyBytes_len p : zlen (sl_elems (copyBytes p)) <= u64 (cb_size p).
Proof.
  unfold copyBytes. pose proof (u64_range (cb_size p)) as Hr. destruct (u64 (cb_size p) =? 0) eqn:E; breflect; simpl; [by rewrite E|].
  unfold GoBytes, zlen. rewrite length_take. assert (i32 (u64 (cb_size p)) <= u64 (cb_size p)) as Hi; [|word_lia].
  unfold i32. change (2 ^ 31) with 2147483648. change (2 ^ 32) with 4294967296.
  pose proof (Z.mod_le (u64 (cb_size p) + 2147483648) 4294967296). word_lia.
Qed.

Lemma length_indices n : zlen (indices n) = Z.max 0 n.
Proof. unfold indices, zlen. rewrite length_map, length_seq. lia. Qed.

Lemma zsum_map_le2 {A} (f g : A -> Z) l : (forall x, f x <= g x) -> zsum (map f l) <= zsum (map g l).
Proof. intros H. induction l as [|x l IH]; simpl; [lia|]. rewrite !zsum_cons. specialize (H x). lia. Qed.

Lemma meta_payload_cost f i :
  payloadBytes (meta_cost f i) = u64 (cb_size (em_codec_meta_payload f i)) + u64 (cb_size (em_codec_meta_attributes f i)).
Proof.
  unfold meta_cost. cbn [costs foldr cost_add payloadBytes cost_zero]. fold costs. rewrite costs_payload.
  rewrite (zsum_map_zero (fun x => payloadBytes _)) by done. unfold optional_cost. destruct (em_codec_meta_from f i), (em_codec_meta_to f i); simpl; lia.
Qed.

Lemma meta_directed_cost f i : directedUsers (meta_cost f i) = u64 (em_codec_meta_directed_user_count f i).
Proof.
  unfold meta_cost. cbn [costs foldr cost_add directedUsers cost_zero]. fold costs. rewrite costs_directed.
  rewrite (zsum_map_zero (fun x => directedUsers _)) by done. unfold optional_cost. destruct (em_codec_meta_from f i), (em_codec_meta_to f i); simpl; lia.
Qed.

Lemma sync_totals f :
  zsum (map meta_blob (map (copyMeta f) (metas_of f))) <= payloadBytes (sync_cost f) /\
  zsum (map (fun m => zlen (sl_elems (m_DirectedUsers m))) (map (copyMeta f) (metas_of f))) <= directedUsers (sync_cost f).
Proof.
  unfold sync_cost. cbn [cost_add payloadBytes directedUsers]. rewrite costs_payload, costs_directed, !map_map.
  assert (0 <= payloadBytes (optional_cost (em_codec_frame_queue f)) /\ 0 <= directedUsers (optional_cost (em_codec_frame_queue f))) as [? ?]
    by (destruct (em_codec_frame_queue f); simpl; lia).
  split.
  - transitivity (zsum (map (fun i => payloadBytes (meta_cost f i)) (metas_of f))); [|lia]. apply zsum_map_le2. intros i.
    rewrite meta_payload_cost. unfold meta_blob, copyMeta. cbn [m_Payload m_Attributes].
    pose proof (copyBytes_len (em_codec_meta_payload f i)). pose proof (copyBytes_len (em_codec_meta_attributes f i)). lia.
  - transitivity (zsum (map (fun i => directedUsers (meta_cost f i)) (metas_of f))); [|lia]. apply zsum_map_le2. intros i.
    rewrite meta_directed_cost. unfold copyMeta. cbn [m_DirectedUsers sl_elems]. unfold zlen. rewrite length_map.
    pose proof (length_indices (u64 (em_codec_meta_directed_user_count f i))) as Hl. unfold zlen in Hl. unfold users_of. rewrite Hl.
    pose proof (u64_range (em_codec_meta_directed_user_count f i)). word_lia.
Qed.

Lemma status_cost_free f : 0 <= payloadBytes (status_cost f) /\ 0 <= directedUsers (status_cost f).
Proof. destruct (reads_status f) as [(_ & ? & ?) _]. done. Qed.

(** A frame within the protocol limits. *)
Definition frame_small (fr : Frame) : Prop :=
  zsum (map slen (frame_strings fr)) <= MaxSyncStringBytes /\
  Forall (fun j => validateQueueJID j = None) (frame_jids fr) /\
  zlen (frame_metas fr) <= MaxSyncMetas /\
  zsum (map meta_blob (frame_metas fr)) <= MaxSyncPayloadBytes /\
  zsum (map (fun m => zlen (sl_elems (m_DirectedUsers m))) (frame_metas fr)) <= MaxSyncDirectedUsers /\
  match fr_Unread fr with Some u => zlen (un_Queues u) <= MaxFrameCollectionItems | None => True end /\
  match fr_Sync fr with Some s => is_ok (SyncRetainedWeight (Some s)) = true | None => True end.

Lemma decoded_small f fr : decodeFrame f = Ok fr -> frame_small fr.
Proof.
  intros H. assert (if frame_admissible f then decodeFrame f = Ok (copyFrame f) else exists e, decodeFrame f = Err e /\ codecErr e) as Hc
    by apply untracked_reads, reads_frame.
  destruct (frame_admissible f) eqn:Ha.
  2: { destruct Hc as (e & Hc & _). congruence. }
  assert (fr = copyFrame f) as -> by congruence. clear H Hc. unfold frame_admissible in Ha. rewrite !andb_true_iff in Ha.
  destruct Ha as [[_ Hb] Hf]. apply fits_true in Hf as (Hfs & Hfp & Hfd). pose proof (total_frame f). pose proof (status_cost_free f).
  split; [unfold total_len in *; lia|]. split; [by apply jids_valid|].
  cbn [cost_add payloadBytes directedUsers] in *. unfold body_admissible, body_cost in *. unfold copyFrame, frame_metas.
  destruct (_ =? EM_CODEC_FRAME_PROVISION); [by split_and!|].
  destruct (_ =? EM_CODEC_FRAME_UNREAD).
  { split_and!; try done. cbn [fr_Unread un_Queues]. apply andb_true_iff in Hb as [Hn _]. apply Z.leb_le in Hn.
    pose proof (length_indices (u64 (em_codec_frame_unread_queue_count f))) as Hl. pose proof (u64_range (em_codec_frame_unread_queue_count f)).
    assert (forall (h : Z -> option JID) l, zlen (omap h l) <= zlen l) as Ho.
    { intros h l. unfold zlen. induction l as [|i l IH]; csimpl; [lia|]. destruct (h i); csimpl; lia. }
    etransitivity; [apply Ho|]. unfold queues_of. rewrite Hl. word_lia. }
  destruct (_ =? EM_CODEC_FRAME_NOTICE); [by split_and!|].
  destruct (_ || _); [|destruct (_ =? EM_CODEC_FRAME_LOGOUT); by split_and!].
  cbn [fr_Sync copySync sy_Metas sl_elems]. destruct (sync_totals f) as [Hp Hd].
  unfold sync_admissible in Hb. rewrite !andb_true_iff in Hb. destruct Hb as [[[Hn _] _] Hw]. apply Z.leb_le in Hn.
  split_and!; try done; [|lia|lia].
  unfold zlen. rewrite length_map. pose proof (length_indices (u64 (em_codec_frame_meta_count f))) as Hl. unfold zlen in Hl.
  unfold metas_of. rewrite Hl. pose proof (u64_range (em_codec_frame_meta_count f)). word_lia.
Qed.
