(* ===== verification/NativeCodec.v ===== *)
(** * The native codec

    internal/protocol/nativecodec/codec.go, the methods of [Codec]: what they pass
    to the C library, what they make of its answers, and the closed codec.  The
    library is a parameter ([nativeLibrary], native/include/em_msync_codec.h); the
    C memory the code allocates and frees around a call is not modelled, except
    that an allocation may fail. *)
From Stdlib Require Import String SpecFloat.
From S2P Require Import Prelude Protocol Errors RetainedWeight Wire Message MessageJSON Provisioning NativeDecode.
Local Open Scope string_scope.
Local Open Scope Z_scope.

(** ** Arguments *)

Definition u32 (z : Z) : Z := z mod 2 ^ 32.

(** [cstr]: NULL for the empty string; C reads up to the first NUL. *)
Definition cstr (s : string) : cstring := if String.eqb s "" then None else Some s.

Definition bytesPtr (b : bytes) : cbytes := mkCBytes match b with [] => None | _ => Some b end (zlen b).

Definition makeJID (j : JID) : EMCodecJID :=
  mkCJID (cstr (j_AppKey j)) (cstr (j_Name j)) (cstr (j_Domain j)) (cstr (j_ClientResource j)).

Record EMCodecMessageContent := mkCContent {
  cc_type : Z; cc_text : cstring; cc_action : cstring; cc_custom_event : cstring; cc_values : list EMCodecKeyValue }.

(** The fields the code sets; the others are zero. *)
Record EMCodecSendRequest := mkCRequest {
  cr_from : EMCodecJID; cr_to : EMCodecJID; cr_message_type : Z;
  cr_contents : list EMCodecMessageContent; cr_extensions : list EMCodecKeyValue }.

(** ** The library *)

(** Each call returns an [EMCodecError] and, when that is EM_CODEC_OK, its result;
    [em_codec_create] returns NULL ([None]) with the error. *)
Record nativeLibrary := mkLibrary {
  EMCodec : Type;
  em_codec_create : Z -> option EMCodec * Z;
  em_codec_encode_provision : EMCodec -> EMCodecJID -> cstring -> cstring -> cbytes -> Z * cbytes;
  em_codec_encode_unread : EMCodec -> Z * cbytes;
  em_codec_encode_logout : EMCodec -> cstring -> cstring -> Z * cbytes;
  em_codec_encode_sync_queue : EMCodec -> EMCodecJID -> Z -> Z * cbytes;
  em_codec_encode_sync_meta : EMCodec -> Z -> EMCodecJID -> EMCodecJID -> Z -> Z -> Z -> cbytes -> list cstring -> Z * cbytes;
  em_codec_encode_message_body : EMCodec -> EMCodecSendRequest -> Z * cbytes;
  em_codec_decode_frame : EMCodec -> cbytes -> Z * EMCodecFrame;
  em_codec_decode_message_body : EMCodec -> cbytes -> Z * EMCodecFrame;
  em_codec_decode_statistic : EMCodec -> cbytes -> Z * EMCodecFrame;
  calloc : Z -> bool;                            (* whether an array of that many elements can be had *)
  inflate : bytes -> result zstream }.           (* zlib *)

Definition EM_CODEC_ABI_VERSION : Z := 1.

(** ** Errors and buffers *)

Definition codecError (v : Z) : option goerror :=
  if v =? EM_CODEC_OK then None
  else if v =? EM_CODEC_LIMIT_EXCEEDED then Some (limitError ("native codec error " ++ pretty v))
  else Some (EPlain ("native codec error " ++ pretty v)).

Definition takeBuffer (out : cbytes) : result bytes :=
  if cb_size out =? 0 then Ok [] else
  if u64 (cb_size out) >? MaxCodecInputBytes
  then Err (limitError ("native codec output exceeds " ++ pretty MaxCodecInputBytes ++ " bytes")) else
  match cb_data out with
  | None => Err (EPlain ("native codec returned nil output with size " ++ pretty (u64 (cb_size out))))
  | Some b => Ok (GoBytes b (cb_size out))
  end.

(** [if e != C.EM_CODEC_OK { return nil, codecError(e) }; return takeBuffer(&out)]. *)
Definition encoded (r : Z * cbytes) : result bytes :=
  match codecError (fst r) with Some err => Err err | None => takeBuffer (snd r) end.

Definition codecClosed : goerror := EPlain "native codec is closed".

Section Codec.
Context (lib : nativeLibrary).

(** The handle; nil when the codec is closed.  The read lock of a method keeps
    [Close] from running during it. *)
Definition Codec := option (EMCodec lib).

Definition New : result Codec :=
  match em_codec_create lib EM_CODEC_ABI_VERSION with
  | (Some h, _) => Ok (Some h)
  | (None, code) => match codecError code with Some err => Err err | None => Ok None end
  end.

Definition Close (c : Codec) : Codec := None.

(** ** Encoding *)

Definition EncodeProvision (c : Codec) (v : ProvisionRequest) : result bytes :=
  match c with
  | None => Err codecClosed
  | Some h =>
      frame ← encoded (em_codec_encode_provision lib h (makeJID (pq_User v)) (cstr (pq_SDKVersion v)) (cstr (pq_Resource v))
                         (bytesPtr (pq_AuthToken v)));
      withProvisionActionVersion frame
  end.

Definition EncodeUnread (c : Codec) : result bytes :=
  match c with None => Err codecClosed | Some h => encoded (em_codec_encode_unread lib h) end.

Definition EncodeLogout (c : Codec) (v : LogoutRequest) : result bytes :=
  match c with
  | None => Err codecClosed
  | Some h => encoded (em_codec_encode_logout lib h (cstr (lq_SessionID v)) (cstr (lq_Reason v)))
  end.

(** The array of [makeStrings]; an empty string is a pointer to one. *)
Definition makeStrings (v : list string) : result (list cstring) :=
  match v with
  | [] => Ok []
  | _ => if calloc lib (zlen v) then Ok (map Some v) else Err (EPlain "native codec: allocate string array")
  end.

Definition EncodeSync (c : Codec) (v : SyncRequest) : result bytes :=
  match c with
  | None => Err codecClosed
  | Some h =>
      match sr_Meta v with
      | None =>
          match sr_Queue v with
          | None => Err (EPlain "sync requires meta or queue")
          | Some q => encoded (em_codec_encode_sync_queue lib h (makeJID q) (sr_Key v))
          end
      | Some m =>
          users ← makeStrings (sl_elems (m_DirectedUsers m));
          encoded (em_codec_encode_sync_meta lib h (m_ID m) (makeJID (m_From m)) (makeJID (m_To m)) (m_Timestamp m)
                     (u32 (m_Namespace m)) (u32 (m_Route m)) (bytesPtr (sl_elems (m_Payload m))) users)
      end
  end.

(** One element of [makeKVs]. *)
Definition makeKV (x : KeyValue) : EMCodecKeyValue :=
  let integer := match kv_Kind x with
                 | KVBool => if kv_Bool x then 1 else kv_Int64 x
                 | KVUint => i64 (kv_Uint64 x)
                 | _ => kv_Int64 x end in
  let number := match kv_Kind x with KVFloat => float64_of_float32 (kv_Float x) | _ => kv_Double x end in
  mkCKeyValue (cstr (kv_Key x)) (u32 (KeyValueKind_int (kv_Kind x))) integer number (cstr (kv_String x)).

Definition makeKVs (v : list KeyValue) : result (list EMCodecKeyValue) :=
  match v with
  | [] => Ok []
  | _ => if calloc lib (zlen v) then Ok (map makeKV v) else Err (EPlain "native codec: allocate key values")
  end.

Definition makeContent (x : Content) : result EMCodecMessageContent :=
  let vals := if ct_Kind x =? ContentCustom then ct_CustomExts x else ct_Params x in
  kv ← makeKVs vals;
  Ok (mkCContent (u32 (ct_Kind x)) (cstr (ct_Text x)) (cstr (ct_Action x)) (cstr (ct_Event x)) kv).

Fixpoint makeContents (v : list Content) : result (list EMCodecMessageContent) :=
  match v with
  | [] => Ok []
  | x :: v => c ← makeContent x; cs ← makeContents v; Ok (c :: cs)
  end.

Definition makeRequest (v : MessageBody) : result EMCodecSendRequest :=
  ext ← makeKVs (mb_Ext v);
  if negb (zlen (mb_Contents v) =? 0) && negb (calloc lib (zlen (mb_Contents v)))
  then Err (EPlain "native codec: allocate contents") else
  contents ← makeContents (mb_Contents v);
  Ok (mkCRequest (makeJID (mb_From v)) (makeJID (mb_To v)) (u32 (mb_Kind v)) contents ext).

Definition EncodeMessageBody (c : Codec) (v : MessageBody) : result bytes :=
  match c with
  | None => Err codecClosed
  | Some h => req ← makeRequest v; encoded (em_codec_encode_message_body lib h req)
  end.

(** ** Decoding *)

(** What the library decoded, read by [read]. *)
Definition decoded {A} (read : EMCodecFrame -> result A) (r : Z * EMCodecFrame) : result A :=
  match codecError (fst r) with Some err => Err err | None => read (snd r) end.

Definition DecodeFrame (c : Codec) (data : bytes) : result Frame :=
  data ← decompressEnvelopePayload (inflate lib) data;
  match c with
  | None => Err codecClosed
  | Some h => decoded decodeFrame (em_codec_decode_frame lib h (bytesPtr data))
  end.

Definition inputTooLong (what : string) : goerror := limitError (what ++ " exceeds " ++ pretty MaxCodecInputBytes ++ " bytes").

Definition DecodeMessageBody (c : Codec) (data : bytes) : result MessageBody :=
  if zlen data >? MaxCodecInputBytes then Err (inputTooLong "message body") else
  match c with
  | None => Err codecClosed
  | Some h => decoded (fun f => untracked (decodeBody f)) (em_codec_decode_message_body lib h (bytesPtr data))
  end.

Definition DecodeStatistic (c : Codec) (data : bytes) : result Statistic :=
  if zlen data >? MaxCodecInputBytes then Err (inputTooLong "statistic") else
  match c with
  | None => Err codecClosed
  | Some h => decoded (fun f => untracked (decodeStatistic f)) (em_codec_decode_statistic lib h (bytesPtr data))
  end.

(** ** The interface of internal/protocol/codec.go *)

#[export] Instance nativeFrameCodec (c : Codec) : FrameCodec :=
  {| Provisioning.EncodeProvision := EncodeProvision c; Provisioning.EncodeUnread := EncodeUnread c;
     Provisioning.EncodeSync := EncodeSync c; Provisioning.EncodeLogout := EncodeLogout c;
     Provisioning.DecodeFrame := DecodeFrame c; Provisioning.EstimateDecodeAdmission := Some estimateDecodeAdmission |}.

Definition nativeMessageCodec (c : Codec) : MessageCodec :=
  mkMessageCodec (EncodeMessageBody c) (DecodeMessageBody c) (DecodeStatistic c).
End Codec.
