(* ===== verification/NativeTheory.v ===== *)
(** * Properties of the native codec

    A frame the codec returns is within the protocol limits, and a message body
    survives the way through the library when the library keeps what it is given:
    the codec meets the contract the messages rely on (MessageJSON). *)
From Stdlib Require Import String SpecFloat.
From S2P Require Import Prelude Protocol Errors RetainedWeight Wire Message MessageJSON Queue Provisioning NativeDecode NativeLimits NativeCodec.
Local Open Scope string_scope.
Local Open Scope Z_scope.

(** ** Reading a message body *)

Definition kv_cost (v : EMCodecKeyValue) : decodeTracker := cost_add (string_cost (ck_key v)) (string_cost (ck_string_value v)).

Definition copyKV (v : EMCodecKeyValue) : KeyValue :=
  mkKeyValue (copyString (ck_key v)) (KeyValueKind_of (i32 (ck_type v))) (negb (ck_integer_value v =? 0)) (ck_integer_value v)
    (u64 (ck_integer_value v)) (float32_of_float64 (ck_number_value v)) (ck_number_value v) (copyString (ck_string_value v)).

Lemma reads_kv v : reads (readKV v) true (kv_cost v) (copyKV v).
Proof.
  unfold readKV. eapply reads_weaken; [eapply reads_bind; [apply reads_string|];
    eapply (reads_map _ (fun x => mkKeyValue _ _ _ _ _ _ _ x)); apply reads_string|done|done|done].
Qed.

Definition kv_count (f : EMCodecFrame) (content : option Z) : Z :=
  u64 match content with None => em_codec_meta_key_value_count f 0 | Some c => em_codec_content_key_value_count f 0 c end.

Definition kv_at (f : EMCodecFrame) (content : option Z) (i : Z) : option EMCodecKeyValue :=
  match content with None => em_codec_meta_key_value f 0 i | Some c => em_codec_content_key_value f 0 c i end.

Definition kvs_cost (f : EMCodecFrame) (content : option Z) : decodeTracker :=
  costs (map (fun i => match kv_at f content i with None => cost_zero | Some v => kv_cost v end) (indices (kv_count f content))).

Definition copyKVs (f : EMCodecFrame) (content : option Z) : list KeyValue :=
  omap (fun i => copyKV <$> kv_at f content i) (indices (kv_count f content)).

Lemma reads_kvs f content :
  reads (readKVs f 0 content) (kv_count f content <=? MaxFrameCollectionItems) (kvs_cost f content) (copyKVs f content).
Proof.
  unfold readKVs. fold (kv_count f content). eapply reads_weaken.
  - eapply reads_bind; [apply reads_checkCount|]. apply (reads_each _ (fun _ => true)
      (fun i => match kv_at f content i with None => cost_zero | Some v => kv_cost v end) (fun i => copyKV <$> kv_at f content i)).
    intros i _. cbn beta. fold (kv_at f content i). destruct (kv_at f content i) as [v|]; [apply (reads_map _ Some), reads_kv|apply reads_ret].
  - cbn beta. rewrite forallb_const, andb_true_r. done.
  - apply cost_zero_add.
  - done.
Qed.

Definition content_kind (f : EMCodecFrame) (i : Z) : Z := i32 (em_codec_content_type f 0 i).

Definition copyContent (f : EMCodecFrame) (i : Z) : Content :=
  let kind := content_kind f i in
  let content := mkContent kind (copyString (em_codec_content_text f 0 i)) (copyString (em_codec_content_action f 0 i)) in
  let event := copyString (em_codec_content_custom_event f 0 i) in
  if kind =? ContentCommand then content (copyKVs f (Some i)) event [] []
  else if kind =? ContentCustom then content [] event (copyKVs f (Some i)) []
  else if kind >? ContentCustom then content [] event [] (sl_elems (copyBytes (em_codec_content_raw f 0 i)))
  else content [] event [] [].

Definition content_admissible (f : EMCodecFrame) (i : Z) : bool :=
  let kind := content_kind f i in
  if (kind =? ContentCommand) || (kind =? ContentCustom) then kv_count f (Some i) <=? MaxFrameCollectionItems
  else if kind >? ContentCustom then bytes_admissible (em_codec_content_raw f 0 i)
  else true.

Definition content_cost (f : EMCodecFrame) (i : Z) : decodeTracker :=
  let kind := content_kind f i in
  costs [string_cost (em_codec_content_text f 0 i); string_cost (em_codec_content_action f 0 i);
         string_cost (em_codec_content_custom_event f 0 i);
         if (kind =? ContentCommand) || (kind =? ContentCustom) then kvs_cost f (Some i) else cost_zero].

Lemma reads_content f i : reads (readContent f i) (content_admissible f i) (content_cost f i) (copyContent f i).
Proof.
  unfold readContent. fold (content_kind f i). eapply reads_weaken.
  - eapply reads_bind; [apply reads_string|]. eapply reads_bind; [apply reads_string|]. eapply reads_bind; [apply reads_string|].
    instantiate (1 := copyContent f i).
    instantiate (1 := if (content_kind f i =? ContentCommand) || (content_kind f i =? ContentCustom) then kvs_cost f (Some i) else cost_zero).
    instantiate (1 := content_admissible f i). unfold content_admissible, copyContent.
    destruct (content_kind f i =? ContentCommand).
    { apply (reads_map _ (fun x => mkContent _ _ _ x _ _ _)), reads_kvs. }
    destruct (content_kind f i =? ContentCustom).
    { apply (reads_map _ (fun x => mkContent _ _ _ _ _ x _)), reads_kvs. }
    cbn [orb]. destruct (content_kind f i >? ContentCustom); [|apply reads_ret].
    apply (reads_map _ (fun x => mkContent _ _ _ _ _ _ (sl_elems x))), reads_bytes.
  - done.
  - unfold content_cost. cbn [costs foldr]. by rewrite cost_add_zero.
  - done.
Qed.

Definition contents_of (f : EMCodecFrame) : list Z := indices (u64 (em_codec_meta_content_count f 0)).

Definition copyBody (f : EMCodecFrame) : MessageBody :=
  mkMessageBody (i32 (em_codec_meta_message_type f 0)) (default zeroJID (copyJID <$> em_codec_message_from f 0))
    (default zeroJID (copyJID <$> em_codec_message_to f 0)) (map (copyContent f) (contents_of f)) (copyKVs f None).

Definition message_admissible (f : EMCodecFrame) : bool :=
  optional_admissible (em_codec_message_from f 0) && optional_admissible (em_codec_message_to f 0) &&
  (kv_count f None <=? MaxFrameCollectionItems) && (u64 (em_codec_meta_content_count f 0) <=? MaxFrameCollectionItems) &&
  forallb (content_admissible f) (contents_of f).

Definition message_cost (f : EMCodecFrame) : decodeTracker :=
  costs [optional_cost (em_codec_message_from f 0); optional_cost (em_codec_message_to f 0); kvs_cost f None;
         costs (map (content_cost f) (contents_of f))].

Lemma reads_message f : reads (decodeBody f) (message_admissible f) (message_cost f) (copyBody f).
Proof.
  unfold decodeBody. eapply reads_weaken.
  - eapply reads_bind; [apply reads_optional|]. eapply reads_bind; [apply reads_optional|].
    eapply reads_bind; [apply reads_kvs|]. eapply reads_bind; [apply reads_checkCount|].
    eapply (reads_map _ (fun x => mkMessageBody _ _ _ (sl_elems x) _)). apply reads_slice. intros i _. apply reads_content.
  - unfold message_admissible. rewrite !andb_assoc. done.
  - unfold message_cost. cbn [costs foldr]. rewrite cost_zero_add, cost_add_zero. done.
  - done.
Qed.

(** ** Strings that survive C *)

Definition no_nul (s : string) : Prop := c_strlen s = slen s.

Lemma copyString_cstr s : no_nul s -> copyString (cstr s) = s.
Proof.
  unfold no_nul, cstr, copyString. intros H. destruct (String.eqb_spec s "") as [->|_]; [done|].
  rewrite H. unfold slen. rewrite Nat2Z.id. clear H. induction s as [|c s IH]; simpl; [done|]. by rewrite IH.
Qed.

Lemma cstring_len_cstr s : no_nul s -> cstring_len (cstr s) = slen s.
Proof. intros H. by rewrite <- slen_copyString, copyString_cstr. Qed.

Lemma i32_u32 z : - 2 ^ 31 <= z < 2 ^ 31 -> i32 (u32 z) = z.
Proof.
  intros H. unfold i32, u32. rewrite Zplus_mod_idemp_l. apply (i32_id z H).
Qed.

Definition jid_sendable (j : JID) : Prop := Forall no_nul (jid_strings j) /\ validateQueueJID j = None.

Lemma copyJID_make j : Forall no_nul (jid_strings j) -> copyJID (makeJID j) = j.
Proof.
  unfold jid_strings, copyJID, makeJID. rewrite !Forall_cons. intros (H1 & H2 & H3 & H4 & _). simpl.
  rewrite !copyString_cstr by done. by destruct j.
Qed.

Lemma jid_cost_total v : jid_cost v = mkTracker (total_len (jid_strings (copyJID v))) 0 0.
Proof. rewrite total_jid. done. Qed.

Lemma jid_admissible_valid v : validateQueueJID (copyJID v) = None -> jid_admissible v = true.
Proof.
  unfold validateQueueJID, jid_admissible, jid_pointers, copyJID. cbn [j_AppKey j_Name j_Domain j_ClientResource map forallb existsb].
  rewrite !slen_copyString, !Z.gtb_ltb. intros H. case_bool; [done|]. case_bool; [done|]. breflect.
  rewrite !andb_true_iff, !Z.leb_le. by split_and!.
Qed.

(** ** Key/values *)

(** A key/value as [encodeExtValue] makes it: a value in the field of its kind
    only; a float32 is a value that survives the way through a double. *)
Definition kv_sendable (x : KeyValue) : Prop :=
  no_nul (kv_Key x) /\ no_nul (kv_String x) /\
  match kv_Kind x with
  | KVBool => kv_Int64 x = 0
  | KVUint => in_u64 (kv_Uint64 x)
  | KVFloat => float32_of_float64 (float64_of_float32 (kv_Float x)) = kv_Float x
  | KVOther _ => False
  | _ => True
  end.

Lemma kind_survives k : match k with KVOther _ => False | _ => True end -> KeyValueKind_of (i32 (u32 (KeyValueKind_int k))) = k.
Proof. by destruct k. Qed.

Lemma u64_i64 z : in_u64 z -> u64 (i64 z) = z.
Proof.
  intros H. unfold u64, i64. rewrite two64_val in *. rewrite Zminus_mod_idemp_l.
  replace (z + 2 ^ 63 - 2 ^ 63) with z by lia. apply Z.mod_small. word_lia.
Qed.

(** Reading back what was passed to the library. *)
Theorem kv_survives x : kv_sendable x -> kv_equiv x (copyKV (makeKV x)).
Proof.
  intros (Hk & Hs & Hv). unfold kv_equiv, copyKV, makeKV. cbn [ck_key ck_type ck_integer_value ck_number_value ck_string_value].
  rewrite !copyString_cstr by done. cbn [kv_Key kv_Kind kv_Bool kv_Int64 kv_Uint64 kv_Float kv_Double kv_String].
  split; [done|]. split; [rewrite kind_survives; [done|by destruct (kv_Kind x)]|].
  destruct (kv_Kind x); try done.
  - rewrite Hv. by destruct (kv_Bool x).
  - by rewrite u64_i64.
Qed.

(** ** What the library keeps

    The decoder's accessors return the request that was encoded, strings as C
    strings. *)
Definition ckv_same (a b : EMCodecKeyValue) : Prop :=
  copyString (ck_key a) = copyString (ck_key b) /\ ck_type a = ck_type b /\ ck_integer_value a = ck_integer_value b /\
  ck_number_value a = ck_number_value b /\ copyString (ck_string_value a) = copyString (ck_string_value b).

Definition kvs_echo (f : EMCodecFrame) (content : option Z) (l : list EMCodecKeyValue) : Prop :=
  match content with None => em_codec_meta_key_value_count f 0 | Some c => em_codec_content_key_value_count f 0 c end = zlen l /\
  forall i x, l !! i = Some x -> exists y, kv_at f content (Z.of_nat i) = Some y /\ ckv_same y x.

Definition jid_echo (v : option EMCodecJID) (j : EMCodecJID) : Prop := default zeroJID (copyJID <$> v) = copyJID j.

Definition content_echo (f : EMCodecFrame) (i : Z) (x : EMCodecMessageContent) : Prop :=
  em_codec_content_type f 0 i = cc_type x /\ copyString (em_codec_content_text f 0 i) = copyString (cc_text x) /\
  copyString (em_codec_content_action f 0 i) = copyString (cc_action x) /\
  copyString (em_codec_content_custom_event f 0 i) = copyString (cc_custom_event x) /\ kvs_echo f (Some i) (cc_values x).

Definition request_echo (f : EMCodecFrame) (req : EMCodecSendRequest) : Prop :=
  em_codec_meta_message_type f 0 = cr_message_type req /\
  jid_echo (em_codec_message_from f 0) (cr_from req) /\ jid_echo (em_codec_message_to f 0) (cr_to req) /\
  kvs_echo f None (cr_extensions req) /\ em_codec_meta_content_count f 0 = zlen (cr_contents req) /\
  forall i x, cr_contents req !! i = Some x -> content_echo f (Z.of_nat i) x.

(** What the library made of the body [v] with the handle [h], it decodes with the
    handle [h'] to what it was given. *)
Definition library_keeps_body (lib : nativeLibrary) (h h' : EMCodec lib) (v : MessageBody) : Prop :=
  forall req out p, makeRequest lib v = Ok req -> em_codec_encode_message_body lib h req = (EM_CODEC_OK, out) ->
  takeBuffer out = Ok p ->
  exists f, em_codec_decode_message_body lib h' (bytesPtr p) = (EM_CODEC_OK, f) /\ request_echo f req.

Lemma indices_Forall2 {A} (P : Z -> A -> Prop) l :
  (forall i x, l !! i = Some x -> P (Z.of_nat i) x) -> Forall2 P (indices (zlen l)) l.
Proof.
  intros H. unfold indices, zlen. rewrite Nat2Z.id.
  assert (forall k, (forall i x, l !! i = Some x -> P (Z.of_nat (k + i)) x) -> Forall2 P (map Z.of_nat (seq k (length l))) l) as Hgen;
    [|by apply Hgen].
  clear H. induction l as [|x l IH]; intros k H; simpl; constructor.
  - specialize (H 0%nat x eq_refl). by rewrite Nat.add_0_r in H.
  - apply IH. intros i y Hi. specialize (H (S i) y Hi). by rewrite Nat.add_succ_r in H.
Qed.

Lemma ckv_same_copy a b : ckv_same a b -> copyKV a = copyKV b /\ kv_cost a = kv_cost b.
Proof.
  intros (Hk & Ht & Hi & Hn & Hs). unfold copyKV, kv_cost, string_cost. rewrite <- !slen_copyString, Hk, Ht, Hi, Hn, Hs. done.
Qed.

Lemma kvs_echo_read f content l :
  zlen l <= MaxFrameCollectionItems -> kvs_echo f content l ->
  kv_count f content = zlen l /\ copyKVs f content = map copyKV l /\ kvs_cost f content = costs (map kv_cost l).
Proof.
  intros Hl [Hc Hat]. assert (kv_count f content = zlen l) as Hn.
  { unfold kv_count. rewrite Hc. pose proof (zlen_nonneg l). change MaxFrameCollectionItems with 4096 in Hl. apply u64_id. word_lia. }
  split; [done|]. unfold copyKVs, kvs_cost. rewrite Hn. pose proof (indices_Forall2 (fun i x => exists y, kv_at f content i = Some y /\ ckv_same y x) l Hat) as H.
  clear Hat Hl Hc Hn. generalize dependent (indices (zlen l)). intros ixs H.
  induction H as [|i x ixs l (y & Hy & Hs) _ [IH1 IH2]]; [done|].
  destruct (ckv_same_copy _ _ Hs) as [Hcp Hco]. csimpl. rewrite Hy. csimpl. rewrite Hcp, Hco, IH1. split; [done|].
  by rewrite IH2.
Qed.

(** ** Bodies *)

Definition kv_strings (x : KeyValue) : list string := [kv_Key x; kv_String x].
Definition content_strings (x : Content) : list string :=
  ([ct_Text x; ct_Action x; ct_Event x] ++ concat (map kv_strings (ct_Params x ++ ct_CustomExts x)))%list.
Definition body_strings (v : MessageBody) : list string :=
  (jid_strings (mb_From v) ++ jid_strings (mb_To v) ++ concat (map kv_strings (mb_Ext v)) ++
   concat (map content_strings (mb_Contents v)))%list.

(** A content as [encodeOutgoingContent] makes it. *)
Definition content_sendable (x : Content) : Prop :=
  Forall no_nul [ct_Text x; ct_Action x; ct_Event x] /\ ct_RawPayload x = [] /\
  Forall kv_sendable (ct_Params x ++ ct_CustomExts x) /\ zlen (ct_Params x ++ ct_CustomExts x) <= MaxFrameCollectionItems /\
  (ct_Kind x = ContentText /\ ct_Params x = [] /\ ct_CustomExts x = [] \/
   ct_Kind x = ContentCommand /\ ct_CustomExts x = [] \/ ct_Kind x = ContentCustom /\ ct_Params x = []).

(** A body within the protocol limits, whose strings hold no NUL. *)
Definition body_sendable (v : MessageBody) : Prop :=
  - 2 ^ 31 <= mb_Kind v < 2 ^ 31 /\ jid_sendable (mb_From v) /\ jid_sendable (mb_To v) /\
  Forall kv_sendable (mb_Ext v) /\ zlen (mb_Ext v) <= MaxFrameCollectionItems /\
  Forall content_sendable (mb_Contents v) /\ zlen (mb_Contents v) <= MaxFrameCollectionItems /\
  total_len (body_strings v) <= MaxSyncStringBytes.

(** The cost of [n] bytes of strings. *)
Definition strings_only (n : Z) : decodeTracker := mkTracker n 0 0.

Lemma strings_only_add a b : cost_add (strings_only a) (strings_only b) = strings_only (a + b).
Proof. done. Qed.

Lemma kvs_total l :
  Forall kv_sendable l -> costs (map kv_cost (map makeKV l)) = strings_only (total_len (concat (map kv_strings l))).
Proof.
  rewrite total_concat. induction 1 as [|x l (Hk & Hs & _) _ IH]; [done|]. cbn [map costs foldr]. fold costs.
  change (foldr cost_add cost_zero) with costs. rewrite IH, zsum_cons. unfold kv_cost, makeKV, string_cost. cbn [ck_key ck_string_value].
  rewrite !cstring_len_cstr by done. unfold strings_only, cost_add, total_len, kv_strings. cbn [map stringBytes payloadBytes directedUsers].
  rewrite !zsum_cons. change (zsum []) with 0. f_equal; lia.
Qed.

Lemma kvs_equiv l : Forall kv_sendable l -> Forall2 kv_equiv l (map copyKV (map makeKV l)).
Proof. induction 1; simpl; constructor; [by apply kv_survives|done]. Qed.

Lemma zlen_map {A B} (g : A -> B) l : zlen (map g l) = zlen l.
Proof. unfold zlen. by rewrite length_map. Qed.

(** What an encode call returns fits into a decode call. *)
Lemma takeBuffer_bounded out p : takeBuffer out = Ok p -> zlen p <= MaxCodecInputBytes.
Proof.
  unfold takeBuffer. destruct (cb_size out =? 0); [by intros [= <-]|]. destruct (_ >? _) eqn:E; [done|].
  destruct (cb_data out) as [b|]; [|done]. intros [= <-]. breflect. unfold GoBytes, zlen. rewrite length_take.
  assert (0 <= MaxCodecInputBytes) by done. assert (i32 (cb_size out) <= MaxCodecInputBytes) as Hi; [|lia].
  assert (i32 (cb_size out) = i32 (u64 (cb_size out))) as ->.
  { unfold i32, u64. rewrite <- (Zplus_mod_idemp_l (cb_size out mod two64)).
    rewrite (Z.mod_mod_divide _ two64) by (by exists (2 ^ 32)). by rewrite Zplus_mod_idemp_l. }
  change MaxCodecInputBytes with 16777216 in *. pose proof (u64_range (cb_size out)). rewrite i32_id; word_lia.
Qed.

Section Bodies.
Context (lib : nativeLibrary).

Lemma makeKVs_Ok v l : makeKVs lib v = Ok l -> l = map makeKV v.
Proof. unfold makeKVs. destruct v; [by intros [= <-]|]. destruct (calloc lib _); [by intros [= <-]|done]. Qed.

Lemma content_survives f i x c :
  content_sendable x -> makeContent lib x = Ok c -> content_echo f i c ->
  content_equiv x (copyContent f i) /\ content_admissible f i = true /\
  content_cost f i = strings_only (total_len (content_strings x)).
Proof.
  intros (Hs & Hraw & Hkv & Hlen & Hkind) Hm (Ht & Htx & Ha & He & Hv).
  unfold makeContent in Hm. inv_ok. apply makeKVs_Ok in Hv0 as ->. cbn [cc_type cc_text cc_action cc_custom_event cc_values] in *.
  rewrite !Forall_cons in Hs. destruct Hs as (Hs1 & Hs2 & Hs3 & _). rewrite copyString_cstr in Htx, Ha, He by done.
  assert (content_kind f i = ct_Kind x) as Hk.
  { unfold content_kind. rewrite Ht. apply i32_u32. destruct Hkind as [(-> & _)|[(-> & _)|(-> & _)]]; by vm_compute. }
  assert (content_cost f i = cost_add (strings_only (slen (ct_Text x) + slen (ct_Action x) + slen (ct_Event x)))
    (if (ct_Kind x =? ContentCommand) || (ct_Kind x =? ContentCustom) then kvs_cost f (Some i) else cost_zero)) as Hc.
  { unfold content_cost. rewrite Hk. cbn [costs foldr]. rewrite cost_add_zero, <- !cost_add_assoc. f_equal.
    unfold string_cost. rewrite <- !slen_copyString, Htx, Ha, He. done. }
  assert (total_len (content_strings x) = slen (ct_Text x) + slen (ct_Action x) + slen (ct_Event x) +
    total_len (concat (map kv_strings (ct_Params x ++ ct_CustomExts x)))) as Hts.
  { unfold content_strings. rewrite total_app. unfold total_len at 1. cbn [map]. rewrite !zsum_cons. change (zsum []) with 0. lia. }
  rewrite Hc, Hts. unfold content_equiv, copyContent, content_admissible. rewrite Hk, Htx, Ha, He.
  destruct Hkind as [(E & Hp & Hx)|[(E & Hx)|(E & Hp)]]; rewrite E in *.
  - rewrite Hp, Hx in *. cbn. by split_and!.
  - rewrite Hx, app_nil_r in *. change (ContentCommand =? ContentCustom) with false in Hv. cbn beta iota in Hv.
    apply kvs_echo_read in Hv as (Hn & Hcp & Hco); [|by rewrite zlen_map]. rewrite zlen_map in Hn.
    rewrite Hcp, Hco, Hn, kvs_total by done. change (ContentCommand =? ContentCommand) with true. cbn [orb ct_Kind ct_Text ct_Action ct_Params ct_Event ct_CustomExts ct_RawPayload].
    split; [|split; [by apply Z.leb_le|done]]. split_and!; try done. by apply kvs_equiv.
  - rewrite Hp in *. cbn [app] in *. change (ContentCustom =? ContentCustom) with true in Hv. cbn beta iota in Hv.
    apply kvs_echo_read in Hv as (Hn & Hcp & Hco); [|by rewrite zlen_map]. rewrite zlen_map in Hn.
    rewrite Hcp, Hco, Hn, kvs_total by done. change (ContentCustom =? ContentCommand) with false. change (ContentCustom =? ContentCustom) with true.
    cbn [orb ct_Kind ct_Text ct_Action ct_Params ct_Event ct_CustomExts ct_RawPayload].
    split; [|split; [by apply Z.leb_le|done]]. split_and!; try done. by apply kvs_equiv.
Qed.

Lemma makeContents_Ok v cs : makeContents lib v = Ok cs -> Forall2 (fun x c => makeContent lib x = Ok c) v cs.
Proof.
  revert cs. induction v as [|x v IH]; intros cs H; cbn [makeContents] in H; inv_ok; constructor; eauto.
Qed.

Lemma contents_survive f ixs xs cs :
  Forall content_sendable xs -> Forall2 (fun x c => makeContent lib x = Ok c) xs cs -> Forall2 (content_echo f) ixs cs ->
  Forall2 content_equiv xs (map (copyContent f) ixs) /\ forallb (content_admissible f) ixs = true /\
  costs (map (content_cost f) ixs) = strings_only (total_len (concat (map content_strings xs))).
Proof.
  intros Hs Hm. revert ixs. induction Hm as [|x c xs cs Hx Hm IH]; intros ixs He; inversion He as [|i c' ixs' cs' Hi Hrest]; subst.
  { done. }
  apply Forall_cons in Hs as [Hsx Hs]. destruct (content_survives f i x c Hsx Hx Hi) as (H1 & H2 & H3).
  destruct (IH Hs _ Hrest) as (H4 & H5 & H6). cbn [map forallb costs foldr concat].
  change (foldr cost_add cost_zero) with costs. rewrite H2, H3, H5, H6, total_app. split_and!; [by constructor|done|done].
Qed.

(** The JIDs: an absent one reads as the empty one. *)
Lemma jid_survives v j :
  jid_sendable j -> jid_echo v (makeJID j) ->
  default zeroJID (copyJID <$> v) = j /\ optional_admissible v = true /\ optional_cost v = strings_only (total_len (jid_strings j)).
Proof.
  intros [Hn Hv] He. unfold jid_echo in He. rewrite copyJID_make in He by done. split; [done|].
  destruct v as [c|]; simpl in He; subst j; [|done]. split; [by apply jid_admissible_valid|apply jid_cost_total].
Qed.

Lemma request_survives f v req :
  body_sendable v -> makeRequest lib v = Ok req -> request_echo f req ->
  exists v', untracked (decodeBody f) = Ok v' /\ body_equiv v v'.
Proof.
  intros (Hk & Hf & Ht & Hkv & Hlk & Hc & Hlc & Htot) Hm (Ek & Ef & Et & Ex & En & Ec).
  unfold makeRequest in Hm. apply bind_Ok in Hm as (ext & Hext & Hm). apply makeKVs_Ok in Hext as ->.
  destruct (_ && _); [done|]. apply bind_Ok in Hm as (cs & Hcs & [= <-]). apply makeContents_Ok in Hcs.
  cbn [cr_message_type cr_from cr_to cr_extensions cr_contents] in *.
  destruct (jid_survives _ _ Hf Ef) as (Hf1 & Hf2 & Hf3). destruct (jid_survives _ _ Ht Et) as (Ht1 & Ht2 & Ht3).
  apply kvs_echo_read in Ex as (Hn & Hcp & Hco); [|by rewrite zlen_map]. rewrite zlen_map in Hn. rewrite kvs_total in Hco by done.
  assert (zlen cs = zlen (mb_Contents v)) as Hlen by (unfold zlen; by rewrite (Forall2_length _ _ _ Hcs)).
  assert (u64 (em_codec_meta_content_count f 0) = zlen cs) as Hcount.
  { rewrite En. apply u64_id. pose proof (zlen_nonneg cs). change MaxFrameCollectionItems with 4096 in Hlc. word_lia. }
  pose proof (contents_survive f _ _ _ Hc Hcs (indices_Forall2 (content_echo f) cs Ec)) as (Hc1 & Hc2 & Hc3).
  pose proof (untracked_reads _ _ _ _ (reads_message f)) as Hr.
  unfold message_admissible, message_cost, contents_of in Hr. rewrite Hcount, Hf2, Ht2, Hn, Hc2 in Hr.
  rewrite (proj2 (Z.leb_le (zlen (mb_Ext v)) _)), (proj2 (Z.leb_le (zlen cs) _)) in Hr by congruence || done.
  cbn [costs foldr] in Hr. rewrite Hf3, Ht3, Hco, Hc3, cost_add_zero, !strings_only_add in Hr.
  rewrite (proj2 (fits_true _)) in Hr.
  2: { unfold strings_only. cbn [stringBytes payloadBytes directedUsers]. unfold body_strings in Htot. rewrite !total_app in Htot. done. }
  cbn [andb] in Hr. exists (copyBody f). split; [exact Hr|].
  unfold body_equiv, copyBody, contents_of. cbn [mb_Kind mb_From mb_To mb_Contents mb_Ext].
  rewrite Hf1, Ht1, Hcp, Hcount, Ek, i32_u32 by done. split_and!; [done..|by apply kvs_equiv].
Qed.

(** A message body within the protocol limits, without a NUL, survives the native
    boundary: if the library gives back what it was given, a receiver decodes what
    [EncodeMessageBody] produced into a body the SDK cannot tell from the one that
    was sent, extensions, custom values and the full range of integers included. *)
Theorem native_body_survives h h' v p :
  library_keeps_body lib h h' v -> body_sendable v -> EncodeMessageBody lib (Some h) v = Ok p ->
  exists v', DecodeMessageBody lib (Some h') p = Ok v' /\ body_equiv v v'.
Proof.
  intros Hlib Hs H. unfold EncodeMessageBody in H. apply bind_Ok in H as (req & Hreq & H). unfold encoded in H.
  destruct (em_codec_encode_message_body lib h req) as [e out] eqn:Ee. cbn [fst snd] in H. unfold codecError in H.
  destruct (e =? EM_CODEC_OK) eqn:E0; [|by destruct (e =? EM_CODEC_LIMIT_EXCEEDED)]. apply Z.eqb_eq in E0 as ->.
  destruct (Hlib _ _ _ Hreq Ee H) as (f & Hd & Hecho). unfold DecodeMessageBody.
  apply takeBuffer_bounded in H. rewrite Z.gtb_ltb, (proj2 (Z.ltb_ge _ _)) by done. unfold decoded. rewrite Hd. cbn [fst snd].
  by apply (request_survives f v req).
Qed.
End Bodies.

(** ** Frames and messages through the codec *)

(** A frame [DecodeFrame] returns is small: its strings, its JIDs, the number of its
    messages and queues, their payloads, attributes and directed users are within
    the protocol limits, and so is the retained weight of a batch.  So no queue the
    server names and no batch it sends makes the scheduler exceed a limit
    ([validateQueueJID], the batch weight): the codec has refused the frame. *)
Theorem native_frame_small lib c data fr : DecodeFrame lib c data = Ok fr -> frame_small fr.
Proof.
  unfold DecodeFrame. intros H. apply bind_Ok in H as (data' & _ & H). destruct c as [h|]; [|done].
  unfold decoded in H. destruct (codecError _); [done|]. by apply decoded_small in H.
Qed.

(** What the receiver of a message gets through the native codec is what the sender
    was told it sent, for every message whose body is within the limits. *)
Theorem native_message_roundtrip json_parse lib h h' quoted c extOrder customRange appKey userID domain resource req meta :
  (forall content ext, encodeOutgoingContent quoted customRange (rq_Body req) = Ok content ->
     encodeMessageExt quoted c extOrder (rq_Ext req) = Ok ext ->
     body_sendable (outgoingBody userID req content ext) /\ library_keeps_body lib h h' (outgoingBody userID req content ext)) ->
  buildOutgoingMeta quoted c extOrder customRange (nativeMessageCodec lib (Some h)) appKey userID domain resource req = Ok meta ->
  parseIncomingMessage json_parse (nativeMessageCodec lib (Some h')) meta =
  NewOutgoingMessage json_parse quoted c extOrder customRange appKey userID domain req.
Proof.
  intros Hs H. transitivity (parseIncomingMessage json_parse
    (mkMessageCodec (EncodeMessageBody lib (Some h)) (DecodeMessageBody lib (Some h')) (DecodeStatistic lib (Some h'))) meta); [done|].
  apply (incoming_is_outgoing json_parse (mkMessageCodec (EncodeMessageBody lib (Some h)) (DecodeMessageBody lib (Some h')) (DecodeStatistic lib (Some h')))
    quoted c extOrder customRange appKey userID domain resource req meta); [|exact H].
  intros content ext p Hc Hx He. destruct (Hs _ _ Hc Hx). by apply (native_body_survives lib h h').
Qed.

(** ** A library that knows one message *)

Definition errorResult : Z * cbytes := (1, mkCBytes None 0).

(** The accessors of the frame that holds [req]. *)
Definition requestFrame (req : EMCodecSendRequest) : EMCodecFrame :=
  let contents i := cr_contents req !! Z.to_nat i in
  let content i {A} (d : A) (g : EMCodecMessageContent -> A) := match contents i with Some c => g c | None => d end in
  let none := mkCBytes None 0 in
  mkCFrame 0 0 0 (-1) None 0 (fun _ => None) (fun _ => 0) None none 0 0 0 0 (fun _ => None) 0 0 None 0
    (fun _ => 0) (fun _ => 0) (fun _ => 0) (fun _ => 0) (fun _ => none) (fun _ => none) (fun _ => None) (fun _ => None)
    (fun _ => 0) (fun _ _ => None) (fun _ => cr_message_type req) (fun _ => Some (cr_from req)) (fun _ => Some (cr_to req))
    (fun _ => zlen (cr_extensions req)) (fun _ i => cr_extensions req !! Z.to_nat i)
    (fun _ => zlen (cr_contents req)) (fun _ i => content i 0 cc_type) (fun _ i => content i None cc_text)
    (fun _ i => content i None cc_action) (fun _ i => content i None cc_custom_event) (fun _ _ => none)
    (fun _ i => content i 0 (fun c => zlen (cc_values c))) (fun _ i k => content i None (fun c => cc_values c !! Z.to_nat k))
    (fun _ => 0) (fun _ => None) (fun _ => None) (fun _ => None).

Lemma requestFrame_echo req : request_echo (requestFrame req) req.
Proof.
  split_and!; try done.
  - split; [done|]. intros i x Hx. exists x. unfold kv_at, requestFrame. cbn [em_codec_meta_key_value]. rewrite Nat2Z.id. done.
  - intros i x Hx. unfold content_echo, kvs_echo, kv_at, requestFrame.
    cbn [em_codec_content_type em_codec_content_text em_codec_content_action em_codec_content_custom_event em_codec_content_key_value_count em_codec_content_key_value].
    rewrite !Nat2Z.id, Hx. split_and!; try done. intros j y Hy. exists y. rewrite Nat2Z.id. done.
Qed.

#[local] Instance EMCodecJID_eq_dec : EqDecision EMCodecJID.
Proof. solve_decision. Defined.
#[local] Instance EMCodecKeyValue_eq_dec : EqDecision EMCodecKeyValue.
Proof. solve_decision. Defined.
#[local] Instance EMCodecMessageContent_eq_dec : EqDecision EMCodecMessageContent.
Proof. solve_decision. Defined.
#[local] Instance EMCodecSendRequest_eq_dec : EqDecision EMCodecSendRequest.
Proof. solve_decision. Defined.

Definition oneMessageLibrary (req : EMCodecSendRequest) : nativeLibrary :=
  mkLibrary unit (fun _ => (Some tt, 0)) (fun _ _ _ _ _ => errorResult) (fun _ => errorResult) (fun _ _ _ => errorResult)
    (fun _ _ _ => errorResult) (fun _ _ _ _ _ _ _ _ _ => errorResult)
    (fun _ r => if decide (r = req) then (EM_CODEC_OK, mkCBytes (Some [7]) 1) else errorResult)
    (fun _ _ => (1, requestFrame req)) (fun _ _ => (EM_CODEC_OK, requestFrame req)) (fun _ _ => (1, requestFrame req))
    (fun _ => true) (fun _ => Err (EPlain "no zlib")).

Lemma oneMessage_keeps req h h' v : library_keeps_body (oneMessageLibrary req) h h' v.
Proof.
  intros r out p _. cbn. case_decide as E; [|done]. intros _ _. exists (requestFrame req). split; [done|]. rewrite E. apply requestFrame_echo.
Qed.

(** A group message with extensions of every kind of integer. *)
Definition nativeExt : gmap string Sdk.KeyValue :=
  {["big" := Sdk.mkKeyValue KeyValueUint (AnyUint64 18446744073709551615); "yes" := Sdk.mkKeyValue KeyValueBool (AnyBool true)]}.

Definition nativeRequest : SendRequest :=
  mkSendRequest 9 "room" true [] nativeExt (mkBody MessageBodyText "hello" "" "" ∅ 0 []).

Definition nativeOrder : list string := elements (dom nativeExt).
Definition okOr {A} (d : A) (r : result A) : A := match r with Ok a => a | Err _ => d end.

Definition nativeBody : MessageBody :=
  outgoingBody "alice" nativeRequest (okOr (mkContent 0 "" "" [] "" [] []) (encodeOutgoingContent id [] (rq_Body nativeRequest)))
    (okOr [] (encodeMessageExt id 0 nativeOrder nativeExt)).

Definition emptyRequest : EMCodecSendRequest := mkCRequest (mkCJID None None None None) (mkCJID None None None None) 0 [] [].

Definition nativeSample : nativeLibrary :=
  oneMessageLibrary (okOr emptyRequest (makeRequest (oneMessageLibrary emptyRequest) nativeBody)).

Lemma nativeBody_sendable : body_sendable nativeBody.
Proof.
  split; [by vm_compute|]. split; [split; [repeat constructor|by vm_compute]|]. split; [split; [repeat constructor|by vm_compute]|].
  assert (mb_Ext nativeBody = [mkKeyValue "big" KVUint false 0 18446744073709551615 zeroFloat zeroFloat "";
    mkKeyValue "yes" KVBool true 0 0 zeroFloat zeroFloat ""]) as -> by (by vm_compute).
  split; [repeat constructor; by vm_compute|]. split; [by vm_compute|].
  split; [|split; [by vm_compute|by vm_compute]]. assert (mb_Contents nativeBody = [mkContent ContentText "hello" "" [] "" [] []]) as -> by (by vm_compute).
  constructor; [|constructor]. split; [by repeat constructor|]. split; [done|]. split; [constructor|]. split; [by vm_compute|by left].
Qed.

Lemma native_message_roundtrip_witness :
  exists meta, buildOutgoingMeta id 0 nativeOrder [] (nativeMessageCodec nativeSample (Some tt)) "org#app" "alice" "d" "r" nativeRequest = Ok meta /\
  parseIncomingMessage (fun _ => None) (nativeMessageCodec nativeSample (Some tt)) meta =
  NewOutgoingMessage (fun _ => None) id 0 nativeOrder [] "org#app" "alice" "d" nativeRequest.
Proof.
  eexists (okOr zeroMeta (buildOutgoingMeta id 0 nativeOrder [] (nativeMessageCodec nativeSample (Some tt)) "org#app" "alice" "d" "r" nativeRequest)).
  assert (buildOutgoingMeta id 0 nativeOrder [] (nativeMessageCodec nativeSample (Some tt)) "org#app" "alice" "d" "r" nativeRequest =
    Ok (okOr zeroMeta (buildOutgoingMeta id 0 nativeOrder [] (nativeMessageCodec nativeSample (Some tt)) "org#app" "alice" "d" "r" nativeRequest))) as E
    by (by vm_compute).
  split; [exact E|].
  refine (native_message_roundtrip (fun _ => None) nativeSample tt tt id 0 nativeOrder [] "org#app" "alice" "d" "r" nativeRequest _ _ E).
  intros content ext Hc Hx. split; [|apply oneMessage_keeps]. assert (outgoingBody "alice" nativeRequest content ext = nativeBody) as ->; [|exact nativeBody_sendable].
    change (rq_Ext nativeRequest) with nativeExt in Hx. unfold nativeBody, okOr. by rewrite Hc, Hx.
Defined.

(** A frame with a NOTICE for one queue. *)
Definition noticeFrame : EMCodecFrame :=
  let none := mkCBytes None 0 in
  mkCFrame 2 5 EM_CODEC_FRAME_NOTICE (-1) None 0 (fun _ => None) (fun _ => 0) None none 0 0 0 0 (fun _ => None) 0 0
    (Some (mkCJID (Some "org#app") (Some "alice") (Some "easemob.com") None)) 0
    (fun _ => 0) (fun _ => 0) (fun _ => 0) (fun _ => 0) (fun _ => none) (fun _ => none) (fun _ => None) (fun _ => None)
    (fun _ => 0) (fun _ _ => None) (fun _ => 0) (fun _ => None) (fun _ => None) (fun _ => 0) (fun _ _ => None) (fun _ => 0)
    (fun _ _ => 0) (fun _ _ => None) (fun _ _ => None) (fun _ _ => None) (fun _ _ => none) (fun _ _ => 0) (fun _ _ _ => None)
    (fun _ => 0) (fun _ => None) (fun _ => None) (fun _ => None).

Definition noticeLibrary : nativeLibrary :=
  mkLibrary unit (fun _ => (Some tt, 0)) (fun _ _ _ _ _ => errorResult) (fun _ => errorResult) (fun _ _ _ => errorResult)
    (fun _ _ _ => errorResult) (fun _ _ _ _ _ _ _ _ _ => errorResult) (fun _ _ => errorResult)
    (fun _ _ => (EM_CODEC_OK, noticeFrame)) (fun _ _ => (1, noticeFrame)) (fun _ _ => (1, noticeFrame))
    (fun _ => true) (fun _ => Err (EPlain "no zlib")).

Lemma native_frame_small_witness :
  exists fr, DecodeFrame noticeLibrary (Some tt) [] = Ok fr /\ fr_Notice fr <> None /\ frame_small fr.
Proof.
  assert (DecodeFrame noticeLibrary (Some tt) [] = Ok (copyFrame noticeFrame)) as E by (by vm_compute).
  exists (copyFrame noticeFrame). split; [exact E|]. split; [discriminate|]. exact (native_frame_small noticeLibrary (Some tt) [] _ E).
Defined.
