(* ===== verification/SendPath.v ===== *)
(** * The way of a message out of the Client

    sdk/queue.go, [Client.Send] up to its registration in the pending table
    (Pending.v goes on from there), and sdk/message.go, [buildSendMeta]: the
    checks, the id, the snapshot shown to [Config.OnWillSend], the frame. *)
From Stdlib Require Import String.
From S2P Require Import Prelude Protocol Errors RetainedWeight Wire Message MessageJSON Pending Provisioning NativeDecode NativeLimits NativeCodec NativeTheory.
Local Open Scope string_scope.
Local Open Scope Z_scope.

Definition withMessageID (id : Z) (req : SendRequest) : SendRequest :=
  mkSendRequest id (rq_To req) (rq_IsGroup req) (rq_DirectedUsers req) (rq_Ext req) (rq_Body req).

Section Send.
Context (json_parse : bytes -> option json) (quoted : string -> string) (uint64_of_2_64 : Z).

(** The orders in which the runtime ranges over the maps of the request: the
    extensions and the custom fields, for the snapshot and for the frame. *)
Record mapOrders := mkOrders { mo_ext : list string; mo_custom : list (string * Sdk.KeyValue) }.

Context (frames : FrameCodec) (messages : MessageCodec) (appKey domain resource : string).

Definition buildSendMeta (orders : mapOrders) (userID : string) (req : SendRequest) (id : Z) : result Meta :=
  buildOutgoingMeta quoted uint64_of_2_64 (mo_ext orders) (mo_custom orders) messages appKey userID domain resource (withMessageID id req).

(** What [Send] knows of the Client: its state when it took the lock, what
    [nextMessageID] returns, and whether there is an [OnWillSend]. *)
Record sendContext := mkSendContext {
  sc_loggedOut : bool;                           (* logged out or logging in *)
  sc_connected : bool;
  sc_hasRun : bool;
  sc_userID : string;
  sc_nextID : result Z;
  sc_willSend : bool }.

Definition encodeSend (orders : mapOrders) (userID : string) (req : SendRequest) (id : Z) : result (Z * bytes) :=
  meta ← buildSendMeta orders userID req id;
  frame ← Provisioning.EncodeSync (mkSyncRequest (Some meta) 0 None);
  Ok (id, frame).

(** The calls of [OnWillSend], and the id and frame to send. *)
Definition prepareSend (snapshot frame : mapOrders) (sc : sendContext) (req : SendRequest)
  : list Message * result (Z * bytes) :=
  match sendRefusal (sc_loggedOut sc) (sc_connected sc) (sc_hasRun sc) with
  | Some err => ([], Err err)
  | None =>
      match (if rq_ClientMessageID req =? 0 then sc_nextID sc else Ok (rq_ClientMessageID req)) with
      | Err err => ([], Err err)
      | Ok id =>
          if sc_willSend sc then
            match NewOutgoingMessage json_parse quoted uint64_of_2_64 (mo_ext snapshot) (mo_custom snapshot) appKey (sc_userID sc) domain
                    (withMessageID id req) with
            | Err err => ([], Err err)
            | Ok snap => ([snap], encodeSend frame (sc_userID sc) req id)
            end
          else ([], encodeSend frame (sc_userID sc) req id)
      end
  end.

(** [OnWillSend] is called once at most, and never for a message that [Send] refuses
    for want of a session, a connection or an id. *)
Lemma prepareSend_calls snapshot frame sc req :
  let '(calls, res) := prepareSend snapshot frame sc req in
  (length calls <= 1)%nat /\
  (calls <> [] -> sc_willSend sc = true /\ sendRefusal (sc_loggedOut sc) (sc_connected sc) (sc_hasRun sc) = None).
Proof.
  unfold prepareSend. destruct (sendRefusal _ _ _); [by split; [simpl; lia|]|].
  destruct (if _ =? 0 then _ else _) as [id|]; [|by split; [simpl; lia|]].
  destruct (sc_willSend sc); [|by split; [simpl; lia|]].
  destruct (NewOutgoingMessage _ _ _ _ _ _ _ _ _); by split; simpl; [lia|].
Qed.
End Send.

(** ** From Send to the handler *)

(** A range over the maps of a request visits every entry once. *)
Definition orders_ok (o : mapOrders) (req : SendRequest) : Prop :=
  mo_ext o ≡ₚ elements (dom (rq_Ext req)) /\ mo_custom o ≡ₚ map_to_list (bd_CustomExts (rq_Body req)).

(** A message without the document [ToJSON] keeps, whose custom fields are in the
    order of a range over a map. *)
Definition publicMessage (m : Message) : Message :=
  mkMessage (ms_From m) (ms_To m) (ms_IsGroup m) (ms_MetaID m) (ms_Timestamp m) (ms_Body m) (ms_Ext m) (ms_OnlineState m) None.

Lemma outgoing_timestamp jp quoted c e r appKey userID domain req m :
  NewOutgoingMessage jp quoted c e r appKey userID domain req = Ok m -> ms_Timestamp m = 0.
Proof.
  unfold NewOutgoingMessage. destruct (String.eqb _ _); [done|]. destruct (directedWithoutGroup _); [done|].
  intros (content & _ & (ext & _ & [= <-])%bind_Ok)%bind_Ok. done.
Qed.

(** The public part of an outgoing message. *)
Definition outgoingPublic (c : Z) (userID : string) (req : SendRequest) : Message :=
  mkMessage userID (rq_To req) (rq_IsGroup req) (rq_ClientMessageID req) 0 (Some (sentBody (rq_Body req)))
    (canonicalKV c <$> rq_Ext req) MessageOnlineStateUnknown None.

Lemma outgoing_public jp quoted c o appKey userID domain req m :
  orders_ok o req -> NewOutgoingMessage jp quoted c (mo_ext o) (mo_custom o) appKey userID domain req = Ok m ->
  publicMessage m = outgoingPublic c userID req.
Proof.
  intros [He Hr] H. pose proof (outgoing_timestamp _ _ _ _ _ _ _ _ _ _ H) as Ht.
  apply NewOutgoingMessage_correct in H as (H1 & H2 & _ & H3 & H4 & H5 & H6 & H7 & _); [|done|done].
  unfold publicMessage, outgoingPublic. by rewrite H1, H2, H3, H4, H5, H6, H7, Ht.
Qed.

(** What can be built can be described. *)
Lemma built_describes jp quoted c e r codec appKey userID domain resource req meta err :
  buildOutgoingMeta quoted c e r codec appKey userID domain resource req = Ok meta ->
  NewOutgoingMessage jp quoted c e r appKey userID domain req <> Err err.
Proof.
  unfold buildOutgoingMeta, NewOutgoingMessage. destruct (_ =? 0); [done|]. destruct (String.eqb _ _); [done|].
  destruct (directedWithoutGroup _); [done|]. destruct (encodeOutgoingContent _ _ _); [|done]. cbn [mbind result_bind].
  by destruct (encodeMessageExt _ _ _ _).
Qed.

(** C35. What is sent is what was announced, and what arrives, for a message whose
    body is within the protocol limits and whose strings hold no NUL (the native
    library is given C strings, which end at the first one).  When [Send] gets as
    far as a frame, [OnWillSend] (if any) was called exactly once; the frame is the
    codec's SYNC for one meta, under the id of the request or the next one, never
    0; and whoever receives that meta through the native codec, if the library
    decodes what it made of this body to what it was given, gets the message the
    sender described: its sender and recipient, its body, its extensions in
    canonical form.  The snapshot [OnWillSend] was given is the same message, up to
    the order of custom fields in its document. *)
Theorem send_end_to_end json_parse lib h h' quoted c appKey domain resource snapshot frame sc req calls id data :
  orders_ok snapshot req -> orders_ok frame req ->
  (forall content ext, encodeOutgoingContent quoted (mo_custom frame) (rq_Body req) = Ok content ->
     encodeMessageExt quoted c (mo_ext frame) (rq_Ext req) = Ok ext ->
     body_sendable (outgoingBody (sc_userID sc) req content ext) /\
     library_keeps_body lib h h' (outgoingBody (sc_userID sc) req content ext)) ->
  prepareSend json_parse quoted c (nativeFrameCodec lib (Some h)) (nativeMessageCodec lib (Some h)) appKey domain resource
    snapshot frame sc req = (calls, Ok (id, data)) ->
  id <> 0 /\ (rq_ClientMessageID req <> 0 -> id = rq_ClientMessageID req) /\
  length calls = (if sc_willSend sc then 1 else 0)%nat /\
  exists meta msg, EncodeSync lib (Some h) (mkSyncRequest (Some meta) 0 None) = Ok data /\ m_ID meta = id /\
    parseIncomingMessage json_parse (nativeMessageCodec lib (Some h')) meta = Ok msg /\
    publicMessage msg = outgoingPublic c (sc_userID sc) (withMessageID id req) /\
    forall snap, snap ∈ calls -> publicMessage snap = publicMessage msg /\ (snapshot = frame -> snap = msg).
Proof.
  intros Hsn Hfr Hs. unfold prepareSend. destruct (sendRefusal _ _ _); [done|].
  destruct (if _ =? 0 then _ else _) as [id'|] eqn:Eid; [|done]. intros H.
  set (enc := encodeSend _ _ _ _ _ _ _ _ _ _ _) in H.
  assert (enc = Ok (id, data) /\ length calls = (if sc_willSend sc then 1 else 0)%nat /\
    forall snap, snap ∈ calls -> NewOutgoingMessage json_parse quoted c (mo_ext snapshot) (mo_custom snapshot) appKey (sc_userID sc) domain
      (withMessageID id' req) = Ok snap) as (He & Hlen & Hsnap).
  { destruct (sc_willSend sc).
    - destruct (NewOutgoingMessage _ _ _ _ _ _ _ _ _) as [sn|] eqn:E; [|done]. injection H as <- H. split; [done|]. split; [done|].
      intros snap ->%list_elem_of_singleton. done.
    - injection H as <- H. split; [done|]. split; [done|]. by intros snap ?%elem_of_nil. }
  unfold enc, encodeSend in He. apply bind_Ok in He as (meta & Em & (frm & Ef & [= -> ->])%bind_Ok).
  unfold buildSendMeta in Em. pose proof Em as Eparse. apply (native_message_roundtrip json_parse lib h h') in Eparse; [|exact Hs].
  assert (id <> 0 /\ m_ID meta = id) as [Hnz Hmid].
  { unfold buildOutgoingMeta in Em. cbn [rq_ClientMessageID withMessageID] in Em. destruct (Z.eqb_spec id 0); [done|]. split; [done|].
    destruct (String.eqb _ _); [done|]. destruct (directedWithoutGroup _); [done|].
    by apply bind_Ok in Em as (? & _ & (? & _ & (? & _ & [= <-])%bind_Ok)%bind_Ok). }
  split; [done|]. split.
  { intros Hn. destruct (Z.eqb_spec (rq_ClientMessageID req) 0); [done|]. by injection Eid. }
  split; [done|]. destruct (parseIncomingMessage _ _ _) as [msg|] eqn:Ep.
  2: { exfalso. symmetry in Eparse. revert Eparse. eapply built_describes. exact Em. }
  symmetry in Eparse. assert (forall o, orders_ok o req -> orders_ok o (withMessageID id req)) as Hord by done.
  exists meta, msg. split; [exact Ef|]. split; [done|]. split; [done|].
  rewrite (outgoing_public _ _ _ frame _ _ _ _ _ (Hord _ Hfr) Eparse). split; [done|]. intros snap Hin. apply Hsnap in Hin.
  split; [eapply outgoing_public; [|exact Hin]; by apply Hord|]. intros ->. congruence.
Qed.

(** ** A message through a library that knows it *)

Definition sampleBodyRequest : EMCodecSendRequest := okOr emptyRequest (makeRequest (oneMessageLibrary emptyRequest) nativeBody).

(** [oneMessageLibrary], with one frame for every SYNC. *)
Definition echoLibrary : nativeLibrary :=
  let l := oneMessageLibrary sampleBodyRequest in
  mkLibrary unit (fun _ => (Some tt, 0)) (fun _ _ _ _ _ => errorResult) (fun _ => errorResult) (fun _ _ _ => errorResult)
    (fun _ _ _ => errorResult) (fun _ _ _ _ _ _ _ _ _ => (EM_CODEC_OK, mkCBytes (Some [9]) 1))
    (em_codec_encode_message_body l) (em_codec_decode_frame l) (em_codec_decode_message_body l) (em_codec_decode_statistic l)
    (fun _ => true) (fun _ => Err (EPlain "no zlib")).

Lemma echoLibrary_keeps v : library_keeps_body echoLibrary tt tt v.
Proof. exact (oneMessage_keeps sampleBodyRequest tt tt v). Qed.

Definition sampleOrders : mapOrders := mkOrders nativeOrder [].
Definition sampleContext : sendContext := mkSendContext false true true "alice" (Ok 41) true.

Lemma send_end_to_end_witness :
  exists snap, prepareSend (fun _ => None) id 0 (nativeFrameCodec echoLibrary (Some tt)) (nativeMessageCodec echoLibrary (Some tt))
    "org#app" "d" "r" sampleOrders sampleOrders sampleContext (withMessageID 0 nativeRequest) = ([snap], Ok (41, [9])) /\
  exists meta, parseIncomingMessage (fun _ => None) (nativeMessageCodec echoLibrary (Some tt)) meta = Ok snap /\
    ms_From snap = "alice" /\ ms_MetaID snap = 41.
Proof.
  eexists. split; [vm_compute; reflexivity|].
  edestruct (send_end_to_end (fun _ => None) echoLibrary tt tt id 0 "org#app" "d" "r" sampleOrders sampleOrders sampleContext
    (withMessageID 0 nativeRequest)) as (_ & _ & _ & meta & msg & _ & _ & Hp & _ & Hs);
    [split; [reflexivity|vm_compute; reflexivity]..| |vm_compute; reflexivity|].
  - intros content ext Hc Hx. split; [|apply echoLibrary_keeps]. change (body_sendable (outgoingBody "alice" (withMessageID 0 nativeRequest) content ext)).
    assert (outgoingBody "alice" (withMessageID 0 nativeRequest) content ext = nativeBody) as ->; [|exact nativeBody_sendable].
    change (rq_Ext (withMessageID 0 nativeRequest)) with nativeExt in Hx.
    change (rq_Body (withMessageID 0 nativeRequest)) with (rq_Body nativeRequest) in Hc.
    change (outgoingBody "alice" (withMessageID 0 nativeRequest)) with (outgoingBody "alice" nativeRequest).
    unfold nativeBody, okOr. change (mo_custom sampleOrders) with (@nil (string * Sdk.KeyValue)) in Hc.
    change (mo_ext sampleOrders) with nativeOrder in Hx. by rewrite Hc, Hx.
  - exists meta. destruct (Hs _ ltac:(by left)) as [_ Hm]. specialize (Hm eq_refl).
    split; [exact (eq_trans Hp (f_equal Ok (eq_sym Hm)))|]. split; reflexivity.
Defined.

(** ** A text with a NUL

    The same library on a message of three bytes, the second a NUL. *)
Definition nulText : string := "h" ++ String Ascii.zero "i".
Definition nulRequest : SendRequest := mkSendRequest 9 "room" true [] ∅ (mkBody MessageBodyText nulText "" "" ∅ 0 []).
Definition nulBody : MessageBody :=
  outgoingBody "alice" nulRequest (okOr (mkContent 0 "" "" [] "" [] []) (encodeOutgoingContent id [] (rq_Body nulRequest))) [].
Definition nulLibrary : nativeLibrary :=
  oneMessageLibrary (okOr emptyRequest (makeRequest (oneMessageLibrary emptyRequest) nulBody)).
Definition nulMeta : result Meta :=
  buildOutgoingMeta id 0 [] [] (nativeMessageCodec nulLibrary (Some tt)) "org#app" "alice" "d" "r" nulRequest.

(** The snapshot has the whole text, the receiver what comes before the NUL: the
    codec sends the message without an error. *)
Example nul_is_cut :
  exists meta snap msg, nulMeta = Ok meta /\
    NewOutgoingMessage (fun _ => None) id 0 [] [] "org#app" "alice" "d" nulRequest = Ok snap /\
    parseIncomingMessage (fun _ => None) (nativeMessageCodec nulLibrary (Some tt)) meta = Ok msg /\
    (bd_Text <$> ms_Body snap) = Some nulText /\ (bd_Text <$> ms_Body msg) = Some "h".
Proof.
  eexists _, _, _. split; [vm_compute; reflexivity|]. split; [vm_compute; reflexivity|].
  split; [vm_compute; reflexivity|]. split; vm_compute; reflexivity.
Qed.
