(* ===== verification/DeveloperCodec.v ===== *)
(** * The developer's adapter of the native library

    internal/protocol/native/native_darwin_arm64.go: a second adapter of the same C
    library, for local builds, without the limits, the lock and the decompression
    of internal/protocol/nativecodec; and sdk/codec_native.go,
    sdk/codec_unsupported.go, which choose a codec by build tag.

    A method takes the handle of an open codec: the code forbids a use after
    [Close].  [None] is a crash: [C.GoBytes] panics on a negative length, and reads
    through a NULL pointer. *)
From Stdlib Require Import String SpecFloat.
From S2P Require Import Prelude Protocol Errors RetainedWeight Wire Message MessageJSON Provisioning NativeDecode NativeLimits NativeCodec NativeTheory.
Local Open Scope string_scope.
Local Open Scope Z_scope.

Module Developer.

(** ** C values *)

(** [C.GoString]: up to the NUL, empty for NULL. *)
Definition GoString (p : cstring) : string :=
  match p with None => "" | Some s => String.substring 0 (Z.to_nat (c_strlen s)) s end.

(** [C.GoBytes(p, C.int(n))]. *)
Definition goBytes (p : cbytes) : option bytes :=
  let n := i32 (u64 (cb_size p)) in
  if n =? 0 then Some [] else if n <? 0 then None else take (Z.to_nat n) <$> cb_data p.

Definition cstr (s : string) : cstring := if String.eqb s "" then None else Some s.

Definition bytesPtr (b : bytes) : cbytes := mkCBytes match b with [] => None | _ => Some b end (zlen b).

Definition cj (j : JID) : EMCodecJID :=
  mkCJID (cstr (j_AppKey j)) (cstr (j_Name j)) (cstr (j_Domain j)) (cstr (j_ClientResource j)).

Definition gj (j : EMCodecJID) : JID :=
  mkJID (GoString (cj_app_key j)) (GoString (cj_name j)) (GoString (cj_domain j)) (GoString (cj_resource j)).

Definition outBytes (r : Z * cbytes) : option (result bytes) :=
  if negb (fst r =? EM_CODEC_OK) then Some (Err (EPlain ("native codec: " ++ pretty (fst r))))
  else if cb_size (snd r) =? 0 then Some (Ok []) else Ok <$> goBytes (snd r).

(** ** Reading a decoded frame *)
Section Decode.

(** The capacity [append] leaves a slice with that grew from nil to [n] elements. *)
Context (grown : forall A : Type, Z -> Z).

Definition appended {A} (xs : list A) : gslice A := match xs with [] => nil_slice | _ => GSlice xs (grown A (zlen xs)) end.

Definition status (f : EMCodecFrame) : option Status :=
  let code := em_codec_frame_status_code f in
  if code <? 0 then None else
  Some (mkStatus code (GoString (em_codec_frame_status_reason f))
          (appended (map (fun i => mkRedirectInfo (GoString (em_codec_frame_redirect_host f i)) (em_codec_frame_redirect_port f i))
                         (indices (u64 (em_codec_frame_redirect_count f)))))).

(** One turn of the loop of [copySync]; the attributes are not read. *)
Definition readMeta (f : EMCodecFrame) (i : Z) : option Meta :=
  payload ← goBytes (em_codec_meta_payload f i);
  let zeroJID := mkJID "" "" "" "" in
  Some (mkMeta (em_codec_meta_id f i) (default zeroJID (gj <$> em_codec_meta_from f i))
          (default zeroJID (gj <$> em_codec_meta_to f i)) (em_codec_meta_timestamp f i)
          (i32 (em_codec_meta_namespace f i)) (GSlice payload (zlen payload)) (i32 (em_codec_meta_route_type f i)) nil_slice
          (appended (map (fun u => GoString (em_codec_meta_directed_user f i u)) (indices (u64 (em_codec_meta_directed_user_count f i)))))
          0 0 "" nil_slice).

Definition copySync (f : EMCodecFrame) : option Sync :=
  metas ← mapM (readMeta f) (indices (u64 (em_codec_frame_meta_count f)));
  Some (mkSync (status f) (em_codec_frame_ack_client_id f) (em_codec_frame_ack_server_id f) (appended metas)
          (em_codec_frame_next_key f) (gj <$> em_codec_frame_queue f) (negb (em_codec_frame_is_last f =? 0))
          (em_codec_frame_timestamp f)).

(** The frame [DecodeFrame] makes of what the library decoded; the trace id is not
    read. *)
Definition readFrame (f : EMCodecFrame) : option Frame :=
  let kind := em_codec_frame_kind f in
  let out := mkFrame (i32 (em_codec_frame_command f)) 0 in
  if kind =? EM_CODEC_FRAME_PROVISION then
    token ← goBytes (em_codec_frame_auth_token f);
    Some (out (Some (mkProvision (status f) (GoString (em_codec_frame_session_id f)) token)) None None None None)
  else if kind =? EM_CODEC_FRAME_UNREAD then
    Some (out None (Some (mkUnread (status f)
      (omap (fun i => gj <$> em_codec_frame_unread_queue f i) (indices (u64 (em_codec_frame_unread_queue_count f))))
      (em_codec_frame_timestamp f))) None None None)
  else if kind =? EM_CODEC_FRAME_NOTICE then Some (out None None (gj <$> em_codec_frame_queue f) None None)
  else if (kind =? EM_CODEC_FRAME_SYNC_ACK) || (kind =? EM_CODEC_FRAME_SYNC_BATCH) then
    s ← copySync f; Some (out None None None (Some s) None)
  else if kind =? EM_CODEC_FRAME_LOGOUT then Some (out None None None None (Some (mkLogout (status f))))
  else Some (out None None None None None).

(** [kv]: only the field of the kind is set. *)
Definition kv (v : EMCodecKeyValue) : KeyValue :=
  let kind := KeyValueKind_of (i32 (ck_type v)) in
  let zero := S754_zero false in
  let x b i u f d s := mkKeyValue (GoString (ck_key v)) kind b i u f d s in
  match kind with
  | KVBool => x (negb (ck_integer_value v =? 0)) 0 0 zero zero ""
  | KVInt | KVLong => x false (ck_integer_value v) 0 zero zero ""
  | KVUint => x false 0 (u64 (ck_integer_value v)) zero zero ""
  | KVFloat => x false 0 0 (float32_of_float64 (ck_number_value v)) zero ""
  | KVDouble => x false 0 0 zero (ck_number_value v) ""
  | KVString | KVJSONString => x false 0 0 zero zero (GoString (ck_string_value v))
  | KVOther _ => x false 0 0 zero zero ""
  end.

(** One turn of the loop over the contents. *)
Definition content (f : EMCodecFrame) (i : Z) : option Content :=
  let kind := i32 (em_codec_content_type f 0 i) in
  raw ← (if kind >? ContentCustom then goBytes (em_codec_content_raw f 0 i) else Some []);
  let kvs := omap (fun k => kv <$> em_codec_content_key_value f 0 i k) (indices (u64 (em_codec_content_key_value_count f 0 i))) in
  Some (mkContent kind (GoString (em_codec_content_text f 0 i)) (GoString (em_codec_content_action f 0 i))
          (if kind =? ContentCommand then kvs else []) (GoString (em_codec_content_custom_event f 0 i))
          (if kind =? ContentCommand then [] else kvs) raw).

Definition body (f : EMCodecFrame) : option MessageBody :=
  let zeroJID := mkJID "" "" "" "" in
  contents ← mapM (content f) (indices (u64 (em_codec_meta_content_count f 0)));
  Some (mkMessageBody (i32 (em_codec_meta_message_type f 0)) (default zeroJID (gj <$> em_codec_message_from f 0))
          (default zeroJID (gj <$> em_codec_message_to f 0)) contents
          (omap (fun i => kv <$> em_codec_meta_key_value f 0 i) (indices (u64 (em_codec_meta_key_value_count f 0))))).

Definition statistic (f : EMCodecFrame) : Statistic :=
  mkStatistic (em_codec_meta_statistic_operation f 0) (GoString (em_codec_meta_statistic_device f 0))
    (GoString (em_codec_meta_statistic_session_id f 0)) (GoString (em_codec_meta_statistic_reason f 0)).
End Decode.

(** ** Arguments of the encoders *)

Definition fillCKV (v : KeyValue) : EMCodecKeyValue :=
  let integer := kv_Int64 v in
  let integer := match kv_Kind v with KVBool => if kv_Bool v then 1 else integer | _ => integer end in
  let integer := match kv_Kind v with KVUint => i64 (kv_Uint64 v) | _ => integer end in
  let number := match kv_Kind v with KVFloat => float64_of_float32 (kv_Float v) | KVDouble => kv_Double v | _ => S754_zero false end in
  mkCKeyValue (cstr (kv_Key v)) (u32 (KeyValueKind_int (kv_Kind v))) integer number (cstr (kv_String v)).

Definition requestContent (x : Content) : EMCodecMessageContent :=
  let src := if ct_Kind x =? ContentCustom then ct_CustomExts x else ct_Params x in
  mkCContent (u32 (ct_Kind x)) (cstr (ct_Text x)) (cstr (ct_Action x)) (cstr (ct_Event x)) (map fillCKV src).

Definition request (v : MessageBody) : EMCodecSendRequest :=
  mkCRequest (cj (mb_From v)) (cj (mb_To v)) (u32 (mb_Kind v)) (map requestContent (mb_Contents v)) (map fillCKV (mb_Ext v)).

(** ** The methods *)
Section Methods.
Context (lib : nativeLibrary) (grown : forall A : Type, Z -> Z).

Definition New : result (EMCodec lib) :=
  match em_codec_create lib EM_CODEC_ABI_VERSION with
  | (Some h, _) => Ok h
  | (None, e) => Err (EPlain ("native codec create: " ++ pretty e))
  end.

(** The handle afterwards, and the handles destroyed: a second [Close] destroys none. *)
Definition Close (c : option (EMCodec lib)) : option (EMCodec lib) * list (EMCodec lib) :=
  match c with Some h => (None, [h]) | None => (None, []) end.

Definition EncodeProvision (h : EMCodec lib) (v : ProvisionRequest) : option (result bytes) :=
  outBytes (em_codec_encode_provision lib h (cj (pq_User v)) (cstr (pq_SDKVersion v)) (cstr (pq_Resource v)) (bytesPtr (pq_AuthToken v))).

Definition EncodeUnread (h : EMCodec lib) : option (result bytes) := outBytes (em_codec_encode_unread lib h).

Definition EncodeLogout (h : EMCodec lib) (v : LogoutRequest) : option (result bytes) :=
  outBytes (em_codec_encode_logout lib h (cstr (lq_SessionID v)) (cstr (lq_Reason v))).

(** A queue goes first. *)
Definition EncodeSync (h : EMCodec lib) (v : SyncRequest) : option (result bytes) :=
  match sr_Queue v, sr_Meta v with
  | Some q, _ => outBytes (em_codec_encode_sync_queue lib h (cj q) (sr_Key v))
  | None, None => Some (Err (EPlain "sync requires queue or meta"))
  | None, Some m =>
      outBytes (em_codec_encode_sync_meta lib h (m_ID m) (cj (m_From m)) (cj (m_To m)) (m_Timestamp m) (u32 (m_Namespace m))
                  (u32 (m_Route m)) (bytesPtr (sl_elems (m_Payload m))) (map cstr (sl_elems (m_DirectedUsers m))))
  end.

Definition EncodeMessageBody (h : EMCodec lib) (v : MessageBody) : option (result bytes) :=
  outBytes (em_codec_encode_message_body lib h (request v)).

(** [decode], and what a method reads of the frame it gives. *)
Definition decode {A} (read : EMCodecFrame -> option A) (r : Z * EMCodecFrame) : option (result A) :=
  if negb (fst r =? EM_CODEC_OK) then Some (Err (EPlain ("native decode: " ++ pretty (fst r)))) else Ok <$> read (snd r).

Definition DecodeFrame (h : EMCodec lib) (data : bytes) : option (result Frame) :=
  decode (readFrame grown) (em_codec_decode_frame lib h (bytesPtr data)).

Definition DecodeMessageBody (h : EMCodec lib) (data : bytes) : option (result MessageBody) :=
  decode body (em_codec_decode_message_body lib h (bytesPtr data)).

Definition DecodeStatistic (h : EMCodec lib) (data : bytes) : option (result Statistic) :=
  decode (fun f => Some (statistic f)) (em_codec_decode_statistic lib h (bytesPtr data)).
End Methods.
End Developer.

(** ** The codec of a build

    sdk/codec_native.go and sdk/codec_unsupported.go: [native] is whether the build
    is for Linux or has the tag [nativecodecdev]. *)
Definition newProtocolCodec (lib : nativeLibrary) (native : bool) : result (Codec lib) :=
  if native then NativeCodec.New lib
  else Err (EPlain "native codec is unavailable on this platform; use a supported Linux build or -tags nativecodecdev").
