(* ===== verification/DeveloperTheory.v ===== *)
(** * The two adapters of the native library agree

    What the release adapter accepts, the developer's adapter decodes to the same
    values, but for two fields it does not read and key/values it reads where the
    other does not, once a frame is decompressed; and where the release adapter
    encodes, the developer's gives the library the same call. *)
From Stdlib Require Import String SpecFloat.
From S2P Require Import Prelude Protocol Errors RetainedWeight Wire EnvelopeTheory CompressionTheory Message MessageJSON Provisioning NativeDecode NativeLimits NativeCodec NativeTheory DeveloperCodec.
Local Open Scope string_scope.
Local Open Scope Z_scope.

(** ** Reads that succeeded *)

Lemma reads_inv {A} (m : tracked A) ok c a x : reads m ok c a -> untracked m = Ok x -> ok && fits c = true /\ x = a.
Proof.
  intros H Hx. apply untracked_reads in H. destruct (ok && fits c); [split; congruence|]. destruct H as (e & H & _). congruence.
Qed.

(** A [size_t] converted to a [C.int]. *)
Lemma i32_u64 z : i32 (u64 z) = i32 z.
Proof.
  unfold i32, u64. rewrite two64_val, (Z.mod_eq z) by done. f_equal.
  rewrite <- (Z.mod_add (z + 2 ^ 31) (- (2 ^ 32 * (z / 18446744073709551616)))) by done. f_equal. lia.
Qed.

Lemma goBytes_copy p : bytes_admissible p = true -> Developer.goBytes p = Some (sl_elems (copyBytes p)).
Proof.
  unfold bytes_admissible, Developer.goBytes, copyBytes. set (size := u64 (cb_size p)). intros H.
  pose proof (u64_range (cb_size p)) as Hr. fold size in Hr.
  destruct (size =? 0) eqn:E0; [apply Z.eqb_eq in E0; by rewrite E0|]. cbn [orb] in H. apply andb_true_iff in H as [Hs Hd].
  apply Z.leb_le in Hs. apply Z.eqb_neq in E0. unfold in_u64 in Hr.
  assert (i32 size = size) as -> by (apply i32_id; revert Hs; change MaxCodecInputBytes with 16777216; lia).
  rewrite (proj2 (Z.eqb_neq _ _) E0), (proj2 (Z.ltb_ge _ _)) by lia. destruct (cb_data p) as [b|]; [|done]. simpl.
  unfold GoBytes. rewrite i32_id; [done|revert Hs; change MaxCodecInputBytes with 16777216; lia].
Qed.

Lemma decoded_Ok {A} (read : EMCodecFrame -> result A) r a : decoded read r = Ok a -> (fst r =? EM_CODEC_OK) = true /\ read (snd r) = Ok a.
Proof. unfold decoded, codecError. destruct (fst r =? EM_CODEC_OK); [done|]. by destruct (fst r =? _). Qed.

Definition copyStatistic (f : EMCodecFrame) : Statistic :=
  mkStatistic (em_codec_meta_statistic_operation f 0) (copyString (em_codec_meta_statistic_device f 0))
    (copyString (em_codec_meta_statistic_session_id f 0)) (copyString (em_codec_meta_statistic_reason f 0)).

Lemma reads_statistic f :
  reads (decodeStatistic f) true
    (costs [string_cost (em_codec_meta_statistic_device f 0); string_cost (em_codec_meta_statistic_reason f 0);
            string_cost (em_codec_meta_statistic_session_id f 0)]) (copyStatistic f).
Proof.
  unfold decodeStatistic. eapply reads_weaken.
  - eapply reads_bind; [apply reads_string|]. eapply reads_bind; [apply reads_string|].
    eapply (reads_map _ (fun x => mkStatistic _ _ x _)). apply reads_string.
  - done.
  - cbn [costs foldr]. by rewrite cost_add_zero.
  - done.
Qed.

Section Views.
Context (grown : forall A : Type, Z -> Z).
#[local] Notation appended := (Developer.appended grown).

(** ** What the developer's adapter keeps *)

Definition viewStatus (st : Status) : Status := mkStatus (st_Code st) (st_Reason st) (appended (sl_elems (st_Redirects st))).

(** No attributes. *)
Definition viewMeta (m : Meta) : Meta :=
  mkMeta (m_ID m) (m_From m) (m_To m) (m_Timestamp m) (m_Namespace m)
    (GSlice (sl_elems (m_Payload m)) (zlen (sl_elems (m_Payload m)))) (m_Route m) (m_Ext m)
    (appended (sl_elems (m_DirectedUsers m))) (m_ExpireTime m) (m_LocalTimestamp m) (m_Environment m) nil_slice.

Definition viewSync (s : Sync) : Sync :=
  mkSync (viewStatus <$> sy_Status s) (sy_MetaID s) (sy_ServerID s) (appended (map viewMeta (sl_elems (sy_Metas s))))
    (sy_NextKey s) (sy_Queue s) (sy_IsLast s) (sy_Timestamp s).

(** No trace id. *)
Definition viewFrame (fr : Frame) : Frame :=
  mkFrame (fr_Command fr) 0
    ((fun p => mkProvision (viewStatus <$> pv_Status p) (pv_SessionID p) (pv_AuthToken p)) <$> fr_Provision fr)
    ((fun u => mkUnread (viewStatus <$> un_Status u) (un_Queues u) (un_Timestamp u)) <$> fr_Unread fr)
    (fr_Notice fr) (viewSync <$> fr_Sync fr) ((fun l => mkLogout (viewStatus <$> lo_Status l)) <$> fr_Logout fr).

(** Only the field of its kind. *)
Definition viewKV (x : KeyValue) : KeyValue :=
  let zero := S754_zero false in
  let only b i u f d s := mkKeyValue (kv_Key x) (kv_Kind x) b i u f d s in
  match kv_Kind x with
  | KVBool => only (kv_Bool x) 0 0 zero zero ""
  | KVInt | KVLong => only false (kv_Int64 x) 0 zero zero ""
  | KVUint => only false 0 (kv_Uint64 x) zero zero ""
  | KVFloat => only false 0 0 (kv_Float x) zero ""
  | KVDouble => only false 0 0 zero (kv_Double x) ""
  | KVString | KVJSONString => only false 0 0 zero zero (kv_String x)
  | KVOther _ => only false 0 0 zero zero ""
  end.

Definition viewContent (x : Content) : Content :=
  mkContent (ct_Kind x) (ct_Text x) (ct_Action x) (map viewKV (ct_Params x)) (ct_Event x) (map viewKV (ct_CustomExts x)) (ct_RawPayload x).

Definition viewBody (b : MessageBody) : MessageBody :=
  mkMessageBody (mb_Kind b) (mb_From b) (mb_To b) (map viewContent (mb_Contents b)) (map viewKV (mb_Ext b)).

(** ** The reads *)

Lemma status_view f : Developer.status grown f = viewStatus <$> copyStatus f.
Proof. unfold Developer.status, copyStatus, has_status. rewrite Z.ltb_antisym. by destruct (0 <=? _). Qed.

Lemma gj_copy (v : option EMCodecJID) : Developer.gj <$> v = copyJID <$> v.
Proof. by destruct v. Qed.

Lemma mapM_total {A B} (f : A -> option B) g l : (forall x, x ∈ l -> f x = Some (g x)) -> mapM f l = Some (map g l).
Proof.
  induction l as [|x l IH]; intros H; [done|]. cbn [mapM]. rewrite (H x) by (by left). cbn [mbind option_bind].
  rewrite IH; [done|]. intros y Hy. apply H. by right.
Qed.

Lemma readMeta_view f i : meta_admissible f i = true -> Developer.readMeta grown f i = Some (viewMeta (copyMeta f i)).
Proof.
  unfold meta_admissible. rewrite !andb_true_iff. intros [[[Hp _] _] _]. unfold Developer.readMeta.
  rewrite (goBytes_copy _ Hp). cbn [mbind option_bind]. rewrite !gj_copy. done.
Qed.

Lemma copySync_view f : sync_admissible f = true -> Developer.copySync grown f = Some (viewSync (copySync f)).
Proof.
  unfold sync_admissible. rewrite !andb_true_iff, forallb_forall. intros [[_ Hm] _]. unfold Developer.copySync.
  rewrite (mapM_total _ (fun i => viewMeta (copyMeta f i))).
  2: { intros i Hi. apply readMeta_view, Hm. by apply list_elem_of_In. }
  cbn [mbind option_bind]. rewrite gj_copy, status_view. unfold viewSync, copySync. cbn. by rewrite map_map.
Qed.

Lemma readFrame_view f : frame_admissible f = true -> Developer.readFrame grown f = Some (viewFrame (copyFrame f)).
Proof.
  unfold frame_admissible. rewrite !andb_true_iff. intros [[_ Hb] _]. unfold body_admissible in Hb.
  unfold Developer.readFrame, copyFrame. rewrite status_view.
  destruct (_ =? EM_CODEC_FRAME_PROVISION); [by rewrite (goBytes_copy _ Hb)|].
  destruct (_ =? EM_CODEC_FRAME_UNREAD); [done|].
  destruct (_ =? EM_CODEC_FRAME_NOTICE); [done|].
  destruct (_ || _); [by rewrite (copySync_view _ Hb)|]. by destruct (_ =? EM_CODEC_FRAME_LOGOUT).
Qed.

Lemma kv_view v : Developer.kv v = viewKV (copyKV v).
Proof. unfold Developer.kv, viewKV, copyKV. cbn. by destruct (KeyValueKind_of _). Qed.

Lemma kvs_view f c :
  omap (fun k => Developer.kv <$> kv_at f c k) (indices (kv_count f c)) = map viewKV (copyKVs f c).
Proof.
  unfold copyKVs. induction (indices _) as [|i l IH]; [done|]. csimpl. destruct (kv_at f c i); csimpl; [by rewrite IH, kv_view|done].
Qed.

(** The key/values of a content that is neither a command nor a custom content:
    the developer's adapter reads them as custom ones, the release adapter does
    not read them. *)
Definition dropStrayKVs (x : Content) : Content :=
  if (ct_Kind x =? ContentCommand) || (ct_Kind x =? ContentCustom) then x
  else mkContent (ct_Kind x) (ct_Text x) (ct_Action x) (ct_Params x) (ct_Event x) [] (ct_RawPayload x).

Definition dropStray (b : MessageBody) : MessageBody :=
  mkMessageBody (mb_Kind b) (mb_From b) (mb_To b) (map dropStrayKVs (mb_Contents b)) (mb_Ext b).

Lemma content_view f i :
  content_admissible f i = true ->
  exists x, Developer.content f i = Some x /\ dropStrayKVs x = viewContent (copyContent f i).
Proof.
  intros Ha. unfold Developer.content. fold (content_kind f i). fold (kv_count f (Some i)).
  change (fun k => Developer.kv <$> em_codec_content_key_value f 0 i k) with (fun k => Developer.kv <$> kv_at f (Some i) k).
  rewrite kvs_view. unfold content_admissible in Ha. unfold copyContent, dropStrayKVs.
  destruct (content_kind f i =? ContentCommand) eqn:E1; [apply Z.eqb_eq in E1; rewrite E1; by eexists|].
  destruct (content_kind f i =? ContentCustom) eqn:E2; [apply Z.eqb_eq in E2; rewrite E2; by eexists|]. cbn [orb] in Ha.
  destruct (content_kind f i >? ContentCustom); [rewrite (goBytes_copy _ Ha)|];
    (eexists; split; [reflexivity|]; cbn [ct_Kind]; by rewrite E1, E2).
Qed.

Lemma mapM_through {A B C} (f : A -> option B) (h : B -> C) g l :
  (forall x, x ∈ l -> exists y, f x = Some y /\ h y = g x) -> exists ys, mapM f l = Some ys /\ map h ys = map g l.
Proof.
  induction l as [|x l IH]; intros H; [by exists []|]. destruct (H x) as (y & E & Hy); [by left|].
  destruct IH as (ys & Eys & Hys); [intros z Hz; apply H; by right|].
  exists (y :: ys). cbn [mapM]. rewrite E. cbn [mbind option_bind]. rewrite Eys. split; [done|]. cbn [map]. by rewrite Hy, Hys.
Qed.

Lemma body_view f : message_admissible f = true ->
  exists b, Developer.body f = Some b /\ dropStray b = viewBody (copyBody f).
Proof.
  unfold message_admissible. rewrite !andb_true_iff, forallb_forall. intros [_ Hc]. unfold Developer.body.
  destruct (mapM_through (Developer.content f) dropStrayKVs (fun i => viewContent (copyContent f i))
    (indices (u64 (em_codec_meta_content_count f 0)))) as (cs & E & Hcs).
  { intros i Hi. apply content_view, Hc. by apply list_elem_of_In. }
  rewrite E. cbn [mbind option_bind]. eexists. split; [reflexivity|]. unfold dropStray. cbn [mb_Contents mb_Kind mb_From mb_To mb_Ext].
  rewrite Hcs, !gj_copy.
  change (omap _ (indices (u64 (em_codec_meta_key_value_count f 0))))
    with (omap (fun k => Developer.kv <$> kv_at f None k) (indices (kv_count f None))). rewrite (kvs_view f None).
  unfold viewBody, copyBody. cbn. by rewrite map_map.
Qed.
End Views.

(** ** The decoders *)

(** C39. The two adapters agree on everything the release adapter accepts.  On the same
    open library, what the release adapter decodes the developer's adapter decodes
    too, without a crash, and to the same value.  Of a frame, which the release
    adapter decompresses first and the developer's does not: once decompressed
    (and a frame that is not compressed is as it is) only the trace id and the
    attributes of the messages are missing.  Of a message body: the fields of a
    key/value that its kind does not use are missing, and key/values that come with
    a content that is neither a command nor a custom one are read as custom ones.
    Of a statistic: nothing. *)
Theorem adapters_decode_alike lib grown h data :
  (forall fr, DecodeFrame lib (Some h) data = Ok fr ->
     exists data', decompressEnvelopePayload (inflate lib) data = Ok data' /\
       (forall env, scanEnvelope data = Ok env -> compression env = 0 -> data' = data) /\
       Developer.DecodeFrame lib grown h data' = Some (Ok (viewFrame grown fr))) /\
  (forall b, DecodeMessageBody lib (Some h) data = Ok b ->
     exists b', Developer.DecodeMessageBody lib h data = Some (Ok b') /\ dropStray b' = viewBody b) /\
  (forall st, DecodeStatistic lib (Some h) data = Ok st -> Developer.DecodeStatistic lib h data = Some (Ok st)).
Proof.
  split_and!.
  - intros fr. unfold DecodeFrame. intros (data' & Hd & (E & Hf)%decoded_Ok)%bind_Ok. exists data'. split; [done|]. split.
    + intros env Henv Hc. apply decompress_spec in Hd as (fs & Hp & Ha & _ & _ & Hcase).
      rewrite (scan_parses _ _ Hp Ha) in Henv. injection Henv as <-. destruct Hcase as [[_ H]|(z & Hc1 & _)]; [done|congruence].
    + apply (reads_inv _ _ _ _ _ (reads_frame _)) in Hf as [Ha ->]. unfold Developer.DecodeFrame, Developer.decode.
      change (Developer.bytesPtr data') with (bytesPtr data'). rewrite E. by rewrite (readFrame_view grown _ Ha).
  - intros b. unfold DecodeMessageBody. destruct (_ >? _); [done|]. intros (E & Hf)%decoded_Ok.
    apply (reads_inv _ _ _ _ _ (reads_message _)) in Hf as [[Ha _]%andb_true_iff ->].
    unfold Developer.DecodeMessageBody, Developer.decode. change (Developer.bytesPtr data) with (bytesPtr data). rewrite E.
    destruct (body_view _ Ha) as (b' & Eb & Hb'). exists b'. by rewrite Eb.
  - intros st. unfold DecodeStatistic. destruct (_ >? _); [done|]. intros (E & Hf)%decoded_Ok.
    apply (reads_inv _ _ _ _ _ (reads_statistic _)) in Hf as [_ ->].
    unfold Developer.DecodeStatistic, Developer.decode. change (Developer.bytesPtr data) with (bytesPtr data). by rewrite E.
Qed.

(** ** The encoders *)

Lemma encoded_outBytes r b : encoded r = Ok b -> Developer.outBytes r = Some (Ok b).
Proof.
  unfold encoded, codecError, Developer.outBytes. destruct (fst r =? EM_CODEC_OK); [|by destruct (fst r =? _)]. cbn [negb].
  destruct r as [e [d n]]. unfold takeBuffer, Developer.goBytes. cbn [fst snd cb_size cb_data].
  destruct (n =? 0) eqn:E0; [by intros [= <-]|]. destruct (u64 n >? MaxCodecInputBytes) eqn:Es; [done|].
  destruct d as [d|]; [|done]. intros [= <-]. rewrite Z.gtb_ltb in Es. apply Z.ltb_ge in Es. pose proof (u64_range n) as Hr.
  unfold in_u64 in Hr. revert Es. change MaxCodecInputBytes with 16777216. intros Es. unfold GoBytes.
  rewrite <- (i32_u64 n), i32_id by lia. rewrite (proj2 (Z.ltb_ge _ _)) by lia. destruct (u64 n =? 0) eqn:E1; [|done].
  apply Z.eqb_eq in E1. by rewrite E1.
Qed.

(** A key/value with nothing in the fields its kind does not use, as far as the
    library is given them. *)
Definition kv_proper (x : KeyValue) : Prop :=
  match kv_Kind x with KVFloat | KVDouble => True | _ => kv_Double x = S754_zero false end.

Definition body_proper (v : MessageBody) : Prop :=
  Forall kv_proper (mb_Ext v) /\ Forall (fun x => Forall kv_proper (ct_Params x) /\ Forall kv_proper (ct_CustomExts x)) (mb_Contents v).

Lemma fillCKV_make x : kv_proper x -> Developer.fillCKV x = makeKV x.
Proof. unfold kv_proper, Developer.fillCKV, makeKV. destruct (kv_Kind x); [intros ->..|done|done|intros ->|intros ->|intros ->]; done. Qed.

Lemma fillCKVs lib v kvs : Forall kv_proper v -> makeKVs lib v = Ok kvs -> map Developer.fillCKV v = kvs.
Proof.
  intros Hv. assert (map Developer.fillCKV v = map makeKV v) as ->.
  { apply map_ext_Forall. eapply Forall_impl; [exact Hv|]. apply fillCKV_make. }
  unfold makeKVs. destruct v; [by intros [= <-]|]. destruct (calloc _ _); [by intros [= <-]|done].
Qed.

Lemma requestContents lib v cs :
  Forall (fun x => Forall kv_proper (ct_Params x) /\ Forall kv_proper (ct_CustomExts x)) v ->
  makeContents lib v = Ok cs -> map Developer.requestContent v = cs.
Proof.
  intros Hv. revert cs. induction Hv as [|x v [Hp Hc] Hv IH]; intros cs; [by intros [= <-]|]. cbn [makeContents].
  intros (c & Ec & (cs' & Ecs & [= <-])%bind_Ok)%bind_Ok. cbn [map]. rewrite (IH _ Ecs). f_equal.
  unfold makeContent in Ec. apply bind_Ok in Ec as (kvs & Ek & [= <-]). unfold Developer.requestContent. f_equal.
  eapply fillCKVs; [|exact Ek]. by destruct (_ =? _).
Qed.

Lemma request_make lib v r : body_proper v -> makeRequest lib v = Ok r -> Developer.request v = r.
Proof.
  intros [He Hc]. unfold makeRequest. intros (ext & Ee & H)%bind_Ok. destruct (_ && _); [done|].
  apply bind_Ok in H as (cs & Ec & [= <-]). unfold Developer.request.
  by rewrite (fillCKVs _ _ _ He Ee), (requestContents _ _ _ Hc Ec).
Qed.

Lemma cstrs_make lib v users : Forall (fun u => u <> "") v -> makeStrings lib v = Ok users -> map Developer.cstr v = users.
Proof.
  intros Hv. assert (map Developer.cstr v = map Some v) as ->.
  { apply map_ext_Forall. eapply Forall_impl; [exact Hv|]. intros x Hx. unfold Developer.cstr. by destruct (String.eqb_spec x ""). }
  unfold makeStrings. destruct v; [by intros [= <-]|]. destruct (calloc _ _); [by intros [= <-]|done].
Qed.

(** What the release adapter encodes, the developer's adapter encodes to the same
    bytes, from the same call of the library: an UNREAD, a LOGOUT, a SYNC that is
    either a message (with named directed users) or a pull, and a message body.
    Only a PROVISION differs, by the action version the release adapter inserts. *)
Theorem adapters_encode_alike lib h b :
  (EncodeUnread lib (Some h) = Ok b -> Developer.EncodeUnread lib h = Some (Ok b)) /\
  (forall v, EncodeLogout lib (Some h) v = Ok b -> Developer.EncodeLogout lib h v = Some (Ok b)) /\
  (forall v, EncodeProvision lib (Some h) v = Ok b ->
     exists b', Developer.EncodeProvision lib h v = Some (Ok b') /\ withProvisionActionVersion b' = Ok b) /\
  (forall v, sr_Queue v = None \/ sr_Meta v = None ->
     (forall m, sr_Meta v = Some m -> Forall (fun u => u <> "") (sl_elems (m_DirectedUsers m))) ->
     EncodeSync lib (Some h) v = Ok b -> Developer.EncodeSync lib h v = Some (Ok b)) /\
  (forall v, body_proper v -> EncodeMessageBody lib (Some h) v = Ok b -> Developer.EncodeMessageBody lib h v = Some (Ok b)).
Proof.
  split_and!.
  - apply encoded_outBytes.
  - intros v. apply encoded_outBytes.
  - intros v (b' & E & H)%bind_Ok. exists b'. split; [by apply encoded_outBytes|done].
  - intros v Hone Husers. unfold EncodeSync, Developer.EncodeSync. destruct (sr_Meta v) as [m|] eqn:Em.
    + destruct Hone as [->|]; [|done]. intros (users & Eu & H)%bind_Ok. apply encoded_outBytes. rewrite (cstrs_make _ _ _ (Husers m eq_refl) Eu). exact H.
    + destruct (sr_Queue v); [apply encoded_outBytes|done].
  - intros v Hv (req & Er & H)%bind_Ok. apply encoded_outBytes. by rewrite (request_make _ _ _ Hv Er).
Qed.

(** ** Witnesses *)

(** A library that decodes everything to [noticeFrame] and encodes everything to two
    bytes that are no field of a PROVISION. *)
Definition pairLibrary : nativeLibrary :=
  let bytes := (EM_CODEC_OK, mkCBytes (Some [8; 1]) 2) in
  mkLibrary unit (fun _ => (Some tt, 0)) (fun _ _ _ _ _ => bytes) (fun _ => bytes) (fun _ _ _ => bytes) (fun _ _ _ => bytes)
    (fun _ _ _ _ _ _ _ _ _ => bytes) (fun _ _ => bytes) (fun _ _ => (EM_CODEC_OK, noticeFrame))
    (fun _ _ => (EM_CODEC_OK, noticeFrame)) (fun _ _ => (EM_CODEC_OK, noticeFrame)) (fun _ => true) (fun _ => Err (EPlain "no zlib")).

Lemma adapters_decode_alike_witness :
  (exists data', Developer.DecodeFrame pairLibrary (fun _ n => n) tt data' =
     Some (Ok (viewFrame (fun _ n => n) (copyFrame noticeFrame)))) /\
  (exists b', Developer.DecodeMessageBody pairLibrary tt [] = Some (Ok b') /\ dropStray b' = viewBody (copyBody noticeFrame)) /\
  fr_Notice (viewFrame (fun _ n => n) (copyFrame noticeFrame)) = Some (mkJID "org#app" "alice" "easemob.com" "").
Proof.
  destruct (adapters_decode_alike pairLibrary (fun _ n => n) tt []) as (H1 & H2 & _). split_and!.
  - destruct (H1 (copyFrame noticeFrame) ltac:(vm_compute; reflexivity)) as (data' & _ & _ & H). by exists data'.
  - apply H2. vm_compute. reflexivity.
  - vm_compute. reflexivity.
Defined.

Definition sample_kv : KeyValue := mkKeyValue "k" KVInt false 7 0 (S754_zero false) (S754_zero false) "".

Lemma adapters_encode_alike_witness :
  let v := mkMessageBody 1 (mkJID "" "a" "" "") (mkJID "" "b" "" "") [mkContent ContentText "hi" "" [] "" [] []] [sample_kv] in
  Developer.EncodeMessageBody pairLibrary tt v = Some (Ok [8; 1]) /\
  Developer.EncodeSync pairLibrary tt (mkSyncRequest None 5 (Some (mkJID "" "a" "" ""))) = Some (Ok [8; 1]).
Proof.
  intros v. destruct (adapters_encode_alike pairLibrary tt [8; 1]) as (_ & _ & _ & Hs & Hb). split.
  - apply Hb; [|reflexivity]. split; repeat constructor.
  - apply Hs; [by right|discriminate|reflexivity].
Defined.
