(* ===== verification/EndToEnd.v ===== *)
(** * From the bytes of a frame to the scheduler

    The composition of the native codec (NativeCodec), the reader (Connection) and
    the scheduler (Queue): what happens to a NOTICE from the frame that carries
    it to the queue it announces. *)
From Stdlib Require Import String.
From S2P Require Import Prelude Protocol Errors RetainedWeight ByteBudget ResourceBudgets DeferredRing Wire Queue QueueInvariant QueueTheory Message MessageJSON Delivery BatchWorker Pending Provisioning Connection ConnectionTheory NativeDecode NativeLimits NativeCodec NativeTheory.
Local Open Scope string_scope.
Local Open Scope Z_scope.

(** ** Failures of [startQueue] *)

(** A step of the scheduler that does not end the run. *)
Definition calm (r r' : connectionRun) : Prop :=
  r_closed r' = r_closed r /\ r_cancelled r' = r_cancelled r /\ r_generation r' = r_generation r /\ r_client r' = r_client r.

#[local] Instance calm_preorder : PreOrder calm.
Proof.
  split; [by intros r|]. intros r1 r2 r3 (H1 & H2 & H3 & H4) (K1 & K2 & K3 & K4).
  split_and!; congruence.
Qed.

(** A run that ended for lack of capacity. *)
Definition overloaded (r : connectionRun) : Prop :=
  r_closed r = true /\ exists e, r_lastErr r = Some e /\ errorCode (Some e) = ErrHandlerBacklog.

Definition backlog (e : goerror) : Prop := exists op reason, e = newError ErrHandlerBacklog op reason.

Lemma calm_same r r' : r_closed r' = r_closed r -> r_cancelled r' = r_cancelled r -> r_generation r' = r_generation r ->
  r_client r' = r_client r -> calm r r'.
Proof. intros. by split_and!. Qed.

Lemma overloaded_fail e r : backlog e -> r_closed r = false -> overloaded (fail e r).
Proof.
  intros (op & reason & ->) Hc. unfold fail. rewrite Hc. split; [done|]. by eexists.
Qed.

Lemma calm_ensure r : calm r (ensureQueueStructuresLocked r).
Proof.
  unfold ensureQueueStructuresLocked. destruct (r_queues r); simpl; destruct (dq_items (r_deferred r)); simpl;
    destruct (r_pullRequests r); simpl; destruct (r_queueBudget r); simpl; case_bool; by apply calm_same.
Qed.

Lemma calm_reserve w r : calm r (snd (reserveQueueLocked w r)).
Proof.
  transitivity (ensureQueueStructuresLocked r); [apply calm_ensure|]. unfold reserveQueueLocked.
  generalize (ensureQueueStructuresLocked r) as r0. intros r0.
  destruct (local_TryAcquire _ _) as [[[]|] lb]; simpl; try by apply calm_same.
  destruct (tryAcquireLocked _ _) as [[[]|] pb]; simpl; try by apply calm_same.
  all: destruct (local_Release _ _) as [re lb']; simpl; by apply calm_same.
Qed.

Lemma calm_enqueue q r : let '(e, r') := enqueuePullLocked q r in calm r r' /\ forall err, e = Some err -> backlog err.
Proof.
  unfold enqueuePullLocked. destruct (l ← q; _) as [[l s]|]; [|by split]. case_bool; [by split|]. simpl.
  destruct (r_pullRequests r); [case_bool|]; (split; [by apply calm_same|]); try done; intros err [= <-]; by eexists _, _.
Qed.

Lemma calm_activate l r : let '(e, r') := activateOrDeferLocked l r in calm r r' /\ forall err, e = Some err -> backlog err.
Proof.
  unfold activateOrDeferLocked. case_bool.
  - set (r1 := set_activeQueues _ _). pose proof (calm_enqueue (Some l) r1) as H.
    destruct (enqueuePullLocked (Some l) r1) as [e r']. destruct H as [H He]. split; [|exact He].
    transitivity r1; [by apply calm_same|exact H].
  - destruct (ring_Push _ _) as [[] d]; (split; [by apply calm_same|]); [done|]. intros err [= <-]. by eexists _, _.
Qed.

Lemma calm_notice l r : let '(e, r') := noticeKnown l r in calm r r' /\ forall err, e = Some err -> backlog err.
Proof.
  unfold noticeKnown. destruct (q_phase <$> r_heap r !! l) as [[]|]; try by (split; [by apply calm_same|]).
  apply calm_activate.
Qed.

Lemma failScheduled_ends e r r0 : calm r0 r -> r_closed r0 = false -> (forall err, e = Some err -> backlog err) ->
  calm r0 (failScheduled e r) \/ overloaded (failScheduled e r).
Proof.
  intros Hc H0 He. destruct e as [err|]; [right|by left]. apply overloaded_fail; [by apply He|].
  destruct Hc as (Hc & _). simpl. by rewrite Hc.
Qed.

Lemma startKnown_ends l q j r : r_closed r = false -> calm r (startKnown l q j r) \/ overloaded (startKnown l q j r).
Proof.
  intros Hc. unfold startKnown. set (canonical := mkJID _ _ _ _).
  assert (exists got r1, (if queueRetainedWeight canonical >? q_weight q
    then reserveQueueLocked (i64 (queueRetainedWeight canonical - q_weight q)) r else (Ok true, r)) = (got, r1) /\ calm r r1)
    as (got & r1 & -> & H1).
  { destruct (_ >? _).
    - pose proof (calm_reserve (i64 (queueRetainedWeight canonical - q_weight q)) r) as H.
      destruct (reserveQueueLocked _ r) as [got r1]. by exists got, r1.
    - by exists (Ok true), r. }
  pose proof (proj1 H1) as H1c. destruct (negb (reserved got)).
  { right. apply overloaded_fail; [by eexists _, _|]. simpl. by rewrite H1c. }
  set (r2 := upd l _ r1). pose proof (calm_notice l r2) as H. destruct (noticeKnown l r2) as [e r3]. destruct H as [H He].
  apply failScheduled_ends; [|done|exact He]. transitivity r1; [exact H1|]. transitivity r2; [by apply calm_same|exact H].
Qed.

Lemma calm_forget k l w r : calm r (forgetQueue k l w r).
Proof.
  unfold forgetQueue. simpl.
  destruct (q_phase <$> r_heap r !! l) as [[]|]; by apply calm_same.
Qed.

Lemma startNew_ends k j r : r_closed r = false -> calm r (startNew k j r) \/ overloaded (startNew k j r).
Proof.
  intros Hc. unfold startNew. pose proof (calm_reserve (queueRetainedWeight j) r) as H1.
  destruct (reserveQueueLocked (queueRetainedWeight j) r) as [got r1]. simpl in H1. pose proof (proj1 H1) as H1c.
  destruct (negb (reserved got)).
  { right. apply overloaded_fail; [by eexists _, _|]. simpl. by rewrite H1c. }
  set (r2 := trackQueue k j _ r1). pose proof (calm_activate (alloc r1) r2) as H.
  destruct (activateOrDeferLocked (alloc r1) r2) as [[err|] r3]; destruct H as [H He].
  - right. apply overloaded_fail; [by apply He|].
    pose proof (calm_forget k (alloc r1) (queueRetainedWeight j) r3) as (Hf & _). destruct H as (H & _).
    change (r_closed (forgetQueue k (alloc r1) (queueRetainedWeight j) r3) = false). rewrite Hf, H. exact (eq_trans H1c Hc).
  - left. transitivity r1; [exact H1|]. transitivity r2; [by apply calm_same|exact H].
Qed.

(** With an id the codec lets through, [startQueue] ends the run only for lack of
    capacity. *)
Lemma startQueue_ends j r : validateQueueJID j = None -> r_closed r = false ->
  calm r (startQueue j r) \/ overloaded (startQueue j r).
Proof.
  intros Hv Hc. unfold startQueue. rewrite Hv. set (r1 := ensureQueueStructuresLocked r).
  pose proof (calm_ensure r) as H1. fold r1 in H1. assert (r_closed r1 = false) as Hc1 by (destruct H1 as (H1 & _); congruence).
  destruct (l ← Queue.queues_of r1 !! newQueueKey j; _) as [[l q]|].
  - destruct (startKnown_ends l q j r1 Hc1); [left; by transitivity r1|by right].
  - destruct (startNew_ends (newQueueKey j) j r1 Hc1); [left; by transitivity r1|by right].
Qed.

(** ** The property *)

(** The JID of a decoded NOTICE is one [startQueue] accepts. *)
Lemma notice_jid_valid lib c data fr j :
  DecodeFrame lib c data = Ok fr -> fr_Notice fr = Some j -> validateQueueJID j = None.
Proof.
  unfold DecodeFrame. intros H Hn. apply bind_Ok in H as (data' & _ & H). destruct c as [h|]; [|done].
  unfold decoded in H. destruct (codecError _); [done|]. apply decoded_small in H as (_ & Hj & _).
  unfold frame_jids in Hj. rewrite Hn in Hj. apply Forall_app in Hj as [_ Hj]. by apply Forall_cons in Hj as [? _].
Qed.

(** What the codec decompresses was admitted with some class. *)
Lemma decompressed_admitted inflate data out :
  decompressEnvelopePayload inflate data = Ok out -> exists class, estimateDecodeAdmission data = Ok class.
Proof.
  unfold decompressEnvelopePayload, estimateDecodeAdmission. intros H.
  destruct (_ >? _); [done|]. destruct (scanEnvelope data) as [env|]; [|done].
  assert (forall a b c : bool, exists class, (if a then Ok DecodeAdmissionTiny else if b then Ok DecodeAdmissionSmall
    else if c then Ok DecodeAdmissionLarge else @Ok DecodeAdmissionClass DecodeAdmissionAmbiguous) = Ok class) as Hs
    by (intros [] [] []; by eexists).
  destruct (hasCompression env); cbn [negb orb] in H; [|by apply Hs].
  destruct (compression env =? 0); [by apply Hs|]. destruct (compression env =? 1); [|done].
  destruct (hasPayload env); [by eexists|done].
Qed.

(** Reading a frame the codec decodes is dispatching it; the memory reserved for
    decoding is given back. *)
Lemma readDecoded lib c cf now data fr s :
  readerOk s -> budget_ok (rd_decode s) -> @admissible (nativeFrameCodec lib c) (ReadFrame data None cf) s ->
  DecodeFrame lib c data = Ok fr ->
  exists b b' s', dispatch cf now fr (rset_decode b s) = Some s' /\
    @decodeAndDispatch (nativeFrameCodec lib c) cf now None data s = Some (None, rset_decode b' s') /\
    bb_used b' = bb_used (rd_decode s).
Proof.
  intros Hs Hb Had Hd. unfold decodeAndDispatch.
  assert (exists w, decodeAdmissionWeight (@EstimateDecodeAdmission (nativeFrameCodec lib c)) data = Ok w) as [w Ew].
  { assert (exists data', decompressEnvelopePayload (inflate lib) data = Ok data') as [data' Hd'].
    { unfold DecodeFrame in Hd. apply bind_Ok in Hd as (data' & ? & _). by exists data'. }
    destruct (decompressed_admitted _ _ _ Hd') as [class Hclass]. simpl. rewrite Hclass. by eexists. }
  rewrite Ew. destruct (Had _ Ew) as [b Et]. rewrite Et. apply decode_weight_pos in Ew as [Hw _].
  destruct (grant_returned _ _ _ Hb Hw Et) as (b' & Er & Hok & Hu).
  cbn [Provisioning.DecodeFrame nativeFrameCodec]. rewrite Hd. cbn [mbind option_bind].
  destruct (dispatch_ok cf now fr (rset_decode b s) Hs) as (s' & E & _ & Hdec). exists b, b', s'. split; [exact E|].
  split; [|exact Hu]. rewrite E. cbn [mbind option_bind]. rewrite Hdec. cbn [rd_decode rset_decode]. by rewrite Er.
Qed.

(** A frame that is an operation of the queues. *)
Lemma readQueues lib c cf now data fr f s :
  readerOk s -> budget_ok (rd_decode s) -> @admissible (nativeFrameCodec lib c) (ReadFrame data None cf) s ->
  DecodeFrame lib c data = Ok fr -> (forall s, dispatch cf now fr s = onQueues f s) ->
  exists s', @readStep (nativeFrameCodec lib c) now (ReadFrame data None cf) s = Some (true, s') /\
    rd_run s' = f (rd_run s) /\ bb_used (rd_decode s') = bb_used (rd_decode s).
Proof.
  intros Hs Hb Had Hd Hf. destruct (readDecoded lib c cf now data fr (rset_lastInbound now s) Hs Hb Had Hd) as (b & b' & s1 & E1 & E2 & Hu).
  rewrite Hf in E1. destruct (onQueues_ok f (rset_decode b (rset_lastInbound now s)) Hs) as (s2 & E3 & _ & Hr & _).
  rewrite E3 in E1. injection E1 as ->. exists (rset_decode b' s1). split; [cbn [readStep]; by rewrite E2|]. by split.
Qed.

(** A live run of any interleaving is neither closed nor finalized. *)
Lemma reached_open gen pb cl ops r ws hs :
  fresh_run gen pb cl -> queueRun (startPullScheduler (newRun gen pb cl)) ops = Some (mkQueueSys r ws hs) -> live r ->
  r_closed r = false /\ r_finalized r = false /\ exists P H, run_inv P H r.
Proof.
  intros Hf Hrun [Hl _]. pose proof (queueRun_inv _ _ _ Hrun (newRun_inv _ _ _ Hf)) as Hinv. unfold sys_inv in Hinv. cbn [qs_run] in Hinv.
  split_and!; [| |eauto]; destruct Hinv as [Ha _].
  - destruct (r_closed r) eqn:E; [apply (ar_closed _ Ha) in E; congruence|done].
  - destruct (r_finalized r) eqn:E; [apply (ar_finalized _ Ha) in E as [E _]; congruence|done].
Qed.

(** C12. From the bytes on the wire to a scheduled pull.  A NOTICE frame read on a
    live connection, at any point of any interleaving of reader, workers and
    handler: the reader goes on, gives back the memory it reserved, and the queue
    the NOTICE names is tracked under exactly that JID and bound to be pulled
    again.  The one other outcome is that the run ends as overloaded
    (ErrHandlerBacklog): the name itself never fails it. *)
Theorem notice_end_to_end lib c gen pb cl ops ws hs now data cf fr j s :
  fresh_run gen pb cl -> queueRun (startPullScheduler (newRun gen pb cl)) ops = Some (mkQueueSys (rd_run s) ws hs) ->
  live (rd_run s) -> readerOk s -> budget_ok (rd_decode s) -> @admissible (nativeFrameCodec lib c) (ReadFrame data None cf) s ->
  DecodeFrame lib c data = Ok fr -> fr_Command fr = CommandNotice -> fr_Notice fr = Some j ->
  exists s', @readStep (nativeFrameCodec lib c) now (ReadFrame data None cf) s = Some (true, s') /\
    bb_used (rd_decode s') = bb_used (rd_decode s) /\
    (overloaded (rd_run s') \/
     live (rd_run s') /\
     exists l q, Queue.queues_of (rd_run s') !! newQueueKey j = Some l /\ r_heap (rd_run s') !! l = Some q /\
       q_jid q = j /\ will_pull q).
Proof.
  intros Hf Hrun Hl Hs Hb Had Hd Hcmd Hj. destruct (reached_open _ _ _ _ _ _ _ Hf Hrun Hl) as (Hc & Hfin & P & H & Hinv).
  destruct (readQueues lib c cf now data fr (startQueue j) s Hs Hb Had Hd) as (s' & E & Hr & Hu).
  { intros s0. unfold dispatch. by rewrite Hcmd, Hj. }
  exists s'. split; [exact E|]. split; [exact Hu|]. rewrite Hr.
  destruct (startQueue_ends j (rd_run s) (notice_jid_valid _ _ _ _ _ Hd Hj) Hc) as [(_ & K1 & K2 & K3)|Ho]; [right|by left].
  assert (live (startQueue j (rd_run s))) as Hl' by (destruct Hl; split; congruence). split; [done|].
  by eapply startQueue_result.
Qed.

Lemma notice_end_to_end_witness :
  exists s', @readStep (nativeFrameCodec noticeLibrary (Some tt)) 1 (ReadFrame [] None false) demo_reader = Some (true, s') /\
    bb_used (rd_decode s') = 0 /\ r_closed (rd_run s') = false /\
    exists l q, r_heap (rd_run s') !! l = Some q /\
      q_jid q = mkJID "org#app" "alice" "easemob.com" "" /\ will_pull q.
Proof.
  destruct (notice_end_to_end noticeLibrary (Some tt) 1 demo_pb demo_client [] (qs_workers demo_start) (qs_handling demo_start)
    1 [] false (copyFrame noticeFrame) (mkJID "org#app" "alice" "easemob.com" "") demo_reader)
    as (s' & E & Hu & H); [exact demo_fresh|reflexivity|split; vm_compute; reflexivity|exact demo_reader_ok
      |exact demo_decode_ok| |vm_compute; reflexivity..|].
  { intros w [= <-]. eexists. reflexivity. }
  exists s'. split; [exact E|]. split; [exact Hu|].
  assert (r_closed (rd_run s') = false) as Ho.
  { vm_compute in E. injection E as <-. by vm_compute. }
  split; [exact Ho|]. destruct H as [[Hc _]|(_ & l & q & _ & Hq & Hj & Hw)]; [rewrite Hc in Ho; discriminate|]. exists l, q. exact (conj Hq (conj Hj Hw)).
Defined.

(** ** Batches *)

(** What [handleBatch] changes of a run, and of the channel of batches, when it
    hands [job] over. *)
Definition handed (l : nat) (job : batchJob) (r r' : connectionRun) : Prop :=
  r_closed r' = r_closed r /\ r_cancelled r' = r_cancelled r /\ r_generation r' = r_generation r /\
  bc_generation (r_client r') = bc_generation (r_client r) /\ Queue.queues_of r' = Queue.queues_of r /\
  bc_batches (r_client r') = (bc_batches (r_client r) ++ [job])%list /\
  (exists q, r_heap r' !! l = Some q /\ q_processing q = true).

Lemma reset_closed k l r : r_closed (resetProcessing k l r) = r_closed r.
Proof. unfold resetProcessing. by case_decide. Qed.

Lemma reserve_granted st client process w :
  let '(res, st') := tryReserveBatchScoped st client process w in
  is_some (rr_err res) || negb (rr_ok res) = false -> is_Some (rr_reservation res).
Proof.
  unfold tryReserveBatchScoped. destruct (TryAcquire st client w) as [[[]|] st1]; cbn; try done.
  destruct (TryAcquire st1 process w) as [[[]|] st2]; cbn; [by eexists|..];
    by destruct (Release st2 client w) as [[] ?].
Qed.

Lemma admitBatch_ends cf k l d w q r :
  SyncRetainedWeight (Some d) = Ok w -> r_closed r = false -> r_cancelled r = false ->
  r_heap r !! l = Some q -> q_processing q = true ->
  overloaded (admitBatch cf k l d r) \/
  exists res, handed l (mkBatchJob k d (r_generation r) (Some res)) r (admitBatch cf k l d r).
Proof.
  intros Hw Hc Hk Hq Hp. unfold admitBatch. rewrite Hw. destruct (bc_batchBudget (r_client r)) as [client|].
  2: { left. apply overloaded_fail; [by eexists _, _|]. by rewrite reset_closed. }
  set (process := match r_processBatchBudget r with Some b => Some b | None => _ end).
  pose proof (reserve_granted (bc_store (r_client r)) (Some client) process w) as Hres.
  destruct (tryReserveBatchScoped _ _ _ _) as [res st]. destruct (is_some (rr_err res) || negb (rr_ok res)).
  { left. apply overloaded_fail; [by eexists _, _|].
    transitivity (r_closed (resetProcessing k l (set_client (set_bc_store st (r_client r)) r))); [done|]. by rewrite reset_closed. }
  destruct (Hres eq_refl) as [rs ->]. unfold enqueueBatch. cbn [r_client set_client bc_batches set_bc_store r_cancelled].
  rewrite Hk. cbn [andb]. destruct (_ <=? _)%nat; cbn [negb].
  - left. apply overloaded_fail; [by eexists _, _|].
    transitivity (r_closed (resetProcessing k l (set_client (set_bc_store st (r_client r)) r))); [done|]. by rewrite reset_closed.
  - right. exists rs. split_and!; try done. by exists q.
Qed.

(** A batch for a queue that is pulled and has no batch in work is handed to the
    workers, unless there is no capacity. *)
Lemma handleBatch_ends cf d w j l q r :
  badStatus "sync" (sy_Status d) = None -> sy_Queue d = Some j -> validateQueueJID j = None ->
  SyncRetainedWeight (Some d) = Ok w -> r_closed r = false -> r_cancelled r = false ->
  Queue.queues_of r !! newQueueKey j = Some l -> r_heap r !! l = Some q -> q_phase q = queueActive -> q_processing q = false ->
  overloaded (handleBatch cf d r) \/
  exists res, handed l (mkBatchJob (newQueueKey j) d (r_generation r) (Some res)) r (handleBatch cf d r).
Proof.
  intros Hst Hj Hv Hw Hc Hk Hl Hq Hph Hp. unfold handleBatch. rewrite Hst, Hj, Hv. unfold handleQueueBatch. rewrite Hl. cbn [mbind option_bind].
  rewrite Hq. cbn [mbind option_bind]. rewrite bool_decide_true, Hp by done. cbn [negb orb].
  set (g := fun q => qset_processing true _). set (r1 := upd l g r).
  assert (r_heap r1 !! l = Some (g q)) as Hq1.
  { unfold r1, upd. cbn. by rewrite lookup_alter_eq, Hq. }
  destruct (admitBatch_ends cf (newQueueKey j) l d w (g q) r1 Hw Hc Hk Hq1 eq_refl) as [H|[res H]]; [by left|right].
  exists res. exact H.
Qed.

(** The weight of a decoded batch is one the scheduler accepts. *)
Lemma batch_small lib c data fr d :
  DecodeFrame lib c data = Ok fr -> fr_Sync fr = Some d ->
  (exists w, SyncRetainedWeight (Some d) = Ok w) /\ forall j, sy_Queue d = Some j -> validateQueueJID j = None.
Proof.
  unfold DecodeFrame. intros H Hd. apply bind_Ok in H as (data' & _ & H). destruct c as [h|]; [|done].
  unfold decoded in H. destruct (codecError _); [done|]. apply decoded_small in H as (_ & Hj & _ & _ & _ & _ & Hw).
  rewrite Hd in Hw. split; [destruct (SyncRetainedWeight (Some d)); [by eexists|done]|].
  intros j Hq. unfold frame_jids in Hj. rewrite Hd, Hq in Hj. apply Forall_app in Hj as [_ Hj]. apply Forall_app in Hj as [_ Hj].
  by apply Forall_cons in Hj as [? _].
Qed.

(** A SYNC batch is one step of the workers: the scheduler's run is the only part
    of their state that the reader changes. *)
Definition withRun (r : connectionRun) (w : batchWorkers) : batchWorkers :=
  mkWorkers (mkQueueSys r (qs_workers (bw_sys w)) (qs_handling (bw_sys w))) (bw_jobs w) (bw_log w).

Lemma read_is_a_step json_parse codec gen pb cl wops w cf d :
  workerRun json_parse codec (startWorkers (newRun gen pb cl)) wops = Some w -> r_finalized (qs_run (bw_sys w)) = false ->
  workerRun json_parse codec (startWorkers (newRun gen pb cl)) (wops ++ [WorkerOp (OpBatch cf d)])%list =
    Some (withRun (handleBatch cf d (qs_run (bw_sys w))) w).
Proof.
  intros H Hf. rewrite workerRun_app, H. cbn [mbind option_bind workerRun workerStep queueStep]. by rewrite Hf.
Qed.

(** What becomes of a handed job of a live run. *)
Lemma job_fate json_parse codec gen pb cl wops w job more w2 :
  fresh_run gen pb cl -> workerRun json_parse codec (startWorkers (newRun gen pb cl)) wops = Some w ->
  own_job (qs_run (bw_sys w)) job = true -> job ∈ waiting (bw_sys w) ->
  workerRun json_parse codec w more = Some w2 -> live (qs_run (bw_sys w2)) ->
  (job ∈ waiting (bw_sys w2) \/
   exists evs, (job, evs) ∈ drop (length (bw_log w)) (bw_log w2) /\
     deliveredMessages evs = jobMessages json_parse codec job) /\
  (forall i handler, qs_handling (bw_sys w2) !! i = Some job -> bw_jobs w2 !! i = Some JobTaken ->
     Forall (keepsSession codec) (sl_elems (sy_Metas (bj_d job))) ->
     exists w3 evs l q,
       workerRun json_parse codec w2 [WorkerBegin i; WorkerDone i None handler] = Some w3 /\
       bw_log w3 = (bw_log w2 ++ [(job, evs)])%list /\ deliveredMessages evs = jobMessages json_parse codec job /\
       Queue.queues_of (qs_run (bw_sys w2)) !! bj_queue job = Some l /\ r_heap (qs_run (bw_sys w2)) !! l = Some q /\
       finishes l q (bj_d job) (qs_run (bw_sys w2)) (qs_run (bw_sys w3))).
Proof.
  intros Hf Hw Hown Hj Hm Hl. split.
  - eapply workerRun_exact; try done. eapply workerRun_none_skipped; [exact Hw|apply start_none_skipped].
  - intros i handler Hi Hpc Hk.
    destruct (workerRun_run _ _ _ _ _ Hw) as [q1 H1]. destruct (workerRun_run _ _ _ _ _ Hm) as [q2 H2].
    eapply (worker_finishes json_parse codec gen pb cl (q1 ++ q2)%list); try done.
    + cbn [startWorkers bw_sys] in H1. by rewrite queueRun_app, H1.
    + destruct (workerRun_live _ _ _ _ _ Hm) as [Hg _]. unfold own_job in *. by rewrite Hg.
Qed.


(** ** Answers to a Send *)

(** C14. From the bytes on the wire to the answer of a Send.  A SYNC frame with the id
    of a Send that waits: the reader goes on, gives back the memory it reserved
    and touches neither the queues nor another Send; and the Send, which it does
    not wait for, returns exactly the server's answer once it receives, whatever
    else happened to the table before. *)
Theorem ack_end_to_end lib c now data cf fr d t s :
  readerOk s -> budget_ok (rd_decode s) -> @admissible (nativeFrameCodec lib c) (ReadFrame data None cf) s ->
  DecodeFrame lib c data = Ok fr -> fr_Command fr = CommandSync -> fr_Sync fr = Some d -> 0 < sy_MetaID d ->
  pd_calls (rd_pending s) !! t = Some (SendWaiting (sy_MetaID d)) -> pd_pending (rd_pending s) !! sy_MetaID d = Some t ->
  exists s', @readStep (nativeFrameCodec lib c) now (ReadFrame data None cf) s = Some (true, s') /\
    bb_used (rd_decode s') = bb_used (rd_decode s) /\ rd_run s' = rd_run s /\
    pd_pending (rd_pending s') = delete (sy_MetaID d) (pd_pending (rd_pending s)) /\
    exists p, runPending (rd_pending s') [PReceive t; PUnregister t] = Some p /\
      pd_calls p !! t = Some (SendReturned (sy_MetaID d) (ackOf d)) /\
      (forall u, u <> t -> pd_calls p !! u = pd_calls (rd_pending s) !! u /\ pd_chan p !! u = pd_chan (rd_pending s) !! u).
Proof.
  intros Hs Hb Had Hd Hcmd Hsync Hid Hcall Hpend.
  destruct (readDecoded lib c cf now data fr (rset_lastInbound now s) Hs Hb Had Hd) as (b & b' & s1 & E1 & E2 & Hu).
  destruct Hs as [(Ht & _) Ha]. destruct (Ht _ _ Hpend) as (_ & _ & Hchan).
  assert (completeACK d (rset_decode b (rset_lastInbound now s)) = Some s1) as E3.
  { rewrite <- E1. unfold dispatch. rewrite Hcmd, Hsync. cbn. by rewrite Z.gtb_ltb, (proj2 (Z.ltb_lt _ _)). }
  unfold completeACK in E3. cbn [rd_pending rset_decode rset_lastInbound pendingStep] in E3.
  rewrite Hpend in E3. cbn [mbind option_bind pd_acking pd_chan] in E3. rewrite Ha in E3. cbn [app] in E3. rewrite Hchan in E3.
  injection E3 as <-. exists (rset_decode b' (rset_pending
    (mkPending (delete (sy_MetaID d) (pd_pending (rd_pending s))) (pd_calls (rd_pending s))
       (<[t := ackOf d]> (pd_chan (rd_pending s))) [] (pd_done (rd_pending s))) (rset_decode b (rset_lastInbound now s)))).
  split; [cbn [readStep]; by rewrite E2|]. split; [exact Hu|]. split; [done|]. split; [done|].
  cbn [runPending pendingStep rd_pending rset_decode rset_pending pd_calls pd_chan]. rewrite Hcall, lookup_insert_eq.
  cbn [mbind option_bind]. cbn [setCall pd_calls]. rewrite lookup_insert_eq. cbn [mbind option_bind].
  eexists. split; [reflexivity|]. cbn [setCall pd_calls pd_chan]. split; [apply lookup_insert_eq|]. intros u Hu'.
  rewrite !lookup_insert_ne, lookup_delete_ne, lookup_insert_ne; done.
Qed.

(** ** A frame with one message

    [id] is the client id of an ACK; the body of the message is [nativeBody]. *)
Definition syncFrame (id : Z) (queue : option EMCodecJID) (metas : Z) : EMCodecFrame :=
  let none := mkCBytes None 0 in
  mkCFrame CommandSync 5 EM_CODEC_FRAME_SYNC_BATCH (-1) None 0 (fun _ => None) (fun _ => 0) None none id 77 3 0 (fun _ => None) 9 1
    queue metas (fun i => 100 + i) (fun _ => 3) (fun _ => NamespaceChat) (fun _ => 0) (fun _ => mkCBytes (Some [7]) 1) (fun _ => none)
    (fun _ => None) (fun _ => None) (fun _ => 0) (fun _ _ => None) (fun _ => 0) (fun _ => None) (fun _ => None) (fun _ => 0)
    (fun _ _ => None) (fun _ => 0) (fun _ _ => 0) (fun _ _ => None) (fun _ _ => None) (fun _ _ => None) (fun _ _ => none)
    (fun _ _ => 0) (fun _ _ _ => None) (fun _ => 0) (fun _ => None) (fun _ => None) (fun _ => None).

Definition syncLibrary (f : EMCodecFrame) : nativeLibrary :=
  mkLibrary unit (fun _ => (Some tt, 0)) (fun _ _ _ _ _ => errorResult) (fun _ => errorResult) (fun _ _ _ => errorResult)
    (fun _ _ _ => errorResult) (fun _ _ _ _ _ _ _ _ _ => errorResult) (fun _ _ => errorResult)
    (fun _ _ => (EM_CODEC_OK, f)) (fun _ _ => (EM_CODEC_OK, requestFrame (okOr emptyRequest (makeRequest (oneMessageLibrary emptyRequest) nativeBody))))
    (fun _ _ => (1, f)) (fun _ => true) (fun _ => Err (EPlain "no zlib")).

(** The queue of [demo_jid] has been pulled and waits for its batch. *)
Definition pulled_ops : list queueOp := take 5 demo_ops.
Definition pulled_sys : queueSys := default demo_start (queueRun demo_start pulled_ops).
Definition pulled_queue : queueState :=
  mkQueue (newQueueKey demo_jid) demo_jid 0 queueActive false false false false None 1024.
Definition pulled_reader : reader := rset_run (qs_run pulled_sys) demo_reader.
Definition batchFrame : EMCodecFrame := syncFrame 0 (Some (makeJID demo_jid)) 2.

Definition json_none : bytes -> option json := fun _ => None.
Definition handler_ok (msg : Message) : nat -> attemptEnv := fun _ => mkAttemptEnv (HandlerReturns None false) false.

(** The workers before and after the batch is read. *)
Notation batchCodec := (nativeMessageCodec (syncLibrary batchFrame) (Some tt)).
Definition pulled_workers : batchWorkers := mkWorkers pulled_sys [] [].
Definition read_reader : reader :=
  from_option snd pulled_reader
    (@readStep (nativeFrameCodec (syncLibrary batchFrame) (Some tt)) 1 (ReadFrame [] None false) pulled_reader).
Definition batch_done : batchWorkers :=
  default pulled_workers (workerRun json_none batchCodec (withRun (rd_run read_reader) pulled_workers)
    [WorkerTake; WorkerBegin 0; WorkerDone 0 None handler_ok]).

Lemma batch_read : @readStep (nativeFrameCodec (syncLibrary batchFrame) (Some tt)) 1 (ReadFrame [] None false) pulled_reader =
  Some (true, read_reader).
Proof. vm_compute. reflexivity. Qed.

Lemma batch_open : r_closed (rd_run read_reader) = false.
Proof. vm_compute. reflexivity. Qed.

Lemma batch_reached : workerRun json_none batchCodec (withRun (rd_run read_reader) pulled_workers)
  [WorkerTake; WorkerBegin 0; WorkerDone 0 None handler_ok] = Some batch_done.
Proof. vm_compute. reflexivity. Qed.

Lemma batch_finished : live (qs_run (bw_sys batch_done)) /\
  (bc_batches (r_client (qs_run (bw_sys batch_done))) ++ qs_handling (bw_sys batch_done) = [])%list /\
  length (bw_log batch_done) = 1%nat /\
  length (omap (deliverable json_none batchCodec) (sl_elems (sy_Metas (copySync batchFrame)))) = 2%nat.
Proof. split; [split; vm_compute; reflexivity|]. split_and!; vm_compute; reflexivity. Qed.

Lemma goes_on_inj {A} (x y : A) : Some (true, x) = Some (true, y) -> x = y.
Proof. by intros [= ->]. Qed.

Lemma single_entry {A} (xs : list A) x : length xs = 1%nat -> x ∈ drop 0 xs -> xs = [x].
Proof. rewrite drop_0. destruct xs as [|y [|]]; try done. by intros _ ->%list_elem_of_singleton. Qed.


Lemma ack_end_to_end_witness :
  exists s' p, @readStep (nativeFrameCodec (syncLibrary (syncFrame 5 None 0)) (Some tt)) 1 (ReadFrame [] None false) demo_reader = Some (true, s') /\
    runPending (rd_pending s') [PReceive 0; PUnregister 0] = Some p /\
    pd_calls p !! 0%nat = Some (SendReturned 5 (mkAck (Some (mkSendResult 77 5 77 3)) None)).
Proof.
  destruct (ack_end_to_end (syncLibrary (syncFrame 5 None 0)) (Some tt) 1 [] false (copyFrame (syncFrame 5 None 0))
    (copySync (syncFrame 5 None 0)) 0 demo_reader) as (s' & E & _ & _ & _ & p & Hp & Hc & _);
    [exact demo_reader_ok|exact demo_decode_ok|intros w [= <-]; eexists; reflexivity|vm_compute; reflexivity..|].
  exists s', p. split; [exact E|]. split; [exact Hp|exact Hc].
Defined.
