(* ===== verification/DnsSelect.v ===== *)
(** * Bootstrap DNS: from the document to the login endpoints

    sdk/dns.go, lines 1-315: the host entries, their validation and
    normalisation, the ordered candidate list, the fetch and its retry.

    The JSON decoding of the document and the HTTP exchange are parameters;
    package net/url is modelled for the URLs the code builds, whose hosts need no
    escaping. *)
From Stdlib Require Import String Ascii.
From S2P Require Import Prelude Protocol Errors GoStrings MessageJSON.
Local Open Scope string_scope.
Local Open Scope Z_scope.

Definition dnsMaxAttempts : nat := 2.
Definition dnsResponseMaxBytes : Z := Z.shiftl 1 20.
Definition dnsMaxWSSCandidates : nat := 64.

Record loginEndpoints := mkLoginEndpoints { le_WSS : list string; le_REST : string }.

Record dnsHost := mkDnsHost { dh_Protocol : string; dh_Port : string; dh_Domain : string; dh_Priority : string }.

Record dnsDocument := mkDnsDocument { dd_MsyncWX : list dnsHost; dd_REST : list dnsHost }.

(** A string or a number, as text; [None] for another JSON value. *)
Definition flexibleString_UnmarshalJSON (data : json) : option string :=
  match unmarshalString data with
  | Some text => Some text
  | None => match data with JNumber literal => Some literal | _ => None end
  end.

Definition dnsStageError (reason : string) (status : Z) (cause : option goerror) : goerror :=
  ESDK ErrDNS "dns bootstrap" reason 0 status cause.

(** ** Host entries *)

Definition domainChar (ch : ascii) : bool :=
  let a := byte_of_ascii ch in
  ((97 <=? a) && (a <=? 122)) || ((65 <=? a) && (a <=? 90)) || ((48 <=? a) && (a <=? 57)) || (a =? 45).

Definition is_dash (o : option ascii) : bool :=
  match o with Some c => Ascii.eqb c "-" | None => false end.

Definition validLabel (label : chars) : bool :=
  (1 <=? length label)%nat && (length label <=? 63)%nat &&
  negb (is_dash (head label)) && negb (is_dash (last label)) && forallb domainChar label.

Definition validDNSDomain (domain : string) : bool :=
  if net_ParseIP domain then true
  else if (slen domain =? 0) || (slen domain >? 253) then false
  else forallb validLabel (splitChars "." (explode (strings_TrimSuffix domain "."))).

(** White space, and the delimiters of a URL. *)
Definition blanks : string := implode [" "; "009"; "013"; "010"]%char.
Definition domainForbidden : string := blanks ++ "/@?#".

(** [url.URL{Scheme, Host, Path}.String()] *)
Definition url_String (scheme host path : string) : string := scheme ++ "://" ++ host ++ path.

Definition makeDNSEndpoint (host : dnsHost) (websocket : bool) : option string :=
  let domain := strings_TrimSpace (dh_Domain host) in
  if String.eqb domain "" || strings_ContainsAny domain domainForbidden then None
  else
    let normalizedDomain := strings_Trim domain "[]" in
    let isIPv6 := mem_char ":" normalizedDomain && net_ParseIP normalizedDomain in
    if negb (validDNSDomain normalizedDomain) || (mem_char ":" normalizedDomain && negb isIPv6) then None
    else
      let scheme := strings_ToLower (strings_TrimSpace (dh_Protocol host)) in
      scheme ← (if websocket then
                  if negb (String.eqb scheme "wss") && negb (String.eqb scheme "https") then None else Some "wss"
                else if negb (String.eqb scheme "https") then None else Some scheme);
      let raw := strings_TrimSpace (dh_Port host) in
      port ← (if String.eqb raw "" then Some 443
              else match strconv_ParseInt raw with
                   | Some parsed => if (parsed <? 1) || (parsed >? 65535) then None else Some parsed
                   | None => None
                   end);
      let hostPort :=
        if negb (port =? 443) then net_JoinHostPort normalizedDomain (strconv_FormatInt port)
        else if isIPv6 then "[" ++ normalizedDomain ++ "]" else normalizedDomain in
      Some (url_String scheme hostPort (if websocket then "/websocket" else "")).

(** ** The candidate list *)

Definition isPriority (host : dnsHost) : bool := String.eqb (strings_TrimSpace (dh_Priority host)) "1".

(** The loop over the entries: the two groups so far. *)
Fixpoint partitionHosts (hosts : list dnsHost) (websocket : bool) (priority fallback : list string)
    : list string * list string :=
  match hosts with
  | [] => (priority, fallback)
  | host :: hosts =>
      match makeDNSEndpoint host websocket with
      | None => partitionHosts hosts websocket priority fallback
      | Some endpoint =>
          if isPriority host then partitionHosts hosts websocket (priority ++ [endpoint])%list fallback
          else partitionHosts hosts websocket priority (fallback ++ [endpoint])%list
      end
  end.

(** The loop that drops duplicates. *)
Fixpoint orderEndpoints (group : list string) (seen : gset string) (ordered : list string)
    : gset string * list string :=
  match group with
  | [] => (seen, ordered)
  | endpoint :: group =>
      if decide (endpoint ∈ seen) then orderEndpoints group seen ordered
      else orderEndpoints group ({[endpoint]} ∪ seen) (ordered ++ [endpoint])%list
  end.

Definition selectDNSHosts (hosts : list dnsHost) (websocket : bool) : list string :=
  let '(priority, fallback) := partitionHosts hosts websocket [] [] in
  let '(seen, ordered) := orderEndpoints priority ∅ [] in
  snd (orderEndpoints fallback seen ordered).

Definition selectDNSHost (hosts : list dnsHost) (websocket : bool) : option string :=
  head (selectDNSHosts hosts websocket).

(** ** AppKey and the REST base *)

Definition splitAppKey (appKey : string) : option (string * string) :=
  let '(org, app, ok) := strings_Cut appKey "#" in
  if negb ok || String.eqb org "" || String.eqb app "" || mem_char "#" app ||
     strings_ContainsAny (org ++ app) (blanks ++ "/")
  then None else Some (org, app).

(** The bytes [net/url] leaves as they are in a path. *)
Definition pathSafe (c : ascii) : bool :=
  let a := byte_of_ascii c in
  ((97 <=? a) && (a <=? 122)) || ((65 <=? a) && (a <=? 90)) || ((48 <=? a) && (a <=? 57)) ||
  mem_char c "-_.~$&+,/:;=@".

Definition hexUpper (d : Z) : ascii := ascii_of_N (Z.to_N (if d <? 10 then 48 + d else 55 + d)).

(** [url.URL.EscapedPath]. *)
Definition escapePath (s : string) : string :=
  implode (concat (map (fun c => if pathSafe c then [c]
    else ["%"%char; hexUpper (byte_of_ascii c / 16); hexUpper (byte_of_ascii c mod 16)]) (explode s))).

Section Resolve.
(** encoding/json into a [dnsDocument]. *)
Context (json_Unmarshal_document : bytes -> result dnsDocument).

Definition resolveDNSCandidates (body : bytes) (appKey : string) : result loginEndpoints :=
  match json_Unmarshal_document body with
  | Err err => Err (dnsStageError "invalid JSON response" 0 (Some err))
  | Ok document =>
      let wss := selectDNSHosts (dd_MsyncWX document) true in
      if (length wss =? 0)%nat then Err (dnsStageError "response has no valid WSS host in msync-wx.hosts" 0 None)
      else if (dnsMaxWSSCandidates <? length wss)%nat
      then Err (dnsStageError "response has more than 64 valid WSS hosts" 0 None)
      else match selectDNSHost (dd_REST document) false with
      | None => Err (dnsStageError "response has no valid HTTPS host in rest.hosts" 0 None)
      | Some rest =>
          match splitAppKey appKey with
          | None => Err (dnsStageError "AppKey must have org#app form" 0 None)
          | Some (org, app) =>
              Ok (mkLoginEndpoints wss (strings_TrimRight (rest ++ escapePath ("/" ++ org ++ "/" ++ app)) "/"))
          end
      end
  end.

(** ** The fetch *)

(** What one GET gives: a transport error, or a status and the body, whose
    reading may fail. *)
Inductive httpResult :=
| HTTPError (err : goerror)
| HTTPResponse (status : Z) (body : result bytes).

(** Reading stops one byte past the limit. *)
Definition readBoundedDNSResponse (body : result bytes) : result bytes :=
  match body with
  | Err err => Err (dnsStageError "read response" 0 (Some err))
  | Ok body =>
      if zlen (take (Z.to_nat (dnsResponseMaxBytes + 1)) body) >? dnsResponseMaxBytes
      then Err (dnsStageError ("response exceeds " ++ strconv_FormatInt dnsResponseMaxBytes ++ " bytes") 0 None)
      else Ok body
  end.

(** The endpoints or an error, and whether to try again. *)
Definition fetchLoginEndpointCandidates (appKey : string) (r : httpResult) : result loginEndpoints * bool :=
  match r with
  | HTTPError err => (Err (dnsStageError "request failed" 0 (Some err)), true)
  | HTTPResponse status body =>
      if (status <? 200) || (status >=? 300) then
        (Err (dnsStageError "unexpected HTTP status" status None), (status >=? 500) || (status =? 429))
      else
        match readBoundedDNSResponse body with
        | Err err => (Err err, false)
        | Ok body => (resolveDNSCandidates body appKey, false)
        end
  end.

(** The loop over the attempts: [r] gives the exchange of an attempt, [cancelled]
    the error of the context when it ends during the pause after it.  The result
    comes with the number of attempts made. *)
Fixpoint resolveAttempts (fuel attempt : nat) (appKey : string) (r : nat -> httpResult)
    (cancelled : nat -> option goerror) (lastErr : goerror) : result loginEndpoints * nat :=
  match fuel with
  | O => (Err lastErr, attempt - 1)%nat
  | S fuel =>
      match fetchLoginEndpointCandidates appKey (r attempt) with
      | (Ok resolved, _) => (Ok resolved, attempt)
      | (Err err, retry) =>
          if negb retry || (attempt =? dnsMaxAttempts)%nat then (Err err, attempt)
          else match cancelled attempt with
               | Some e => (Err (dnsStageError "request canceled while retrying" 0 (Some e)), attempt)
               | None => resolveAttempts fuel (S attempt) appKey r cancelled err
               end
      end
  end.

Definition resolveLoginEndpointCandidates (appKey : string) (r : nat -> httpResult)
    (cancelled : nat -> option goerror) : result loginEndpoints * nat :=
  resolveAttempts dnsMaxAttempts 1 appKey r cancelled (EPlain "").

(** The forms with one WSS endpoint, which read [resolved.WSS[0]]: [None] is the panic
    when there is none. *)
Definition firstEndpoint (resolved : loginEndpoints) : option (string * string) :=
  (fun wss => (wss, le_REST resolved)) <$> head (le_WSS resolved).

Definition resolveDNSPayload (body : bytes) (appKey : string) : option (result (string * string)) :=
  match resolveDNSCandidates body appKey with Err err => Some (Err err) | Ok resolved => Ok <$> firstEndpoint resolved end.

Definition fetchLoginEndpoints (appKey : string) (r : httpResult) : option (result (string * string) * bool) :=
  match fetchLoginEndpointCandidates appKey r with
  | (Err err, retry) => Some (Err err, retry)
  | (Ok resolved, _) => (fun p => (Ok p, false)) <$> firstEndpoint resolved
  end.

Definition resolveLoginEndpoints (appKey : string) (r : nat -> httpResult) (cancelled : nat -> option goerror)
  : option (result (string * string)) :=
  match fst (resolveLoginEndpointCandidates appKey r cancelled) with
  | Err err => Some (Err err)
  | Ok resolved => Ok <$> firstEndpoint resolved
  end.
End Resolve.

(** ** Tests *)

Example endpoint1 : makeDNSEndpoint (mkDnsHost " WSS " "8443" " im.example.com " "1") true = Some "wss://im.example.com:8443/websocket".
Proof. reflexivity. Qed.
Example endpoint2 : makeDNSEndpoint (mkDnsHost "https" "" "[fe80::1]" "") false = Some "https://[fe80::1]".
Proof. reflexivity. Qed.
Example endpoint3 : makeDNSEndpoint (mkDnsHost "https" "0" "a.com" "") false = None.
Proof. reflexivity. Qed.
Example endpoint4 : makeDNSEndpoint (mkDnsHost "wss" "" "a@b.com" "") true = None.
Proof. reflexivity. Qed.

(** ** Theory of the candidate list *)

(** The endpoints of the valid entries of one group, in document order. *)
Definition groupEndpoints (hosts : list dnsHost) (websocket priority : bool) : list string :=
  omap (fun h => if Bool.eqb (isPriority h) priority then makeDNSEndpoint h websocket else None) hosts.

(** A list without its repetitions, the first of each kept. *)
Definition firstOccurrences (l : list string) : list string := reverse (remove_dups (reverse l)).

Lemma firstOccurrences_snoc l x :
  firstOccurrences (l ++ [x]) = if decide (x ∈ l) then firstOccurrences l else (firstOccurrences l ++ [x])%list.
Proof.
  unfold firstOccurrences. rewrite reverse_snoc. cbn [remove_dups].
  destruct (decide (x ∈ l)) as [H|H].
  - destruct (decide_rel _ _ _) as [|Hn]; [done|]. by rewrite elem_of_reverse in Hn.
  - destruct (decide_rel _ _ _) as [Hn|]; [by rewrite elem_of_reverse in Hn|]. by rewrite reverse_cons.
Qed.

Lemma elem_of_firstOccurrences x l : x ∈ firstOccurrences l <-> x ∈ l.
Proof. unfold firstOccurrences. by rewrite elem_of_reverse, elem_of_remove_dups, elem_of_reverse. Qed.

Lemma NoDup_firstOccurrences l : NoDup (firstOccurrences l).
Proof. unfold firstOccurrences. rewrite reverse_Permutation. apply NoDup_remove_dups. Qed.

Lemma partitionHosts_spec hosts websocket pr fb :
  partitionHosts hosts websocket pr fb =
  ((pr ++ groupEndpoints hosts websocket true)%list, (fb ++ groupEndpoints hosts websocket false)%list).
Proof.
  revert pr fb. induction hosts as [|h hosts IH]; intros pr fb; simpl; [by rewrite !app_nil_r|].
  destruct (makeDNSEndpoint h websocket) as [e|] eqn:E.
  - destruct (isPriority h); rewrite IH; simpl; rewrite <- ?(assoc_L app); done.
  - rewrite IH. destruct (isPriority h); simpl; done.
Qed.

Lemma orderEndpoints_spec group l :
  orderEndpoints group (list_to_set l) (firstOccurrences l) =
  (list_to_set (l ++ group), firstOccurrences (l ++ group)).
Proof.
  revert l. induction group as [|e group IH]; intros l; cbn [orderEndpoints]; [by rewrite app_nil_r|].
  replace (l ++ e :: group)%list with ((l ++ [e]) ++ group)%list by (by rewrite <- (assoc_L app)).
  rewrite <- IH, firstOccurrences_snoc. destruct (decide (e ∈ _)) as [H|H].
  - rewrite elem_of_list_to_set in H. rewrite decide_True by done. f_equal. set_solver.
  - rewrite elem_of_list_to_set in H. rewrite decide_False by done. f_equal. set_solver.
Qed.

Lemma selectDNSHosts_eq hosts websocket :
  selectDNSHosts hosts websocket =
  firstOccurrences (groupEndpoints hosts websocket true ++ groupEndpoints hosts websocket false).
Proof.
  unfold selectDNSHosts. rewrite partitionHosts_spec. simpl.
  change ∅ with (list_to_set (C := gset string) (@nil string)).
  change (@nil string) with (firstOccurrences []) at 2. rewrite orderEndpoints_spec, orderEndpoints_spec. done.
Qed.

(** The candidates are the endpoints of the valid entries: the priority ones
    first, each group in document order, no endpoint twice, a priority copy
    before and instead of any other. *)
Theorem selectDNSHosts_correct hosts websocket :
  let result := selectDNSHosts hosts websocket in
  let priority := groupEndpoints hosts websocket true in
  result = firstOccurrences (priority ++ groupEndpoints hosts websocket false) /\
  NoDup result /\ (length result <= length hosts)%nat /\
  (forall e, e ∈ result <-> exists h, h ∈ hosts /\ makeDNSEndpoint h websocket = Some e) /\
  firstOccurrences priority `prefix_of` result.
Proof.
  intros result priority. unfold result. rewrite selectDNSHosts_eq. fold priority.
  set (fallback := groupEndpoints hosts websocket false).
  assert (Hmem : forall e, e ∈ firstOccurrences (priority ++ fallback) <->
    exists h, h ∈ hosts /\ makeDNSEndpoint h websocket = Some e).
  { intros e. rewrite elem_of_firstOccurrences, elem_of_app. unfold priority, fallback, groupEndpoints.
    rewrite !list_elem_of_omap. split.
    - intros [(h & Hh & He)|(h & Hh & He)]; exists h; (split; [done|]); by destruct (Bool.eqb _ _).
    - intros (h & Hh & He). destruct (isPriority h) eqn:Ep; [left|right]; exists h; by rewrite Ep. }
  assert (Hlen : (length priority + length fallback <= length hosts)%nat).
  { unfold priority, fallback, groupEndpoints. clear. induction hosts as [|h hosts IH]; simpl; [lia|].
    destruct (isPriority h), (makeDNSEndpoint h websocket); unfold omap in IH; simpl; lia. }
  split_and!; try done.
  - apply NoDup_firstOccurrences.
  - etrans; [|exact Hlen]. rewrite <- length_app. clear.
    induction (priority ++ fallback)%list as [|x l IH] using rev_ind; [done|].
    rewrite firstOccurrences_snoc, length_app. case_decide; rewrite ?length_app; simpl; lia.
  - clear. induction fallback as [|x l IH] using rev_ind; [by rewrite app_nil_r|].
    rewrite (assoc_L app), firstOccurrences_snoc. case_decide; [done|]. by apply prefix_app_r.
Qed.

(** ** The characters of an endpoint *)

Definition hostChar (c : ascii) : bool := domainChar c || mem_char c ".:".

Lemma splitChars_elem c l x : x ∈ l -> x = c \/ exists p, p ∈ splitChars c l /\ x ∈ p.
Proof.
  induction l as [|d l IH]; intros Hx; [by apply not_elem_of_nil in Hx|]. simpl.
  pose proof (splitChars_nonempty c l) as Hne. destruct (splitChars c l) as [|w ws]; [done|].
  apply elem_of_cons in Hx as [->|Hx].
  - destruct (Ascii.eqb_spec d c); [by left|]. right. exists (d :: w). split; by left.
  - destruct (IH Hx) as [?|(p & Hp & Hxp)]; [by left|]. right.
    destruct (Ascii.eqb d c); [exists p; split; [by right|done]|].
    apply elem_of_cons in Hp as [->|Hp]; [exists (d :: w)|exists p]; split; try done; by constructor.
Qed.

Lemma splitChars_forall (P : ascii -> bool) c l :
  P c = true -> Forall (fun p => forallb P p = true) (splitChars c l) -> forallb P l = true.
Proof.
  intros Hc Hall. apply forallb_forall. intros x Hx. apply list_elem_of_In in Hx.
  destruct (splitChars_elem c l x Hx) as [->|(p & Hp & Hxp)]; [done|].
  rewrite Forall_forall in Hall. specialize (Hall _ Hp). rewrite forallb_forall in Hall.
  by apply Hall, list_elem_of_In.
Qed.

Lemma forallb_impl {A} (P Q : A -> bool) l :
  (forall x, P x = true -> Q x = true) -> forallb P l = true -> forallb Q l = true.
Proof. intros H. rewrite !forallb_forall. auto. Qed.

Lemma digit_hostChar c : is_Some (digit c) -> hostChar c = true.
Proof.
  intros [d H]. unfold digit in H. destruct (_ && _) eqn:E; [|done]. breflect.
  unfold hostChar, domainChar. rewrite (proj2 (Z.leb_le 48 _)), (proj2 (Z.leb_le _ 57)) by done.
  by rewrite !orb_true_r.
Qed.

Lemma hexDigit_hostChar c : hexDigit c = true -> hostChar c = true.
Proof.
  unfold hexDigit, hostChar, domainChar. intros H. apply orb_true_iff. left.
  set (a := byte_of_ascii c) in *. clearbody a. rewrite !orb_true_iff, !andb_true_iff, !Z.leb_le in *. lia.
Qed.

Lemma digitsValue_digits l acc v : digitsValue l acc = Some v -> forallb hostChar l = true.
Proof.
  revert acc. induction l as [|c l IH]; intros acc H; [done|]. simpl in *.
  destruct (digit c) as [d|] eqn:E; [|done]. rewrite digit_hostChar by eauto. simpl in *. eauto.
Qed.

Lemma isIPv4_chars l : isIPv4 l = true -> forallb hostChar l = true.
Proof.
  unfold isIPv4. intros [_ H]%andb_true_iff. apply (splitChars_forall _ "."%char); [done|].
  rewrite forallb_forall in H. apply Forall_forall. intros p Hp. apply list_elem_of_In, H in Hp.
  unfold ipv4Octet in Hp. destruct p as [|c p]; [done|]. unfold unsignedValue in Hp.
  destruct (digitsValue (c :: p) 0) eqn:E; [|done]. by eapply digitsValue_digits.
Qed.

Definition groupOk (p : chars) : Prop := forallb hostChar p = true.

Lemma hexGroup_ok p : hexGroup p = true -> groupOk p.
Proof. unfold hexGroup. intros [_ H]%andb_true_iff. by eapply forallb_impl; [apply hexDigit_hostChar|]. Qed.

Lemma ipv6Groups_ok ps n : ipv6Groups ps = Some n -> Forall groupOk ps.
Proof.
  revert n. induction ps as [|p ps IH]; intros n H; [constructor|]. destruct ps as [|q ps].
  - simpl in H. constructor; [|done]. destruct (hexGroup p) eqn:E; [by apply hexGroup_ok|].
    destruct (isIPv4 p) eqn:E4; [by apply isIPv4_chars|done].
  - change (ipv6Groups (p :: q :: ps)) with (if hexGroup p then S <$> ipv6Groups (q :: ps) else None) in H.
    destruct (hexGroup p) eqn:E; [|done]. destruct (ipv6Groups (q :: ps)) as [m|] eqn:Em; [|done].
    constructor; [by apply hexGroup_ok|by eapply IH].
Qed.

Lemma ipv6Head_ok ps n : ipv6Head ps = Some n -> Forall groupOk ps.
Proof.
  unfold ipv6Head. destruct (forallb hexGroup ps) eqn:E; [|done]. intros _.
  rewrite forallb_forall in E. apply Forall_forall. intros p Hp. by apply hexGroup_ok, E, list_elem_of_In.
Qed.

Lemma splitEmpty_app ps a b : splitEmpty ps = (a, Some b) -> ps = (a ++ [] :: b)%list.
Proof.
  revert a b. induction ps as [|[|c p] ps IH]; intros a b H; simpl in H; [done|by simplify_eq|].
  destruct (splitEmpty ps) as [a' b'] eqn:E. simplify_eq. simpl. f_equal. by apply IH.
Qed.

Lemma isIPv6_chars l : isIPv6 l = true -> forallb hostChar l = true.
Proof.
  intros H. apply (splitChars_forall _ ":"%char); [done|].
  cut (Forall groupOk (splitChars ":" l)); [done|].
  assert (Hnil : groupOk []) by done. unfold isIPv6 in H.
  set (ps := splitChars ":" l) in *. clearbody ps.
  assert (Hsplit : match splitEmpty ps with
      | (_, None) => match ipv6Groups ps with Some n => (n =? 8)%nat | None => false end
      | ([], Some _) => false
      | (head, Some [[]]) => match ipv6Head head with Some n => (n <=? 7)%nat | None => false end
      | (head, Some []) => false
      | (head, Some tail) =>
          match ipv6Head head, ipv6Groups tail with Some n, Some m => (n + m <=? 7)%nat | _, _ => false end
      end = true -> Forall groupOk ps).
  { clear H. destruct (splitEmpty ps) as [a [b|]] eqn:E.
    - apply splitEmpty_app in E as ->. intros H.
      assert (Forall groupOk a /\ Forall groupOk b) as [? ?].
      { destruct a as [|a0 a]; [done|].
        destruct (ipv6Head (a0 :: a)) as [n|] eqn:Eh; [apply ipv6Head_ok in Eh|by repeat case_match].
        split; [done|]. destruct b as [|[|] [|]]; try done; try (by apply Forall_singleton);
          case_match eqn:Eg; try done; by eapply ipv6Groups_ok. }
      apply Forall_app; auto.
    - intros H. assert (is_Some (ipv6Groups ps)) as [n Hn] by (destruct a, (ipv6Groups ps); eauto; done).
      by eapply ipv6Groups_ok. }
  destruct ps as [|[|c0 p0] [|[|c1 p1] ps]]; try done; try (by apply Hsplit).
  destruct ps as [|q ps]; [done|]. constructor; [done|]. constructor; [done|].
  destruct q as [|c q], ps as [|q' ps]; try (by apply Forall_singleton);
    destruct (ipv6Groups _) eqn:Eg in H; try done; by eapply ipv6Groups_ok.
Qed.

Lemma ParseIP_chars s : net_ParseIP s = true -> forallb hostChar (explode s) = true.
Proof. unfold net_ParseIP. destruct (mem_char ":" s); [apply isIPv6_chars|apply isIPv4_chars]. Qed.

Lemma validDNSDomain_chars s : validDNSDomain s = true -> forallb hostChar (explode s) = true.
Proof.
  unfold validDNSDomain. destruct (net_ParseIP s) eqn:E; [intros _; by apply ParseIP_chars|].
  destruct (_ || _); [done|]. intros H.
  assert (Ht : forallb hostChar (explode (strings_TrimSuffix s ".")) = true).
  { apply (splitChars_forall _ "."%char); [done|]. rewrite forallb_forall in H. apply Forall_forall.
    intros p Hp. apply list_elem_of_In, H in Hp. unfold validLabel in Hp. apply andb_true_iff in Hp as [_ Hp].
    eapply forallb_impl; [|exact Hp]. intros x Hx. unfold hostChar. by rewrite Hx. }
  unfold strings_TrimSuffix in Ht. destruct (rev (explode s)) as [|d l] eqn:Er; [done|].
  destruct (Ascii.eqb_spec d ".") as [->|]; [|done].
  assert (explode s = rev l ++ ["."%char])%list as ->.
  { rewrite <- (rev_involutive (explode s)), Er. done. }
  rewrite explode_implode in Ht. rewrite forallb_app, Ht. done.
Qed.

Definition authorityChar (c : ascii) : bool := hostChar c || mem_char c "[]".

Lemma hostChar_authority c : hostChar c = true -> authorityChar c = true.
Proof. unfold authorityChar. by intros ->. Qed.

Lemma FormatInt_hostChar n : 0 <= n -> forallb hostChar (explode (strconv_FormatInt n)) = true.
Proof.
  intros H. unfold strconv_FormatInt, strconv_FormatUint. destruct (Z.ltb_spec n 0); [lia|].
  rewrite explode_implode. apply formatDigits_forall; [|done|done].
  intros d Hd. apply digit_hostChar. rewrite digit_digitChar by done. eauto.
Qed.

Lemma FormatInt_nonempty n : 0 <= n -> strconv_FormatInt n <> "".
Proof.
  intros H E. unfold strconv_FormatInt, strconv_FormatUint in E. destruct (Z.ltb_spec n 0); [lia|].
  apply (f_equal explode) in E. rewrite explode_implode in E. by eapply formatDigits_nonempty in E; [|lia].
Qed.

Lemma ParseIP_nonempty s : net_ParseIP s = true -> s <> "".
Proof. by intros H ->. Qed.

Lemma validDNSDomain_nonempty s : validDNSDomain s = true -> s <> "".
Proof. by intros H ->. Qed.

(** An endpoint is the scheme, a non-empty authority of letters, digits and
    [-.:[]] only, and the fixed path: no entry of the document can add user
    information, a query, a fragment, another path or white space. *)
Theorem makeDNSEndpoint_safe host websocket e :
  makeDNSEndpoint host websocket = Some e ->
  exists authority,
    e = (if websocket then "wss" else "https") ++ "://" ++ authority ++ (if websocket then "/websocket" else "") /\
    authority <> "" /\ forallb authorityChar (explode authority) = true.
Proof.
  unfold makeDNSEndpoint. destruct (_ || strings_ContainsAny _ _); [done|].
  set (nd := strings_Trim (strings_TrimSpace (dh_Domain host)) "[]").
  destruct (validDNSDomain nd) eqn:Ev; [|done]. simpl negb. cbn [orb].
  destruct (mem_char ":" nd && negb _); [done|].
  set (scheme := strings_ToLower (strings_TrimSpace (dh_Protocol host))).
  assert (Hs : forall k : string -> option string,
    (s ← (if websocket then if negb (String.eqb scheme "wss") && negb (String.eqb scheme "https") then None else Some "wss"
          else if negb (String.eqb scheme "https") then None else Some scheme); k s) = Some e ->
    k (if websocket then "wss" else "https") = Some e).
  { intros k. destruct websocket; [by case_bool|]. destruct (String.eqb_spec scheme "https") as [->|]; [done|done]. }
  intros H. apply Hs in H. clear Hs scheme.
  assert (Hport : exists port, 1 <= port /\ Some e = Some (url_String (if websocket then "wss" else "https")
    (if negb (port =? 443) then net_JoinHostPort nd (strconv_FormatInt port)
     else if mem_char ":" nd && net_ParseIP nd then "[" ++ nd ++ "]" else nd) (if websocket then "/websocket" else ""))).
  { destruct (String.eqb _ ""); [by exists 443|]. destruct (strconv_ParseInt _) as [p|]; [|done].
    destruct (Z.ltb_spec p 1); [done|]. destruct (p >? 65535); [done|]. by exists p. }
  destruct Hport as (port & Hp & [= ->]). eexists. split; [reflexivity|].
  pose proof (validDNSDomain_chars _ Ev) as Hc. apply (forallb_impl _ _ _ hostChar_authority) in Hc.
  pose proof (FormatInt_hostChar port ltac:(lia)) as Hpc. apply (forallb_impl _ _ _ hostChar_authority) in Hpc.
  split.
  - destruct (negb _); [|destruct (_ && _); [done|by apply validDNSDomain_nonempty]].
    unfold net_JoinHostPort. destruct (mem_char ":" nd); [done|]. intros E.
    by apply validDNSDomain_nonempty in Ev; destruct nd.
  - unfold net_JoinHostPort. repeat case_match; rewrite ?explode_app, ?forallb_app, ?Hc, ?Hpc; done.
Qed.

Lemma makeDNSEndpoint_safe_witness :
  exists authority, "wss://im.example.com:8443/websocket" = "wss" ++ "://" ++ authority ++ "/websocket" /\
    authority <> "" /\ forallb authorityChar (explode authority) = true.
Proof.
  apply (makeDNSEndpoint_safe (mkDnsHost " WSS " "8443" " im.example.com " "1") true). reflexivity.
Defined.

(** ** The fetch *)

Lemma resolveDNSCandidates_bounds dec body appKey le :
  resolveDNSCandidates dec body appKey = Ok le ->
  (1 <= length (le_WSS le) <= dnsMaxWSSCandidates)%nat /\ NoDup (le_WSS le).
Proof.
  unfold resolveDNSCandidates. destruct (dec body) as [doc|]; [|done].
  destruct (Nat.eqb_spec (length (selectDNSHosts (dd_MsyncWX doc) true)) 0); [done|].
  destruct (Nat.ltb_spec dnsMaxWSSCandidates (length (selectDNSHosts (dd_MsyncWX doc) true))); [done|].
  destruct (selectDNSHost _ _); [|done]. destruct (splitAppKey appKey) as [[org app]|]; [|done].
  intros [= <-]. simpl. split; [lia|]. rewrite selectDNSHosts_eq. apply NoDup_firstOccurrences.
Qed.

(** A lookup makes one or two requests; the second only after a transient
    failure of the first (a transport error, a 5xx or a 429) and a pause in which
    the context did not end.  A success carries 1 to 64 distinct candidates taken
    from the 2xx answer of the last request. *)
Theorem resolveLoginEndpointCandidates_correct dec appKey r cancelled :
  let '(res, n) := resolveLoginEndpointCandidates dec appKey r cancelled in
  (1 <= n <= dnsMaxAttempts)%nat /\
  (n = 2%nat -> snd (fetchLoginEndpointCandidates dec appKey (r 1%nat)) = true /\ cancelled 1%nat = None) /\
  (forall le, res = Ok le ->
     (1 <= length (le_WSS le) <= dnsMaxWSSCandidates)%nat /\ NoDup (le_WSS le) /\
     exists status body, r n = HTTPResponse status (Ok body) /\ 200 <= status < 300 /\
       zlen body <= dnsResponseMaxBytes /\ resolveDNSCandidates dec body appKey = Ok le).
Proof.
  assert (Hok : forall n le retry, fetchLoginEndpointCandidates dec appKey (r n) = (Ok le, retry) ->
     (1 <= length (le_WSS le) <= dnsMaxWSSCandidates)%nat /\ NoDup (le_WSS le) /\
     exists status body, r n = HTTPResponse status (Ok body) /\ 200 <= status < 300 /\
       zlen body <= dnsResponseMaxBytes /\ resolveDNSCandidates dec body appKey = Ok le).
  { intros n le retry H. unfold fetchLoginEndpointCandidates in H. destruct (r n) as [|status body]; [done|].
    destruct (Z.ltb_spec status 200); [done|]. destruct (Z.geb_spec status 300); [done|]. simpl in H.
    destruct body as [body|]; [|done]. unfold readBoundedDNSResponse in H.
    destruct (Z.gtb_spec (zlen (take (Z.to_nat (dnsResponseMaxBytes + 1)) body)) dnsResponseMaxBytes) as [|Hlen]; [done|].
    injection H as H _. pose proof (resolveDNSCandidates_bounds _ _ _ _ H) as [? ?].
    split; [done|]. split; [done|]. exists status, body. split_and!; try done; try lia.
    unfold zlen in *. rewrite length_take in Hlen. lia. }
  assert (Herr : forall n e retry, fetchLoginEndpointCandidates dec appKey (r n) = (Err e, retry) ->
    snd (fetchLoginEndpointCandidates dec appKey (r n)) = retry) by (intros n e retry ->; done).
  unfold resolveLoginEndpointCandidates, dnsMaxAttempts. cbn [resolveAttempts Nat.eqb].
  destruct (fetchLoginEndpointCandidates dec appKey (r 1%nat)) as [[le|e1] retry1] eqn:E1.
  { cbn [fst snd]. split; [lia|]. split; [done|]. intros le' [= <-]. eauto. }
  destruct retry1; simpl; [|split; [lia|done]].
  destruct (cancelled 1%nat) eqn:Ec; [split; [lia|done]|].
  destruct (fetchLoginEndpointCandidates dec appKey (r 2%nat)) as [[le|e2] retry2] eqn:E2.
  { cbn [fst snd]. split; [lia|]. split; [done|]. intros le' [= <-]. eauto. }
  rewrite orb_true_r. split; [lia|done].
Qed.

(** Reading the first candidate never panics. *)
Lemma candidates_first dec body appKey le : resolveDNSCandidates dec body appKey = Ok le -> is_Some (firstEndpoint le).
Proof. intros [Hl _]%resolveDNSCandidates_bounds. unfold firstEndpoint. destruct (le_WSS le); simpl in *; [lia|by eexists]. Qed.

Lemma first_endpoint_exists dec appKey :
  (forall body, is_Some (resolveDNSPayload dec body appKey)) /\
  (forall r, is_Some (fetchLoginEndpoints dec appKey r)) /\
  (forall r cancelled, is_Some (resolveLoginEndpoints dec appKey r cancelled)).
Proof.
  assert (Hf : forall r, match fetchLoginEndpointCandidates dec appKey r with (Ok le, _) => is_Some (firstEndpoint le) | _ => True end).
  { intros [err|status body]; [done|]. unfold fetchLoginEndpointCandidates. destruct (_ || _); [done|].
    destruct (readBoundedDNSResponse body) as [b|]; [|done]. destruct (resolveDNSCandidates dec b appKey) eqn:E; [|done].
    by eapply candidates_first. }
  split_and!.
  - intros body. unfold resolveDNSPayload. destruct (resolveDNSCandidates dec body appKey) eqn:E; [|by eexists].
    destruct (candidates_first _ _ _ _ E) as [p ->]. by eexists.
  - intros r. unfold fetchLoginEndpoints. specialize (Hf r). destruct (fetchLoginEndpointCandidates dec appKey r) as [[le|] ?]; [|by eexists].
    destruct Hf as [p ->]. by eexists.
  - intros r cancelled. unfold resolveLoginEndpoints, resolveLoginEndpointCandidates. generalize (EPlain "") as err.
    generalize 1%nat as n. induction dnsMaxAttempts as [|k IH]; intros n err; cbn [resolveAttempts]; [by eexists|].
    specialize (Hf (r n)). destruct (fetchLoginEndpointCandidates dec appKey (r n)) as [[le|e] retry].
    + cbn [fst]. destruct Hf as [p ->]. by eexists.
    + destruct (_ || _); [by eexists|]. destruct (cancelled n); [by eexists|apply IH].
Qed.
