(* ===== verification/DnsResolver.v ===== *)
(** * The shared DNS resolver

    sdk/dns.go, lines 317-585: a bounded LRU cache of resolutions with one
    refresh in flight per key, stale fallback, and a cool-down after failures.

    The state is what [dnsResolver.mu] protects.  A lookup up to its unlock and
    the end of a load are the atomic steps; entries and flights are pointers, so
    they bear identities. *)
From Stdlib Require Import String.
From S2P Require Import Prelude Errors Identifiers DnsSelect.
Local Open Scope string_scope.
Local Open Scope Z_scope.

Definition dnsResolverCapacity : Z := 256.
Definition dnsResolverOverflow : Z := 8.
Definition dnsFreshTTL : Z := 5 * 60 * Second.
Definition dnsStaleTTL : Z := 30 * 60 * Second.
Definition dnsFailureCooldown : Z := 5 * Second.
Definition dnsMaxFailureCooldown : Z := 2 * 60 * Second.

(** The doubling loop; [failures] bounds its rounds. *)
Fixpoint cooldownLoop (fuel : nat) (i failures delay : Z) : Z :=
  match fuel with
  | O => delay
  | S fuel =>
      if (i <? failures) && (delay <? dnsMaxFailureCooldown) then
        let delay := i64 (delay * 2) in
        if delay >=? dnsMaxFailureCooldown then dnsMaxFailureCooldown
        else cooldownLoop fuel (i + 1) failures delay
      else delay
  end.

Definition dnsRefreshCooldown (failures : Z) : Z :=
  if failures <? 1 then 0 else cooldownLoop (Z.to_nat failures) 1 failures dnsFailureCooldown.

(** [t.Sub(u)], which saturates. *)
Definition time_Sub (t u : Z) : Z := Z.max min_int64 (Z.min max_int64 (t - u)).

Record dnsResolution := mkResolution { dr_Endpoints : loginEndpoints; dr_Generation : Z; dr_Stale : bool }.

Record dnsCacheEntry := mkEntry {
  ce_id : nat; ce_endpoints : loginEndpoints; ce_hasValue : bool; ce_fetchedAt : Z; ce_generation : Z;
  ce_flight : option nat; ce_failures : Z; ce_refreshNotBefore : Z;
  ce_lastErr : option goerror; ce_lastTransient : bool }.

Definition zeroEndpoints : loginEndpoints := mkLoginEndpoints [] "".

(** [&dnsCacheEntry{key: key}], the [n]-th entry allocated. *)
Definition newEntry (n : nat) : dnsCacheEntry :=
  mkEntry n zeroEndpoints false zeroTime 0 None 0 zeroTime None false.

Definition set_flight (e : dnsCacheEntry) (f : option nat) : dnsCacheEntry :=
  mkEntry (ce_id e) (ce_endpoints e) (ce_hasValue e) (ce_fetchedAt e) (ce_generation e) f (ce_failures e)
    (ce_refreshNotBefore e) (ce_lastErr e) (ce_lastTransient e).

Definition resolutionFromEntry (e : dnsCacheEntry) (stale : bool) : dnsResolution :=
  mkResolution (ce_endpoints e) (ce_generation e) stale.

Section Resolver.
(** A key: the AppKey and the identity of the HTTP client. *)
Context {K : Type} `{HK : Countable K}.
Context (capacity freshTTL staleTTL : Z).

(** A load in progress: its key, entry and flight.  [rs_flights] holds the
    outcomes of the flights that are done. *)
Record dnsResolver := mkResolver {
  rs_entries : gmap K dnsCacheEntry;
  rs_lru : list K;                         (* front first *)
  rs_generation : Z;
  rs_next : nat;                           (* the next identity *)
  rs_loads : list (K * nat * nat);
  rs_flights : gmap nat (result dnsResolution);
  rs_overflow : list nat }.                (* the flights that hold an overflow slot *)

Definition newDNSResolver : dnsResolver := mkResolver ∅ [] 0 0 [] ∅ [].

Definition touch (key : K) (lru : list K) : list K := key :: filter (fun k => k <> key) lru.

(** The loop that makes room: the least recently used entry without a flight
    leaves; [None] when every entry has one. *)
Fixpoint evict (fuel : nat) (entries : gmap K dnsCacheEntry) (lru : list K) : option (gmap K dnsCacheEntry * list K) :=
  if Z.of_nat (size entries) >=? capacity then
    match fuel with
    | O => None
    | S fuel =>
        match find (fun k => match entries !! k with Some e => negb (is_some (ce_flight e)) | None => false end) (rev lru) with
        | None => None
        | Some victim => evict fuel (delete victim entries) (filter (fun k => k <> victim) lru)
        end
    end
  else Some (entries, lru).

(** What a lookup does when it unlocks. *)
Inductive lookupOutcome :=
| LookupReturn (r : result dnsResolution)
| LookupWait (flight : nat)                (* for a load in progress or the one it started *)
| LookupUncached.                          (* every entry is refreshing: the overflow path *)

Definition startLoad (r : dnsResolver) (key : K) (e : dnsCacheEntry) (entries : gmap K dnsCacheEntry)
    (lru : list K) (next : nat) : dnsResolver * lookupOutcome :=
  (mkResolver (<[key := set_flight e (Some next)]> entries) lru (rs_generation r) (S next)
     (rs_loads r ++ [(key, ce_id e, next)])%list (rs_flights r) (rs_overflow r), LookupWait next).

(** [resolveWithSettlement] up to the unlock. *)
Definition lookupStep (r : dnsResolver) (ctxErr : option goerror) (key : K) (known : Z) (hasLoader : bool) (now : Z)
    : dnsResolver * lookupOutcome :=
  match ctxErr with
  | Some err => (r, LookupReturn (Err (dnsStageError "request canceled before DNS lookup" 0 (Some err))))
  | None =>
  if negb hasLoader then (r, LookupReturn (Err (dnsStageError "DNS resolver has no loader" 0 None)))
  else
    match rs_entries r !! key with
    | Some e =>
        let lru := touch key (rs_lru r) in
        let r := mkResolver (rs_entries r) lru (rs_generation r) (rs_next r) (rs_loads r) (rs_flights r) (rs_overflow r) in
        let age := time_Sub now (ce_fetchedAt e) in
        if ce_hasValue e && (age <=? freshTTL) && (ce_generation e >? known)
        then (r, LookupReturn (Ok (resolutionFromEntry e false)))
        else match ce_flight e with
        | Some flight => (r, LookupWait flight)
        | None =>
            if now <? ce_refreshNotBefore e then
              if ce_lastTransient e && ce_hasValue e && (age <=? staleTTL)
              then (r, LookupReturn (Ok (resolutionFromEntry e true)))
              else (r, LookupReturn (Err (match ce_lastErr e with
                                          | Some err => err
                                          | None => dnsStageError "DNS refresh is temporarily throttled" 0 None end)))
            else startLoad r key e (rs_entries r) lru (rs_next r)
        end
    | None =>
        match evict (size (rs_entries r)) (rs_entries r) (rs_lru r) with
        | None => (r, LookupUncached)
        | Some (entries, lru) =>
            startLoad r key (newEntry (rs_next r)) entries (key :: lru) (S (rs_next r))
        end
    end
  end.

(** The end of a load: [out] is what the loader returned, with the transient
    flag of an error. *)
Definition finishLoad (r : dnsResolver) (key : K) (eid flight : nat) (out : result loginEndpoints)
    (transient : bool) (now : Z) : dnsResolver :=
  let loads := filter (fun l => snd l <> flight) (rs_loads r) in
  let done (entries : gmap K dnsCacheEntry) (generation : Z) (res : result dnsResolution) :=
    mkResolver entries (rs_lru r) generation (rs_next r) loads (<[flight := res]> (rs_flights r)) (rs_overflow r) in
  let superseded := done (rs_entries r) (rs_generation r) (Err (dnsStageError "DNS resolver flight was superseded" 0 None)) in
  match rs_entries r !! key with
  | None => superseded
  | Some e =>
      if negb (ce_id e =? eid)%nat || negb (bool_decide (ce_flight e = Some flight)) then superseded
      else
        match out with
        | Ok endpoints =>
            let generation := u64 (rs_generation r + 1) in
            let e := mkEntry (ce_id e) endpoints true now generation None 0 zeroTime None false in
            done (<[key := e]> (rs_entries r)) generation (Ok (resolutionFromEntry e false))
        | Err err =>
            let failures := i64 (ce_failures e + 1) in
            let e := mkEntry (ce_id e) (ce_endpoints e) (ce_hasValue e) (ce_fetchedAt e) (ce_generation e) None failures
                       (now + dnsRefreshCooldown failures) (Some err) transient in
            done (<[key := e]> (rs_entries r)) (rs_generation r)
              (if transient && ce_hasValue e && (time_Sub now (ce_fetchedAt e) <=? staleTTL)
               then Ok (resolutionFromEntry e true) else Err err)
        end
  end.

(** [resolveUncached]: an overflow slot, when one of the eight is free, and the
    end of its load. *)
Definition overflowStart (r : dnsResolver) : option (dnsResolver * nat) :=
  if zlen (rs_overflow r) <? dnsResolverOverflow then
    Some (mkResolver (rs_entries r) (rs_lru r) (rs_generation r) (S (rs_next r)) (rs_loads r) (rs_flights r)
            (rs_next r :: rs_overflow r), rs_next r)
  else None.

Definition overflowFinish (r : dnsResolver) (flight : nat) (out : result loginEndpoints) : dnsResolver :=
  let overflow := filter (fun f => f <> flight) (rs_overflow r) in
  match out with
  | Ok endpoints =>
      let generation := u64 (rs_generation r + 1) in
      mkResolver (rs_entries r) (rs_lru r) generation (rs_next r) (rs_loads r)
        (<[flight := Ok (mkResolution endpoints generation false)]> (rs_flights r)) overflow
  | Err err =>
      mkResolver (rs_entries r) (rs_lru r) (rs_generation r) (rs_next r) (rs_loads r)
        (<[flight := Err err]> (rs_flights r)) overflow
  end.

(** The results [waitDNSFlight] may give: when the flight is done and the context
    has ended the runtime chooses; it blocks while there is none. *)
Definition waitDNSFlight (r : dnsResolver) (flight : nat) (ctxErr : option goerror) : list (result dnsResolution) :=
  (match rs_flights r !! flight with Some res => [res] | None => [] end ++
   match ctxErr with
   | Some err => [Err (dnsStageError "request canceled while waiting for shared DNS lookup" 0 (Some err))]
   | None => []
   end)%list.

(** ** Runs *)

Inductive resolverStep : dnsResolver -> dnsResolver -> Prop :=
| StepLookup r ctxErr key known hasLoader now :
    resolverStep r (fst (lookupStep r ctxErr key known hasLoader now))
| StepFinish r key eid flight out transient now :
    (key, eid, flight) ∈ rs_loads r ->
    resolverStep r (finishLoad r key eid flight out transient now)
| StepOverflow r r' flight : overflowStart r = Some (r', flight) -> resolverStep r r'
| StepOverflowFinish r flight out : flight ∈ rs_overflow r -> resolverStep r (overflowFinish r flight out).

Definition reachableResolver (r : dnsResolver) : Prop := rtc resolverStep newDNSResolver r.

(** ** Invariant *)

(** The LRU list holds the keys of the map, once each. *)
Definition lru_ok (entries : gmap K dnsCacheEntry) (lru : list K) : Prop :=
  NoDup lru /\ forall k, k ∈ lru <-> is_Some (entries !! k).

Definition resolverInv (r : dnsResolver) : Prop :=
  Z.of_nat (size (rs_entries r)) <= capacity /\
  lru_ok (rs_entries r) (rs_lru r) /\
  (forall key eid f, (key, eid, f) ∈ rs_loads r <->
     exists e, rs_entries r !! key = Some e /\ ce_id e = eid /\ ce_flight e = Some f) /\
  NoDup (rs_loads r).*2 /\
  (forall f, f ∈ (rs_loads r).*2 \/ f ∈ rs_overflow r -> (f < rs_next r)%nat /\ rs_flights r !! f = None) /\
  NoDup (rs_overflow r) /\ (forall f, f ∈ (rs_loads r).*2 -> f ∉ rs_overflow r) /\
  zlen (rs_overflow r) <= dnsResolverOverflow /\
  (forall f, is_Some (rs_flights r !! f) -> (f < rs_next r)%nat) /\
  0 <= rs_generation r.

Lemma lru_touch entries lru key :
  lru_ok entries lru -> is_Some (entries !! key) -> lru_ok entries (touch key lru).
Proof.
  intros [Hn Hd] Hk. unfold touch. split.
  - constructor; [rewrite list_elem_of_filter; naive_solver|by apply NoDup_filter].
  - intros k. rewrite elem_of_cons, list_elem_of_filter, Hd. destruct (decide (k = key)); naive_solver.
Qed.

Lemma lru_delete entries lru key :
  lru_ok entries lru -> lru_ok (delete key entries) (filter (fun k => k <> key) lru).
Proof.
  intros [Hn Hd]. split; [by apply NoDup_filter|]. intros k. rewrite list_elem_of_filter, Hd.
  destruct (decide (k = key)) as [->|Hne]; [rewrite lookup_delete_eq; split; [naive_solver|by intros [? ?]]|].
  rewrite lookup_delete_ne by done. naive_solver.
Qed.

Lemma evict_spec fuel entries lru entries' lru' :
  1 <= capacity -> lru_ok entries lru -> evict fuel entries lru = Some (entries', lru') ->
  entries' ⊆ entries /\ lru_ok entries' lru' /\ Z.of_nat (size entries') < capacity /\
  (forall k e, entries !! k = Some e -> ce_flight e <> None -> entries' !! k = Some e).
Proof.
  intros Hcap. revert entries lru. induction fuel as [|fuel IH]; intros entries lru Hl H; cbn [evict] in H;
    destruct (Z.geb_spec (Z.of_nat (size entries)) capacity); try done.
  - by simplify_eq.
  - destruct (find _ (rev lru)) as [victim|] eqn:Ef; [|done].
    apply find_some in Ef as [_ Ev]. destruct (entries !! victim) as [ev|] eqn:Ee; [|done].
    apply IH in H as (Hsub & Hl' & Hs & Hk); [|by apply lru_delete].
    split; [etrans; [exact Hsub|apply delete_subseteq]|]. split; [done|]. split; [done|].
    intros k e He Hf. apply Hk; [|done]. rewrite lookup_delete_ne; [done|]. intros ->. simplify_eq.
    by destruct (ce_flight ev).
  - by simplify_eq.
Qed.

(** The cache refuses a key only when every entry is refreshing. *)
Lemma evict_None entries lru :
  1 <= capacity -> lru_ok entries lru -> Z.of_nat (size entries) <= capacity -> evict (size entries) entries lru = None ->
  forall k e, entries !! k = Some e -> ce_flight e <> None.
Proof.
  intros Hcap [Hn Hd] Hs H k e He. destruct (size entries) as [|n] eqn:Es.
  { apply map_size_empty_inv in Es as ->. by rewrite lookup_empty in He. }
  cbn [evict] in H. destruct (_ >=? _); [|done]. destruct (find _ (rev lru)) as [victim|] eqn:Ef.
  - exfalso. apply find_some in Ef as [_ Ev]. destruct (entries !! victim) as [ev|] eqn:Ee; [|done].
    assert (size (delete victim entries) = n) as Hn' by (rewrite map_size_delete_Some by eauto; lia).
    assert (Z.of_nat n >=? capacity = false) as Hlt by (rewrite Z.geb_leb; apply Z.leb_gt; lia).
    destruct n; cbn [evict] in H; rewrite Hn', Hlt in H; done.
  - apply (find_none _ _) with (x := k) in Ef.
    + rewrite He in Ef. by destruct (ce_flight e).
    + apply in_rev. rewrite rev_involutive. apply list_elem_of_In, Hd. eauto.
Qed.

(** Starting a load for a key without one. *)
Lemma startLoad_inv r key e entries lru next :
  resolverInv r -> (rs_next r <= next)%nat -> ce_flight e = None ->
  (forall k e', rs_entries r !! k = Some e' -> ce_flight e' <> None -> k <> key /\ entries !! k = Some e') ->
  (forall k e', entries !! k = Some e' -> rs_entries r !! k = Some e') ->
  Z.of_nat (size (<[key := e]> entries)) <= capacity -> lru_ok (<[key := e]> entries) lru ->
  resolverInv (fst (startLoad r key e entries lru next)).
Proof.
  intros (Hs & Hl & Hld & Hnf & Hf & Hno & Hdis & Hov & Hfl & Hg) Hnext Hnone Hkeep Hsub Hsize Hlru.
  assert (Hfresh : next ∉ (rs_loads r).*2 /\ next ∉ rs_overflow r).
  { split; intros Hin; destruct (Hf next); try lia; [by left|by right]. }
  unfold resolverInv, startLoad. simpl. split_and!; try done.
  - rewrite map_size_insert in *. done.
  - destruct Hlru as [Hn Hd]. split; [done|]. intros k. rewrite Hd.
    destruct (decide (k = key)) as [->|]; [by rewrite !lookup_insert_eq|by rewrite !lookup_insert_ne].
  - intros k eid f. rewrite elem_of_app, list_elem_of_singleton, Hld. split.
    + intros [(e' & He & Hid & Hfe)|Heq].
      * destruct (Hkeep _ _ He) as [Hne ?]; [congruence|]. exists e'. by rewrite lookup_insert_ne.
      * injection Heq as -> -> ->. exists (set_flight e (Some next)). by rewrite lookup_insert_eq.
    + intros (e' & He & Hid & Hfe). apply lookup_insert_Some in He as [[-> <-]|[Hne He]].
      * right. simpl in *. by simplify_eq.
      * left. exists e'. eauto.
  - rewrite fmap_app. apply NoDup_app. split_and!; [done| |apply NoDup_singleton].
    intros x Hx Hin. apply list_elem_of_singleton in Hin as ->. by destruct Hfresh.
  - intros f Hin. rewrite fmap_app, elem_of_app in Hin.
    assert (f = next \/ (f ∈ (rs_loads r).*2 \/ f ∈ rs_overflow r)) as [->|Hin'].
    { destruct Hin as [[?|Hin]|?]; auto. apply list_elem_of_singleton in Hin. auto. }
    + split; [lia|]. destruct (rs_flights r !! next) eqn:E; [|done].
      assert (next < rs_next r)%nat by (apply Hfl; eauto). lia.
    + destruct (Hf _ Hin'). split; [lia|done].
  - intros f Hin. rewrite fmap_app, elem_of_app in Hin. destruct Hin as [?|Hin]; [auto|].
    apply list_elem_of_singleton in Hin as ->. by destruct Hfresh.
  - intros f Hin. specialize (Hfl _ Hin). lia.
Qed.

Lemma lookupStep_inv r ctxErr key known hasLoader now :
  1 <= capacity -> resolverInv r -> resolverInv (fst (lookupStep r ctxErr key known hasLoader now)).
Proof.
  intros Hcap Hinv. pose proof Hinv as (Hs & Hl & Hld & Hrest). unfold lookupStep.
  destruct ctxErr; [done|]. destruct hasLoader; [|done]. cbn [negb].
  destruct (rs_entries r !! key) as [e|] eqn:Ek.
  - assert (Hl' : lru_ok (rs_entries r) (touch key (rs_lru r))) by (apply lru_touch; eauto).
    assert (Htouch : resolverInv (mkResolver (rs_entries r) (touch key (rs_lru r)) (rs_generation r) (rs_next r)
      (rs_loads r) (rs_flights r) (rs_overflow r))) by (unfold resolverInv in *; simpl; tauto).
    destruct (_ && _); [done|]. destruct (ce_flight e) eqn:Ef; [done|]. destruct (_ <? _); [by case_bool|].
    apply startLoad_inv; try done; simpl.
    + intros k e' He Hne. split; [congruence|done].
    + rewrite map_size_insert, Ek. done.
    + destruct Hl' as [Hn Hd]. split; [done|]. intros k. rewrite Hd.
      destruct (decide (k = key)) as [->|]; [rewrite lookup_insert_eq, Ek; naive_solver eauto|by rewrite lookup_insert_ne].
  - destruct (evict _ _ _) as [[entries lru]|] eqn:Ee; [|done].
    apply evict_spec in Ee as (Hsub & [Hn Hd] & Hsz & Hkeep); [|done|done].
    assert (entries !! key = None) as Hnone by (by eapply lookup_weaken_None).
    apply startLoad_inv; try done; simpl.
    + lia.
    + intros k e' He Hne. split; [congruence|eauto].
    + intros k e' He. by eapply lookup_weaken.
    + rewrite map_size_insert, Hnone. simpl. lia.
    + split.
      * constructor; [|done]. rewrite Hd, Hnone. by intros [? ?].
      * intros k. rewrite elem_of_cons, Hd.
        destruct (decide (k = key)) as [->|]; [rewrite lookup_insert_eq; naive_solver eauto|rewrite lookup_insert_ne by done].
        naive_solver.
Qed.

Lemma NoDup_snd_inj {A B} (l : list (A * B)) a b f :
  NoDup l.*2 -> (a, f) ∈ l -> (b, f) ∈ l -> a = b.
Proof.
  induction l as [|[x y] l IH]; intros Hn Ha Hb; [by apply not_elem_of_nil in Ha|].
  csimpl in *. apply NoDup_cons in Hn as [Hni Hn]. apply elem_of_cons in Ha, Hb.
  destruct Ha as [Ha|Ha], Hb as [Hb|Hb]; simplify_eq; auto; destruct Hni; apply list_elem_of_fmap;
    [by exists (b, y)|by exists (a, y)].
Qed.

Lemma load_entry r key eid f :
  resolverInv r -> (key, eid, f) ∈ rs_loads r ->
  exists e, rs_entries r !! key = Some e /\ ce_id e = eid /\ ce_flight e = Some f.
Proof. intros (_ & _ & Hld & _) H. by apply Hld. Qed.

(** The load of flight [f] lands on its entry, which stops refreshing. *)
Lemma land_inv r key eid f e g res :
  resolverInv r -> (key, eid, f) ∈ rs_loads r -> ce_flight e = None -> 0 <= g ->
  resolverInv (mkResolver (<[key := e]> (rs_entries r)) (rs_lru r) g (rs_next r)
    (filter (fun l => snd l <> f) (rs_loads r)) (<[f := res]> (rs_flights r)) (rs_overflow r)).
Proof.
  intros Hinv Hin Hnone Hg. destruct (load_entry _ _ _ _ Hinv Hin) as (e0 & He0 & _ & _).
  destruct Hinv as (Hs & Hl & Hld & Hnf & Hf & Hno & Hdis & Hov & Hfl & Hg0).
  assert (Hfin : forall x, x ∈ (filter (fun l : K * nat * nat => snd l <> f) (rs_loads r)).*2 -> x ∈ (rs_loads r).*2 /\ x <> f).
  { intros x Hx. apply list_elem_of_fmap in Hx as (l & -> & Hx). apply list_elem_of_filter in Hx as [Hne Hx].
    split; [by apply list_elem_of_fmap_2|done]. }
  assert (Hff : f ∈ (rs_loads r).*2) by (apply list_elem_of_fmap; by exists (key, eid, f)).
  unfold resolverInv. simpl. split; [by rewrite map_size_insert, He0|]. split.
  { destruct Hl as [Hn Hd]. split; [done|]. intros k. rewrite Hd.
    destruct (decide (k = key)) as [->|]; [rewrite lookup_insert_eq, He0; naive_solver eauto|by rewrite lookup_insert_ne]. }
  split; [|split; [|split; [|split; [done|split; [|split; [done|split; [|done]]]]]]].
  - intros k eid' f'. rewrite list_elem_of_filter, Hld. simpl. split.
    + intros [Hne (e' & He & Hid & Hfe)]. exists e'. split; [|done]. rewrite lookup_insert_ne; [done|].
      intros <-. apply Hne.
      assert ((key, eid', f') ∈ rs_loads r) as Hin' by (apply Hld; eauto).
      apply Hld in Hin as (e1 & He1 & _ & Hf1). by simplify_eq.
    + intros (e' & He & Hid & Hfe). apply lookup_insert_Some in He as [[-> <-]|[Hne He]]; [congruence|].
      split; [|eauto]. intros ->. apply Hne.
      assert ((k, eid', f) ∈ rs_loads r) as Hin' by (apply Hld; eauto).
      pose proof (NoDup_snd_inj _ _ _ _ Hnf Hin Hin'). by simplify_eq.
  - clear -Hnf. induction (rs_loads r) as [|[x y] l IH]; [done|]. csimpl in *.
    apply NoDup_cons in Hnf as [Hni Hn]. rewrite filter_cons. case_decide; [|auto]. csimpl.
    constructor; [|auto]. intros Hx. apply Hni. apply list_elem_of_fmap in Hx as (z & -> & Hz).
    apply list_elem_of_filter in Hz as [_ Hz]. by apply list_elem_of_fmap_2.
  - intros x Hx. assert (x <> f /\ (x ∈ (rs_loads r).*2 \/ x ∈ rs_overflow r)) as [Hne Hx'].
    { destruct Hx as [Hx|Hx]; [apply Hfin in Hx as [? ?]; auto|]. split; [|auto]. intros ->. by eapply Hdis. }
    destruct (Hf _ Hx'). by rewrite lookup_insert_ne.
  - intros x Hx. apply Hfin in Hx as [? _]. auto.
  - intros x Hx. destruct (decide (x = f)) as [->|]; [apply Hf; by left|].
    rewrite lookup_insert_ne in Hx by done. auto.
Qed.

(** What the end of a running load does, when its entry is [e]: it is never
    superseded. *)
Lemma finishLoad_eq r key eid f e out transient now :
  resolverInv r -> (key, eid, f) ∈ rs_loads r -> rs_entries r !! key = Some e ->
  exists e' g res,
    finishLoad r key eid f out transient now =
      mkResolver (<[key := e']> (rs_entries r)) (rs_lru r) g (rs_next r)
        (filter (fun l => snd l <> f) (rs_loads r)) (<[f := res]> (rs_flights r)) (rs_overflow r) /\
    ce_flight e' = None /\
    match out with
    | Ok endpoints =>
        g = u64 (rs_generation r + 1) /\ res = Ok (mkResolution endpoints g false) /\
        ce_hasValue e' = true /\ ce_fetchedAt e' = now /\ ce_generation e' = g /\ ce_endpoints e' = endpoints
    | Err err =>
        g = rs_generation r /\ ce_generation e' = ce_generation e /\ ce_endpoints e' = ce_endpoints e /\
        ce_refreshNotBefore e' = now + dnsRefreshCooldown (i64 (ce_failures e + 1)) /\
        ce_hasValue e' = ce_hasValue e /\
        res = if transient && ce_hasValue e && (time_Sub now (ce_fetchedAt e) <=? staleTTL)
              then Ok (mkResolution (ce_endpoints e) (ce_generation e) true) else Err err
    end.
Proof.
  intros Hinv Hin He. destruct (load_entry _ _ _ _ Hinv Hin) as (e0 & He0 & Hid & Hf).
  assert (e0 = e) as -> by congruence. unfold finishLoad. rewrite He, Hid, Nat.eqb_refl.
  rewrite bool_decide_eq_true_2 by done. simpl.
  destruct out; do 3 eexists; (split; [reflexivity|]); simpl; split_and!; try done.
Qed.

Lemma finishLoad_inv r key eid f out transient now :
  resolverInv r -> (key, eid, f) ∈ rs_loads r -> resolverInv (finishLoad r key eid f out transient now).
Proof.
  intros Hinv Hin. destruct (load_entry _ _ _ _ Hinv Hin) as (e & He & _ & _).
  destruct (finishLoad_eq r key eid f e out transient now Hinv Hin He) as (e' & g & res & -> & Hnone & Hout).
  eapply land_inv; eauto. destruct out; destruct Hout as [-> _]; [apply u64_range|apply Hinv].
Qed.

Lemma overflow_inv r f g res :
  resolverInv r -> f ∈ rs_overflow r -> 0 <= g ->
  resolverInv (mkResolver (rs_entries r) (rs_lru r) g (rs_next r) (rs_loads r)
    (<[f := res]> (rs_flights r)) (filter (fun x => x <> f) (rs_overflow r))).
Proof.
  intros (Hs & Hl & Hld & Hnf & Hf & Hno & Hdis & Hov & Hfl & Hg0) Hin Hg.
  unfold resolverInv. simpl. split; [done|]. split; [done|]. split; [done|]. split; [done|].
  split; [|split; [by apply NoDup_filter|split; [|split; [|split; [|done]]]]].
  - intros x Hx. rewrite list_elem_of_filter in Hx.
    assert (x <> f) by (destruct Hx as [Hx|[? _]]; [intros ->; by eapply Hdis|done]).
    rewrite lookup_insert_ne by done. apply Hf. naive_solver.
  - intros x Hx. rewrite list_elem_of_filter. intros [_ ?]. by eapply Hdis.
  - unfold zlen in *. pose proof (length_filter (fun x => x <> f) (rs_overflow r)). lia.
  - intros x Hx. destruct (decide (x = f)) as [->|]; [apply Hf; by right|].
    rewrite lookup_insert_ne in Hx by done. auto.
Qed.

Lemma overflowStart_inv r r' f : resolverInv r -> overflowStart r = Some (r', f) -> resolverInv r'.
Proof.
  intros (Hs & Hl & Hld & Hnf & Hf & Hno & Hdis & Hov & Hfl & Hg0) H. unfold overflowStart in H.
  destruct (Z.ltb_spec (zlen (rs_overflow r)) dnsResolverOverflow); [|done]. simplify_eq.
  assert (Hfresh : rs_next r ∉ (rs_loads r).*2 /\ rs_next r ∉ rs_overflow r).
  { split; intros Hin; destruct (Hf (rs_next r)); try lia; [by left|by right]. }
  unfold resolverInv. simpl. split; [done|]. split; [done|]. split; [done|]. split; [done|].
  split; [|split; [constructor; [by destruct Hfresh|done]|split; [|split; [|split; [|done]]]]].
  - intros x Hx. rewrite elem_of_cons in Hx. destruct (decide (x = rs_next r)) as [->|Hne].
    + split; [lia|]. destruct (rs_flights r !! rs_next r) eqn:E; [|done].
      assert (rs_next r < rs_next r)%nat by (apply Hfl; eauto). lia.
    + destruct (Hf x); [naive_solver|]. split; [lia|done].
  - intros x Hx. rewrite not_elem_of_cons. split; [|auto]. intros ->. by destruct Hfresh.
  - rewrite zlen_cons. lia.
  - intros x Hx. specialize (Hfl _ Hx). lia.
Qed.

Lemma resolverStep_inv r r' : 1 <= capacity -> resolverInv r -> resolverStep r r' -> resolverInv r'.
Proof.
  intros Hcap Hinv Hs. destruct Hs.
  - by apply lookupStep_inv.
  - by apply finishLoad_inv.
  - by eapply overflowStart_inv.
  - unfold overflowFinish. destruct out; apply overflow_inv; try done; [apply u64_range|apply Hinv].
Qed.

Lemma newDNSResolver_inv : 1 <= capacity -> resolverInv newDNSResolver.
Proof.
  intros Hcap. unfold resolverInv, newDNSResolver, lru_ok. simpl.
  assert (Hnil : forall (A : Type) (x : A), x ∈ @nil A -> False) by (intros A x Hx; by apply not_elem_of_nil in Hx).
  split; [rewrite map_size_empty; lia|]. split.
  { split; [constructor|]. intros k. rewrite lookup_empty. split; [intros []%Hnil|by intros [? ?]]. }
  split; [intros k eid f; rewrite lookup_empty; split; [intros []%Hnil|by intros (? & ? & _)]|].
  split; [constructor|]. split; [intros f [[]%Hnil|[]%Hnil]|]. split; [constructor|].
  split; [intros f []%Hnil|]. split; [done|]. split; [|done]. intros f. rewrite lookup_empty. by intros [? ?].
Qed.

Lemma reachableResolver_inv r : 1 <= capacity -> reachableResolver r -> resolverInv r.
Proof.
  intros Hcap Hr. unfold reachableResolver in Hr. remember newDNSResolver as r0 eqn:E.
  assert (resolverInv r0) as H0 by (subst; by apply newDNSResolver_inv). clear E.
  induction Hr as [|x y z Hxy _ IH]; [done|]. apply IH. by eapply resolverStep_inv.
Qed.
End Resolver.

Arguments dnsResolver K {_ _}.
Arguments reachableResolver {K _ _} capacity freshTTL staleTTL r.

(** C18. At every moment of every run: the cache holds at most [capacity] entries,
    its LRU list exactly their keys; no key has two loads in flight; and at most
    [capacity] loads and eight overflow loads run. *)
Theorem resolver_bounded {K} `{Countable K} capacity freshTTL staleTTL (r : dnsResolver K) :
  1 <= capacity -> reachableResolver capacity freshTTL staleTTL r ->
  Z.of_nat (size (rs_entries r)) <= capacity /\ NoDup (rs_lru r) /\
  (forall k, k ∈ rs_lru r <-> is_Some (rs_entries r !! k)) /\
  NoDup (map (fun l => fst (fst l)) (rs_loads r)) /\
  zlen (rs_loads r) <= capacity /\ zlen (rs_overflow r) <= dnsResolverOverflow.
Proof.
  intros Hcap Hr. apply reachableResolver_inv in Hr; [|done].
  pose proof Hr as (Hs & [Hn Hd] & Hld & Hnf & Hf & Hno & Hdis & Hov & Hfl & Hg).
  assert (HnK : NoDup (map (fun l : K * nat * nat => fst (fst l)) (rs_loads r))).
  { apply NoDup_fmap_2_strong; [|by eapply NoDup_fmap_1].
    intros [[k1 e1] f1] [[k2 e2] f2] H1 H2 Heq. simpl in Heq. subst.
    apply Hld in H1 as (e & ? & ? & ?). apply Hld in H2 as (e' & ? & ? & ?). by simplify_eq. }
  split_and!; try done. etrans; [|exact Hs].
  assert (length (map (fun l : K * nat * nat => fst (fst l)) (rs_loads r)) <= length (elements (dom (rs_entries r))))%nat as Hle.
  { apply submseteq_length, NoDup_submseteq; [done|]. intros k Hk.
    apply list_elem_of_fmap in Hk as ([[k' e'] f'] & -> & Hk). apply Hld in Hk as (e & He & _).
    apply elem_of_elements, elem_of_dom. eauto. }
  assert (length (elements (dom (rs_entries r))) = size (rs_entries r)) as Hsz by apply size_dom.
  rewrite length_map in Hle. unfold zlen. lia.
Qed.

(** A resolver of capacity one after the first lookup of a key. *)
Definition sampleResolver : dnsResolver nat :=
  fst (lookupStep 1 dnsFreshTTL dnsStaleTTL newDNSResolver None 7%nat 0 true 100).

Lemma sampleResolver_reachable : reachableResolver 1 dnsFreshTTL dnsStaleTTL sampleResolver.
Proof. apply rtc_once. apply (StepLookup 1 dnsFreshTTL dnsStaleTTL newDNSResolver None 7%nat 0 true 100). Qed.

Lemma resolver_bounded_witness : zlen (rs_loads sampleResolver) <= 1.
Proof.
  apply (resolver_bounded 1 dnsFreshTTL dnsStaleTTL sampleResolver); [lia|apply sampleResolver_reachable].
Defined.

(** A load that ends is never superseded: its waiters get its answer.  A success
    is fresh and of a generation above every one given before; a failure keeps
    the cached value, starts the cool-down, and reaches the waiters, unless it is
    transient and the value is at most [staleTTL] old: then they get that value,
    marked stale. *)
Theorem load_outcome {K} `{Countable K} capacity freshTTL staleTTL (r : dnsResolver K) key eid f e out transient now :
  1 <= capacity -> reachableResolver capacity freshTTL staleTTL r ->
  (key, eid, f) ∈ rs_loads r -> rs_entries r !! key = Some e ->
  let r' := finishLoad staleTTL r key eid f out transient now in
  rs_flights r' !! f =
    Some (match out with
          | Ok endpoints => Ok (mkResolution endpoints (u64 (rs_generation r + 1)) false)
          | Err err =>
              if transient && ce_hasValue e && (time_Sub now (ce_fetchedAt e) <=? staleTTL)
              then Ok (mkResolution (ce_endpoints e) (ce_generation e) true) else Err err
          end) /\
  exists e', rs_entries r' !! key = Some e' /\ ce_flight e' = None /\
    match out with
    | Ok endpoints => ce_endpoints e' = endpoints /\ ce_fetchedAt e' = now
    | Err _ => ce_endpoints e' = ce_endpoints e /\
        ce_refreshNotBefore e' = now + dnsRefreshCooldown (i64 (ce_failures e + 1))
    end.
Proof.
  intros Hcap Hr Hin He. apply reachableResolver_inv in Hr; [|done].
  destruct (finishLoad_eq capacity staleTTL r key eid f e out transient now Hr Hin He)
    as (e' & g & res & -> & Hnone & Hout). simpl. rewrite !lookup_insert_eq.
  destruct out; destruct_and!; subst; (split; [done|]); exists e'; split_and!; done.
Qed.

Lemma load_outcome_witness :
  rs_flights (finishLoad dnsStaleTTL sampleResolver 7%nat 0 1 (Ok (mkLoginEndpoints ["w"] "r")) false 200) !! 1%nat =
  Some (Ok (mkResolution (mkLoginEndpoints ["w"] "r") 1 false)).
Proof.
  apply (load_outcome 1 dnsFreshTTL dnsStaleTTL sampleResolver 7%nat 0%nat 1%nat (set_flight (newEntry 0) (Some 1%nat))
    (Ok (mkLoginEndpoints ["w"] "r")) false 200);
    [lia|apply sampleResolver_reachable|by left|reflexivity].
Defined.

(** What a lookup returns without waiting: a fresh value is at most [freshTTL]
    old and newer than the generation the caller knows; a stale one is at most
    [staleTTL] old and only follows a transient failure whose cool-down still
    runs.  And a new request is only made for a key that has none in flight and
    whose cool-down, if any, is over. *)
Theorem lookup_correct {K} `{Countable K} capacity freshTTL staleTTL (r : dnsResolver K) key known now res :
  1 <= capacity -> reachableResolver capacity freshTTL staleTTL r ->
  let '(r', out) := lookupStep capacity freshTTL staleTTL r None key known true now in
  (out = LookupReturn (Ok res) ->
     exists e, rs_entries r !! key = Some e /\ ce_hasValue e = true /\ dr_Endpoints res = ce_endpoints e /\
       (dr_Stale res = false -> time_Sub now (ce_fetchedAt e) <= freshTTL /\ known < dr_Generation res) /\
       (dr_Stale res = true -> time_Sub now (ce_fetchedAt e) <= staleTTL /\ ce_lastTransient e = true /\
          now < ce_refreshNotBefore e)) /\
  (rs_loads r' <> rs_loads r -> exists eid f,
     rs_loads r' = (rs_loads r ++ [(key, eid, f)])%list /\ out = LookupWait f /\
     forall e, rs_entries r !! key = Some e -> ce_flight e = None /\ ce_refreshNotBefore e <= now) /\
  (out = LookupUncached -> forall k e, rs_entries r !! k = Some e -> ce_flight e <> None).
Proof.
  intros Hcap Hr. apply reachableResolver_inv in Hr; [|done]. pose proof Hr as (Hs & Hl & _).
  unfold lookupStep. cbn [negb]. destruct (rs_entries r !! key) as [e|] eqn:Ek.
  - destruct (ce_hasValue e && (time_Sub now (ce_fetchedAt e) <=? freshTTL) && (ce_generation e >? known)) eqn:E1.
    { breflect. split; [|split; [done|done]]. intros [= <-]. exists e. simpl. split_and!; try done; lia. }
    destruct (ce_flight e) as [f|] eqn:Ef; [done|].
    destruct (Z.ltb_spec now (ce_refreshNotBefore e)).
    + destruct (ce_lastTransient e && ce_hasValue e && (time_Sub now (ce_fetchedAt e) <=? staleTTL)) eqn:E2; [|done].
      clear E1. breflect. split; [|split; [done|done]]. intros [= <-]. exists e. simpl. split_and!; try done; lia.
    + unfold startLoad. simpl. split; [done|]. split; [|done]. intros _. eexists _, _. split; [done|].
      split; [done|]. intros e0 [= <-]. done.
  - destruct (evict capacity _ _ _) as [[entries lru]|] eqn:Ee.
    + unfold startLoad. simpl. split; [done|]. split; [|done]. intros _. eexists _, _. split; [done|]. done.
    + split; [done|]. split; [done|]. intros _. by eapply evict_None.
Qed.

Lemma lookup_correct_witness :
  snd (lookupStep 1 dnsFreshTTL dnsStaleTTL sampleResolver None 8%nat 0 true 300) = LookupUncached /\
  forall k e, rs_entries sampleResolver !! k = Some e -> ce_flight e <> None.
Proof.
  split; [reflexivity|].
  pose proof (lookup_correct 1 dnsFreshTTL dnsStaleTTL sampleResolver 8%nat 0 300 (mkResolution zeroEndpoints 0 false)
    ltac:(lia) sampleResolver_reachable) as H.
  assert (lookupStep 1 dnsFreshTTL dnsStaleTTL sampleResolver None 8%nat 0 true 300 = (sampleResolver, LookupUncached)) as E
    by reflexivity.
  rewrite E in H. destruct H as (_ & _ & H). by apply H.
Defined.

(** The cool-down doubles from five seconds and stops at two minutes. *)
Theorem dnsRefreshCooldown_correct failures :
  dnsRefreshCooldown failures =
  if failures <? 1 then 0 else Z.min dnsMaxFailureCooldown (dnsFailureCooldown * 2 ^ (failures - 1)).
Proof.
  unfold dnsRefreshCooldown. destruct (Z.ltb_spec failures 1) as [|Hf]; [done|].
  destruct (Z_lt_le_dec failures 6) as [Hlt|Hge].
  - assert (failures = 1 \/ failures = 2 \/ failures = 3 \/ failures = 4 \/ failures = 5) as Hc by lia.
    destruct Hc as [->|[->|[->|[->| ->]]]]; reflexivity.
  - assert (exists n, Z.to_nat failures = (6 + n)%nat) as [n ->] by (exists (Z.to_nat (failures - 6)); lia).
    assert (2 ^ 5 <= 2 ^ (failures - 1)) as Hp by (apply Z.pow_le_mono_r; lia).
    rewrite Z.min_l by (unfold dnsMaxFailureCooldown, dnsFailureCooldown, Second; lia).
    assert (Hi : forall i, i < 6 -> i <? failures = true) by (intros; apply Z.ltb_lt; lia).
    cbn [cooldownLoop Nat.add]. rewrite !Hi by lia. reflexivity.
Qed.
