(* ===== verification/DnsFlights.v ===== *)
(** * The DNS requests a client joined

    sdk/endpoint_pool.go: [trackDNSFlight] remembers the channel of a shared request
    that was still in flight when the client's lookup returned;
    [waitPendingDNSFlights], called by the finalizer of [Close] before the codec is
    closed, waits for them.  A step is a critical section or a channel operation. *)
From stdpp Require Import sets.
From S2P Require Import Prelude.

(** A call of [trackDNSFlight]; the argument is the channel, by its number. *)
Inductive trackCall :=
| TrackChecking (d : nat)                    (* the select before the lock *)
| TrackLocking (d : nat)                     (* the critical section *)
| TrackReturned (d : option nat).

Inductive waitCall :=
| WaitNone
| WaitReading                                (* top of the loop *)
| WaitReceiving (batch rest : list nat)      (* <-done, for the rest of the batch *)
| WaitDeleting (batch : list nat)
| WaitReturned.

Record flights := mkFlights {
  fl_settled : gset nat;                     (* the closed channels *)
  fl_pending : gset nat;                     (* c.pendingDNSFlights *)
  fl_calls : gmap nat trackCall;
  fl_wait : waitCall }.

Definition startFlights : flights := mkFlights ∅ ∅ ∅ WaitNone.

Definition set_pending p s := mkFlights (fl_settled s) p (fl_calls s) (fl_wait s).
Definition set_track t c s := mkFlights (fl_settled s) (fl_pending s) (<[t := c]> (fl_calls s)) (fl_wait s).
Definition set_wait w s := mkFlights (fl_settled s) (fl_pending s) (fl_calls s) w.

(** The critical section of [trackDNSFlight]. *)
Definition trackLocked (d : nat) (s : flights) : gset nat :=
  let pruned := fl_pending s ∖ fl_settled s in
  if bool_decide (d ∈ fl_settled s) then pruned else {[d]} ∪ pruned.

Inductive flightOp :=
| FlightSettle (d : nat)                     (* the resolver closes the channel *)
| FlightTrack (t : nat) (d : option nat)     (* a call of trackDNSFlight, nil for none *)
| FlightStep (t : nat)
| FlightWait                                 (* a call of waitPendingDNSFlights *)
| FlightWaitStep (batch : list nat).         (* [batch] is the order of the map, where it is read *)

Definition waitStep (batch : list nat) (s : flights) : option flights :=
  match fl_wait s with
  | WaitNone | WaitReturned => None
  | WaitReading =>
      if bool_decide (batch ≡ₚ elements (fl_pending s)) then
        Some (set_wait match batch with [] => WaitReturned | _ => WaitReceiving batch batch end s)
      else None
  | WaitReceiving b [] => Some (set_wait (WaitDeleting b) s)
  | WaitReceiving b (d :: rest) =>
      if bool_decide (d ∈ fl_settled s) then Some (set_wait (WaitReceiving b rest) s) else None
  | WaitDeleting b => Some (set_wait WaitReading (set_pending (fl_pending s ∖ list_to_set b) s))
  end.

Definition flightStep (s : flights) (op : flightOp) : option flights :=
  match op with
  | FlightSettle d => Some (mkFlights ({[d]} ∪ fl_settled s) (fl_pending s) (fl_calls s) (fl_wait s))
  | FlightTrack t d =>
      match fl_calls s !! t with
      | Some _ => None
      | None => Some (set_track t match d with Some d => TrackChecking d | None => TrackReturned None end s)
      end
  | FlightStep t =>
      match fl_calls s !! t with
      | Some (TrackChecking d) =>
          Some (set_track t (if bool_decide (d ∈ fl_settled s) then TrackReturned (Some d) else TrackLocking d) s)
      | Some (TrackLocking d) => Some (set_track t (TrackReturned (Some d)) (set_pending (trackLocked d s) s))
      | _ => None
      end
  | FlightWait => match fl_wait s with WaitNone => Some (set_wait WaitReading s) | _ => None end
  | FlightWaitStep batch => waitStep batch s
  end.

Fixpoint flightRun (s : flights) (ops : list flightOp) : option flights :=
  match ops with
  | [] => Some s
  | op :: ops => s' ← flightStep s op; flightRun s' ops
  end.

(** ** Invariant *)

(** Every channel that a returned call was given is closed or remembered; what the
    wait has received is closed. *)
Record flightsInv (s : flights) : Prop := {
  fi_tracked : forall t d, fl_calls s !! t = Some (TrackReturned (Some d)) -> d ∈ fl_settled s \/ d ∈ fl_pending s;
  fi_received : match fl_wait s with
                | WaitReceiving b rest => exists l, b = (l ++ rest)%list /\ Forall (fun d => d ∈ fl_settled s) l
                | WaitDeleting b => Forall (fun d => d ∈ fl_settled s) b
                | _ => True
                end }.

Lemma start_flights_inv : flightsInv startFlights.
Proof. split; [|done]. intros t d H. cbn in H. by rewrite lookup_empty in H. Qed.

Lemma trackLocked_spec d d' s : d' ∈ fl_settled s \/ d' ∈ fl_pending s \/ d' = d -> d' ∈ fl_settled s \/ d' ∈ trackLocked d s.
Proof. unfold trackLocked. destruct (decide (d' ∈ fl_settled s)); [by left|]. case_bool_decide; set_solver. Qed.

Lemma set_track_inv t c s : flightsInv s ->
  (forall d, c = TrackReturned (Some d) -> d ∈ fl_settled s \/ d ∈ fl_pending s) -> flightsInv (set_track t c s).
Proof.
  intros [H1 H2] Hc. split; [|done]. intros t' d'. cbn. destruct (decide (t' = t)) as [->|].
  - rewrite lookup_insert_eq. intros [= ->]. by apply Hc.
  - rewrite lookup_insert_ne by done. apply H1.
Qed.

Lemma set_pending_inv p s : flightsInv s ->
  (forall d, d ∈ fl_pending s -> d ∈ fl_settled s \/ d ∈ p) -> flightsInv (set_pending p s).
Proof. intros [H1 H2] Hp. split; [|done]. intros t d [H|H]%H1; cbn; [by left|by apply Hp]. Qed.

Lemma flightStep_inv s op s' : flightsInv s -> flightStep s op = Some s' -> flightsInv s'.
Proof.
  intros Hi. destruct op as [d|t d|t| |batch]; cbn [flightStep].
  - intros [= <-]. destruct Hi as [H1 H2]. split; cbn; [intros t d' H; apply H1 in H; set_solver|].
    destruct (fl_wait s); try done; [destruct H2 as (l & ? & Hl); exists l; split; [done|]|];
      (eapply Forall_impl; [eassumption|set_solver]).
  - destruct (fl_calls s !! t); [done|]. intros [= <-]. apply set_track_inv; [done|]. by destruct d.
  - destruct (fl_calls s !! t) as [[d|d|]|] eqn:E; [| |done|done]; intros [= <-].
    + apply set_track_inv; [done|]. case_bool_decide; [|done]. intros d' [= <-]. by left.
    + assert (flightsInv (set_pending (trackLocked d s) s)) as H.
      { apply set_pending_inv; [done|]. intros d' Hd. apply trackLocked_spec. by right; left. }
      apply set_track_inv; [done|]. intros d' [= <-]. cbn. apply trackLocked_spec. by right; right.
  - destruct (fl_wait s); [|done..]. intros [= <-]. by split; [apply Hi|].
  - unfold waitStep. destruct (fl_wait s) as [| |b [|d rest]|b|] eqn:E; try done; pose proof (fi_received _ Hi) as Hf; rewrite E in Hf.
    + case_bool_decide; [|done]. intros [= <-]. split; [apply Hi|]. cbn. destruct batch; [done|]. by exists [].
    + intros [= <-]. split; [apply Hi|]. cbn. destruct Hf as (l & -> & Hl). by rewrite app_nil_r.
    + case_bool_decide as Hd; [|done]. intros [= <-]. split; [apply Hi|]. cbn. destruct Hf as (l & -> & Hl).
      exists (l ++ [d])%list. rewrite <-app_assoc. split; [done|]. apply Forall_app. by repeat constructor.
    + intros [= <-]. cbn. assert (flightsInv (set_pending (fl_pending s ∖ list_to_set b) s)) as H.
      { apply set_pending_inv; [done|]. intros d Hd. destruct (decide (d ∈ b)) as [Hb|]; [left|right; set_solver].
        rewrite Forall_forall in Hf. by apply Hf. }
      by split; [apply H|].
Qed.

Lemma flightRun_inv ops s s' : flightsInv s -> flightRun s ops = Some s' -> flightsInv s'.
Proof.
  revert s. induction ops as [|op ops IH]; intros s Hi; cbn; [by intros [= <-]|].
  destruct (flightStep s op) as [s1|] eqn:E; [|done]. by apply IH, (flightStep_inv s op).
Qed.

(** ** Properties *)

(** The wait returns when nothing is left in the map. *)
Lemma wait_returns_empty s batch s' :
  flightStep s (FlightWaitStep batch) = Some s' -> fl_wait s' = WaitReturned -> fl_pending s' = ∅.
Proof.
  intros Hs Hw. cbn in Hs. unfold waitStep in Hs. destruct (fl_wait s) as [| |b [|d' rest]|b|]; try done;
    [|by injection Hs as <-|by case_bool_decide; [injection Hs as <-|]|by injection Hs as <-].
  case_bool_decide as Hb; [|done]. injection Hs as <-. destruct batch; [|done]. cbn.
  apply leibniz_equiv, elements_empty_inv. by apply Permutation_nil.
Qed.

(** The step with which the wait returns finds every channel closed that a call of
    [trackDNSFlight] which has returned was given: [Close] closes the codec and
    returns only after every request the client joined has ended. *)
Theorem close_waits_for_flights ops s batch s' :
  flightRun startFlights ops = Some s -> flightStep s (FlightWaitStep batch) = Some s' -> fl_wait s' = WaitReturned ->
  forall t d, fl_calls s' !! t = Some (TrackReturned (Some d)) -> d ∈ fl_settled s'.
Proof.
  intros Hr Hs Hw t d Ht. apply (flightRun_inv _ _ _ start_flights_inv) in Hr.
  destruct (fi_tracked _ (flightStep_inv _ _ _ Hr Hs) t d Ht) as [|Hp]; [done|].
  rewrite (wait_returns_empty _ _ _ Hs Hw) in Hp. by apply elem_of_empty in Hp.
Qed.

(** The steps the wait still has to make when the channels it needs are closed and
    nothing is added. *)
Definition waitSteps (s : flights) : nat :=
  match fl_wait s with
  | WaitNone | WaitReturned => 0
  | WaitReading => if bool_decide (fl_pending s = ∅) then 1 else size (fl_pending s) + 4
  | WaitReceiving _ rest => length rest + 3
  | WaitDeleting _ => 2
  end%nat.

(** What of the map the wait has not in its batch. *)
Definition waitCovers (s : flights) : Prop :=
  match fl_wait s with
  | WaitReceiving b _ | WaitDeleting b => fl_pending s ⊆ list_to_set b
  | _ => True
  end.

Lemma wait_runs n s0 :
  waitSteps s0 = n -> fl_wait s0 <> WaitNone -> fl_wait s0 <> WaitReturned -> fl_pending s0 ⊆ fl_settled s0 -> waitCovers s0 ->
  match fl_wait s0 with WaitReceiving b rest => rest ⊆ b /\ Forall (fun d => d ∈ fl_settled s0) rest | _ => True end ->
  exists batches s', length batches = n /\ flightRun s0 (map FlightWaitStep batches) = Some s' /\
    fl_wait s' = WaitReturned /\ fl_pending s' = ∅.
Proof.
  revert s0. induction n as [n IH] using lt_wf_ind. intros s0 Hn H0 H1 Hs Hc Hr. unfold waitSteps in Hn. unfold waitCovers in Hc.
  destruct (fl_wait s0) as [| |b [|d rest]|b|] eqn:E; try done.
  - set (batch := elements (fl_pending s0)). case_bool_decide as Hz.
    + exists [[]], (set_wait WaitReturned s0). split; [by subst|]. split; [|done]. cbn. unfold waitStep. rewrite E, bool_decide_true; [done|].
      by rewrite Hz, elements_empty.
    + assert (batch <> []) as Hb by (intros Hb; apply Hz, leibniz_equiv, elements_empty_inv, Hb).
      destruct (IH (length batch + 3)%nat) with (s0 := set_wait (WaitReceiving batch batch) s0) as (bs & s' & Hl & Hrun & ? & ?);
        try done; [unfold batch; rewrite <-Hn; unfold size, set_size; simpl; lia| |split; [done|]|].
      * unfold waitCovers. cbn. unfold batch. set_solver.
      * apply Forall_forall. cbn. intros d Hd%elem_of_elements. by apply Hs.
      * exists (batch :: bs), s'. split; [cbn; rewrite Hl; unfold batch; rewrite <-Hn; unfold size, set_size; simpl; lia|].
        split; [|done]. cbn. unfold waitStep. rewrite E, bool_decide_true by done. by destruct batch.
  - destruct (IH 2%nat) with (s0 := set_wait (WaitDeleting b) s0) as (bs & s' & Hl & Hrun & ? & ?); try done; [rewrite <-Hn; simpl; lia|].
    exists ([] :: bs), s'. split; [cbn in Hn |- *; rewrite Hl; lia|]. split; [|done]. cbn. unfold waitStep. by rewrite E.
  - destruct Hr as [Hsub [Hd Hr]%Forall_cons].
    destruct (IH (length rest + 3)%nat) with (s0 := set_wait (WaitReceiving b rest) s0) as (bs & s' & Hl & Hrun & ? & ?);
      try done; [rewrite <-Hn; simpl; lia|cbn; split; [set_solver|done]|].
    exists ([] :: bs), s'. split; [cbn; rewrite Hl; cbn in Hn; lia|]. split; [|done]. cbn. unfold waitStep. by rewrite E, bool_decide_true.
  - set (s1 := set_wait WaitReading (set_pending (fl_pending s0 ∖ list_to_set b) s0)).
    assert (fl_pending s1 = ∅) as Hz by (cbn; set_solver).
    destruct (IH 1%nat) with (s0 := s1) as (bs & s' & Hl & Hrun & ? & ?); try done; [rewrite <-Hn; lia| |by rewrite Hz|].
    { unfold waitSteps. cbn [fl_wait s1 set_wait]. by rewrite bool_decide_true. }
    exists ([] :: bs), s'. split; [cbn; rewrite Hl; lia|]. split; [|done]. cbn. unfold waitStep. by rewrite E.
Qed.

(** The wait ends: when every remembered channel is closed, the wait alone takes
    its steps, one after the other, and returns after as many as there are
    channels and four. *)
Theorem flights_wait_terminates ops s :
  flightRun startFlights ops = Some s -> fl_pending s ⊆ fl_settled s -> fl_wait s = WaitReading ->
  exists batches s', (length batches <= size (fl_pending s) + 4)%nat /\
    flightRun s (map FlightWaitStep batches) = Some s' /\ fl_wait s' = WaitReturned /\ fl_pending s' = ∅.
Proof.
  intros _ Hp Hw. destruct (wait_runs (waitSteps s) s) as (bs & s' & Hl & ? & ? & ?); try done; try (by rewrite Hw).
  - unfold waitCovers. by rewrite Hw.
  - exists bs, s'. split; [|done]. rewrite Hl. unfold waitSteps. rewrite Hw. case_bool_decide; lia.
Qed.

(** ** Witnesses *)

(** A lookup joins request 7, which ends while the Client is being closed. *)
Definition flightOps_w : list flightOp :=
  [FlightTrack 0 (Some 7%nat); FlightStep 0; FlightStep 0; FlightWait; FlightSettle 7].
Definition flightOps2_w : list flightOp :=
  (flightOps_w ++ [FlightWaitStep [7%nat]; FlightWaitStep []; FlightWaitStep []; FlightWaitStep []])%list.

Lemma close_waits_for_flights_witness : exists s s',
  flightRun startFlights flightOps2_w = Some s /\ flightStep s (FlightWaitStep []) = Some s' /\ 7%nat ∈ fl_settled s'.
Proof.
  eexists _, _. split; [vm_compute; reflexivity|]. split; [vm_compute; reflexivity|].
  eapply (close_waits_for_flights flightOps2_w _ [] _ ltac:(vm_compute; reflexivity) ltac:(vm_compute; reflexivity) eq_refl 0%nat).
  by vm_compute.
Defined.

Lemma flights_wait_terminates_witness : exists s batches s',
  flightRun startFlights flightOps_w = Some s /\ flightRun s (map FlightWaitStep batches) = Some s' /\ fl_wait s' = WaitReturned.
Proof.
  destruct (flightRun startFlights flightOps_w) as [s|] eqn:E; [|by vm_compute in E]. exists s.
  assert (fl_pending s ⊆ fl_settled s /\ fl_wait s = WaitReading) as [H1 H2].
  { vm_compute in E. injection E as <-. split; [|done]. by apply (bool_decide_unpack _); vm_compute. }
  destruct (flights_wait_terminates flightOps_w s E H1 H2) as (batches & s' & _ & H & Hw & _). by exists batches, s'.
Defined.
