(* ===== verification/DnsLookup.v ===== *)
(** * The lookups of the clients of a process

    sdk/endpoint_pool.go, [resolveCachedEndpointCandidates], and [restHTTPClient] of
    sdk/rest.go: the composition of the shared resolver (DnsResolver), the requests
    it makes (DnsSelect) and the flights a client remembers for its [Close]
    (DnsFlights).  Any number of clients of a process share the resolver; a load
    runs the closure of the client that started it. *)
From Stdlib Require Import String.
From stdpp Require Import sets.
From S2P Require Import Prelude Errors Identifiers Endpoints DnsSelect DnsResolver DnsFlights.
Local Open Scope string_scope.
Local Open Scope Z_scope.

(** ** Keys *)

(** An [*http.Client] is a number. *)
Record dnsCacheKey := mkCacheKey { dk_AppKey : string; dk_HTTPClient : nat }.

#[export] Instance dnsCacheKey_eq_dec : EqDecision dnsCacheKey.
Proof. solve_decision. Defined.

#[export] Instance dnsCacheKey_countable : Countable dnsCacheKey.
Proof. refine (inj_countable' (fun k => (dk_AppKey k, dk_HTTPClient k)) (fun p => mkCacheKey (fst p) (snd p)) _). by intros []. Defined.

(** What a lookup needs of a Client: [cfg.AppKey] and [cfg.HTTPClient]. *)
Record dnsClient := mkDnsClient { dn_AppKey : string; dn_HTTPClient : option nat }.

(** The client every Client without one of its own shares. *)
Definition defaultRESTHTTPClient : nat := 0.

Definition restHTTPClient (c : dnsClient) : nat :=
  match dn_HTTPClient c with Some h => h | None => defaultRESTHTTPClient end.

Definition cacheKey (c : dnsClient) : dnsCacheKey := mkCacheKey (dn_AppKey c) (restHTTPClient c).

(** ** Calls *)

(** A call of [resolveCachedEndpointCandidates]; the settlement is the flight whose
    end it tracks, [None] for the closed [settledDNSLookup]. *)
Inductive lookupPC :=
| LookupWaiting (flight : nat)                 (* waitDNSFlight *)
| LookupSlot                                   (* resolveUncached, for an overflow slot *)
| LookupTracking (res : result dnsResolution) (flight : nat)
| LookupReturned (res : result dnsResolution) (settlement : option nat).

Record lookupCall := mkLookup { lk_client : nat; lk_pc : lookupPC }.

Record dnsSystem := mkSystem {
  ds_resolver : dnsResolver dnsCacheKey;
  ds_loaders : gmap nat nat;                   (* the Client whose closure a flight runs *)
  ds_calls : gmap nat lookupCall;
  ds_clients : gmap nat flights }.

Definition startSystem : dnsSystem := mkSystem (newDNSResolver (K := dnsCacheKey)) ∅ ∅ ∅.

(** The flights of a Client; those that are done are those of the resolver. *)
Definition clientFlights (c : nat) (s : dnsSystem) : flights :=
  let fl := default startFlights (ds_clients s !! c) in
  mkFlights (dom (rs_flights (ds_resolver s))) (fl_pending fl) (fl_calls fl) (fl_wait fl).

Definition set_resolver r s := mkSystem r (ds_loaders s) (ds_calls s) (ds_clients s).
Definition set_lookup t call s := mkSystem (ds_resolver s) (ds_loaders s) (<[t := call]> (ds_calls s)) (ds_clients s).
Definition set_clientFlights c fl s := mkSystem (ds_resolver s) (ds_loaders s) (ds_calls s) (<[c := fl]> (ds_clients s)).

(** A flight is run by the closure of the Client that started it. *)
Definition addLoader (flight c : nat) (loaders : gmap nat nat) : gmap nat nat :=
  match loaders !! flight with Some _ => loaders | None => <[flight := c]> loaders end.

Definition set_loader (flight c : nat) (s : dnsSystem) : dnsSystem :=
  mkSystem (ds_resolver s) (addLoader flight c (ds_loaders s)) (ds_calls s) (ds_clients s).

Definition onFlights (c : nat) (op : flightOp) (s : dnsSystem) : option dnsSystem :=
  fl ← flightStep (clientFlights c s) op; Some (set_clientFlights c fl s).

(** [resolveWithSettlement] returns, and [trackDNSFlight] is called. *)
Definition settle (t c : nat) (res : result dnsResolution) (settlement : option nat) (s : dnsSystem) : option dnsSystem :=
  s ← onFlights c (FlightTrack t settlement) s;
  Some (set_lookup t (mkLookup c match settlement with Some f => LookupTracking res f | None => LookupReturned res None end) s).

(** ** Steps *)

Inductive dnsOp :=
| DnsLookup (t c : nat) (ctxErr : option goerror) (known now : Z)
| DnsSlot (t : nat)                            (* an overflow slot is free *)
| DnsReceive (t : nat)                         (* the flight is done *)
| DnsCancel (t : nat) (err : goerror)          (* the context ends in a wait *)
| DnsTrack (t : nat)                           (* a step of trackDNSFlight *)
| DnsLoaded (flight : nat) (http : nat -> httpResult) (cancelled : nat -> option goerror) (now : Z)
| DnsClose (c : nat)                           (* waitPendingDNSFlights *)
| DnsCloseStep (c : nat) (batch : list nat).

Section System.
Context (json_Unmarshal_document : bytes -> result dnsDocument) (capacity freshTTL staleTTL : Z).
Context (clients : nat -> dnsClient).

(** What the closure given to the resolver returns. *)
Definition loadResult (c : nat) (http : nat -> httpResult) (cancelled : nat -> option goerror) : result loginEndpoints :=
  fst (resolveLoginEndpointCandidates json_Unmarshal_document (dn_AppKey (clients c)) http cancelled).

Definition loadTransient (out : result loginEndpoints) : bool :=
  match out with Err err => isTransientDNSResolutionError (Some err) | Ok _ => false end.

Definition lookupCancelled (pc : lookupPC) (err : goerror) : option (result dnsResolution * option nat) :=
  match pc with
  | LookupWaiting f => Some (Err (dnsStageError "request canceled while waiting for shared DNS lookup" 0 (Some err)), Some f)
  | LookupSlot => Some (Err (dnsStageError "request canceled waiting for DNS overflow slot" 0 (Some err)), None)
  | _ => None
  end.

Definition dnsStep (s : dnsSystem) (op : dnsOp) : option dnsSystem :=
  match op with
  | DnsLookup t c ctxErr known now =>
      match ds_calls s !! t with
      | Some _ => None
      | None =>
          let '(r, out) := lookupStep capacity freshTTL staleTTL (ds_resolver s) ctxErr (cacheKey (clients c)) known true now in
          let s := set_resolver r s in
          match out with
          | LookupReturn res => settle t c res None s
          | LookupWait f => Some (set_lookup t (mkLookup c (LookupWaiting f)) (set_loader f c s))
          | LookupUncached => Some (set_lookup t (mkLookup c LookupSlot) s)
          end
      end
  | DnsSlot t =>
      match ds_calls s !! t with
      | Some (mkLookup c LookupSlot) =>
          '(r, f) ← overflowStart (ds_resolver s);
          Some (set_lookup t (mkLookup c (LookupWaiting f)) (set_loader f c (set_resolver r s)))
      | _ => None
      end
  | DnsReceive t =>
      match ds_calls s !! t with
      | Some (mkLookup c (LookupWaiting f)) => res ← rs_flights (ds_resolver s) !! f; settle t c res (Some f) s
      | _ => None
      end
  | DnsCancel t err =>
      call ← ds_calls s !! t; '(res, settlement) ← lookupCancelled (lk_pc call) err; settle t (lk_client call) res settlement s
  | DnsTrack t =>
      match ds_calls s !! t with
      | Some (mkLookup c (LookupTracking res f)) =>
          s ← onFlights c (FlightStep t) s;
          Some match fl_calls (clientFlights c s) !! t with
               | Some (TrackReturned settlement) => set_lookup t (mkLookup c (LookupReturned res settlement)) s
               | _ => s
               end
      | _ => None
      end
  | DnsLoaded f http cancelled now =>
      c ← ds_loaders s !! f;
      let out := loadResult c http cancelled in
      let r := ds_resolver s in
      match find (fun l => bool_decide (snd l = f)) (rs_loads r) with
      | Some (key, eid, _) => Some (set_resolver (finishLoad staleTTL r key eid f out (loadTransient out) now) s)
      | None => if bool_decide (f ∈ rs_overflow r) then Some (set_resolver (overflowFinish r f out) s) else None
      end
  | DnsClose c => onFlights c FlightWait s
  | DnsCloseStep c batch => onFlights c (FlightWaitStep batch) s
  end.

Fixpoint dnsRun (s : dnsSystem) (ops : list dnsOp) : option dnsSystem :=
  match ops with [] => Some s | op :: ops => s' ← dnsStep s op; dnsRun s' ops end.
End System.

(** ** Flights of a client *)

Lemma settled_inv X fl : flightsInv fl -> fl_settled fl ⊆ X -> flightsInv (mkFlights X (fl_pending fl) (fl_calls fl) (fl_wait fl)).
Proof.
  intros [H1 H2] HX. split; cbn; [intros t d [?|?]%H1; [left; set_solver|by right]|].
  assert (forall l, Forall (fun d => d ∈ fl_settled fl) l -> Forall (fun d => d ∈ X) l) as Hm.
  { intros l Hl. eapply Forall_impl; [exact Hl|]. set_solver. }
  destruct (fl_wait fl); try done; [destruct H2 as (l & ? & ?); exists l; auto|auto].
Qed.

(** A step other than the end of a request closes no channel. *)
Lemma flightStep_settled fl op fl' :
  flightStep fl op = Some fl' -> (forall d, op <> FlightSettle d) -> fl_settled fl' = fl_settled fl.
Proof.
  intros H Hn. destruct op; cbn in H; [by destruct (Hn d)|..]; try (unfold waitStep in H); repeat case_match; by simplify_eq/=.
Qed.

(** The calls of [trackDNSFlight] a step changes. *)
Definition flightThread (op : flightOp) : option nat :=
  match op with FlightTrack t _ | FlightStep t => Some t | _ => None end.

Lemma flightStep_calls fl op fl' t :
  flightStep fl op = Some fl' -> flightThread op <> Some t -> fl_calls fl' !! t = fl_calls fl !! t.
Proof.
  intros H Hn. destruct op; cbn in H, Hn; try (unfold waitStep in H); repeat case_match; simplify_eq/=; try done;
    rewrite lookup_insert_ne by congruence; done.
Qed.

(** What a step of [trackDNSFlight] on flight [f] leads to. *)
Definition trackingCall (f : nat) (call : trackCall) : Prop := call = TrackChecking f \/ call = TrackLocking f.

Lemma trackStep_call fl t f fl' call :
  fl_calls fl !! t = Some call -> trackingCall f call -> flightStep fl (FlightStep t) = Some fl' ->
  exists call', fl_calls fl' !! t = Some call' /\ (trackingCall f call' \/ call' = TrackReturned (Some f)).
Proof.
  intros Hc Ht H. cbn in H. rewrite Hc in H. destruct Ht as [-> | ->]; injection H as <-; cbn; rewrite lookup_insert_eq;
    eexists; (split; [reflexivity|]); [case_bool_decide; [by right|left; by right]|by right].
Qed.

(** ** What lookups and loads do to the resolver *)
Section Invariant.
Context (json_Unmarshal_document : bytes -> result dnsDocument) (capacity freshTTL staleTTL : Z).
Context (clients : nat -> dnsClient).
#[local] Notation lookupAt := (lookupStep capacity freshTTL staleTTL).

Lemma lookupStep_cases (r : dnsResolver dnsCacheKey) ctxErr key known now r' out :
  resolverInv capacity r -> 1 <= capacity -> lookupAt r ctxErr key known true now = (r', out) ->
  rs_flights r' = rs_flights r /\ rs_overflow r' = rs_overflow r /\ (rs_next r <= rs_next r')%nat /\
  (forall k e, rs_entries r' !! k = Some e -> ce_hasValue e = true ->
     exists e0, rs_entries r !! k = Some e0 /\ ce_hasValue e0 = true /\ ce_endpoints e0 = ce_endpoints e) /\
  match out with
  | LookupReturn (Ok res) => rs_loads r' = rs_loads r /\
      exists e, rs_entries r !! key = Some e /\ ce_hasValue e = true /\ dr_Endpoints res = ce_endpoints e
  | LookupWait f => (rs_loads r' = rs_loads r /\ exists eid, (key, eid, f) ∈ rs_loads r) \/
      (rs_next r <= f < rs_next r')%nat /\ exists eid, rs_loads r' = (rs_loads r ++ [(key, eid, f)])%list
  | _ => rs_loads r' = rs_loads r
  end.
Proof.
  intros Hi Hcap. unfold lookupStep. destruct ctxErr; [intros [= <- <-]; split_and!; eauto|]. cbn [negb].
  destruct (rs_entries r !! key) as [e|] eqn:Ek.
  - destruct (_ && (ce_generation e >? known)) eqn:Ev.
    { intros [= <- <-]. rewrite !andb_true_iff in Ev. destruct Ev as [[Ev _] _]. split_and!; eauto 6. }
    destruct (ce_flight e) as [f|] eqn:Ef.
    { intros [= <- <-]. split_and!; eauto. left. split; [done|]. exists (ce_id e). apply Hi. eauto. }
    destruct (now <? _).
    { destruct (_ && (_ <=? staleTTL)) eqn:Es; intros [= <- <-]; [|by split_and!; eauto].
      rewrite !andb_true_iff in Es. destruct Es as [[_ Es] _]. split_and!; eauto 6. }
    intros [= <- <-]. cbn. split_and!; eauto with lia.
    + intros k e'. destruct (decide (k = key)) as [->|]; [rewrite lookup_insert_eq|rewrite lookup_insert_ne by done; by eauto].
      intros [= <-]. cbn. eauto.
  - destruct (evict _ _ _ _) as [[entries lru]|] eqn:Ee; [|intros [= <- <-]; split_and!; eauto].
    destruct (evict_spec capacity _ _ _ _ _ Hcap (proj1 (proj2 Hi)) Ee) as (Hsub & _).
    intros [= <- <-]. cbn. split_and!; eauto with lia.
    + intros k e'. destruct (decide (k = key)) as [->|]; [rewrite lookup_insert_eq; by intros [= <-]|].
      rewrite lookup_insert_ne by done. intros He' Hv. exists e'. split; [|done]. by eapply lookup_weaken.
Qed.

(** ** Invariant *)

(** [le] was loaded by a Client with the key [key]. *)
Definition loadedFor (key : dnsCacheKey) (le : loginEndpoints) : Prop :=
  exists c http cancelled, cacheKey (clients c) = key /\ loadResult json_Unmarshal_document clients c http cancelled = Ok le.

Definition resolutionFor (key : dnsCacheKey) (res : result dnsResolution) : Prop :=
  match res with Ok res => loadedFor key (dr_Endpoints res) | Err _ => True end.

Definition loaderFor (loaders : gmap nat nat) (f : nat) (key : dnsCacheKey) : Prop :=
  exists c, loaders !! f = Some c /\ cacheKey (clients c) = key.

(** The load of [f] has not ended. *)
Definition running (r : dnsResolver dnsCacheKey) (f : nat) : Prop := f ∈ (rs_loads r).*2 \/ f ∈ rs_overflow r.

Record resolverSide (r : dnsResolver dnsCacheKey) (loaders : gmap nat nat) : Prop := {
  rd_inv : resolverInv capacity r;
  rd_loader : forall f c, loaders !! f = Some c -> (f < rs_next r)%nat;
  rd_loads : forall key eid f, (key, eid, f) ∈ rs_loads r -> loaderFor loaders f key;
  rd_cached : forall key e, rs_entries r !! key = Some e -> ce_hasValue e = true -> loadedFor key (ce_endpoints e);
  rd_done : forall f res, rs_flights r !! f = Some res -> exists key, loaderFor loaders f key /\ resolutionFor key res;
  rd_alive : forall f c, loaders !! f = Some c -> is_Some (rs_flights r !! f) \/ running r f }.

Definition settlementOf (pc : lookupPC) : option nat :=
  match pc with LookupWaiting f | LookupTracking _ f => Some f | LookupSlot => None | LookupReturned _ st => st end.

Definition callOk (s : dnsSystem) (t : nat) (call : lookupCall) : Prop :=
  let c := lk_client call in let key := cacheKey (clients c) in
  match lk_pc call with
  | LookupWaiting f => loaderFor (ds_loaders s) f key
  | LookupSlot => True
  | LookupTracking res f => resolutionFor key res /\
      exists tc, fl_calls (clientFlights c s) !! t = Some tc /\ trackingCall f tc
  | LookupReturned res st => resolutionFor key res /\
      forall f, st = Some f -> fl_calls (clientFlights c s) !! t = Some (TrackReturned (Some f))
  end.

Record systemInv (s : dnsSystem) : Prop := {
  si_resolver : resolverSide (ds_resolver s) (ds_loaders s);
  si_flights : forall c, flightsInv (clientFlights c s);
  si_calls : forall t call, ds_calls s !! t = Some call -> callOk s t call;
  si_loader : forall f c, ds_loaders s !! f = Some c ->
    exists t call, ds_calls s !! t = Some call /\ lk_client call = c /\ settlementOf (lk_pc call) = Some f }.

Lemma startSystem_inv : 1 <= capacity -> systemInv startSystem.
Proof.
  intros Hcap. split; [split|..]; cbn.
  - by apply newDNSResolver_inv.
  - intros f c. by rewrite lookup_empty.
  - intros key eid f H. by apply elem_of_nil in H.
  - intros key e. by rewrite lookup_empty.
  - intros f res. by rewrite lookup_empty.
  - intros f c. by rewrite lookup_empty.
  - intros c. unfold clientFlights. cbn. rewrite lookup_empty. apply (settled_inv _ startFlights), empty_subseteq. apply start_flights_inv.
  - intros t call. by rewrite lookup_empty.
  - intros f c. by rewrite lookup_empty.
Qed.

(** ** Steps keep it *)

Lemma loaderFor_mono loaders loaders' f key : loaders ⊆ loaders' -> loaderFor loaders f key -> loaderFor loaders' f key.
Proof. intros Hs (c & Hc & Hk). exists c. split; [by eapply lookup_weaken|done]. Qed.

Lemma callOk_mono s s' t call :
  ds_loaders s ⊆ ds_loaders s' ->
  fl_calls (clientFlights (lk_client call) s') !! t = fl_calls (clientFlights (lk_client call) s) !! t ->
  callOk s t call -> callOk s' t call.
Proof.
  intros Hl Hf. unfold callOk. destruct (lk_pc call); [by apply loaderFor_mono|done|by rewrite Hf|by rewrite Hf].
Qed.

(** [new] goes on with the call [old]. *)
Definition goesOn (old new : lookupCall) : Prop :=
  lk_client new = lk_client old /\ (settlementOf (lk_pc old) = None \/ settlementOf (lk_pc new) = settlementOf (lk_pc old)).

Lemma loaders_kept s (calls' : gmap nat lookupCall) f c :
  systemInv s -> (forall t old, ds_calls s !! t = Some old -> exists new, calls' !! t = Some new /\ goesOn old new) ->
  ds_loaders s !! f = Some c -> exists t call, calls' !! t = Some call /\ lk_client call = c /\ settlementOf (lk_pc call) = Some f.
Proof.
  intros Hi Hg (t & old & Ht & <- & Hf)%(si_loader _ Hi). destruct (Hg t old Ht) as (new & Hn & Hc & Hs).
  exists t, new. split; [done|]. split; [done|]. destruct Hs as [Hs|Hs]; congruence.
Qed.

Lemma goesOn_insert s t new :
  (forall old, ds_calls s !! t = Some old -> goesOn old new) ->
  forall t' old, ds_calls s !! t' = Some old -> exists call, <[t := new]> (ds_calls s) !! t' = Some call /\ goesOn old call.
Proof.
  intros Hg t' old Ht. destruct (decide (t' = t)) as [->|].
  - exists new. rewrite lookup_insert_eq. auto.
  - exists old. rewrite lookup_insert_ne by done. split; [done|]. split; auto.
Qed.

(** A step of the resolver, and perhaps of a call that waits for it. *)
Lemma resolver_inv s r' loaders' (calls' : gmap nat lookupCall) :
  systemInv s -> resolverSide r' loaders' -> ds_loaders s ⊆ loaders' -> dom (rs_flights (ds_resolver s)) ⊆ dom (rs_flights r') ->
  (forall t old, ds_calls s !! t = Some old -> exists new, calls' !! t = Some new /\ goesOn old new) ->
  (forall t call, calls' !! t = Some call -> ds_calls s !! t = Some call \/ callOk (mkSystem r' loaders' calls' (ds_clients s)) t call) ->
  (forall f c, loaders' !! f = Some c -> ds_loaders s !! f = Some c \/
     exists t call, calls' !! t = Some call /\ lk_client call = c /\ settlementOf (lk_pc call) = Some f) ->
  systemInv (mkSystem r' loaders' calls' (ds_clients s)).
Proof.
  intros Hi Hr Hl Hd Hg Hc Hn. split; [done|..].
  - intros c. by apply (settled_inv _ (clientFlights c s) (si_flights _ Hi c)).
  - intros t call [Ht|]%Hc; [|done]. apply (callOk_mono s); [done| |by apply (si_calls _ Hi)]. done.
  - intros f c [Hf|]%Hn; [|done]. by eapply loaders_kept.
Qed.

(** A step of [trackDNSFlight] or of [waitPendingDNSFlights]. *)
Lemma flights_inv s c op fl (calls' : gmap nat lookupCall) :
  systemInv s -> flightStep (clientFlights c s) op = Some fl -> (forall d, op <> FlightSettle d) ->
  (forall t, flightThread op <> Some t -> calls' !! t = ds_calls s !! t) ->
  (forall t call, flightThread op = Some t -> calls' !! t = Some call ->
     callOk (mkSystem (ds_resolver s) (ds_loaders s) calls' (<[c := fl]> (ds_clients s))) t call) ->
  (forall t old, flightThread op = Some t -> ds_calls s !! t = Some old -> exists new, calls' !! t = Some new /\ goesOn old new) ->
  systemInv (mkSystem (ds_resolver s) (ds_loaders s) calls' (<[c := fl]> (ds_clients s))).
Proof.
  intros Hi Hs Hop Hsame Hok Hg. pose proof (flightStep_settled _ _ _ Hs Hop) as Hset.
  assert (forall c', clientFlights c' (mkSystem (ds_resolver s) (ds_loaders s) calls' (<[c := fl]> (ds_clients s))) =
    if decide (c' = c) then fl else clientFlights c' s) as Hfl.
  { intros c'. unfold clientFlights. cbn. destruct (decide (c' = c)) as [->|]; [rewrite lookup_insert_eq|by rewrite lookup_insert_ne].
    cbn. change (dom _) with (fl_settled (clientFlights c s)). rewrite <- Hset. by destruct fl. }
  split; [apply Hi|..].
  - intros c'. rewrite Hfl. destruct (decide _); [eapply flightStep_inv; [apply (si_flights _ Hi c)|exact Hs]|apply Hi].
  - intros t call Ht. destruct (decide (flightThread op = Some t)) as [|Hne]; [by apply Hok|].
    cbn in Ht. rewrite (Hsame _ Hne) in Ht. apply (callOk_mono s); [done| |by apply (si_calls _ Hi)].
    rewrite Hfl. destruct (decide _) as [->|]; [|done]. by eapply flightStep_calls.
  - intros f c' Hf. eapply loaders_kept; [exact Hi| |exact Hf]. intros t old Ht.
    destruct (decide (flightThread op = Some t)) as [|Hne]; [by eapply Hg|]. exists old. cbn. rewrite Hsame by done.
    split; [done|]. split; auto.
Qed.

Lemma settle_inv s t c res settlement s' :
  systemInv s -> resolutionFor (cacheKey (clients c)) res ->
  (forall old, ds_calls s !! t = Some old -> lk_client old = c /\ (settlementOf (lk_pc old) = None \/ settlementOf (lk_pc old) = settlement)) ->
  settle t c res settlement s = Some s' -> systemInv s'.
Proof.
  intros Hi Hres Hold. unfold settle, onFlights. destruct (flightStep _ _) as [fl|] eqn:E; [|done]. cbn. intros [= <-].
  set (new := mkLookup c _). eapply (flights_inv s c (FlightTrack t settlement) fl); try done.
  - intros t' Hne. cbn in Hne. by rewrite lookup_insert_ne by congruence.
  - intros t' call [= <-]. rewrite lookup_insert_eq. intros [= <-]. unfold callOk, new, clientFlights. cbn. rewrite lookup_insert_eq.
    cbn in E. destruct (fl_calls (clientFlights c s) !! t) eqn:Et; [cbn in Et; by rewrite Et in E|]. cbn in Et. rewrite Et in E.
    injection E as <-. cbn. destruct settlement as [f|]; cbn; (split; [done|]).
    + exists (TrackChecking f). rewrite lookup_insert_eq. split; [done|]. by left.
    + done.
  - intros t' old [= <-] Ho. exists new. rewrite lookup_insert_eq. split; [done|]. destruct (Hold _ Ho) as [Hc Hst].
    split; [by rewrite Hc|]. unfold new. cbn. destruct Hst as [|Hst]; [by left|right]. rewrite Hst. by destruct settlement.
Qed.

Lemma addLoader_sub f c loaders : loaders ⊆ addLoader f c loaders.
Proof. unfold addLoader. destruct (loaders !! f) eqn:E; [done|]. by apply insert_subseteq. Qed.

Lemma addLoader_cases f c loaders f' c' : addLoader f c loaders !! f' = Some c' -> loaders !! f' = Some c' \/ f' = f /\ c' = c.
Proof.
  unfold addLoader. destruct (loaders !! f) eqn:E; [by left|]. destruct (decide (f' = f)) as [->|].
  - rewrite lookup_insert_eq. intros [= <-]. by right.
  - rewrite lookup_insert_ne by done. by left.
Qed.

Lemma addLoader_fresh f c loaders : loaders !! f = None -> loaderFor (addLoader f c loaders) f (cacheKey (clients c)).
Proof. intros E. exists c. unfold addLoader. by rewrite E, lookup_insert_eq. Qed.

(** A flight the resolver has not made yet has no loader. *)
Lemma loader_fresh r loaders f : resolverSide r loaders -> (rs_next r <= f)%nat -> loaders !! f = None.
Proof. intros Hi Hf. destruct (loaders !! f) eqn:E; [|done]. apply (rd_loader _ _ Hi) in E. lia. Qed.

(** Loads, results and entries keep their loaders when more flights are made. *)
Lemma side_grow r loaders r' f c :
  resolverSide r loaders -> resolverInv capacity r' -> (rs_next r <= rs_next r')%nat ->
  (loaders !! f = None -> (f < rs_next r')%nat) -> rs_flights r' = rs_flights r ->
  (forall key eid f', (key, eid, f') ∈ rs_loads r' -> (key, eid, f') ∈ rs_loads r \/ loaderFor (addLoader f c loaders) f' key) ->
  (forall k e, rs_entries r' !! k = Some e -> ce_hasValue e = true ->
     exists e0, rs_entries r !! k = Some e0 /\ ce_hasValue e0 = true /\ ce_endpoints e0 = ce_endpoints e) ->
  (forall f', running r f' -> running r' f') -> (loaders !! f = None -> running r' f) ->
  resolverSide r' (addLoader f c loaders).
Proof.
  intros Hi Hr Hn Hf Hfl Hl He Hrun Hnew. split; [done|..].
  - intros f' c' Hc. destruct (loaders !! f) eqn:E.
    + unfold addLoader in Hc. rewrite E in Hc. apply (rd_loader _ _ Hi) in Hc. lia.
    + apply addLoader_cases in Hc as [Hc|[-> ->]]; [apply (rd_loader _ _ Hi) in Hc; lia|by apply Hf].
  - intros key eid f' [Hin|]%Hl; [|done]. eapply loaderFor_mono; [apply addLoader_sub|]. by eapply rd_loads.
  - intros key e Hk Hv. destruct (He _ _ Hk Hv) as (e0 & H0 & Hv0 & <-). by apply (rd_cached _ _ Hi).
  - intros f' res. rewrite Hfl. intros (key & Hk & Hres)%(rd_done _ _ Hi). exists key. split; [|done].
    eapply loaderFor_mono; [apply addLoader_sub|done].
  - intros f' c' Hc. rewrite Hfl. unfold addLoader in Hc. destruct (loaders !! f) eqn:E.
    + apply (rd_alive _ _ Hi) in Hc as [|]; auto.
    + destruct (decide (f' = f)) as [->|]; [right; by apply Hnew|]. rewrite lookup_insert_ne in Hc by done.
      apply (rd_alive _ _ Hi) in Hc as [|]; auto.
Qed.

(** A finished flight: its result is right for the key of its loader. *)
Lemma side_shrink r loaders r' f res key :
  resolverSide r loaders -> resolverInv capacity r' -> rs_next r' = rs_next r -> loaderFor loaders f key ->
  rs_flights r' = <[f := res]> (rs_flights r) -> resolutionFor key res ->
  (forall l, l ∈ rs_loads r' -> l ∈ rs_loads r) ->
  (forall k e, rs_entries r' !! k = Some e -> ce_hasValue e = true -> loadedFor k (ce_endpoints e)) ->
  (forall f', running r f' -> f' = f \/ running r' f') ->
  resolverSide r' loaders.
Proof.
  intros Hi Hr Hn Hf Hfl Hres Hl He Hrun. split; [done|..].
  - intros f' c'. rewrite Hn. apply Hi.
  - intros k eid f' Hin%Hl. by eapply rd_loads.
  - exact He.
  - intros f' res'. rewrite Hfl. destruct (decide (f' = f)) as [->|].
    + rewrite lookup_insert_eq. intros [= <-]. by exists key.
    + rewrite lookup_insert_ne by done. apply Hi.
  - intros f' c'. rewrite Hfl. destruct (decide (f' = f)) as [->|]; [intros _; left; by rewrite lookup_insert_eq|].
    rewrite lookup_insert_ne by done. intros [?|[->|?]%Hrun]%(rd_alive _ _ Hi); by auto.
Qed.

Lemma side_loaded r loaders key eid f c http cancelled now :
  resolverSide r loaders -> (key, eid, f) ∈ rs_loads r -> loaders !! f = Some c ->
  let out := loadResult json_Unmarshal_document clients c http cancelled in
  let r' := finishLoad staleTTL r key eid f out (loadTransient out) now in
  resolverSide r' loaders /\ dom (rs_flights r) ⊆ dom (rs_flights r').
Proof.
  intros Hi Hin Hc out r'. destruct (load_entry _ _ _ _ _ (rd_inv _ _ Hi) Hin) as (e & He & _).
  destruct (finishLoad_eq _ staleTTL r key eid f e out (loadTransient out) now (rd_inv _ _ Hi) Hin He)
    as (e' & g & res & Heq & Hnone & Hout). fold r' in Heq.
  pose proof (finishLoad_inv _ staleTTL r key eid f out (loadTransient out) now (rd_inv _ _ Hi) Hin) as Hri. fold r' in Hri.
  assert (loaderFor loaders f key) as Hk by (by eapply rd_loads).
  assert (cacheKey (clients c) = key) as Hck by (destruct Hk as (c' & Hc' & <-); congruence).
  assert (resolutionFor key res /\ (ce_hasValue e' = true -> loadedFor key (ce_endpoints e'))) as [Hres Hen].
  { destruct out as [le|err] eqn:Eo.
    - destruct Hout as (_ & -> & _ & _ & _ & He'). assert (loadedFor key le) as Hl by (by exists c, http, cancelled).
      cbn. rewrite He'. by split.
    - destruct Hout as (_ & _ & He' & _ & Hv' & ->). assert (ce_hasValue e = true -> loadedFor key (ce_endpoints e)) as Hl by (by eapply rd_cached).
      rewrite He'. split; [|].
      + destruct (_ && _ && _) eqn:Eb; [|done]. rewrite !andb_true_iff in Eb. destruct Eb as [[_ Eb] _]. cbn. by apply Hl.
      + rewrite Hv'. exact Hl. }
  split; [|rewrite Heq; cbn; rewrite dom_insert; set_solver].
  eapply side_shrink; [exact Hi|exact Hri|by rewrite Heq|exact Hk|by rewrite Heq|exact Hres|..]; rewrite Heq; cbn.
  - intros l [_ Hl]%list_elem_of_filter. exact Hl.
  - intros k e0. destruct (decide (k = key)) as [->|]; [rewrite lookup_insert_eq; intros [= <-]; exact Hen|].
    rewrite lookup_insert_ne by done. by apply (rd_cached _ _ Hi).
  - intros f' [(l & -> & Hl)%list_elem_of_fmap|?]; [|by right; right]. destruct (decide (l.2 = f)) as [|Hne]; [by left|right; left].
    apply list_elem_of_fmap_2, list_elem_of_filter. by split.
Qed.

Lemma side_overflowed r loaders f c http cancelled :
  resolverSide r loaders -> f ∈ rs_overflow r -> loaders !! f = Some c ->
  let r' := overflowFinish r f (loadResult json_Unmarshal_document clients c http cancelled) in
  resolverSide r' loaders /\ dom (rs_flights r) ⊆ dom (rs_flights r').
Proof.
  intros Hi Hf Hc r'. assert (loaderFor loaders f (cacheKey (clients c))) as Hk by (by exists c).
  assert (resolverInv capacity r') as Hr.
  { unfold r', overflowFinish. destruct (loadResult _ _ _ _ _); apply overflow_inv; try done; try apply Hi; apply u64_range. }
  unfold r', overflowFinish in *. destruct (loadResult _ _ _ _ _) as [le|err] eqn:E; (split; [|cbn; rewrite dom_insert; set_solver]);
    (eapply side_shrink; [exact Hi|exact Hr|done|exact Hk|reflexivity| |done|apply Hi|
       intros f' [?|?]; [by right; left|]; destruct (decide (f' = f)); [by left|right; right; by apply list_elem_of_filter]]); [|done].
  by exists c, http, cancelled.
Qed.

Lemma side_lookup r loaders ctxErr c known now r' out :
  1 <= capacity -> resolverSide r loaders -> lookupAt r ctxErr (cacheKey (clients c)) known true now = (r', out) ->
  rs_flights r' = rs_flights r /\
  match out with
  | LookupReturn res => resolverSide r' loaders /\ resolutionFor (cacheKey (clients c)) res
  | LookupWait f => resolverSide r' (addLoader f c loaders) /\ loaderFor (addLoader f c loaders) f (cacheKey (clients c))
  | LookupUncached => resolverSide r' loaders
  end.
Proof.
  intros Hcap Hi E. destruct (lookupStep_cases _ _ _ _ _ _ _ (rd_inv _ _ Hi) Hcap E) as (Hfl & Hov & Hn & He & Hout).
  assert (resolverInv capacity r') as Hr.
  { pose proof (lookupStep_inv capacity freshTTL staleTTL r ctxErr (cacheKey (clients c)) known true now Hcap (rd_inv _ _ Hi)) as H.
    by rewrite E in H. }
  split; [done|]. assert (rs_loads r' = rs_loads r -> resolverSide r' loaders) as Hsame.
  { intros Hl. split; [done|..].
    - intros f c' Hc. apply (rd_loader _ _ Hi) in Hc. lia.
    - rewrite Hl. apply Hi.
    - intros k e Hk Hv. destruct (He _ _ Hk Hv) as (e0 & H0 & Hv0 & <-). by apply (rd_cached _ _ Hi).
    - rewrite Hfl. apply Hi.
    - unfold running. rewrite Hfl, Hl, Hov. apply Hi. }
  destruct out as [[res|]|f|]; [|by split; [apply Hsame|]| |by apply Hsame].
  - destruct Hout as (Hl & e & Hk & Hv & Hd). split; [by apply Hsame|]. cbn. rewrite Hd. by apply (rd_cached _ _ Hi).
  - destruct Hout as [[Hl (eid & Hin)]|[Hf (eid & Hl)]].
    + pose proof (rd_loads _ _ Hi _ _ _ Hin) as (c' & Hc & Hk).
      assert (addLoader f c loaders = loaders) as -> by (unfold addLoader; by rewrite Hc). split; [by apply Hsame|by exists c'].
    + assert (loaders !! f = None) as Hnone by (apply (loader_fresh r); [done|lia]).
      pose proof (addLoader_fresh f c loaders Hnone) as Hfor. split; [|done].
      apply (side_grow r loaders r' f c); [done|done|lia|by intros _; lia|done|..].
      * intros key eid' f'. rewrite Hl. intros [?|[= -> -> ->]%list_elem_of_singleton]%elem_of_app; [by left|by right].
      * exact He.
      * intros f'. unfold running. rewrite Hl, Hov, fmap_app, elem_of_app. tauto.
      * intros _. unfold running. left. rewrite Hl, fmap_app, elem_of_app. right. by apply list_elem_of_singleton.
Qed.

Lemma side_overflowStart r loaders r' f c :
  resolverSide r loaders -> overflowStart r = Some (r', f) ->
  rs_flights r' = rs_flights r /\ resolverSide r' (addLoader f c loaders) /\ loaderFor (addLoader f c loaders) f (cacheKey (clients c)).
Proof.
  intros Hi E. pose proof (overflowStart_inv _ _ _ _ (rd_inv _ _ Hi) E) as Hr. unfold overflowStart in E.
  destruct (_ <? _); [|done]. injection E as <- <-. split; [done|].
  split; [|by apply addLoader_fresh, (loader_fresh r)].
  apply (side_grow r loaders _ _ c); try done; cbn; [lia|intros _; lia|by left|..].
  - intros k e Hk Hv. by exists e.
  - intros f' [?|?]; [by left|right]. by apply list_elem_of_further.
  - intros _. right. by apply list_elem_of_here.
Qed.

(** A call that starts to wait for a flight, or for a slot. *)
Lemma wait_inv s r' loaders' t c pc :
  systemInv s -> resolverSide r' loaders' -> rs_flights r' = rs_flights (ds_resolver s) -> ds_loaders s ⊆ loaders' ->
  (forall f c', loaders' !! f = Some c' -> ds_loaders s !! f = Some c' \/ c' = c /\ settlementOf pc = Some f) ->
  match pc with LookupWaiting f => loaderFor loaders' f (cacheKey (clients c)) | LookupSlot => True | _ => False end ->
  (forall old, ds_calls s !! t = Some old -> lk_client old = c /\ settlementOf (lk_pc old) = None) ->
  systemInv (mkSystem r' loaders' (<[t := mkLookup c pc]> (ds_calls s)) (ds_clients s)).
Proof.
  intros Hi Hr Hfl Hl Hn Hpc Hold. apply resolver_inv; try done.
  - by rewrite Hfl.
  - apply goesOn_insert. intros old Ho. destruct (Hold _ Ho) as [Hc Hs]. split; [by cbn|by left].
  - intros t' call. destruct (decide (t' = t)) as [->|]; [rewrite lookup_insert_eq|rewrite lookup_insert_ne by done; by left].
    intros [= <-]. right. unfold callOk. cbn. by destruct pc.
  - intros f c' [?|[-> Hs]]%Hn; [by left|right]. exists t, (mkLookup c pc). by rewrite lookup_insert_eq.
Qed.

Lemma set_resolver_inv s r' :
  systemInv s -> resolverSide r' (ds_loaders s) -> dom (rs_flights (ds_resolver s)) ⊆ dom (rs_flights r') -> systemInv (set_resolver r' s).
Proof. intros Hi Hr Hd. apply resolver_inv; try done; eauto. intros t old Ht. exists old. split; [done|]. split; auto. Qed.

Lemma closing_inv s c op s' : flightThread op = None -> (forall d, op <> FlightSettle d) -> systemInv s -> onFlights c op s = Some s' -> systemInv s'.
Proof.
  intros Ht Hop Hi H. unfold onFlights in H. destruct (flightStep _ _) as [fl|] eqn:E; [|done]. injection H as <-.
  eapply (flights_inv s c op fl (ds_calls s)); try done; intros t x; by rewrite Ht.
Qed.

Lemma track_inv s t c res f s1 s' :
  systemInv s -> ds_calls s !! t = Some (mkLookup c (LookupTracking res f)) -> onFlights c (FlightStep t) s = Some s1 ->
  s' = match fl_calls (clientFlights c s1) !! t with
       | Some (TrackReturned settlement) => set_lookup t (mkLookup c (LookupReturned res settlement)) s1
       | _ => s1
       end -> systemInv s'.
Proof.
  intros Hi Ht H Hs'. unfold onFlights in H. destruct (flightStep _ _) as [fl|] eqn:E; [|done]. injection H as <-.
  pose proof (si_calls _ Hi _ _ Ht) as Hok. unfold callOk in Hok. cbn [lk_pc lk_client] in Hok. destruct Hok as (Hres & tc & Htc & Htr).
  destruct (trackStep_call _ _ _ _ _ Htc Htr E) as (tc' & Htc' & Hcase).
  assert (fl_calls (clientFlights c (set_clientFlights c fl s)) !! t = Some tc') as Hnow by (unfold clientFlights; cbn; by rewrite lookup_insert_eq).
  rewrite Hnow in Hs'. destruct Hcase as [Hcase| ->].
  - assert (s' = set_clientFlights c fl s) as -> by (by destruct Hcase as [-> | ->]).
    eapply (flights_inv s c (FlightStep t) fl (ds_calls s)); try done.
    + intros t' call [= <-] Hcall. assert (call = mkLookup c (LookupTracking res f)) as -> by congruence. split; [done|]. by exists tc'.
    + intros t' old _ Ho. exists old. split; [done|]. split; auto.
  - subst s'. eapply (flights_inv s c (FlightStep t) fl); try done.
    + intros t' Hne. cbn in Hne. by rewrite lookup_insert_ne by congruence.
    + intros t' call [= <-]. rewrite lookup_insert_eq. intros [= <-]. split; [done|]. by intros f' [= <-].
    + intros t' old [= <-] Ho. exists (mkLookup c (LookupReturned res (Some f))). rewrite lookup_insert_eq. split; [done|].
      assert (old = mkLookup c (LookupTracking res f)) as -> by congruence. split; [done|]. by right.
Qed.

Lemma dnsStep_inv s op s' :
  1 <= capacity -> dnsStep json_Unmarshal_document capacity freshTTL staleTTL clients s op = Some s' -> systemInv s -> systemInv s'.
Proof.
  intros Hcap H Hi. pose proof (si_resolver _ Hi) as Hr. destruct op as [t c ctxErr known now|t|t|t err|t|f http cancelled now|c|c batch]; cbn [dnsStep] in H.
  - destruct (ds_calls s !! t) eqn:Et; [done|]. destruct (lookupStep _ _ _ _ _ _ _ _ _) as [r' out] eqn:E.
    destruct (side_lookup _ _ _ _ _ _ _ _ Hcap Hr E) as (Hfl & Hout). destruct out as [res|f|].
    + destruct Hout as [Hside Hres]. eapply settle_inv; [|exact Hres| |exact H].
      * apply set_resolver_inv; [done|done|by rewrite Hfl].
      * intros old Ho. cbn in Ho. congruence.
    + destruct Hout as [Hside Hfor]. injection H as <-. apply (wait_inv s); try done; [apply addLoader_sub| |congruence].
      intros f' c' [?|[-> ->]]%addLoader_cases; [by left|by right].
    + injection H as <-. apply (wait_inv s); try done; [by left|congruence].
  - destruct (ds_calls s !! t) as [[c [| | |]]|] eqn:Et; try done. destruct (overflowStart _) as [[r' f]|] eqn:E; [|done]. injection H as <-.
    destruct (side_overflowStart _ _ _ _ c Hr E) as (Hfl & Hside & Hfor).
    apply (wait_inv s); try done; [apply addLoader_sub| |intros old; rewrite Et; by intros [= <-]].
    intros f' c' [?|[-> ->]]%addLoader_cases; [by left|by right].
  - destruct (ds_calls s !! t) as [[c [f| | |]]|] eqn:Et; try done. destruct (rs_flights (ds_resolver s) !! f) as [res|] eqn:Ef; [|done].
    eapply settle_inv; [exact Hi| | |exact H].
    + destruct (rd_done _ _ Hr _ _ Ef) as (key & (c1 & Hc1 & <-) & Hres).
      pose proof (si_calls _ Hi _ _ Et) as (c2 & Hc2 & Hk). cbn [lk_client] in Hk. rewrite <- Hk. by replace c2 with c1 by congruence.
    + intros old. rewrite Et. intros [= <-]. split; [done|by right].
  - destruct (ds_calls s !! t) as [[c pc]|] eqn:Et; [|done]. cbn in H. destruct (lookupCancelled pc err) as [[res settlement]|] eqn:E; [|done].
    eapply settle_inv; [exact Hi| | |exact H]; destruct pc; try done; injection E as <- <-; [done|done|..];
      intros old; rewrite Et; intros [= <-]; (split; [done|]); [by right|by left].
  - destruct (ds_calls s !! t) as [[c [| |res f|]]|] eqn:Et; try done. destruct (onFlights _ _ _) as [s1|] eqn:E; [|done].
    injection H as H. eapply track_inv; [exact Hi|exact Et|exact E|by symmetry].
  - destruct (ds_loaders s !! f) as [c|] eqn:Ef; [|done]. cbn in H.
    destruct (find _ _) as [[[key eid] f']|] eqn:E.
    + apply find_some in E as [Hin%list_elem_of_In Hb]. apply bool_decide_eq_true in Hb. cbn in Hb. subst f'. injection H as <-.
      destruct (side_loaded _ _ _ _ _ _ http cancelled now Hr Hin Ef) as [Hside Hd]. by apply set_resolver_inv.
    + case_bool_decide as Hin; [|done]. injection H as <-. destruct (side_overflowed _ _ _ _ http cancelled Hr Hin Ef) as [Hside Hd].
      by apply set_resolver_inv.
  - by eapply closing_inv; [..|exact H].
  - by eapply closing_inv; [..|exact H].
Qed.

Lemma dnsRun_inv ops s s' :
  1 <= capacity -> dnsRun json_Unmarshal_document capacity freshTTL staleTTL clients s ops = Some s' -> systemInv s -> systemInv s'.
Proof.
  intros Hcap. revert s. induction ops as [|op ops IH]; intros s H Hi; [by injection H as <-|]. cbn [dnsRun] in H.
  destruct (dnsStep _ _ _ _ _ s op) as [s1|] eqn:E; [|done]. eapply IH; [exact H|]. by eapply dnsStep_inv.
Qed.
End Invariant.

(** ** Properties *)

(** What a load gives is what a 2xx answer to a request for the AppKey says. *)
Lemma loadedFor_document dec clients c le :
  loadedFor dec clients (cacheKey (clients c)) le ->
  exists c' body, cacheKey (clients c') = cacheKey (clients c) /\ zlen body <= dnsResponseMaxBytes /\
    resolveDNSCandidates dec body (dn_AppKey (clients c)) = Ok le /\
    (1 <= length (le_WSS le) <= dnsMaxWSSCandidates)%nat /\ NoDup (le_WSS le).
Proof.
  intros (c' & http & cancelled & Hk & Hl). exists c'. unfold loadResult in Hl.
  assert (dn_AppKey (clients c') = dn_AppKey (clients c)) as Ha by (by injection Hk). rewrite Ha in Hl.
  pose proof (resolveLoginEndpointCandidates_correct dec (dn_AppKey (clients c)) http cancelled) as H.
  destruct (resolveLoginEndpointCandidates _ _ _ _) as [out n]. cbn in Hl. subst out. destruct H as (_ & _ & H).
  destruct (H _ eq_refl) as (Hlen & Hnd & status & body & _ & Hst & Hb & Hres). exists body. exact (conj Hk (conj Hb (conj Hres (conj Hlen Hnd)))).
Qed.

(** C19. Lookups are isolated and answered.  However the clients of a process share
    the resolver, an answer a lookup of a Client returns was loaded with its HTTP
    client for its AppKey: 1 to 64 distinct candidates of a document the DNS
    service gave for that AppKey.  And while a lookup waits, its flight is done or
    its load is running, and then any end of that load makes it done. *)
Theorem lookups_isolated dec capacity freshTTL staleTTL clients ops s t c pc :
  1 <= capacity -> dnsRun dec capacity freshTTL staleTTL clients startSystem ops = Some s ->
  ds_calls s !! t = Some (mkLookup c pc) ->
  match pc with
  | LookupReturned (Ok res) _ =>
      exists c' body, cacheKey (clients c') = cacheKey (clients c) /\ zlen body <= dnsResponseMaxBytes /\
        resolveDNSCandidates dec body (dn_AppKey (clients c)) = Ok (dr_Endpoints res) /\
        (1 <= length (le_WSS (dr_Endpoints res)) <= dnsMaxWSSCandidates)%nat /\ NoDup (le_WSS (dr_Endpoints res))
  | LookupWaiting f =>
      is_Some (rs_flights (ds_resolver s) !! f) \/
      forall http cancelled now, exists s', is_Some (rs_flights (ds_resolver s') !! f) /\
        dnsStep dec capacity freshTTL staleTTL clients s (DnsLoaded f http cancelled now) = Some s'
  | _ => True
  end.
Proof.
  intros Hcap Hr Ht. pose proof (dnsRun_inv _ _ _ _ _ _ _ _ Hcap Hr (startSystem_inv dec capacity clients Hcap)) as Hi.
  pose proof (si_calls _ _ _ _ Hi _ _ Ht) as Hok. unfold callOk in Hok. cbn [lk_pc lk_client] in Hok.
  destruct pc as [f| | |[res|err] st]; [|done..| |done]; [|by eapply loadedFor_document, Hok].
  destruct Hok as (c1 & Hc1 & _). pose proof (si_resolver _ _ _ _ Hi) as Hs.
  destruct (rd_alive _ _ _ _ _ Hs f c1 Hc1) as [|Hrun]; [by left|right]. intros http cancelled now. cbn [dnsStep]. rewrite Hc1. cbn.
  destruct (find _ _) as [[[key eid] f']|] eqn:E.
  - apply find_some in E as [Hin%list_elem_of_In Hb]. apply bool_decide_eq_true in Hb. cbn in Hb. subst f'.
    destruct (load_entry _ _ _ _ _ (rd_inv _ _ _ _ _ Hs) Hin) as (e & He & _). eexists. split; [|reflexivity]. cbn.
    destruct (finishLoad_eq _ staleTTL _ key eid f e (loadResult dec clients c1 http cancelled)
      (loadTransient (loadResult dec clients c1 http cancelled)) now (rd_inv _ _ _ _ _ Hs) Hin He) as (e' & g & out & -> & _). cbn.
    rewrite lookup_insert_eq. by eexists.
  - destruct Hrun as [(l & -> & Hl)%list_elem_of_fmap|Hov].
    { eapply find_none in E; [|by apply list_elem_of_In]. by rewrite bool_decide_true in E. }
    rewrite bool_decide_true by done. eexists. split; [|reflexivity]. cbn. unfold overflowFinish.
    destruct (loadResult _ _ _ _ _); cbn; rewrite lookup_insert_eq; by eexists.
Qed.

(** C30. No load outlives its Client.  When [waitPendingDNSFlights], which [Close]
    runs before it closes the codec, returns at a moment when every lookup of the
    Client has returned, then every load that runs a closure of this Client has
    ended, also those whose lookup was cancelled and those another Client waits
    for. *)
Theorem close_waits_for_loads dec capacity freshTTL staleTTL clients ops s c batch s' :
  1 <= capacity -> dnsRun dec capacity freshTTL staleTTL clients startSystem ops = Some s ->
  dnsStep dec capacity freshTTL staleTTL clients s (DnsCloseStep c batch) = Some s' ->
  fl_wait (clientFlights c s') = WaitReturned ->
  (forall t call, ds_calls s' !! t = Some call -> lk_client call = c -> exists res st, lk_pc call = LookupReturned res st) ->
  forall f, ds_loaders s' !! f = Some c -> is_Some (rs_flights (ds_resolver s') !! f) /\ ~ running (ds_resolver s') f.
Proof.
  intros Hcap Hr Hs Hw Hall f Hf. pose proof (dnsRun_inv _ _ _ _ _ _ _ _ Hcap Hr (startSystem_inv dec capacity clients Hcap)) as Hi0.
  pose proof (dnsStep_inv _ _ _ _ _ _ _ _ Hcap Hs Hi0) as Hi.
  destruct (si_loader _ _ _ _ Hi f c Hf) as (t & call & Ht & Hc & Hst). destruct (Hall _ _ Ht Hc) as (res & st & Hpc).
  pose proof (si_calls _ _ _ _ Hi _ _ Ht) as Hok. unfold callOk in Hok. rewrite Hpc, Hc in Hok. rewrite Hpc in Hst. cbn in Hst.
  destruct Hok as [_ Hok]. specialize (Hok _ Hst). assert (is_Some (rs_flights (ds_resolver s') !! f)) as Hd.
  { apply elem_of_dom. change (f ∈ fl_settled (clientFlights c s')).
    destruct (fi_tracked _ (si_flights _ _ _ _ Hi c) t f Hok) as [|Hp]; [done|]. cbn [dnsStep] in Hs. unfold onFlights in Hs.
    destruct (flightStep _ _) as [fl|] eqn:E; [|done]. injection Hs as <-. unfold clientFlights in Hp, Hw. cbn in Hp, Hw.
    rewrite lookup_insert_eq in Hp, Hw. cbn in Hp, Hw. rewrite (wait_returns_empty _ _ _ E Hw) in Hp. by apply elem_of_empty in Hp. }
  split; [done|]. intros Hrun. pose proof (rd_inv _ _ _ _ _ (si_resolver _ _ _ _ Hi)) as (_ & _ & _ & _ & Hn & _).
  destruct (Hn f Hrun) as [_ Hnone]. rewrite Hnone in Hd. by destruct Hd.
Qed.

(** ** Witnesses *)

(** Clients 0 and 1 share the AppKey and the default HTTP client.  The lookup of 0
    starts a load and is cancelled; the lookup of 1 joined it. *)
Definition sampleDocument : bytes -> result dnsDocument := fun _ =>
  Ok (mkDnsDocument [mkDnsHost "wss" "" "im.example.com" "1"] [mkDnsHost "https" "" "a.example.com" ""]).
Definition sampleClients : nat -> dnsClient := fun _ => mkDnsClient "org#app" None.
Definition sampleHTTP : nat -> httpResult := fun _ => HTTPResponse 200 (Ok []).
Definition sampleStep := dnsRun sampleDocument dnsResolverCapacity dnsFreshTTL dnsStaleTTL sampleClients.

Definition lookupOps : list dnsOp :=
  [DnsLookup 0 0 None 0 100; DnsLookup 1 1 None 0 101; DnsCancel 0 (ESentinel ContextCanceled); DnsTrack 0; DnsTrack 0; DnsClose 0;
   DnsCloseStep 0 [1%nat]].
Definition lookupOps2 : list dnsOp :=
  (lookupOps ++ [DnsLoaded 1 sampleHTTP (fun _ => None) 102; DnsReceive 1; DnsTrack 1; DnsCloseStep 0 []; DnsCloseStep 0 [];
                 DnsCloseStep 0 []])%list.

Definition sampleResolution : dnsResolution :=
  mkResolution (mkLoginEndpoints ["wss://im.example.com/websocket"] "https://a.example.com/org/app") 1 false.

Lemma lookups_isolated_witness :
  exists s, sampleStep startSystem lookupOps2 = Some s /\
    ds_calls s !! 1%nat = Some (mkLookup 1 (LookupReturned (Ok sampleResolution) (Some 1%nat))) /\
    NoDup (le_WSS (dr_Endpoints sampleResolution)).
Proof.
  eexists. split; [vm_compute; reflexivity|]. split; [vm_compute; reflexivity|].
  pose proof (lookups_isolated sampleDocument dnsResolverCapacity dnsFreshTTL dnsStaleTTL sampleClients lookupOps2 _ 1%nat 1%nat
    (LookupReturned (Ok sampleResolution) (Some 1%nat)) ltac:(vm_compute; discriminate) ltac:(vm_compute; reflexivity)
    ltac:(vm_compute; reflexivity)) as (c' & body & _ & _ & _ & _ & H). exact H.
Defined.

Definition isReturned (pc : lookupPC) : bool := match pc with LookupReturned _ _ => true | _ => false end.

Lemma all_returned s c :
  forallb (fun p => negb (lk_client (snd p) =? c)%nat || isReturned (lk_pc (snd p))) (map_to_list (ds_calls s)) = true ->
  forall t call, ds_calls s !! t = Some call -> lk_client call = c -> exists res st, lk_pc call = LookupReturned res st.
Proof.
  rewrite forallb_forall. intros H t call Ht%elem_of_map_to_list%list_elem_of_In <-. apply H in Ht. cbn in Ht.
  rewrite Nat.eqb_refl in Ht. destruct (lk_pc call); try done. by eexists _, _.
Qed.

Lemma close_waits_for_loads_witness :
  exists s s', sampleStep startSystem lookupOps2 = Some s /\
    dnsStep sampleDocument dnsResolverCapacity dnsFreshTTL dnsStaleTTL sampleClients s (DnsCloseStep 0 []) = Some s' /\
    ~ running (ds_resolver s') 1.
Proof.
  eexists _, _. split; [vm_compute; reflexivity|]. split; [vm_compute; reflexivity|].
  eapply (close_waits_for_loads sampleDocument dnsResolverCapacity dnsFreshTTL dnsStaleTTL sampleClients lookupOps2 _ 0%nat []);
    [vm_compute; discriminate|vm_compute; reflexivity..| |vm_compute; reflexivity].
  apply all_returned. vm_compute. reflexivity.
Defined.
