(* ===== verification/Lifecycle.v ===== *)
(** * The lifecycle of a Client

    sdk/client.go and sdk/connection.go: [Login], [Logout], [Close],
    [monitor], [reconnect], the sessions and the terminal transitions.

    [Client] is what [Client.mu] protects (with the atomics the lifecycle uses);
    the callbacks are those of Callbacks.v.  A call of a method, or a goroutine,
    is a thread whose program counter [pc] carries its local variables;
    [threadStep] makes its next step: one critical section of [Client.mu], one
    channel operation, or one outcome of the network, which is a choice.  A
    connectionRun is known here by its endpoint, the provision it accepted, and
    whether it is done. *)
From Stdlib Require Import String.
From S2P Require Import Prelude Protocol Errors GoStrings Config Callbacks Endpoints Identifiers Provisioning.
Local Open Scope string_scope.
Local Open Scope Z_scope.

Record connection := mkConnection { cn_endpoint : string; cn_provision : provisionState; cn_done : bool }.

(** Channels and contexts are numbers; [cl_connectDone] is the channel the owner
    of the lifecycle closes, [cl_sessionCtx] the context that
    [sessionCancel] cancels (both are set and cleared together). *)
Record Client := mkClient {
  cl_connectDone : option nat;
  cl_state : LoginState;
  cl_connState : ConnState;
  cl_run : option nat;
  cl_userID : string;
  cl_token : string;
  cl_msyncHost : string;
  cl_msyncHosts : list string;
  cl_msyncCursor : Z;
  cl_dnsGeneration : Z;
  cl_restBase : string;
  cl_sessionID : string;
  cl_backoffAttempt : Z;
  cl_lastStableConnect : Z;
  cl_lastErr : option goerror;
  cl_tokenExpiresAt : Z;
  cl_tokenWarningCancel : option nat;
  cl_sessionCtx : option nat;
  cl_sessionGeneration : Z }.

Definition set_connectDone v c := mkClient v (cl_state c) (cl_connState c) (cl_run c) (cl_userID c) (cl_token c) (cl_msyncHost c) (cl_msyncHosts c) (cl_msyncCursor c) (cl_dnsGeneration c) (cl_restBase c) (cl_sessionID c) (cl_backoffAttempt c) (cl_lastStableConnect c) (cl_lastErr c) (cl_tokenExpiresAt c) (cl_tokenWarningCancel c) (cl_sessionCtx c) (cl_sessionGeneration c).
Definition set_state v c := mkClient (cl_connectDone c) v (cl_connState c) (cl_run c) (cl_userID c) (cl_token c) (cl_msyncHost c) (cl_msyncHosts c) (cl_msyncCursor c) (cl_dnsGeneration c) (cl_restBase c) (cl_sessionID c) (cl_backoffAttempt c) (cl_lastStableConnect c) (cl_lastErr c) (cl_tokenExpiresAt c) (cl_tokenWarningCancel c) (cl_sessionCtx c) (cl_sessionGeneration c).
Definition set_connState v c := mkClient (cl_connectDone c) (cl_state c) v (cl_run c) (cl_userID c) (cl_token c) (cl_msyncHost c) (cl_msyncHosts c) (cl_msyncCursor c) (cl_dnsGeneration c) (cl_restBase c) (cl_sessionID c) (cl_backoffAttempt c) (cl_lastStableConnect c) (cl_lastErr c) (cl_tokenExpiresAt c) (cl_tokenWarningCancel c) (cl_sessionCtx c) (cl_sessionGeneration c).
Definition set_run v c := mkClient (cl_connectDone c) (cl_state c) (cl_connState c) v (cl_userID c) (cl_token c) (cl_msyncHost c) (cl_msyncHosts c) (cl_msyncCursor c) (cl_dnsGeneration c) (cl_restBase c) (cl_sessionID c) (cl_backoffAttempt c) (cl_lastStableConnect c) (cl_lastErr c) (cl_tokenExpiresAt c) (cl_tokenWarningCancel c) (cl_sessionCtx c) (cl_sessionGeneration c).
Definition set_userID v c := mkClient (cl_connectDone c) (cl_state c) (cl_connState c) (cl_run c) v (cl_token c) (cl_msyncHost c) (cl_msyncHosts c) (cl_msyncCursor c) (cl_dnsGeneration c) (cl_restBase c) (cl_sessionID c) (cl_backoffAttempt c) (cl_lastStableConnect c) (cl_lastErr c) (cl_tokenExpiresAt c) (cl_tokenWarningCancel c) (cl_sessionCtx c) (cl_sessionGeneration c).
Definition set_token v c := mkClient (cl_connectDone c) (cl_state c) (cl_connState c) (cl_run c) (cl_userID c) v (cl_msyncHost c) (cl_msyncHosts c) (cl_msyncCursor c) (cl_dnsGeneration c) (cl_restBase c) (cl_sessionID c) (cl_backoffAttempt c) (cl_lastStableConnect c) (cl_lastErr c) (cl_tokenExpiresAt c) (cl_tokenWarningCancel c) (cl_sessionCtx c) (cl_sessionGeneration c).
Definition set_msyncHost v c := mkClient (cl_connectDone c) (cl_state c) (cl_connState c) (cl_run c) (cl_userID c) (cl_token c) v (cl_msyncHosts c) (cl_msyncCursor c) (cl_dnsGeneration c) (cl_restBase c) (cl_sessionID c) (cl_backoffAttempt c) (cl_lastStableConnect c) (cl_lastErr c) (cl_tokenExpiresAt c) (cl_tokenWarningCancel c) (cl_sessionCtx c) (cl_sessionGeneration c).
Definition set_msyncHosts v c := mkClient (cl_connectDone c) (cl_state c) (cl_connState c) (cl_run c) (cl_userID c) (cl_token c) (cl_msyncHost c) v (cl_msyncCursor c) (cl_dnsGeneration c) (cl_restBase c) (cl_sessionID c) (cl_backoffAttempt c) (cl_lastStableConnect c) (cl_lastErr c) (cl_tokenExpiresAt c) (cl_tokenWarningCancel c) (cl_sessionCtx c) (cl_sessionGeneration c).
Definition set_msyncCursor v c := mkClient (cl_connectDone c) (cl_state c) (cl_connState c) (cl_run c) (cl_userID c) (cl_token c) (cl_msyncHost c) (cl_msyncHosts c) v (cl_dnsGeneration c) (cl_restBase c) (cl_sessionID c) (cl_backoffAttempt c) (cl_lastStableConnect c) (cl_lastErr c) (cl_tokenExpiresAt c) (cl_tokenWarningCancel c) (cl_sessionCtx c) (cl_sessionGeneration c).
Definition set_dnsGeneration v c := mkClient (cl_connectDone c) (cl_state c) (cl_connState c) (cl_run c) (cl_userID c) (cl_token c) (cl_msyncHost c) (cl_msyncHosts c) (cl_msyncCursor c) v (cl_restBase c) (cl_sessionID c) (cl_backoffAttempt c) (cl_lastStableConnect c) (cl_lastErr c) (cl_tokenExpiresAt c) (cl_tokenWarningCancel c) (cl_sessionCtx c) (cl_sessionGeneration c).
Definition set_restBase v c := mkClient (cl_connectDone c) (cl_state c) (cl_connState c) (cl_run c) (cl_userID c) (cl_token c) (cl_msyncHost c) (cl_msyncHosts c) (cl_msyncCursor c) (cl_dnsGeneration c) v (cl_sessionID c) (cl_backoffAttempt c) (cl_lastStableConnect c) (cl_lastErr c) (cl_tokenExpiresAt c) (cl_tokenWarningCancel c) (cl_sessionCtx c) (cl_sessionGeneration c).
Definition set_sessionID v c := mkClient (cl_connectDone c) (cl_state c) (cl_connState c) (cl_run c) (cl_userID c) (cl_token c) (cl_msyncHost c) (cl_msyncHosts c) (cl_msyncCursor c) (cl_dnsGeneration c) (cl_restBase c) v (cl_backoffAttempt c) (cl_lastStableConnect c) (cl_lastErr c) (cl_tokenExpiresAt c) (cl_tokenWarningCancel c) (cl_sessionCtx c) (cl_sessionGeneration c).
Definition set_backoffAttempt v c := mkClient (cl_connectDone c) (cl_state c) (cl_connState c) (cl_run c) (cl_userID c) (cl_token c) (cl_msyncHost c) (cl_msyncHosts c) (cl_msyncCursor c) (cl_dnsGeneration c) (cl_restBase c) (cl_sessionID c) v (cl_lastStableConnect c) (cl_lastErr c) (cl_tokenExpiresAt c) (cl_tokenWarningCancel c) (cl_sessionCtx c) (cl_sessionGeneration c).
Definition set_lastStableConnect v c := mkClient (cl_connectDone c) (cl_state c) (cl_connState c) (cl_run c) (cl_userID c) (cl_token c) (cl_msyncHost c) (cl_msyncHosts c) (cl_msyncCursor c) (cl_dnsGeneration c) (cl_restBase c) (cl_sessionID c) (cl_backoffAttempt c) v (cl_lastErr c) (cl_tokenExpiresAt c) (cl_tokenWarningCancel c) (cl_sessionCtx c) (cl_sessionGeneration c).
Definition set_lastErr v c := mkClient (cl_connectDone c) (cl_state c) (cl_connState c) (cl_run c) (cl_userID c) (cl_token c) (cl_msyncHost c) (cl_msyncHosts c) (cl_msyncCursor c) (cl_dnsGeneration c) (cl_restBase c) (cl_sessionID c) (cl_backoffAttempt c) (cl_lastStableConnect c) v (cl_tokenExpiresAt c) (cl_tokenWarningCancel c) (cl_sessionCtx c) (cl_sessionGeneration c).
Definition set_tokenExpiresAt v c := mkClient (cl_connectDone c) (cl_state c) (cl_connState c) (cl_run c) (cl_userID c) (cl_token c) (cl_msyncHost c) (cl_msyncHosts c) (cl_msyncCursor c) (cl_dnsGeneration c) (cl_restBase c) (cl_sessionID c) (cl_backoffAttempt c) (cl_lastStableConnect c) (cl_lastErr c) v (cl_tokenWarningCancel c) (cl_sessionCtx c) (cl_sessionGeneration c).
Definition set_tokenWarningCancel v c := mkClient (cl_connectDone c) (cl_state c) (cl_connState c) (cl_run c) (cl_userID c) (cl_token c) (cl_msyncHost c) (cl_msyncHosts c) (cl_msyncCursor c) (cl_dnsGeneration c) (cl_restBase c) (cl_sessionID c) (cl_backoffAttempt c) (cl_lastStableConnect c) (cl_lastErr c) (cl_tokenExpiresAt c) v (cl_sessionCtx c) (cl_sessionGeneration c).
Definition set_sessionCtx v c := mkClient (cl_connectDone c) (cl_state c) (cl_connState c) (cl_run c) (cl_userID c) (cl_token c) (cl_msyncHost c) (cl_msyncHosts c) (cl_msyncCursor c) (cl_dnsGeneration c) (cl_restBase c) (cl_sessionID c) (cl_backoffAttempt c) (cl_lastStableConnect c) (cl_lastErr c) (cl_tokenExpiresAt c) (cl_tokenWarningCancel c) v (cl_sessionGeneration c).
Definition set_sessionGeneration v c := mkClient (cl_connectDone c) (cl_state c) (cl_connState c) (cl_run c) (cl_userID c) (cl_token c) (cl_msyncHost c) (cl_msyncHosts c) (cl_msyncCursor c) (cl_dnsGeneration c) (cl_restBase c) (cl_sessionID c) (cl_backoffAttempt c) (cl_lastStableConnect c) (cl_lastErr c) (cl_tokenExpiresAt c) (cl_tokenWarningCancel c) (cl_sessionCtx c) v.

(** [New]. *)
Definition newClient : Client :=
  mkClient None LoginStateLogout ConnStateDisconnected None "" "" "" [] 0 0 "" "" 0 0 None zeroTime None None 0.

(** [w_cancelled] holds the contexts cancelled, [w_next] is the next free number
    of a channel or context, [w_runs] the connectionRuns made so far. *)
Record world := mkWorld {
  w_client : Client;
  w_cb : callbackSys;
  w_runs : list connection;
  w_cancelled : gset nat;
  w_next : nat;
  w_codecClosed : bool;
  w_closeDone : bool }.

Definition set_client v w := mkWorld v (w_cb w) (w_runs w) (w_cancelled w) (w_next w) (w_codecClosed w) (w_closeDone w).
Definition set_cb v w := mkWorld (w_client w) v (w_runs w) (w_cancelled w) (w_next w) (w_codecClosed w) (w_closeDone w).
Definition set_runs v w := mkWorld (w_client w) (w_cb w) v (w_cancelled w) (w_next w) (w_codecClosed w) (w_closeDone w).
Definition set_cancelled v w := mkWorld (w_client w) (w_cb w) (w_runs w) v (w_next w) (w_codecClosed w) (w_closeDone w).
Definition set_next v w := mkWorld (w_client w) (w_cb w) (w_runs w) (w_cancelled w) v (w_codecClosed w) (w_closeDone w).
Definition set_codecClosed v w := mkWorld (w_client w) (w_cb w) (w_runs w) (w_cancelled w) (w_next w) v (w_closeDone w).
Definition set_closeDone v w := mkWorld (w_client w) (w_cb w) (w_runs w) (w_cancelled w) (w_next w) (w_codecClosed w) v.

Definition newWorld : world := mkWorld newClient startCallbacks [] ∅ 0 false false.

Definition upd_client (f : Client -> Client) (w : world) : world := set_client (f (w_client w)) w.
Definition w_closed (w : world) : bool := cs_closed (sy_state (w_cb w)).

(** ** Contexts and sessions *)

Definition cancelCtx (x : nat) (w : world) : world := set_cancelled ({[x]} ∪ w_cancelled w) w.

(** A child of [lifetimeCtx]. *)
Definition ctxDone (w : world) (x : nat) : bool := w_closed w || bool_decide (x ∈ w_cancelled w).

Definition cancelTokenWarning (w : world) : world :=
  match cl_tokenWarningCancel (w_client w) with
  | Some x => upd_client (set_tokenWarningCancel None) (cancelCtx x w)
  | None => w
  end.

Definition startSessionLocked (w : world) : nat * Z * world :=
  let w := match cl_sessionCtx (w_client w) with Some x => cancelCtx x w | None => w end in
  let gen := u64 (cl_sessionGeneration (w_client w) + 1) in
  let ctx := w_next w in
  (ctx, gen, upd_client (fun c => set_sessionCtx (Some ctx) (set_sessionGeneration gen c)) (set_next (S ctx) w)).

Definition cancelSessionLocked (w : world) : world :=
  upd_client (set_sessionCtx None) match cl_sessionCtx (w_client w) with Some x => cancelCtx x w | None => w end.

Definition sessionIsCurrentLocked (c : Client) (generation : Z) : bool :=
  is_some (cl_sessionCtx c) && (cl_sessionGeneration c =? generation).

(** The assignments common to the four ends of a session. *)
Definition clearSession (c : Client) : Client :=
  set_run None (set_state LoginStateLogout (set_connState ConnStateDisconnected (set_sessionID "" (set_userID ""
  (set_token "" (set_msyncHost "" (set_msyncHosts [] (set_msyncCursor 0 (set_dnsGeneration 0 (set_restBase ""
  (set_tokenExpiresAt zeroTime c))))))))))).

Definition applyProvisionLocked (p : provisionState) (w : world) : world :=
  let w := upd_client (set_sessionID (ps_sessionID p)) w in
  if String.eqb (ps_token p) "" then w else
  upd_client (fun c => set_token (ps_token p) (set_tokenExpiresAt (ps_expiresAt p) c)) (cancelTokenWarning w).

(** ** Ownership of the lifecycle *)

(** The critical section of [beginConnect]; the channel to wait for when another
    operation owns the lifecycle. *)
Inductive acquireResult := Acquired (done : nat) (w : world) | Refused (err : goerror) | Busy (done : nat).

Definition beginConnect (operation : string) (w : world) : acquireResult :=
  if w_closed w then Refused (newError ErrClientClosed operation "") else
  match cl_connectDone (w_client w) with
  | None => Acquired (w_next w) (upd_client (set_connectDone (Some (w_next w))) (set_next (S (w_next w)) w))
  | Some done => Busy done
  end.

(** [None] is the panic of an operation that does not own the lifecycle. *)
Definition endConnect (done : nat) (w : world) : option world :=
  if bool_decide (cl_connectDone (w_client w) = Some done)
  then Some (upd_client (set_connectDone None) w) else None.

(** The channel [done] is closed. *)
Definition ended (w : world) (done : nat) : bool := negb (bool_decide (cl_connectDone (w_client w) = Some done)).

Section Lifecycle.
(** The configuration: the callbacks that are set, [DisableReconnect], and the
    URL functions used by redirects. *)
Context (cb : callbacks) (disableReconnect : bool)
        (url_Parse : string -> result urlParts) (url_String : urlParts -> string).

Definition callback (op : callbackOp) (w : world) : world :=
  set_cb (default (w_cb w) (callbackStep cb (w_cb w) op)) w.

(** [if cond && callbacks.connection != nil { emitAt(epoch, ...) }] *)
Definition emitState (cond : bool) (epoch : Z) (userID : string) (st : ConnState) (w : world) : world :=
  if cond && cb_connection cb then callback (OpEmitAt epoch (FnConnection userID st)) w else w.

Definition epochOf (w : world) : Z := cs_callbackEpoch (sy_state (w_cb w)).

(** ** Runs *)

Definition runDone (w : world) (r : nat) : bool :=
  match w_runs w !! r with Some cn => cn_done cn | None => true end.

(** [fail], and [shutdown] after it: once, the error becomes the Client's. *)
Definition failRun (r : nat) (err : goerror) (w : world) : world :=
  match w_runs w !! r with
  | Some (mkConnection ep p false) =>
      upd_client (set_lastErr (classifyNetworkError "connection" (Some err)))
        (set_runs (<[r := mkConnection ep p true]> (w_runs w)) w)
  | _ => w
  end.

(** A successful dial and login: the number of the new run. *)
Definition newRun (ep : string) (p : provisionState) (w : world) : nat * world :=
  (length (w_runs w), set_runs (w_runs w ++ [mkConnection ep p false])%list w).

(** A run that a connection attempt made and gave up: it has failed. *)
Definition discardedRun (ep : string) (err : goerror) (w : world) : world :=
  let '(r, w) := newRun ep (mkProvisionState "" "" zeroTime) w in failRun r err w.

(** ** Terminal transitions

    The result says whether [signalTerminalCallback] follows. *)
Definition recordTerminalForRunSession (expected : option nat) (session : option Z) (err : option goerror) (w : world)
  : bool * world :=
  let c := w_client w in
  if w_closed w
     || match expected with Some r => negb (bool_decide (cl_run c = Some r)) | None => false end
     || match session with Some gen => negb (sessionIsCurrentLocked c gen) | None => false end
  then (false, w) else
  let userID := cl_userID c in
  let w := upd_client (fun c => clearSession (set_lastErr err c)) w in
  let w := cancelTokenWarning (cancelSessionLocked w) in
  let w' := callback (OpTerminal userID err) w in
  (bool_decide (sy_published (w_cb w') = S (sy_published (w_cb w))), w').

Definition closeClient (w : world) : option nat * world :=
  let r := cl_run (w_client w) in
  let w := cancelTokenWarning (cancelSessionLocked (callback OpClose w)) in
  (r, upd_client clearSession w).

(** The result is the emission that follows. *)
Definition detachCanceledSessionForLogout (generation : Z) (w : world) : option (string * Z) * world :=
  let c := w_client w in
  if (generation =? 0) || negb (cl_sessionGeneration c =? generation) || is_some (cl_sessionCtx c)
     || negb (bool_decide (cl_state c = LoginStateReconnecting))
  then (None, w) else
  let changed := negb (bool_decide (cl_connState c = ConnStateDisconnected)) in
  let userID := cl_userID c in
  let w := callback OpBump (cancelTokenWarning (upd_client clearSession w)) in
  (if changed && cb_connection cb then Some (userID, epochOf w) else None, w).

(** The critical section of [beginLogout]. *)
Definition beginLogout (canceled : option Z) (w : world) : acquireResult * option Z * world :=
  if w_closed w then (Refused (newError ErrClientClosed "logout" ""), canceled, w) else
  let c := w_client w in
  match cl_connectDone c with
  | None =>
      let w := if is_some (cl_sessionCtx c) then cancelSessionLocked w else w in
      let w' := upd_client (set_connectDone (Some (w_next w))) (set_next (S (w_next w)) w) in
      (Acquired (w_next w) w', canceled, w')
  | Some done =>
      if bool_decide (cl_state c = LoginStateReconnecting) && is_some (cl_sessionCtx c)
      then (Busy done, Some (cl_sessionGeneration c), cancelSessionLocked w)
      else (Busy done, canceled, w)
  end.

(** The exchange of [Logout] on its run: the errors of [EncodeLogout] and of
    [sendFrame], what ends the wait, and the reply found in [r.logout] after a
    closed stream. *)
Definition logoutResult (encodeErr sendErr waitErr : option goerror) (reply : option (option goerror)) : option goerror :=
  let err := match encodeErr with Some _ => encodeErr | None =>
             match sendErr with Some _ => sendErr | None => waitErr end end in
  if bool_decide (errorCode err = ErrStreamClosed) then default err reply else err.

(** ** Token warnings *)

Record tokenWarning := mkTokenWarning {
  tw_ctx : nat; tw_session : nat; tw_userID : string; tw_expiresAt : Z; tw_generation : Z }.

(** The user is read here with the session check: the check passes only in the
    session of the call, whose user does not change. *)
Definition scheduleTokenExpiryWarning (sessionCtx : nat) (generation expiresAt : Z) (w : world)
  : option tokenWarning * world :=
  if time_IsZero expiresAt || negb (cb_tokenWillExpire cb) then (None, w) else
  let ctx := w_next w in
  let w := set_next (S ctx) w in
  if negb (sessionIsCurrentLocked (w_client w) generation) then (None, cancelCtx ctx w) else
  let w := match cl_tokenWarningCancel (w_client w) with Some x => cancelCtx x w | None => w end in
  (Some (mkTokenWarning ctx sessionCtx (cl_userID (w_client w)) expiresAt generation),
   upd_client (set_tokenWarningCancel (Some ctx)) w).

(** The condition the closure of a token warning checks when it runs. *)
Definition warningCurrent (c : Client) (fn : callbackFn) : bool :=
  match fn with
  | FnTokenWillExpire _ expiresAt generation =>
      sessionIsCurrentLocked c generation && (cl_tokenExpiresAt c =? expiresAt)
  | FnConnection _ _ => true
  end.

Definition UpdateToken (token : string) (w : world) : option goerror * world :=
  if String.eqb (strings_TrimSpace token) "" then (Some (EPlain "token is empty"), w) else
  (None, cancelTokenWarning (upd_client (fun c => set_token token (set_tokenExpiresAt zeroTime c)) w)).

(** ** Threads *)

(** The variables of [reconnect]. *)
Record reconnectLocals := mkLocals {
  rl_old : nat; rl_sessionCtx : nat; rl_generation : Z; rl_userID : string;
  rl_effective : string; rl_attempt : Z; rl_state : reconnectState }.

Inductive pc :=
(* Login *)
| LoginStart (userID token : string)
| LoginBegin (userID token : string)
| LoginWait (done : nat) (userID token : string)
| LoginInstall (done : nat) (userID token : string)
| LoginEmitConnecting (done : nat) (userID : string) (epoch : Z)
| LoginResolve (done : nat) (userID : string)
| LoginConnect (done : nat) (userID : string) (resolved : dnsAnswer)
| LoginFailed (done : nat) (err : goerror)
| LoginSignal (done : nat) (err : goerror)
| LoginCommit (done : nat) (userID : string) (resolved : dnsAnswer) (r : nat) (usedIndex : Z)
| LoginSuperseded (done r : nat)
| LoginSchedule (done : nat) (userID : string) (r sessionCtx : nat) (generation expiresAt epoch : Z)
| LoginEmitConnected (done : nat) (userID : string) (r : nat) (epoch : Z)
| LoginEnd (done : nat) (res : option goerror)
(* Logout *)
| LogoutBegin (canceled : option Z)
| LogoutWait (done : nat) (canceled : option Z)
| LogoutDetach (generation : Z) (err : goerror)
| LogoutDetachEmit (userID : string) (epoch : Z) (err : goerror)
| LogoutTake (done : nat)
| LogoutExchange (done r : nat) (wasConnected : bool) (userID : string) (epoch : Z)
| LogoutShutdown (done r : nat) (wasConnected : bool) (userID : string) (epoch : Z) (res : option goerror)
| LogoutEmit (done : nat) (wasConnected : bool) (userID : string) (epoch : Z) (res : option goerror)
| LogoutEnd (done : nat) (res : option goerror)
(* Close and finalizeClose *)
| CloseStart
| CloseWait
| FinalizeShutdown (r : option nat)
| FinalizeRead
| FinalizeWait (done : option nat)
| FinalizeDrain
| FinalizeDone
(* monitor *)
| MonitorWait (r : nat)
| MonitorCheck (r : nat)
| MonitorTerminal (r : nat) (err : option goerror)
| MonitorSignal
(* reconnect *)
| ReconnectStart (old : nat)
| ReconnectEmit (l : reconnectLocals) (changed : bool) (epoch : Z) (plan : result reconnectState)
| ReconnectBackoff (l : reconnectLocals)
| ReconnectCheck (l : reconnectLocals)
| ReconnectTimer (l : reconnectLocals)
| ReconnectRecheck (l : reconnectLocals)
| ReconnectBegin (l : reconnectLocals)
| ReconnectWait (l : reconnectLocals) (done : nat)
| ReconnectOwned (l : reconnectLocals) (done : nat)
| ReconnectRefresh (l : reconnectLocals) (done : nat)
| ReconnectRefreshed (l : reconnectLocals) (done : nat) (resolved : result dnsAnswer)
| ReconnectDial (l : reconnectLocals) (done : nat)
| ReconnectFailed (l : reconnectLocals) (done : nat) (err : goerror)
| ReconnectTerminal (l : reconnectLocals) (done : option nat) (err : goerror)
| ReconnectSignal (done : option nat)
| ReconnectCommit (l : reconnectLocals) (done r : nat)
| ReconnectSuperseded (done r : nat)
| ReconnectSchedule (l : reconnectLocals) (done r : nat) (expiresAt epoch : Z)
| ReconnectEmitConnected (l : reconnectLocals) (done r : nat) (epoch : Z)
| ReconnectEnd (done : nat) (again : option reconnectLocals)
(* the timer of a token warning *)
| WarningTimer (t : tokenWarning)
| WarningEpoch (t : tokenWarning)
| WarningEmit (t : tokenWarning) (epoch : Z)
| Returned (res : option goerror).

(** What the environment chooses in a step. *)
Inductive choice :=
| Go                                             (* nothing to choose *)
| CtxDone (err : goerror)                        (* the context of the select or of the check is done *)
| Resolved (answer : result dnsAnswer)           (* resolveCachedEndpointCandidates *)
| Connected (endpoint : string) (p : provisionState) (usedIndex : Z)
| ConnectFailed (err : goerror)
| Discarded (endpoint : string) (err : goerror)  (* a run of the attempt that failed *)
| Replied (encodeErr sendErr waitErr : option goerror) (reply : option (option goerror))
| At (now : Z).                                  (* the clock *)

Definition reconnectStableWindow : Z := 5 * 60 * time_Second.

(** The check at several points of [reconnect]. *)
Definition isCurrent (w : world) (l : reconnectLocals) : bool :=
  negb (w_closed w) && bool_decide (cl_run (w_client w) = Some (rl_old l))
  && bool_decide (cl_state (w_client w) = LoginStateReconnecting)
  && sessionIsCurrentLocked (w_client w) (rl_generation l).

Definition set_rc (st : reconnectState) (l : reconnectLocals) : reconnectLocals :=
  mkLocals (rl_old l) (rl_sessionCtx l) (rl_generation l) (rl_userID l) (rl_effective l) (rl_attempt l) st.

Definition nextAttempt (l : reconnectLocals) : reconnectLocals :=
  mkLocals (rl_old l) (rl_sessionCtx l) (rl_generation l) (rl_userID l) (rl_effective l) (i64 (rl_attempt l + 1)) (rl_state l).

Definition installCandidates (hosts : list string) (cursor dnsGeneration : Z) (c : Client) : Client :=
  set_msyncHosts hosts (set_msyncCursor cursor (set_dnsGeneration dnsGeneration c)).

(** The world after a step, where the thread goes on, and the goroutines it
    starts. *)
Definition outcome : Type := world * pc * list pc.

Definition to (w : world) (p : pc) : option outcome := Some (w, p, []).

Definition loginStep (ch : choice) (w : world) (p : pc) : option outcome :=
  match p, ch with
  | LoginStart userID token, Go =>
      if String.eqb (strings_TrimSpace userID) ""
      then to w (Returned (Some (newError ErrNotLoggedIn "login" "user ID is empty"))) else
      if String.eqb (strings_TrimSpace token) ""
      then to w (Returned (Some (newError ErrNotLoggedIn "login" "token is empty"))) else
      to w (LoginBegin userID token)
  | LoginBegin _ _, CtxDone err => to w (Returned (Some err))
  | LoginBegin userID token, Go =>
      match beginConnect "login" w with
      | Acquired done w => to w (LoginInstall done userID token)
      | Refused err => to w (Returned (Some err))
      | Busy done => to w (LoginWait done userID token)
      end
  | LoginWait _ _ _, CtxDone err => to w (Returned (Some err))
  | LoginWait done userID token, Go => if ended w done then to w (LoginBegin userID token) else None
  | LoginInstall done userID token, Go =>
      if w_closed w then to w (LoginEnd done (Some (newError ErrClientClosed "login" ""))) else
      if is_some (cs_terminalCallback (sy_state (w_cb w)))
      then to w (LoginEnd done (Some (newError ErrCallbackBacklog "login" "terminal callback has not been dispatched"))) else
      if negb (bool_decide (cl_state (w_client w) = LoginStateLogout))
      then to w (LoginEnd done (Some (newError ErrAlreadyLoggedIn "login" "client is already active"))) else
      to (upd_client (fun c =>
            set_state LoginStateLoggingIn (set_connState ConnStateConnecting (set_userID userID (set_token token
            (set_lastErr None (set_tokenExpiresAt zeroTime (set_backoffAttempt 0 c))))))) w)
         (LoginEmitConnecting done userID (epochOf w))
  | LoginEmitConnecting done userID epoch, Go =>
      to (emitState true epoch userID ConnStateConnecting w) (LoginResolve done userID)
  | LoginResolve done _, Resolved (Err err) => to w (LoginFailed done err)
  | LoginResolve done userID, Resolved (Ok resolved) => to w (LoginConnect done userID resolved)
  | LoginConnect done _ _, ConnectFailed err => to w (LoginFailed done err)
  | LoginConnect _ _ _, Discarded ep err => to (discardedRun ep err w) p
  | LoginConnect done userID resolved, Connected ep prov usedIndex =>
      let '(r, w) := newRun ep prov w in to w (LoginCommit done userID resolved r usedIndex)
  | LoginFailed done err, Go =>
      let '(published, w) := recordTerminalForRunSession None None (Some err) w in
      to w (if published : bool then LoginSignal done err else LoginEnd done (Some err))
  | LoginSignal done err, Go => to (callback OpSignal w) (LoginEnd done (Some err))
  | LoginCommit done userID resolved r usedIndex, At now =>
      if w_closed w then to w (LoginSuperseded done r) else
      match w_runs w !! r with
      | None => None
      | Some cn =>
          let w := applyProvisionLocked (cn_provision cn) w in
          let '(ctx, gen, w) := startSessionLocked w in
          let w := upd_client (fun c =>
            set_run (Some r) (set_state LoginStateLoggedIn (set_connState ConnStateConnected (set_msyncHost (cn_endpoint cn)
            (installCandidates (da_wss resolved) (nextCandidateCursor usedIndex (zlen (da_wss resolved)))
               (da_generation resolved) (set_restBase (da_rest resolved) (set_lastStableConnect now c))))))) w in
          to w (LoginSchedule done userID r ctx gen (cl_tokenExpiresAt (w_client w)) (epochOf w))
      end
  | LoginSuperseded done r, Go =>
      to (failRun r (newError ErrClientClosed "login" "closed while connecting") w)
         (LoginEnd done (Some (newError ErrClientClosed "login" "")))
  | LoginSchedule done userID r ctx gen expiresAt epoch, Go =>
      let '(timer, w) := scheduleTokenExpiryWarning ctx gen expiresAt w in
      Some (w, LoginEmitConnected done userID r epoch, match timer with Some t => [WarningTimer t] | None => [] end)
  | LoginEmitConnected done userID r epoch, Go =>
      Some (emitState true epoch userID ConnStateConnected w, LoginEnd done None, [MonitorWait r])
  | LoginEnd done res, Go => w ← endConnect done w; to w (Returned res)
  | _, _ => None
  end.

Definition logoutStep (ch : choice) (w : world) (p : pc) : option outcome :=
  match p, ch with
  | LogoutBegin canceled, CtxDone err | LogoutWait _ canceled, CtxDone err =>
      to w match canceled with Some gen => LogoutDetach gen err | None => Returned (Some err) end
  | LogoutBegin canceled, Go =>
      match beginLogout canceled w with
      | (Acquired done _, _, w) => to w (LogoutTake done)
      | (Refused err, _, w) => to w (Returned (Some err))
      | (Busy done, canceled, w) => to w (LogoutWait done canceled)
      end
  | LogoutWait done canceled, Go => if ended w done then to w (LogoutBegin canceled) else None
  | LogoutDetach gen err, Go =>
      match detachCanceledSessionForLogout gen w with
      | (Some (userID, epoch), w) => to w (LogoutDetachEmit userID epoch err)
      | (None, w) => to w (Returned (Some err))
      end
  | LogoutDetachEmit userID epoch err, Go =>
      to (callback (OpEmitAt epoch (FnConnection userID ConnStateDisconnected)) w) (Returned (Some err))
  | LogoutTake done, Go =>
      if w_closed w then to w (LogoutEnd done (Some (newError ErrClientClosed "logout" ""))) else
      let c := w_client w in
      let wasConnected := negb (bool_decide (cl_connState c = ConnStateDisconnected)) in
      let userID := cl_userID c in
      let w := callback OpBump (cancelTokenWarning (upd_client clearSession w)) in
      to w match cl_run c with
           | None => LogoutEmit done wasConnected userID (epochOf w) None
           | Some r => LogoutExchange done r wasConnected userID (epochOf w)
           end
  | LogoutExchange done r was userID epoch, Replied encodeErr sendErr waitErr reply =>
      to w (LogoutShutdown done r was userID epoch (logoutResult encodeErr sendErr waitErr reply))
  | LogoutShutdown done r was userID epoch res, Go =>
      to (failRun r (newError ErrStreamClosed "logout" "session ended") w) (LogoutEmit done was userID epoch res)
  | LogoutEmit done was userID epoch res, Go =>
      to (emitState was epoch userID ConnStateDisconnected w) (LogoutEnd done res)
  | LogoutEnd done res, Go => w ← endConnect done w; to w (Returned res)
  | _, _ => None
  end.

Definition closeStep (ch : choice) (w : world) (p : pc) : option outcome :=
  match p, ch with
  | CloseStart, Go =>
      if w_closed w then to w CloseWait else
      let '(r, w) := closeClient w in Some (w, CloseWait, [FinalizeShutdown r])
  | CloseWait, CtxDone err => to w (Returned (Some err))
  | CloseWait, Go => if w_closeDone w then to w (Returned None) else None
  | FinalizeShutdown r, Go =>
      to match r with Some r => failRun r (newError ErrClientClosed "close" "") w | None => w end FinalizeRead
  | FinalizeRead, Go => to w (FinalizeWait (cl_connectDone (w_client w)))
  | FinalizeWait None, Go => to w FinalizeDrain
  | FinalizeWait (Some done), Go => if ended w done then to w FinalizeDrain else None
  | FinalizeDrain, Go => to (set_codecClosed true w) FinalizeDone   (* the DNS flights, the batches, the codec *)
  | FinalizeDone, Go => to (set_closeDone true w) (Returned None)
  | _, _ => None
  end.

Definition monitorStep (ch : choice) (w : world) (p : pc) : option outcome :=
  match p, ch with
  | MonitorWait r, Go => if runDone w r then to w (MonitorCheck r) else None
  | MonitorCheck r, Go =>
      let err := cl_lastErr (w_client w) in
      if negb (bool_decide (cl_run (w_client w) = Some r)) || w_closed w then to w (Returned None) else
      if isTerminal err || disableReconnect then to w (MonitorTerminal r err) else to w (ReconnectStart r)
  | MonitorTerminal r err, Go =>
      let '(published, w) := recordTerminalForRunSession (Some r) None err w in
      to w (if published : bool then MonitorSignal else Returned None)
  | MonitorSignal, Go => to (callback OpSignal w) (Returned None)
  | _, _ => None
  end.

(** A check of [sessionCtx.Err()] or of [isClosed] and the critical section after
    it are two instants: [Go] is also possible when the context is done, or the
    Client closed, by now. *)
Definition reconnectStep (ch : choice) (w : world) (p : pc) : option outcome :=
  match p, ch with
  | ReconnectStart old, Go =>
      let c := w_client w in
      match cl_sessionCtx c with
      | None => to w (Returned None)
      | Some ctx =>
          if w_closed w || negb (bool_decide (cl_run c = Some old)) || bool_decide (cl_state c = LoginStateLogout)
          then to w (Returned None) else
          let changed := negb (bool_decide (cl_connState c = ConnStateReconnecting)) in
          let plan := reconnectStart url_Parse url_String (cl_msyncHost c)
                        match w_runs w !! old with Some cn => cn_endpoint cn | None => "" end
                        (cl_msyncHosts c) (cl_msyncCursor c) (cl_dnsGeneration c) (cl_lastErr c) in
          let l := mkLocals old ctx (cl_sessionGeneration c) (cl_userID c) (cl_msyncHost c) 0
                     (mkReconnect [] 0 0 (newEndpointRound [] 0) "" 0 false) in
          to (upd_client (fun c => set_state LoginStateReconnecting (set_connState ConnStateReconnecting c)) w)
             (ReconnectEmit l changed (epochOf w) plan)
      end
  | ReconnectEmit l changed epoch plan, Go =>
      to (emitState changed epoch (rl_userID l) ConnStateReconnecting w)
         match plan with
         | Ok st => ReconnectBackoff (set_rc st l)
         | Err err => ReconnectTerminal l None err
         end
  | ReconnectBackoff l, At now =>
      let last := cl_lastStableConnect (w_client w) in
      let w := if (last =? 0) || (Z.max min_int64 (Z.min max_int64 (now - last)) >? reconnectStableWindow)
               then upd_client (set_backoffAttempt 0) w else w in
      to w (ReconnectCheck (mkLocals (rl_old l) (rl_sessionCtx l) (rl_generation l) (rl_userID l) (rl_effective l)
                              (cl_backoffAttempt (w_client w) + 1) (rl_state l)))
  | ReconnectCheck l, Go =>
      let w := upd_client (set_backoffAttempt (rl_attempt l mod 2 ^ 32)) w in
      to w (if isCurrent w l then ReconnectTimer l else Returned None)
  | ReconnectTimer l, Go => to w (ReconnectRecheck l)
  | ReconnectTimer l, CtxDone _ => if ctxDone w (rl_sessionCtx l) then to w (Returned None) else None
  | ReconnectRecheck l, Go => to w (if isCurrent w l then ReconnectBegin l else Returned None)
  | ReconnectBegin l, CtxDone _ => if ctxDone w (rl_sessionCtx l) then to w (Returned None) else None
  | ReconnectBegin l, Go =>
      match beginConnect "reconnect" w with
      | Acquired done w => to w (ReconnectOwned l done)
      | Refused _ => to w (Returned None)
      | Busy done => to w (ReconnectWait l done)
      end
  | ReconnectWait l done, CtxDone _ => if ctxDone w (rl_sessionCtx l) then to w (Returned None) else None
  | ReconnectWait l done, Go => if ended w done then to w (ReconnectBegin l) else None
  | ReconnectOwned l done, Go =>
      to w (if negb (isCurrent w l) then ReconnectEnd done None
            else if rc_needRefresh (rl_state l) then ReconnectRefresh l done else ReconnectDial l done)
  | ReconnectRefresh l done, Resolved answer =>
      to w (ReconnectRefreshed match answer with Ok a => set_rc (refreshCandidates a) l | Err _ => l end done answer)
  | ReconnectRefreshed l done (Err _), CtxDone _ =>
      if ctxDone w (rl_sessionCtx l) then to w (ReconnectEnd done None) else None
  | ReconnectRefreshed l done (Err err), Go =>
      to (upd_client (set_lastErr (Some err)) w)
         (if isTerminal (Some err) then ReconnectTerminal l (Some done) err else ReconnectEnd done (Some (nextAttempt l)))
  | ReconnectRefreshed l done (Ok answer), Go =>
      let st := rl_state l in
      let w := if bool_decide (cl_run (w_client w) = Some (rl_old l))
                  && bool_decide (cl_state (w_client w) = LoginStateReconnecting)
               then upd_client (fun c => set_restBase (da_rest answer)
                      (installCandidates (rc_hosts st) (rc_cursor st) (rc_dnsGeneration st) c)) w
               else w in
      to w (ReconnectDial l done)
  | ReconnectDial l done, ConnectFailed err => to w (ReconnectFailed l done err)
  | ReconnectDial l done, Discarded ep err => to (discardedRun ep err w) p
  | ReconnectDial l done, Connected ep prov _ => let '(r, w) := newRun ep prov w in to w (ReconnectCommit l done r)
  | ReconnectFailed l done _, CtxDone _ =>
      if ctxDone w (rl_sessionCtx l) then to w (ReconnectEnd done None) else None
  | ReconnectFailed l done err, Go =>
      to (upd_client (set_lastErr (Some err)) w)
         match attemptEndpoint (rl_effective l) (Err err) (rl_state l) with
         | Endpoints.ReconnectTerminal err => ReconnectTerminal l (Some done) err
         | ReconnectRetry _ st => ReconnectEnd done (Some (nextAttempt (set_rc st l)))
         | ReconnectDone _ _ _ _ => ReconnectEnd done None
         end
  | ReconnectTerminal l done err, Go =>
      let '(published, w) := recordTerminalForRunSession (Some (rl_old l)) (Some (rl_generation l)) (Some err) w in
      to w (if published : bool then ReconnectSignal done
            else match done with Some done => ReconnectEnd done None | None => Returned None end)
  | ReconnectSignal done, Go =>
      to (callback OpSignal w) match done with Some done => ReconnectEnd done None | None => Returned None end
  | ReconnectCommit l done r, At now =>
      if negb (isCurrent w l) || ctxDone w (rl_sessionCtx l) then to w (ReconnectSuperseded done r) else
      match w_runs w !! r with
      | None => None
      | Some cn =>
          let st := rl_state l in
          let cursor := if rc_endpointIndex st >=? 0
                        then nextCandidateCursor (rc_endpointIndex st) (zlen (rc_hosts st)) else rc_cursor st in
          let w := upd_client (fun c =>
            set_run (Some r) (set_state LoginStateLoggedIn (set_connState ConnStateConnected (set_msyncHost (cn_endpoint cn)
            (installCandidates (rc_hosts st) cursor (rc_dnsGeneration st) (set_lastStableConnect now c))))))
            (applyProvisionLocked (cn_provision cn) w) in
          to w (ReconnectSchedule l done r (cl_tokenExpiresAt (w_client w)) (epochOf w))
      end
  | ReconnectSuperseded done r, Go =>
      to (failRun r (newError ErrClientClosed "reconnect" "superseded") w) (ReconnectEnd done None)
  | ReconnectSchedule l done r expiresAt epoch, Go =>
      let '(timer, w) := scheduleTokenExpiryWarning (rl_sessionCtx l) (rl_generation l) expiresAt w in
      Some (w, ReconnectEmitConnected l done r epoch, match timer with Some t => [WarningTimer t] | None => [] end)
  | ReconnectEmitConnected l done r epoch, Go =>
      Some (emitState true epoch (rl_userID l) ConnStateConnected w, ReconnectEnd done None, [MonitorWait r])
  | ReconnectEnd done again, Go =>
      w ← endConnect done w; to w match again with Some l => ReconnectCheck l | None => Returned None end
  | _, _ => None
  end.

Definition warningStep (ch : choice) (w : world) (p : pc) : option outcome :=
  match p, ch with
  | WarningTimer t, Go => to w (WarningEpoch t)
  | WarningTimer t, CtxDone _ =>
      if ctxDone w (tw_ctx t) || ctxDone w (tw_session t) then to w (Returned None) else None
  | WarningEpoch t, Go => to w (WarningEmit t (epochOf w))
  | WarningEmit t epoch, Go =>
      to (callback (OpEmitAt epoch (FnTokenWillExpire (tw_userID t) (tw_expiresAt t) (tw_generation t))) w) (Returned None)
  | _, _ => None
  end.

Definition threadStep (ch : choice) (w : world) (p : pc) : option outcome :=
  match loginStep ch w p with Some o => Some o | None =>
  match logoutStep ch w p with Some o => Some o | None =>
  match closeStep ch w p with Some o => Some o | None =>
  match monitorStep ch w p with Some o => Some o | None =>
  match reconnectStep ch w p with Some o => Some o | None => warningStep ch w p end end end end end.

(** ** The system *)

Record lifeSys := mkLife { ls_world : world; ls_threads : list pc }.

Inductive lifeOp :=
| LifeCall (p : pc)                          (* a call of Login, Logout or Close *)
| LifeThread (t : nat) (ch : choice)
| LifeRunFails (r : nat) (err : goerror)     (* a pump of the run fails it *)
| LifeUpdateToken (token : string)
| LifeDispatch (ch : dispChoice).            (* dispatchEvents *)

Definition isCall (p : pc) : bool :=
  match p with LoginStart _ _ | LogoutBegin None | CloseStart => true | _ => false end.

(** The dispatcher evaluates the condition of a warning itself. *)
Definition dispatchChoice (w : world) (ch : dispChoice) : dispChoice :=
  match ch, dp_pc (sy_disp (w_cb w)) with
  | NoChoice _, DispCall _ ev => NoChoice (warningCurrent (w_client w) (ev_fn ev))
  | _, _ => ch
  end.

Definition lifeStep (s : lifeSys) (op : lifeOp) : option lifeSys :=
  match op with
  | LifeCall p => if isCall p then Some (mkLife (ls_world s) (ls_threads s ++ [p])) else None
  | LifeThread t ch =>
      p ← ls_threads s !! t;
      '(w, p, spawned) ← threadStep ch (ls_world s) p;
      Some (mkLife w (<[t := p]> (ls_threads s) ++ spawned))
  | LifeRunFails r err => Some (mkLife (failRun r err (ls_world s)) (ls_threads s))
  | LifeUpdateToken token => Some (mkLife (snd (UpdateToken token (ls_world s))) (ls_threads s))
  | LifeDispatch ch =>
      c ← callbackStep cb (w_cb (ls_world s)) (OpDispatch (dispatchChoice (ls_world s) ch));
      Some (mkLife (set_cb c (ls_world s)) (ls_threads s))
  end.

Fixpoint lifeRun (s : lifeSys) (ops : list lifeOp) : option lifeSys :=
  match ops with
  | [] => Some s
  | op :: ops => s' ← lifeStep s op; lifeRun s' ops
  end.

Definition startLife : lifeSys := mkLife newWorld [].
End Lifecycle.
