(* ===== verification/LifecycleInvariant.v ===== *)
(** * The invariants of the lifecycle

    What holds of the world and of the threads of Lifecycle.v through any
    interleaving: the consistency of the Client ([client_ok]), the assertion of
    each thread at its program counter ([ok]), and the responsibilities: who owns
    the lifecycle, who holds each live run, who will act on the session.

    A step is summarised once by [stepFacts] (what it guarantees to the other
    threads, what its own thread asserts next); the invariant of the system
    follows from the summary alone. *)
From Stdlib Require Import String.
From S2P Require Import Prelude Protocol Errors GoStrings Config Callbacks Endpoints Identifiers Provisioning Lifecycle.
Local Open Scope string_scope.
Local Open Scope Z_scope.

(** ** What a program counter means *)

(** The channel of the lifecycle the thread owns. *)
Definition owns (p : pc) : option nat :=
  match p with
  | LoginInstall d _ _ | LoginEmitConnecting d _ _ | LoginResolve d _ | LoginConnect d _ _ | LoginFailed d _
  | LoginSignal d _ | LoginCommit d _ _ _ _ | LoginSuperseded d _ | LoginSchedule d _ _ _ _ _ _
  | LoginEmitConnected d _ _ _ | LoginEnd d _ | LogoutTake d | LogoutExchange d _ _ _ _ | LogoutShutdown d _ _ _ _ _
  | LogoutEmit d _ _ _ _ | LogoutEnd d _ | ReconnectOwned _ d | ReconnectRefresh _ d | ReconnectRefreshed _ d _
  | ReconnectDial _ d | ReconnectFailed _ d _ | ReconnectTerminal _ (Some d) _ | ReconnectSignal (Some d)
  | ReconnectCommit _ d _ | ReconnectSuperseded d _ | ReconnectSchedule _ d _ _ _ | ReconnectEmitConnected _ d _ _
  | ReconnectEnd d _ => Some d
  | _ => None
  end.

(** The run the thread has to install or to shut down. *)
Definition holds (p : pc) : option nat :=
  match p with
  | LoginCommit _ _ _ r _ | LoginSuperseded _ r | LogoutExchange _ r _ _ _ | LogoutShutdown _ r _ _ _ _
  | FinalizeShutdown (Some r) | ReconnectCommit _ _ r | ReconnectSuperseded _ r => Some r
  | _ => None
  end.

(** A Login that has not decided its session yet. *)
Definition loggingIn (p : pc) : bool :=
  match p with
  | LoginEmitConnecting _ _ _ | LoginResolve _ _ | LoginConnect _ _ _ | LoginFailed _ _ | LoginCommit _ _ _ _ _ => true
  | _ => false
  end.

Definition takes (p : pc) : bool := match p with LogoutTake _ => true | _ => false end.

(** The run whose end the thread will act on. *)
Definition watches (p : pc) : option nat :=
  match p with
  | MonitorWait r | MonitorCheck r | MonitorTerminal r _ | ReconnectStart r | LoginSchedule _ _ r _ _ _ _
  | LoginEmitConnected _ _ r _ | ReconnectSchedule _ _ r _ _ | ReconnectEmitConnected _ _ r _ => Some r
  | _ => None
  end.

(** The session the thread is reconnecting. *)
Definition drives (p : pc) : option reconnectLocals :=
  match p with
  | ReconnectEmit l _ _ _ | ReconnectBackoff l | ReconnectCheck l | ReconnectTimer l | ReconnectRecheck l | ReconnectBegin l
  | ReconnectWait l _ | ReconnectOwned l _ | ReconnectRefresh l _ | ReconnectRefreshed l _ _ | ReconnectDial l _
  | ReconnectFailed l _ _ | ReconnectTerminal l _ _ | ReconnectCommit l _ _ | ReconnectEnd _ (Some l) => Some l
  | _ => None
  end.

(** The session generation a Logout cancelled and has to end. *)
Definition detaches (p : pc) : option Z :=
  match p with
  | LogoutBegin c | LogoutWait _ c => c
  | LogoutDetach gen _ => Some gen
  | _ => None
  end.

(** A run the thread knows to be done. *)
Definition ended_run (p : pc) : option nat :=
  match p with
  | MonitorCheck r | MonitorTerminal r _ | ReconnectStart r => Some r
  | _ => rl_old <$> drives p
  end.

Definition finalizes (p : pc) : bool :=
  match p with
  | FinalizeShutdown _ | FinalizeRead | FinalizeWait _ | FinalizeDrain | FinalizeDone => true
  | _ => false
  end.

(** ** The world *)

Definition isDone (w : world) (r : nat) : Prop := exists cn, w_runs w !! r = Some cn /\ cn_done cn = true.

(** A closed, cleared or not yet established session. *)
Definition noSession (c : Client) : Prop :=
  cl_run c = None /\ cl_sessionCtx c = None /\ cl_tokenWarningCancel c = None /\ cl_tokenExpiresAt c = zeroTime.

Definition stateOk (w : world) : Prop :=
  let c := w_client w in
  match cl_state c with
  | LoginStateLogout =>
      noSession c /\ cl_connState c = ConnStateDisconnected /\ cl_userID c = "" /\ cl_sessionID c = "" /\
      cl_msyncHost c = "" /\ cl_msyncHosts c = [] /\ cl_restBase c = "" /\ cl_msyncCursor c = 0 /\ cl_dnsGeneration c = 0
  | LoginStateLoggingIn => noSession c /\ cl_connState c = ConnStateConnecting
  | LoginStateLoggedIn =>
      cl_connState c = ConnStateConnected /\ exists r, cl_run c = Some r /\ (r < length (w_runs w))%nat
  | LoginStateReconnecting =>
      cl_connState c = ConnStateReconnecting /\ exists r, cl_run c = Some r /\ isDone w r
  end.

(** The contexts: what is in use is known, distinct, and the session's is not
    cancelled. *)
Record ctxsOk (w : world) : Prop := {
  cx_old : forall x, x ∈ w_cancelled w -> (x < w_next w)%nat;
  cx_session : forall x, cl_sessionCtx (w_client w) = Some x -> (x < w_next w)%nat /\ x ∉ w_cancelled w;
  cx_warning : forall y, cl_tokenWarningCancel (w_client w) = Some y ->
    (y < w_next w)%nat /\ cl_sessionCtx (w_client w) <> Some y }.

(** After [n] steps. *)
Record client_ok (n : nat) (w : world) : Prop := {
  co_state : stateOk w;
  co_ctxs : ctxsOk w;
  co_closed : w_closed w = true -> cl_state (w_client w) = LoginStateLogout;
  co_gen : 0 <= cl_sessionGeneration (w_client w) <= Z.of_nat n;
  co_gen_pos : is_Some (cl_sessionCtx (w_client w)) -> cl_sessionGeneration (w_client w) <> 0;
  co_codec : w_codecClosed w = true -> w_closed w = true /\ cl_connectDone (w_client w) = None;
  co_closeDone : w_closeDone w = true -> w_codecClosed w = true }.

(** ** The assertion of a thread *)

Definition finalOk (w : world) (p : pc) : Prop :=
  match p with
  | FinalizeShutdown _ | FinalizeRead => w_closed w = true /\ w_codecClosed w = false
  | FinalizeWait (Some d) => (w_closed w = true /\ w_codecClosed w = false) /\
      (cl_connectDone (w_client w) = Some d \/ cl_connectDone (w_client w) = None)
  | FinalizeWait None | FinalizeDrain =>
      (w_closed w = true /\ w_codecClosed w = false) /\ cl_connectDone (w_client w) = None
  | FinalizeDone => w_codecClosed w = true
  | _ => True
  end.

Record ok (w : world) (p : pc) : Prop := {
  ok_owns : forall d, owns p = Some d -> cl_connectDone (w_client w) = Some d;
  ok_login : loggingIn p = true -> w_closed w = true \/ cl_state (w_client w) = LoginStateLoggingIn;
  ok_takes : takes p = true -> w_closed w = true \/ cl_sessionCtx (w_client w) = None;
  ok_holds : forall r, holds p = Some r -> (r < length (w_runs w))%nat;
  ok_watches : forall r, watches p = Some r -> (r < length (w_runs w))%nat;
  ok_ended : forall r, ended_run p = Some r -> isDone w r;
  ok_final : finalOk w p }.

(** ** What a step guarantees to the others *)

Record guar (p : pc) (w w' : world) : Prop := {
  gu_closed : w_closed w = true -> w_closed w' = true;
  gu_codec : w_codecClosed w = true -> w_codecClosed w' = true;
  gu_closeDone : w_closeDone w = true -> w_closeDone w' = true;
  gu_drained : w_codecClosed w' = true -> w_codecClosed w = true \/ finalizes p = true;
  gu_runs : forall r cn, w_runs w !! r = Some cn -> exists cn', w_runs w' !! r = Some cn' /\
    (cn_done cn = true -> cn_done cn' = true);
  gu_done : cl_connectDone (w_client w') = cl_connectDone (w_client w) \/
    (cl_connectDone (w_client w) = None /\ w_closed w = false) \/
    (is_Some (owns p) /\ cl_connectDone (w_client w') = None);
  gu_login : cl_state (w_client w) = LoginStateLoggingIn ->
    w_closed w' = true \/ cl_state (w_client w') = LoginStateLoggingIn \/ is_Some (owns p);
  gu_session : cl_sessionCtx (w_client w) = None -> cl_sessionCtx (w_client w') = None \/ is_Some (owns p) }.

Lemma guar_length p w w' : guar p w w' -> (length (w_runs w) <= length (w_runs w'))%nat.
Proof.
  intros H. destruct (decide (length (w_runs w') < length (w_runs w))%nat) as [Hl|]; [|lia].
  destruct (lookup_lt_is_Some_2 _ _ Hl) as [cn Hc]. destruct (gu_runs _ _ _ H _ _ Hc) as (cn' & Hc' & _).
  apply lookup_lt_Some in Hc'. lia.
Qed.

Lemma guar_isDone p w w' r : guar p w w' -> isDone w r -> isDone w' r.
Proof. intros H (cn & Hc & Hd). destruct (gu_runs _ _ _ H _ _ Hc) as (cn' & ? & ?). exists cn'. auto. Qed.

(** The assertion of a thread survives the steps of the others, who do not own
    the lifecycle if it does and do not finalize if it does. *)
Lemma ok_stable p q w w' :
  ok w q -> guar p w w' -> (is_Some (owns p) -> owns q = None) -> (finalizes p = true -> finalizes q = false) -> ok w' q.
Proof.
  intros [H1 H2 H3 H4 H5 H6 H7] Hg Hx Hy. pose proof (guar_length _ _ _ Hg). pose proof Hg as [G1 G2 _ G2' G3 G4 G5 G6].
  split.
  - intros d Hd. specialize (H1 d Hd). destruct G4 as [->|[[Hn _]|[Ho _]]]; [done|congruence|].
    by rewrite (Hx Ho) in Hd.
  - intros Hl. destruct (H2 Hl) as [?|Hs]; [auto|]. destruct (G5 Hs) as [?|[?|Ho]]; [auto|auto|].
    specialize (Hx Ho). by destruct q.
  - intros Ht. destruct (H3 Ht) as [?|Hs]; [auto|]. destruct (G6 Hs) as [?|Ho]; [auto|].
    specialize (Hx Ho). by destruct q.
  - intros r Hr. specialize (H4 r Hr). lia.
  - intros r Hr. specialize (H5 r Hr). lia.
  - intros r Hr. by eapply guar_isDone, H6.
  - assert (Hnone : w_closed w = true -> cl_connectDone (w_client w) = None -> cl_connectDone (w_client w') = None).
    { intros Hc Hn. destruct G4 as [->|[[_ Hc']|[_ Hn']]]; [done|congruence|done]. }
    assert (Hcodec : finalizes q = true -> w_codecClosed w = false -> w_codecClosed w' = false).
    { intros Hq Hf. destruct (w_codecClosed w') eqn:E; [|done]. destruct (G2' eq_refl) as [?|Hp]; [congruence|].
      by rewrite (Hy Hp) in Hq. }
    destruct q; simpl in *; auto;
      try match type of H7 with context [match ?x with _ => _ end] => destruct x end;
      first [destruct H7 as [[Hc Hf] Hd] | destruct H7 as [Hc Hf]]; (split_and?; [auto|auto|..]); auto.
    destruct Hd as [Hd|Hd]; [|auto]. destruct G4 as [->|[[Hn _]|[_ Hn]]]; [auto|congruence|auto].
Qed.

(** ** Responsibility for the session *)

Definition resp (c : Client) (q : pc) : Prop :=
  match cl_state c with
  | LoginStateLogout => False
  | LoginStateLoggingIn => loggingIn q = true
  | LoginStateLoggedIn =>
      match cl_sessionCtx c with Some _ => is_Some (cl_run c) /\ watches q = cl_run c | None => takes q = true end
  | LoginStateReconnecting =>
      match cl_sessionCtx c with
      | Some x => exists l, drives q = Some l /\ cl_run c = Some (rl_old l) /\ rl_sessionCtx l = x /\
                            rl_generation l = cl_sessionGeneration c
      | None => takes q = true \/ (cl_sessionGeneration c <> 0 /\ detaches q = Some (cl_sessionGeneration c))
      end
  end.

(** The part of the Client that [resp] reads is unchanged. *)
Definition sameCore (c c' : Client) : Prop :=
  cl_state c' = cl_state c /\ cl_run c' = cl_run c /\ cl_sessionCtx c' = cl_sessionCtx c /\
  cl_sessionGeneration c' = cl_sessionGeneration c.

Lemma resp_same c c' q : sameCore c c' -> resp c q -> resp c' q.
Proof. unfold resp. by intros (-> & -> & -> & ->). Qed.

(** A run that is not done. *)
Definition isLive (w : world) (r : nat) : Prop := exists cn, w_runs w !! r = Some cn /\ cn_done cn = false.

(** The transitions of [LoginState]. *)
Definition transition (a b : LoginState) : bool :=
  bool_decide (a = b) ||
  match a, b with
  | _, LoginStateLogout => true
  | LoginStateLogout, LoginStateLoggingIn => true
  | LoginStateLoggingIn, LoginStateLoggedIn => true
  | LoginStateLoggedIn, LoginStateReconnecting => true
  | LoginStateReconnecting, LoginStateLoggedIn => true
  | _, _ => false
  end.

Lemma transition_same a b : a = b -> transition a b = true.
Proof. intros ->. unfold transition. by rewrite bool_decide_true. Qed.

Lemma transition_logout a b : b = LoginStateLogout -> transition a b = true.
Proof. intros ->. unfold transition. destruct a; apply orb_true_r. Qed.

(** ** The summary of a step *)

Record stepFacts (n : nat) (w : world) (p : pc) (w' : world) (p' : pc) (sp : list pc) : Prop := {
  sf_client : client_ok (S n) w';
  sf_guar : guar p w w';
  sf_ok : ok w' p';
  sf_spawn : Forall (fun q => ok w' q /\ owns q = None /\ (finalizes q = true -> w_closed w = false)) sp;
  sf_spawn_final : finalizes p = true -> sp = [];
  sf_state : transition (cl_state (w_client w)) (cl_state (w_client w')) = true;
  sf_closing : w_closed w' = w_closed w \/ Exists (fun q => finalizes q = true) sp;
  sf_acquire : is_Some (owns p') -> is_Some (owns p) \/ cl_connectDone (w_client w) = None;
  sf_owner : forall d, cl_connectDone (w_client w') = Some d ->
    owns p' = Some d \/ (cl_connectDone (w_client w) = Some d /\ owns p <> Some d);
  sf_final : finalizes p' = true -> finalizes p = true;
  sf_runs : forall r, isLive w' r ->
    cl_run (w_client w') = Some r \/ holds p' = Some r \/ Exists (fun q => holds q = Some r) sp \/
    (isLive w r /\ cl_run (w_client w) <> Some r /\ holds p <> Some r);
  sf_resp : cl_state (w_client w') = LoginStateLogout \/
    Exists (resp (w_client w')) (p' :: sp) \/
    (sameCore (w_client w) (w_client w') /\
     (resp (w_client w) p -> Exists (resp (w_client w')) (p' :: sp))) }.

(** ** Quiet steps

    Most steps leave alone everything the invariants speak of, but for runs that
    are added or end and token warnings. *)
Record quiet (w w' : world) : Prop := {
  qu_closed : w_closed w' = w_closed w;
  qu_codec : w_codecClosed w' = w_codecClosed w;
  qu_closeDone : w_closeDone w' = w_closeDone w;
  qu_ctxs : ctxsOk w -> ctxsOk w';
  qu_done : cl_connectDone (w_client w') = cl_connectDone (w_client w);
  qu_core : sameCore (w_client w) (w_client w');
  qu_conn : cl_connState (w_client w') = cl_connState (w_client w);
  qu_none : noSession (w_client w) -> noSession (w_client w');
  qu_logout : cl_state (w_client w) = LoginStateLogout ->
    cl_userID (w_client w') = cl_userID (w_client w) /\ cl_sessionID (w_client w') = cl_sessionID (w_client w) /\
    cl_msyncHost (w_client w') = cl_msyncHost (w_client w) /\ cl_msyncHosts (w_client w') = cl_msyncHosts (w_client w) /\
    cl_restBase (w_client w') = cl_restBase (w_client w) /\ cl_msyncCursor (w_client w') = cl_msyncCursor (w_client w) /\
    cl_dnsGeneration (w_client w') = cl_dnsGeneration (w_client w);
  qu_runs : forall r cn, w_runs w !! r = Some cn -> exists cn', w_runs w' !! r = Some cn' /\
    (cn_done cn = true -> cn_done cn' = true) }.

Lemma ctxsOk_same w w' :
  w_next w' = w_next w -> w_cancelled w' = w_cancelled w -> cl_sessionCtx (w_client w') = cl_sessionCtx (w_client w) ->
  cl_tokenWarningCancel (w_client w') = cl_tokenWarningCancel (w_client w) -> ctxsOk w -> ctxsOk w'.
Proof. intros E1 E2 E3 E4 [? ? ?]. by split; rewrite ?E1, ?E2, ?E3, ?E4. Qed.

Lemma quiet_refl w : quiet w w.
Proof. split; try done. eauto. Qed.

Lemma quiet_guar p w w' : quiet w w' -> guar p w w'.
Proof.
  intros [H1 H2 H3 _ H6 (H7 & _ & H8 & _) _ _ _ H9]. split; rewrite ?H1, ?H2, ?H3, ?H6, ?H7, ?H8; auto.
Qed.

Lemma quiet_client n w w' : quiet w w' -> client_ok n w -> client_ok (S n) w'.
Proof.
  intros Q [C1 C2 C3 C4 C5 C6 C7]. pose proof (quiet_guar (LoginBegin "" "") _ _ Q) as G.
  pose proof (guar_length _ _ _ G) as Hlen.
  destruct Q as [H1 H2 H3 H4 H6 (K1 & K2 & K3 & K4) H7 H8 H10 H11].
  split; rewrite ?H1, ?H2, ?H3, ?H6, ?K1, ?K3, ?K4; auto.
  - unfold stateOk in *. rewrite K1, K2, H7. destruct (cl_state (w_client w)) eqn:E.
    + destruct (H10 eq_refl) as (-> & -> & -> & -> & -> & -> & ->). naive_solver.
    + naive_solver.
    + destruct C1 as (? & r & ? & ?). split; [done|]. exists r. split; [done|lia].
    + destruct C1 as (? & r & ? & Hd). split; [done|]. exists r. split; [done|]. by eapply guar_isDone.
  - lia.
Qed.

Definition sameSession (l l' : reconnectLocals) : Prop :=
  rl_old l = rl_old l' /\ rl_sessionCtx l = rl_sessionCtx l' /\ rl_generation l = rl_generation l'.

(** A thread hands its responsibility on. *)
Lemma resp_pc c p p' :
  (loggingIn p = true -> loggingIn p' = true) -> (takes p = true -> takes p' = true) ->
  (forall r, watches p = Some r -> watches p' = Some r) ->
  (forall l, drives p = Some l -> exists l', drives p' = Some l' /\ sameSession l l') ->
  (forall g, detaches p = Some g -> detaches p' = Some g) -> resp c p -> resp c p'.
Proof.
  intros H1 H2 H3 H4 H5. unfold resp. destruct (cl_state c); auto.
  - destruct (cl_sessionCtx c); auto. intros [[r Hr] Hw]. rewrite Hr in *. eauto.
  - destruct (cl_sessionCtx c); [|naive_solver].
    intros (l & Hl & Hr & Hx & Hg). destruct (H4 l Hl) as (l' & Hl' & E1 & E2 & E3).
    exists l'. rewrite <- E1, <- E2, <- E3. done.
Qed.

Lemma quiet_step n w p w' p' sp :
  client_ok n w -> ok w p -> quiet w w' -> owns p' = owns p ->
  (loggingIn p' = true -> loggingIn p = true) -> (takes p' = true -> takes p = true) ->
  (forall r, holds p' = Some r -> holds p = Some r \/ (r < length (w_runs w'))%nat) ->
  (forall r, watches p' = Some r -> watches p = Some r) ->
  (forall r, ended_run p' = Some r -> ended_run p = Some r \/ isDone w' r) ->
  finalOk w' p' ->
  Forall (fun q => owns q = None /\ loggingIn q = false /\ takes q = false /\ holds q = None /\ ended_run q = None /\
                   finalizes q = false /\ forall r, watches q = Some r -> watches p = Some r) sp ->
  (finalizes p = true -> sp = []) ->
  (finalizes p' = true -> finalizes p = true) ->
  (forall r, isLive w' r -> holds p' = Some r \/ (isLive w r /\ holds p <> Some r)) ->
  (resp (w_client w) p -> Exists (resp (w_client w)) (p' :: sp)) ->
  stepFacts n w p w' p' sp.
Proof.
  intros C O Q Eo El Et Eh Ew Ee Ef Es Es0 Efi Er Ere.
  pose proof (quiet_guar p _ _ Q) as G. pose proof (guar_length _ _ _ G) as Hlen.
  pose proof Q as [H1 H2 H3 H4 H6 HK H7 H8 H10 H11]. pose proof HK as (K1 & K2 & K3 & K4). destruct O as [O1 O2 O3 O4 O5 O6 O7].
  split; try done.
  - by eapply quiet_client.
  - split; rewrite ?Eo, ?H6, ?H1, ?K1, ?K3; auto.
    + intros r Hr. destruct (Eh r Hr) as [Hr'|]; [specialize (O4 _ Hr'); lia|done].
    + intros r Hr. specialize (O5 _ (Ew r Hr)). lia.
    + intros r Hr. destruct (Ee r Hr) as [Hr'|]; [|done]. eapply guar_isDone; [exact G|auto].
  - eapply Forall_impl; [exact Es|]. intros q (E1 & E2 & E3 & E4 & E5 & E6 & E7). split; [|split; [done|congruence]].
    split; rewrite ?E1, ?E2, ?E3, ?E4, ?E5; try done.
    + intros r Hr. specialize (O5 _ (E7 r Hr)). lia.
    + by destruct q.
  - by apply transition_same.
  - by left.
  - rewrite Eo. auto.
  - intros d Hd. rewrite Eo. rewrite H6 in Hd. destruct (decide (owns p = Some d)); auto.
  - intros r Hr. rewrite K2. destruct (Er r Hr) as [?|[? ?]]; [auto|].
    destruct (decide (cl_run (w_client w) = Some r)); [by left|by right; right; right].
  - right; right. split; [done|]. intros Hr.
    eapply Exists_impl; [exact (Ere Hr)|]. intros q. by apply resp_same.
Qed.

Lemma quiet_trans w1 w2 w3 : quiet w1 w2 -> quiet w2 w3 -> quiet w1 w3.
Proof.
  intros [A1 A2 A3 A4 A6 (A7 & A8 & A9 & A10) A11 A12 A14 A15]
         [B1 B2 B3 B4 B6 (B7 & B8 & B9 & B10) B11 B12 B14 B15].
  split; try congruence; auto.
  - unfold sameCore. split_and!; congruence.
  - intros H. destruct (A14 H) as (<- & <- & <- & <- & <- & <- & <-). apply B14. congruence.
  - intros r cn Hr. destruct (A15 _ _ Hr) as (cn' & Hr' & Hd). destruct (B15 _ _ Hr') as (cn'' & Hr'' & Hd'). eauto.
Qed.

Lemma quiet_lastErr e w : quiet w (upd_client (set_lastErr e) w).
Proof. split; simpl; try done; [by apply ctxsOk_same|eauto]. Qed.

Lemma quiet_backoff a w : quiet w (upd_client (set_backoffAttempt a) w).
Proof. split; simpl; try done; [by apply ctxsOk_same|eauto]. Qed.

Lemma quiet_candidates rest hosts cursor gen w :
  cl_state (w_client w) <> LoginStateLogout ->
  quiet w (upd_client (fun c => set_restBase rest (installCandidates hosts cursor gen c)) w).
Proof. intros Hs. split; simpl; try done; [by apply ctxsOk_same|eauto]. Qed.

Lemma quiet_setToken token w : quiet w (upd_client (fun c => set_token token (set_tokenExpiresAt zeroTime c)) w).
Proof. split; simpl; try done; [by apply ctxsOk_same|by intros (? & ? & ? & ?)|eauto]. Qed.

Lemma quiet_set_runs rs w :
  (forall r cn, w_runs w !! r = Some cn -> exists cn', rs !! r = Some cn' /\ (cn_done cn = true -> cn_done cn' = true)) ->
  quiet w (set_runs rs w).
Proof. intros H. split; simpl; try done. by apply ctxsOk_same. Qed.

Lemma quiet_failRun r e w : quiet w (failRun r e w).
Proof.
  unfold failRun. destruct (w_runs w !! r) as [[ep p []]|] eqn:E; try apply quiet_refl.
  eapply quiet_trans; [|apply quiet_lastErr]. apply quiet_set_runs. intros i cn Hi.
  destruct (decide (i = r)) as [->|]; [|rewrite list_lookup_insert_ne by done; eauto].
  rewrite list_lookup_insert_eq by (by eapply lookup_lt_Some). eauto.
Qed.

Lemma quiet_newRun ep p w : quiet w (snd (newRun ep p w)).
Proof. apply quiet_set_runs. intros i cn Hi. exists cn. split; [by apply lookup_app_l_Some|done]. Qed.

Lemma quiet_discardedRun ep e w : quiet w (discardedRun ep e w).
Proof. eapply quiet_trans; [|apply quiet_failRun]. apply quiet_newRun. Qed.

(** Which runs are live after that. *)
Lemma isLive_failRun r e w i : isLive (failRun r e w) i -> isLive w i /\ i <> r.
Proof.
  unfold failRun, isLive. destruct (w_runs w !! r) as [[ep p []]|] eqn:E; simpl; intros (cn & Hi & Hd).
  - split; [eauto|]. intros ->. rewrite E in Hi. by injection Hi as <-.
  - destruct (decide (i = r)) as [->|].
    + rewrite list_lookup_insert_eq in Hi by (by eapply lookup_lt_Some). by injection Hi as <-.
    + rewrite list_lookup_insert_ne in Hi by done. eauto.
  - split; [eauto|]. intros ->. by rewrite E in Hi.
Qed.

Lemma isLive_newRun ep p w i : isLive (snd (newRun ep p w)) i -> isLive w i \/ i = length (w_runs w).
Proof.
  unfold isLive, newRun. simpl. intros (cn & Hi & Hd). apply lookup_app_Some in Hi as [Hi|[Hl Hi]]; [eauto|].
  apply list_lookup_singleton_Some in Hi as [Hi _]. right. lia.
Qed.

Lemma isLive_discardedRun ep e w i : isLive (discardedRun ep e w) i -> isLive w i.
Proof. intros H. apply isLive_failRun in H as [H Hn]. apply isLive_newRun in H as [H|H]; done. Qed.
