(* ===== verification/LifecycleSteps.v ===== *)
(** * The steps of the lifecycle

    [stepFacts] of LifecycleInvariant.v for every step of a thread of
    Lifecycle.v: quiet steps, the steps that take and give up the lifecycle, the
    ends of a session, its start, and the token warnings. *)
From Stdlib Require Import String.
From S2P Require Import Prelude Protocol Errors GoStrings Config Callbacks Endpoints Identifiers Provisioning Lifecycle LifecycleInvariant.
Local Open Scope string_scope.
Local Open Scope Z_scope.

Section Steps.
Context (cb : callbacks) (disableReconnect : bool)
        (url_Parse : string -> result urlParts) (url_String : urlParts -> string).

Lemma dispatch_closed ch st d st' d' : dispatchStep ch st d = Some (st', d') -> cs_closed st' = cs_closed st.
Proof.
  unfold dispatchStep, claimTerminalCallback. intros H.
  destruct (dp_pc d), ch; try done; repeat case_match; simplify_eq/=; done.
Qed.

(** Only [OpClose] closes. *)
Lemma callback_closed op w : op <> OpClose -> w_closed (callback cb op w) = w_closed w.
Proof.
  intros Ho. unfold callback, w_closed. destruct op; simpl; try done.
  - apply emitAt_slot.
  - destruct (cs_closed (sy_state (w_cb w))) eqn:E; simpl; [done|].
    pose proof (publish_slot userID err cb (bumpEpoch (sy_state (w_cb w)))) as Hp.
    destruct (publishTerminalCallbackLocked _ _ _ _) as [[] st]; simpl; [by destruct Hp as (Hc & _ & e & ->)|by subst st].
  - destruct (sy_signals _); done.
  - destruct (dispatchStep _ _ _) as [[st d]|] eqn:E; simpl; [by eapply dispatch_closed|done].
Qed.

Lemma quiet_callback op w : op <> OpClose -> quiet w (callback cb op w).
Proof. intros Ho. split; try done; [by apply callback_closed|by apply ctxsOk_same|simpl; eauto]. Qed.

Lemma quiet_emitState b ep u st w : quiet w (emitState cb b ep u st w).
Proof. unfold emitState. destruct (_ && _); [by apply quiet_callback|apply quiet_refl]. Qed.

Lemma isLive_callback op w i : isLive (callback cb op w) i -> isLive w i.
Proof. done. Qed.
Lemma isLive_emitState b ep u st w i : isLive (emitState cb b ep u st w) i -> isLive w i.
Proof. unfold emitState. by destruct (_ && _). Qed.

(** A closed Client has no session. *)
Lemma closed_resp n w p : client_ok n w -> w_closed w = true -> ~ resp (w_client w) p.
Proof. intros C Hc. unfold resp. rewrite (co_closed _ _ C Hc). by intros []. Qed.

(** Discharges the obligations of [quiet_step] that speak of program counters. *)
Ltac pcs :=
  simpl; repeat constructor;
  solve [ done | auto | congruence | intros; simplify_eq/=; auto | by left
        | intros Hr; exfalso; revert Hr; eapply closed_resp; eassumption
        | first [intros ?; left; apply resp_pc | apply resp_pc]; simpl; try done;
          first [by eauto | intros ? [= <-]; eexists; split; [reflexivity|by repeat split]] ].

Lemma runs_kept w w' p p' :
  (forall r, isLive w' r -> isLive w r) -> holds p' = holds p ->
  forall r, isLive w' r -> holds p' = Some r \/ (isLive w r /\ holds p <> Some r).
Proof. intros H1 -> r Hr. destruct (decide (holds p = Some r)); auto. Qed.

Lemma runs_failed r0 e w p' p :
  holds p = Some r0 -> forall r, isLive (failRun r0 e w) r -> holds p' = Some r \/ (isLive w r /\ holds p <> Some r).
Proof. intros -> r Hr. apply isLive_failRun in Hr as [? ?]. right. split; [done|congruence]. Qed.

(** A quiet step that starts no goroutine, keeps the ownership and what the
    thread holds, and hands its responsibility on. *)
Lemma quiet_move n w p w' p' :
  client_ok n w -> ok w p -> quiet w w' -> (forall r, isLive w' r -> isLive w r) ->
  owns p' = owns p -> holds p' = holds p ->
  (loggingIn p' = true -> loggingIn p = true) -> (takes p' = true -> takes p = true) ->
  (forall r, watches p' = Some r -> watches p = Some r) ->
  (forall r, ended_run p' = Some r -> ended_run p = Some r \/ isDone w' r) ->
  finalOk w' p' -> (finalizes p' = true -> finalizes p = true) ->
  (resp (w_client w) p -> resp (w_client w) p') ->
  stepFacts n w p w' p' [].
Proof.
  intros C O Q Hl Eo Eh E1 E2 E3 E4 E5 E6 E7. apply quiet_step; try done; auto.
  - rewrite Eh. auto.
  - by apply runs_kept.
Qed.

Ltac quiet_world :=
  first [apply quiet_refl | apply quiet_emitState | apply quiet_failRun | apply quiet_discardedRun
        | apply quiet_lastErr | apply quiet_backoff | by apply quiet_callback | apply quiet_candidates; congruence].
Ltac live_world :=
  intros ?; first [exact (fun H => H) | apply isLive_emitState | apply isLive_discardedRun | by intros H; apply isLive_failRun in H as [? ?]].

(** A quiet step that [quiet_move] proves. *)
Ltac quiet_pc := apply quiet_move; [assumption|assumption|quiet_world|live_world|pcs..].

(** A quiet step in which the thread gives up the run it shut down. *)
Ltac quiet_shutdown :=
  apply quiet_step; [assumption|assumption|quiet_world|..]; first [by apply runs_failed | pcs].

(** A quiet step that hands its responsibility to the goroutine it starts. *)
Ltac quiet_spawn :=
  apply quiet_step; [assumption|assumption|quiet_world|..];
  first [ intros ?; apply Exists_cons; right; left; apply resp_pc; simpl; try done; eauto
        | intros ?; apply runs_kept; [live_world|done] | pcs ].

(** A connection attempt made a run, which the thread holds from now on. *)
Lemma connected_step n w p p' ep prov :
  client_ok n w -> ok w p -> owns p' = owns p -> holds p = None -> holds p' = Some (length (w_runs w)) ->
  (loggingIn p' = true -> loggingIn p = true) -> takes p' = false -> watches p' = None ->
  (forall r, ended_run p' = Some r -> ended_run p = Some r) ->
  finalizes p = false -> finalizes p' = false -> (resp (w_client w) p -> resp (w_client w) p') ->
  stepFacts n w p (snd (newRun ep prov w)) p' [].
Proof.
  intros C O E1 E2 E3 E4 E5 E6 E7 E8 E9 E10.
  apply quiet_step; [assumption|assumption|apply quiet_newRun|..]; try done; try congruence; try pcs.
  - intros r Hr. right. rewrite E3 in Hr. injection Hr as <-. simpl. rewrite length_app. simpl. lia.
  - by destruct p'.
  - intros r Hr. rewrite E2. apply isLive_newRun in Hr as [Hr| ->]; [right; done|by left].
Qed.

Lemma loginStep_quiet n ch w p w' p' sp :
  client_ok n w -> ok w p -> loginStep cb ch w p = Some (w', p', sp) ->
  match p with
  | LoginBegin _ _ | LoginInstall _ _ _ | LoginFailed _ _ | LoginCommit _ _ _ _ _ | LoginSchedule _ _ _ _ _ _ _ | LoginEnd _ _ => True
  | _ => stepFacts n w p w' p' sp
  end.
Proof.
  intros C O H. destruct p; try done; destruct ch; try done; unfold loginStep, to in H.
  - case_bool; [injection H as <- <- <-|case_bool; injection H as <- <- <-]; quiet_pc.
  - case_bool; [|done]. injection H as <- <- <-. quiet_pc.
  - injection H as <- <- <-. quiet_pc.
  - injection H as <- <- <-. quiet_pc.
  - destruct answer; injection H as <- <- <-; quiet_pc.
  - injection H as <- <- <-. by apply (connected_step n w _ _ endpoint p); try pcs.
  - injection H as <- <- <-. quiet_pc.
  - injection H as <- <- <-. quiet_pc.
  - injection H as <- <- <-. quiet_pc.
  - injection H as <- <- <-. quiet_shutdown.
  - injection H as <- <- <-. quiet_spawn.
Qed.

(** ** Ownership steps *)

Lemma co_weaken n w : client_ok n w -> client_ok (S n) w.
Proof. intros [H1 H2 H3 H4 H5 H6 H7]. split; try done. lia. Qed.

Definition acquired (w : world) : world := upd_client (set_connectDone (Some (w_next w))) (set_next (S (w_next w)) w).

Lemma acquired_client n w : w_closed w = false -> client_ok n w -> client_ok n (acquired w).
Proof.
  intros Hc [H1 [A1 A2 A3] H3 H4 H5 H6 H7]. split; try done.
  - split; simpl.
    + intros x Hx. specialize (A1 x Hx). lia.
    + intros x Hx. destruct (A2 x Hx). split; [lia|done].
    + intros y Hy. destruct (A3 y Hy). split; [lia|done].
  - intros Hk. specialize (H6 Hk) as [? _]. congruence.
Qed.

Lemma acquired_guar p w : w_closed w = false -> cl_connectDone (w_client w) = None -> guar p w (acquired w).
Proof. intros Hc Hn. split; simpl; auto. eauto. Qed.

Lemma acquire_step n w p p' :
  client_ok n w -> ok w p -> w_closed w = false -> cl_connectDone (w_client w) = None ->
  owns p = None -> owns p' = Some (w_next w) -> loggingIn p' = false -> (takes p' = true -> cl_sessionCtx (w_client w) = None) -> holds p = None -> holds p' = None ->
  watches p' = None -> ended_run p' = ended_run p -> finalizes p = false -> finalizes p' = false ->
  (resp (w_client w) p -> resp (w_client w) p') ->
  stepFacts n w p (acquired w) p' [].
Proof.
  intros C O Hc Hn E1 E2 E3 E4 E5 E6 E7 E8 E9 E10 Hr. pose proof (acquired_guar p _ Hc Hn) as G.
  split; try done; rewrite ?E1, ?E2, ?E9, ?E10; auto; try done.
  - by apply co_weaken, acquired_client.
  - split; rewrite ?E2, ?E3, ?E6, ?E7, ?E8; try done.
    + auto.
    + intros r Hr'. eapply guar_isDone; [exact G|]. by apply O.
    + by destruct p'.
  - by apply transition_same.
  - intros r Hl. rewrite E5. destruct (decide (cl_run (w_client w) = Some r)); [by left|by right; right; right].
  - right; right. split; [done|]. intros H. left. revert H. exact Hr.
Qed.

Lemma beginConnect_spec op w :
  match beginConnect op w with
  | Acquired d w' => w_closed w = false /\ cl_connectDone (w_client w) = None /\ d = w_next w /\ w' = acquired w
  | Refused _ => w_closed w = true
  | Busy d => cl_connectDone (w_client w) = Some d
  end.
Proof. unfold beginConnect. destruct (w_closed w); [done|]. by destruct (cl_connectDone (w_client w)). Qed.

Lemma end_step n w p p' d :
  client_ok n w -> ok w p -> owns p = Some d -> loggingIn p = false -> takes p = false -> watches p = None ->
  owns p' = None -> loggingIn p' = false -> takes p' = false -> holds p = None -> holds p' = None ->
  watches p' = None -> ended_run p' = ended_run p -> finalizes p' = false ->
  (resp (w_client w) p -> resp (w_client w) p') ->
  stepFacts n w p (upd_client (set_connectDone None) w) p' [].
Proof.
  intros C O E0 F1 F2 F3 E2 E3 E4 E5 E6 E7 E8 E10 Hr.
  assert (guar p w (upd_client (set_connectDone None) w)) as G.
  { split; simpl; auto; eauto. }
  assert (finalizes p = false) as E9 by (by destruct p).
  split; try done; rewrite ?E0, ?E2, ?E9, ?E10; auto; try done.
  - destruct C as [H1 H2 H3 H4 H5 H6 H7]. split; try done; simpl.
    + by destruct H2.
    + lia.
    + intros Hk. by destruct (H6 Hk).
  - split; rewrite ?E2, ?E3, ?E4, ?E6, ?E7, ?E8; try done.
    + intros r Hr'. eapply guar_isDone; [exact G|]. by apply O.
    + by destruct p'.
  - by apply transition_same.
  - intros r Hl. rewrite E5. destruct (decide (cl_run (w_client w) = Some r)); [by left|by right; right; right].
  - right; right. split; [done|]. intros H. left. revert H. exact Hr.
Qed.

Lemma endConnect_inv d w w' : endConnect d w = Some w' -> w' = upd_client (set_connectDone None) w.
Proof. unfold endConnect. case_bool_decide; [|done]. by intros [= <-]. Qed.

(** ** The ends of a session *)

Record cleared (w w' : world) : Prop := {
  cr_state : cl_state (w_client w') = LoginStateLogout;
  cr_ok : stateOk w';
  cr_closed : w_closed w = true -> w_closed w' = true;
  cr_runs : w_runs w' = w_runs w;
  cr_done : cl_connectDone (w_client w') = cl_connectDone (w_client w);
  cr_gen : cl_sessionGeneration (w_client w') = cl_sessionGeneration (w_client w);
  cr_codec : w_codecClosed w' = w_codecClosed w;
  cr_closeDone : w_closeDone w' = w_closeDone w;
  cr_cancelled : forall x, x ∈ w_cancelled w' -> (x < w_next w')%nat }.

Lemma cleared_step n w p w' p' sp :
  client_ok n w -> ok w p -> cleared w w' -> owns p' = owns p ->
  (cl_state (w_client w) = LoginStateLoggingIn -> w_closed w' = true \/ is_Some (owns p)) ->
  loggingIn p' = false -> takes p' = false -> watches p' = None ->
  (forall r, holds p' = Some r -> (r < length (w_runs w))%nat) ->
  (forall r, ended_run p' = Some r -> ended_run p = Some r) ->
  Forall (fun q => ok w' q /\ owns q = None /\ (finalizes q = true -> w_closed w = false)) sp ->
  (w_closed w' = w_closed w \/ Exists (fun q => finalizes q = true) sp) ->
  finalizes p = false -> finalizes p' = false ->
  (forall r, isLive w r -> cl_run (w_client w) = Some r ->
     holds p' = Some r \/ Exists (fun q => holds q = Some r) sp) ->
  holds p = None ->
  stepFacts n w p w' p' sp.
Proof.
  intros C O [R1 R2 R3 R4 R5 R6 R7 R8 R9] E1 E2 E3 E4 E5 E6 E7 Es Ec F1 F2 Er Eh.
  pose proof R2 as Hst. unfold stateOk in Hst. rewrite R1 in Hst. destruct Hst as ((Hrun & Hctx & Hw & _) & _).
  assert (guar p w w') as G.
  { split; auto; [rewrite ?R7, ?R8; auto..|rewrite R4; eauto|]. intros Hl. destruct (E2 Hl); auto. }
  split; try done; rewrite ?F1, ?F2, ?Eh; auto; try done.
  - destruct C as [C1 C2 C3 C4 C5 C6 C7]. split; rewrite ?R5, ?R6, ?R7, ?R8, ?Hctx; try done.
    + split; rewrite ?Hctx, ?Hw; done.
    + lia.
    + intros Hk. destruct (C6 Hk). auto.
  - destruct O as [O1 O2 O3 O4 O5 O6 O7]. split; rewrite ?E1, ?E3, ?E4, ?E5, ?R5, ?R4; try done.
    + intros r Hr. eapply guar_isDone; [exact G|]. auto.
    + by destruct p'.
  - by apply transition_logout.
  - rewrite E1. auto.
  - intros d Hd. rewrite E1. rewrite R5 in Hd. destruct (decide (owns p = Some d)); auto.
  - intros r (cn & Hr & Hd). rewrite R4 in Hr. assert (isLive w r) as Hl by (exists cn; done).
    destruct (decide (cl_run (w_client w) = Some r)) as [Hc|]; [|by right; right; right].
    destruct (Er r Hl Hc); auto.
Qed.

Lemma cancelled_session n w x :
  client_ok n w -> cl_sessionCtx (w_client w) = Some x -> x ∉ w_cancelled w /\ (x < w_next w)%nat.
Proof. intros C H. destruct (cx_session _ (co_ctxs _ _ C) _ H). done. Qed.

(** The assignments and cancellations of the ends of a session. *)
Lemma cleared_end n w c :
  client_ok n w -> cl_connectDone c = cl_connectDone (w_client w) ->
  cl_sessionGeneration c = cl_sessionGeneration (w_client w) ->
  cl_tokenWarningCancel c = cl_tokenWarningCancel (w_client w) -> cl_sessionCtx c = cl_sessionCtx (w_client w) ->
  cleared w (cancelTokenWarning (cancelSessionLocked (set_client (clearSession c) w))).
Proof.
  intros [_ [A1 A2 A3] _ _ _ _ _] E1 E2 E3 E4.
  unfold cancelSessionLocked, cancelTokenWarning. simpl. rewrite E4.
  destruct (cl_sessionCtx (w_client w)) as [x|] eqn:Ex; simpl; rewrite E3;
    (destruct (cl_tokenWarningCancel (w_client w)) as [y|] eqn:Ey; simpl);
    (split; simpl; try done; try (by unfold stateOk, noSession; simpl; rewrite ?E3, ?E4));
    intros z Hz; repeat (apply elem_of_union in Hz as [Hz|Hz]); try (apply elem_of_singleton in Hz as ->);
    first [by apply A1 | by destruct (A2 _ eq_refl) | by destruct (A3 _ eq_refl)].
Qed.

Lemma cleared_callback w w' op : op <> OpClose -> cleared w w' -> cleared w (callback cb op w').
Proof. intros Ho [R1 R2 R3 R4 R5 R6 R7 R8 R9]. split; try done. rewrite callback_closed by done. auto. Qed.

Lemma closed_cancel w : w_closed (cancelTokenWarning (cancelSessionLocked w)) = w_closed w.
Proof.
  unfold cancelTokenWarning, cancelSessionLocked. destruct (cl_sessionCtx _); simpl; by destruct (cl_tokenWarningCancel _).
Qed.

Lemma closed_cancelWarning w : w_closed (cancelTokenWarning w) = w_closed w.
Proof. unfold cancelTokenWarning. by destruct (cl_tokenWarningCancel _). Qed.

Lemma recordTerminal_cleared n w expected session err w' published :
  client_ok n w -> recordTerminalForRunSession cb expected session err w = (published, w') ->
  (w' = w /\ published = false /\ (w_closed w = true \/ (exists r, expected = Some r /\ cl_run (w_client w) <> Some r) \/
     exists g, session = Some g /\ sessionIsCurrentLocked (w_client w) g = false)) \/
  (cleared w w' /\ w_closed w = false /\ w_closed w' = w_closed w /\ (forall r, expected = Some r -> cl_run (w_client w) = Some r)).
Proof.
  intros C. unfold recordTerminalForRunSession.
  destruct (w_closed w) eqn:Ec; simpl.
  { intros [= <- <-]. left. auto. }
  destruct (match expected with Some _ => _ | None => _ end) eqn:Ee; simpl.
  { intros [= <- <-]. left. split_and!; try done. right. left. destruct expected as [r|]; [|done].
    exists r. case_bool_decide; done. }
  destruct (match session with Some _ => _ | None => _ end) eqn:Es; simpl.
  { intros [= <- <-]. left. split_and!; try done. right. right. destruct session as [g|]; [|done].
    exists g. split; [done|]. by apply negb_true_iff. }
  intros [= _ <-]. right. split_and!; [|done| |].
  - apply cleared_callback; [done|]. by apply cleared_end with n.
  - rewrite callback_closed, closed_cancel by done. done.
  - intros r ->. case_bool_decide; done.
Qed.

(** A thread that ends the session of a run, unless it is no longer current. *)
Lemma recordTerminal_step n w p expected session err w' published p' :
  client_ok n w -> ok w p -> recordTerminalForRunSession cb expected session err w = (published, w') ->
  owns p' = owns p -> (owns p = None -> expected <> None) -> loggingIn p' = false -> takes p' = false -> watches p' = None ->
  holds p = None -> holds p' = None -> ended_run p' = None -> finalizes p = false -> finalizes p' = false ->
  (forall r, isLive w r -> cl_run (w_client w) = Some r -> expected = Some r -> False) ->
  (expected = None -> w_closed w = true \/ cl_state (w_client w) = LoginStateLoggingIn) ->
  (forall r, expected = Some r -> cl_run (w_client w) <> Some r -> ~ resp (w_client w) p) ->
  (forall g, session = Some g -> sessionIsCurrentLocked (w_client w) g = false -> ~ resp (w_client w) p) ->
  stepFacts n w p w' p' [].
Proof.
  intros C O H E1 E1' E2 E3 E4 F1 F2 E5 F3 F4 Hl Hn He Hs.
  destruct (recordTerminal_cleared _ _ _ _ _ _ _ C H) as [(-> & -> & Hw)|(R & Hc & Hc' & Hr)].
  - assert (~ resp (w_client w) p \/ w_closed w = true) as Hresp.
    { destruct Hw as [?|[(r & Hr & Hne)|(g & Hg & Hne)]]; [auto|left; eauto..]. }
    apply quiet_move; try done; try congruence; [apply quiet_refl|by destruct p'|].
    destruct Hresp as [?|Hcl]; [done|]. unfold resp. by rewrite (co_closed _ _ C Hcl).
  - apply cleared_step; try done; try congruence; [|by left|].
    + intros Hl'. right. destruct (owns p) eqn:Eo; [by eexists|]. exfalso.
      destruct expected as [r|]; [|by apply E1'].
      pose proof (co_state _ _ C) as Hst. unfold stateOk in Hst. rewrite Hl' in Hst.
      destruct Hst as ((Hrun & _) & _). rewrite (Hr r eq_refl) in Hrun. done.
    + intros r Hlr Hcr. exfalso. destruct expected as [r'|].
      * pose proof (Hr r' eq_refl). eapply Hl; [exact Hlr|exact Hcr|congruence].
      * destruct (Hn eq_refl) as [?|Hs']; [congruence|].
        pose proof (co_state _ _ C) as Hst. unfold stateOk in Hst. rewrite Hs' in Hst.
        destruct Hst as ((Hrun & _) & _). congruence.
Qed.

(** ** The starts of a session *)

(** The owner of the lifecycle installs the run it made. *)
Lemma established_step n w p w' p' r :
  client_ok n w -> ok w p -> w_closed w = false -> is_Some (owns p) -> owns p' = owns p ->
  w_closed w' = w_closed w -> w_codecClosed w' = w_codecClosed w -> w_closeDone w' = w_closeDone w ->
  w_runs w' = w_runs w -> cl_connectDone (w_client w') = cl_connectDone (w_client w) ->
  cl_state (w_client w') = LoginStateLoggedIn -> cl_connState (w_client w') = ConnStateConnected ->
  cl_run (w_client w') = Some r -> ctxsOk w' -> is_Some (cl_sessionCtx (w_client w')) ->
  0 < cl_sessionGeneration (w_client w') <= Z.of_nat (S n) ->
  holds p = Some r -> watches p' = Some r -> holds p' = None -> loggingIn p' = false -> takes p' = false ->
  ended_run p' = None -> finalizes p' = false ->
  transition (cl_state (w_client w)) LoginStateLoggedIn = true -> (forall r0, cl_run (w_client w) = Some r0 -> isDone w r0) ->
  stepFacts n w p w' p' [].
Proof.
  intros C O Hc [d Hd] E1 A1 A2 A3 A4 A5 S1 S2 S3 S4 [x S5] S6 F1 F2 F3 F4 F5 F6 F7 Htr Hold.
  assert (w_codecClosed w = false) as Hco.
  { destruct (w_codecClosed w) eqn:E; [|done]. destruct (co_codec _ _ C E). congruence. }
  assert (guar p w w') as G.
  { split; rewrite ?A1, ?A2, ?A3, ?A4, ?A5, ?Hd; eauto. }
  pose proof (ok_holds _ _ O _ F1) as Hlen.
  split; try done.
  - split; rewrite ?A1, ?A2, ?A3, ?S5; try done; try congruence.
    + unfold stateOk. rewrite S1, S3, A4. eauto.
    + lia.
    + intros _. lia.
    + apply C.
  - split; rewrite ?E1, ?F2, ?F3, ?F4, ?F5, ?F6, ?A4, ?A5; try done; [apply O|by intros ? [= <-]|by destruct p'].
  - by rewrite S1.
  - by left.
  - rewrite E1. auto.
  - intros e He. rewrite E1. rewrite A5 in He. destruct (decide (owns p = Some e)); auto.
  - congruence.
  - intros i (cn & Hi & Hd'). rewrite A4 in Hi. rewrite S3, F1. destruct (decide (i = r)) as [->|]; [by left|].
    right; right; right. split; [by exists cn|]. split; [|congruence].
    intros Hr. destruct (Hold _ Hr) as (cn' & Hi' & Hd''). congruence.
  - right; left. left. unfold resp. rewrite S1, S5, S3, F2. split; [by eexists|done].
Qed.

Lemma applyProvision_facts p w :
  let w' := applyProvisionLocked p w in
  w_closed w' = w_closed w /\ w_codecClosed w' = w_codecClosed w /\ w_closeDone w' = w_closeDone w /\ w_runs w' = w_runs w /\
  cl_connectDone (w_client w') = cl_connectDone (w_client w) /\ sameCore (w_client w) (w_client w') /\
  (cl_tokenWarningCancel (w_client w) = None -> cl_tokenWarningCancel (w_client w') = None) /\
  (ctxsOk w -> ctxsOk w').
Proof.
  unfold applyProvisionLocked. destruct (String.eqb _ _).
  { split_and!; try done. by apply ctxsOk_same. }
  unfold cancelTokenWarning. simpl. destruct (cl_tokenWarningCancel (w_client w)) as [y|] eqn:Ey; simpl.
  - split_and!; try done. intros [A1 A2 A3]. split; simpl; [|intros x Hx|done].
    + intros x [->%elem_of_singleton|Hx]%elem_of_union; [by destruct (A3 _ Ey)|auto].
    + destruct (A2 _ Hx) as [? Hn], (A3 _ Ey) as [? Hs]. split; [done|].
      intros [->%elem_of_singleton|?]%elem_of_union; congruence.
  - split_and!; try done. by apply ctxsOk_same.
Qed.

Lemma startSession_facts w :
  let '(ctx, gen, w') := startSessionLocked w in
  w_closed w' = w_closed w /\ w_codecClosed w' = w_codecClosed w /\ w_closeDone w' = w_closeDone w /\ w_runs w' = w_runs w /\
  cl_connectDone (w_client w') = cl_connectDone (w_client w) /\
  cl_sessionCtx (w_client w') = Some ctx /\ cl_sessionGeneration (w_client w') = gen /\
  gen = u64 (cl_sessionGeneration (w_client w) + 1) /\ ctx = w_next w /\
  (cl_tokenWarningCancel (w_client w) = None -> ctxsOk w -> ctxsOk w').
Proof.
  unfold startSessionLocked. destruct (cl_sessionCtx (w_client w)) as [x|] eqn:Ex; simpl; split_and!; try done;
    intros Hw [A1 A2 A3]; split; simpl; rewrite ?Hw; try done.
  - intros y [->%elem_of_singleton|Hy]%elem_of_union; [destruct (A2 _ Ex)|specialize (A1 _ Hy)]; lia.
  - intros y [= <-]. split; [lia|]. intros [Hy%elem_of_singleton|Hy]%elem_of_union; [destruct (A2 _ Ex)|specialize (A1 _ Hy)]; lia.
  - intros y Hy. specialize (A1 _ Hy). lia.
  - intros y [= <-]. split; [lia|]. intros Hy. specialize (A1 _ Hy). lia.
Qed.

Lemma noSession_of_logging n w :
  client_ok n w -> cl_state (w_client w) = LoginStateLoggingIn -> noSession (w_client w).
Proof. intros C E. pose proof (co_state _ _ C) as H. unfold stateOk in H. rewrite E in H. apply H. Qed.

(** ** Token warnings *)

Lemma quiet_cancelTokenWarning w : quiet w (cancelTokenWarning w).
Proof.
  unfold cancelTokenWarning. destruct (cl_tokenWarningCancel (w_client w)) as [y|] eqn:Ey; [|apply quiet_refl].
  split; simpl; try done; [|by intros (? & ? & ? & ?)|eauto].
  intros [A1 A2 A3]. destruct (A3 _ Ey) as [Hy Hn]. split; simpl; [|intros x Hx|done].
  - intros x [->%elem_of_singleton|Hx]%elem_of_union; auto.
  - destruct (A2 _ Hx). split; [done|]. intros [->%elem_of_singleton|?]%elem_of_union; done.
Qed.

Lemma quiet_next w : quiet w (set_next (S (w_next w)) w).
Proof.
  split; simpl; try done; [|eauto]. intros [A1 A2 A3]. split; simpl.
  - intros x Hx. specialize (A1 x Hx). lia.
  - intros x Hx. destruct (A2 x Hx). split; [lia|done].
  - intros y Hy. destruct (A3 y Hy). split; [lia|done].
Qed.

Lemma quiet_cancelFresh w x :
  (x < w_next w)%nat -> cl_sessionCtx (w_client w) <> Some x -> quiet w (cancelCtx x w).
Proof.
  intros Hx Hn. split; simpl; try done; [|eauto]. intros [A1 A2 A3]. split; simpl.
  - intros y [->%elem_of_singleton|Hy]%elem_of_union; auto.
  - intros y Hy. destruct (A2 y Hy). split; [done|]. intros [->%elem_of_singleton|?]%elem_of_union; done.
  - intros y Hy. by apply A3.
Qed.

Lemma quiet_setWarning w x :
  (x < w_next w)%nat -> is_Some (cl_sessionCtx (w_client w)) -> cl_sessionCtx (w_client w) <> Some x ->
  quiet w (upd_client (set_tokenWarningCancel (Some x)) w).
Proof.
  intros Hx [y Hy] Hn. split; simpl; try done; [| |eauto].
  - intros [A1 A2 A3]. split; simpl; try done. by intros ? [= <-].
  - intros (? & ? & ?). congruence.
Qed.

Lemma quiet_schedule ctx gen expiresAt w t w' :
  ctxsOk w -> scheduleTokenExpiryWarning cb ctx gen expiresAt w = (t, w') -> quiet w w'.
Proof.
  intros [A1 A2 A3]. unfold scheduleTokenExpiryWarning. destruct (_ || _).
  { intros [= _ <-]. apply quiet_refl. }
  assert (cl_sessionCtx (w_client w) <> Some (w_next w)) as Hf.
  { intros H. destruct (A2 _ H). lia. }
  destruct (sessionIsCurrentLocked _ _) eqn:Es; simpl; intros [= _ <-].
  - unfold sessionIsCurrentLocked in Es. apply andb_true_iff in Es as [Es _]. simpl in Es.
    destruct (cl_tokenWarningCancel (w_client w)) as [y|] eqn:Ey; simpl.
    + destruct (A3 _ eq_refl). eapply quiet_trans; [apply quiet_next|].
      eapply quiet_trans; [apply (quiet_cancelFresh _ y); simpl; [lia|done]|].
      apply quiet_setWarning; simpl; [lia| |done]. by destruct (cl_sessionCtx (w_client w)).
    + eapply quiet_trans; [apply quiet_next|]. apply quiet_setWarning; simpl; [lia| |done].
      by destruct (cl_sessionCtx (w_client w)).
  - eapply quiet_trans; [apply quiet_next|]. apply quiet_cancelFresh; simpl; [lia|done].
Qed.

Lemma isLive_schedule ctx gen expiresAt w t w' r :
  scheduleTokenExpiryWarning cb ctx gen expiresAt w = (t, w') -> isLive w' r -> isLive w r.
Proof.
  unfold scheduleTokenExpiryWarning. destruct (_ || _); [by intros [= _ <-]|].
  destruct (sessionIsCurrentLocked _ _); simpl; intros [= _ <-]; [|done].
  by destruct (cl_tokenWarningCancel (w_client w)).
Qed.

(** A thread that starts the timer of a token warning. *)
Lemma schedule_step n w p w' p' ctx gen expiresAt t :
  client_ok n w -> ok w p -> scheduleTokenExpiryWarning cb ctx gen expiresAt w = (t, w') ->
  owns p' = owns p -> holds p' = holds p -> loggingIn p' = false -> takes p' = false ->
  (forall r, watches p' = Some r -> watches p = Some r) -> ended_run p' = None -> finalizes p = false -> finalizes p' = false ->
  (resp (w_client w) p -> resp (w_client w) p') ->
  stepFacts n w p w' p' match t with Some t => [WarningTimer t] | None => [] end.
Proof.
  intros C O H E1 E2 E3 E4 E5 E6 E7 E8 Hr.
  apply quiet_step; try done; try congruence.
  - eapply quiet_schedule; [apply C|exact H].
  - rewrite E2. auto.
  - by destruct p'.
  - destruct t; repeat constructor. intros ? [=].
  - apply runs_kept; [|done]. intros r. eapply isLive_schedule. exact H.
  - intros Hp. left. auto.
Qed.

(** ** Login *)

Lemma install_step n w d userID token :
  client_ok n w -> ok w (LoginInstall d userID token) -> w_closed w = false -> cl_state (w_client w) = LoginStateLogout ->
  stepFacts n w (LoginInstall d userID token)
    (upd_client (fun c => set_state LoginStateLoggingIn (set_connState ConnStateConnecting (set_userID userID (set_token token
       (set_lastErr None (set_tokenExpiresAt zeroTime (set_backoffAttempt 0 c))))))) w)
    (LoginEmitConnecting d userID (epochOf w)) [].
Proof.
  intros C O Hc Hs. pose proof (co_state _ _ C) as Hst. unfold stateOk in Hst. rewrite Hs in Hst.
  destruct Hst as ((Hr & Hx & Hw & Ht) & _).
  split; simpl; try done; auto.
  - destruct C as [C1 C2 C3 C4 C5 C6 C7]. split; simpl; try done; [by apply ctxsOk_same with w| | ].
    + intros Hcl. unfold w_closed in *. simpl in Hcl. congruence.
    + lia.
  - split; simpl; auto. eauto.
  - split; simpl; try done; auto. apply O.
  - by rewrite Hs.
  - intros e He. left. rewrite <- He. symmetry. by apply O.
  - intros r Hl. right; right; right. split; [done|]. split; [congruence|done].
  - right; left. by left.
Qed.

Lemma loginStep_facts n ch w p w' p' sp :
  Z.of_nat (S n) < 2 ^ 64 -> client_ok n w -> ok w p -> loginStep cb ch w p = Some (w', p', sp) -> stepFacts n w p w' p' sp.
Proof.
  intros Hn C O H. pose proof (loginStep_quiet n ch w p w' p' sp C O H) as Hq.
  destruct p; try exact Hq; clear Hq; unfold loginStep, to in H; destruct ch; try done.
  - pose proof (beginConnect_spec "login" w) as Hb. destruct (beginConnect _ _).
    + destruct Hb as (Hc & Hd & -> & ->). injection H as <- <- <-. by apply acquire_step.
    + injection H as <- <- <-. quiet_pc.
    + injection H as <- <- <-. quiet_pc.
  - injection H as <- <- <-. quiet_pc.
  - destruct (w_closed w) eqn:Hc; [injection H as <- <- <-; quiet_pc|].
    destruct (is_some _); [injection H as <- <- <-; quiet_pc|].
    case_bool_decide as Hs; simpl in H; injection H as <- <- <-; [by apply install_step|quiet_pc].
  - destruct (recordTerminalForRunSession _ _ _ _ _) as [pub w1] eqn:E. injection H as <- <- <-.
    eapply recordTerminal_step; try exact E; try done; try (by destruct pub). intros _. by apply (ok_login _ _ O).
  - destruct (w_closed w) eqn:Hc.
    { injection H as <- <- <-. quiet_pc. }
    destruct (w_runs w !! r) as [cn|] eqn:Er; [|done].
    destruct (ok_login _ _ O eq_refl) as [?|Hs]; [congruence|].
    destruct (noSession_of_logging _ _ C Hs) as (Hrun & Hctx & Hwarn & _).
    pose proof (applyProvision_facts (cn_provision cn) w) as (P1 & P2 & P3 & P4 & P5 & (P6 & P7 & P8 & P9) & P10 & P11).
    set (w1 := applyProvisionLocked (cn_provision cn) w) in *.
    pose proof (startSession_facts w1) as Hf. destruct (startSessionLocked w1) as [[ctx gen] w2].
    destruct Hf as (Q1 & Q2 & Q3 & Q4 & Q5 & Q6 & Q7 & Q8 & Q9 & Q10). injection H as <- <- <-.
    pose proof (co_gen _ _ C) as Hg. rewrite P9 in Q8.
    assert (gen = cl_sessionGeneration (w_client w) + 1) as Hgen by (rewrite Q8; apply u64_id; unfold in_u64, max_uint64, two64; lia).
    apply established_step with r; simpl; try done; try congruence; eauto.
    + apply ctxsOk_same with w2; [done..|]. apply Q10; [by apply P10|]. apply P11, C.
    + rewrite Q7. lia.
    + by rewrite Hs.
  - destruct (scheduleTokenExpiryWarning _ _ _ _ _) as [t w1] eqn:E. injection H as <- <- <-.
    eapply schedule_step; try exact E; try done; eauto.
  - destruct (endConnect done w) as [w1|] eqn:E; [|done]. apply endConnect_inv in E as ->. injection H as <- <- <-.
    by apply end_step with done.
Qed.


(** ** Logout *)

Lemma active_session n w x :
  client_ok n w -> cl_sessionCtx (w_client w) = Some x ->
  w_closed w = false /\ (cl_state (w_client w) = LoginStateLoggedIn \/ cl_state (w_client w) = LoginStateReconnecting).
Proof.
  intros C Hx. pose proof (co_state _ _ C) as H. unfold stateOk in H.
  split; [destruct (w_closed w) eqn:E; [|done]; rewrite (co_closed _ _ C E) in H|destruct (cl_state (w_client w)); auto];
    destruct H as ((? & ? & ?) & ?); congruence.
Qed.

Lemma cancelSession_facts n w :
  client_ok n w -> is_Some (cl_sessionCtx (w_client w)) ->
  client_ok n (cancelSessionLocked w) /\ forall p, guar p w (cancelSessionLocked w).
Proof.
  intros C [x Hx]. pose proof (active_session _ _ _ C Hx) as [Hc Hs].
  unfold cancelSessionLocked. rewrite Hx. split.
  - clear Hc. pose proof (co_state _ _ C) as Hst. destruct C as [C1 [A1 A2 A3] C3 C4 C5 C6 C7]. split; simpl; try done.
    + unfold stateOk in *. simpl. destruct (cl_state (w_client w)), Hs; try done; naive_solver.
    + split; simpl; try done; [|intros y Hy; by destruct (A3 _ Hy)].
      intros y [->%elem_of_singleton|Hy]%elem_of_union; [by destruct (A2 _ Hx)|auto].
  - intros p. split; simpl; eauto.
Qed.

Lemma beginLogout_acquire n w p' :
  client_ok n w -> w_closed w = false -> cl_connectDone (w_client w) = None -> is_Some (cl_sessionCtx (w_client w)) ->
  forall canceled, ok w (LogoutBegin canceled) -> p' = LogoutTake (w_next w) ->
  stepFacts n w (LogoutBegin canceled) (acquired (cancelSessionLocked w)) p' [].
Proof.
  intros C Hc Hn Hx canceled O ->. destruct (cancelSession_facts _ _ C Hx) as [C' G].
  pose proof (active_session _ _ (default 0%nat (cl_sessionCtx (w_client w))) C) as Ha.
  destruct Hx as [x Hx]. rewrite Hx in Ha. destruct (Ha eq_refl) as [_ Hs].
  assert (w_next (cancelSessionLocked w) = w_next w) as En by (unfold cancelSessionLocked; by rewrite Hx).
  assert (w_runs (cancelSessionLocked w) = w_runs w) as Er by (unfold cancelSessionLocked; by rewrite Hx).
  assert (cl_sessionCtx (w_client (acquired (cancelSessionLocked w))) = None) as Ex by (unfold cancelSessionLocked; by rewrite Hx).
  split; try done.
  - apply co_weaken, acquired_client; [|done]. unfold cancelSessionLocked. by rewrite Hx.
  - unfold cancelSessionLocked. rewrite Hx. split; simpl; eauto.
  - split; simpl; try done; rewrite ?En; auto. rewrite Hx. by intros ? [= <-].
  - apply transition_same. unfold cancelSessionLocked. by rewrite Hx.
  - left. unfold cancelSessionLocked. by rewrite Hx.
  - auto.
  - simpl. rewrite Hx. auto.
  - intros r (cn & Hr & Hd). change (w_runs (cancelSessionLocked w) !! r = Some cn) in Hr. rewrite Er in Hr.
    destruct (decide (cl_run (w_client w) = Some r)); [|right; right; right; split; [by exists cn|done]].
    left. unfold cancelSessionLocked. by rewrite Hx.
  - right; left. left. unfold resp. rewrite Ex. unfold cancelSessionLocked. rewrite Hx. simpl.
    destruct Hs as [-> | ->]; auto.
Qed.

Lemma beginLogout_busy n w canceled d :
  client_ok n w -> ok w (LogoutBegin canceled) -> is_Some (cl_sessionCtx (w_client w)) ->
  cl_state (w_client w) = LoginStateReconnecting ->
  stepFacts n w (LogoutBegin canceled) (cancelSessionLocked w) (LogoutWait d (Some (cl_sessionGeneration (w_client w)))) [].
Proof.
  intros C O Hx Hs. destruct (cancelSession_facts _ _ C Hx) as [C' G]. pose proof (co_gen_pos _ _ C Hx) as Hg.
  destruct Hx as [x Hx].
  split; try done; auto.
  - by apply co_weaken.
  - apply transition_same. unfold cancelSessionLocked. by rewrite Hx.
  - left. unfold cancelSessionLocked. by rewrite Hx.
  - unfold cancelSessionLocked. rewrite Hx. simpl. auto.
  - intros r (cn & Hr & Hd). unfold cancelSessionLocked in *. rewrite Hx in *. simpl in *.
    destruct (decide (cl_run (w_client w) = Some r)); [by left|right; right; right; split; [by exists cn|done]].
  - right; left. left. unfold resp, cancelSessionLocked. rewrite Hx. simpl. rewrite Hs. right. done.
Qed.

(** The assignments of an end of a session that is cancelled already. *)
Lemma cleared_detached n w :
  client_ok n w -> cl_sessionCtx (w_client w) = None ->
  cleared w (callback cb OpBump (cancelTokenWarning (upd_client clearSession w))).
Proof.
  intros [_ [A1 A2 A3] _ _ _ _ _] Ex. apply cleared_callback; [done|].
  unfold cancelTokenWarning. simpl. destruct (cl_tokenWarningCancel (w_client w)) as [y|] eqn:Ey; simpl;
    (split; simpl; try done; try (by unfold stateOk, noSession; simpl; rewrite ?Ex, ?Ey)).
  intros z [->%elem_of_singleton|Hz]%elem_of_union; [by destruct (A3 _ eq_refl)|auto].
Qed.

Lemma resp_detach c gen err :
  resp c (LogoutDetach gen err) ->
  cl_state c = LoginStateReconnecting /\ cl_sessionCtx c = None /\ gen <> 0 /\ cl_sessionGeneration c = gen.
Proof.
  unfold resp. simpl. destruct (cl_state c), (cl_sessionCtx c); try done.
  - by intros [[r ->] ?].
  - by intros (? & ? & _).
  - intros [?|[H [= ->]]]; [done|]. by split_and!.
Qed.

Lemma detach_step n w gen err r w1 p' :
  client_ok n w -> ok w (LogoutDetach gen err) -> detachCanceledSessionForLogout cb gen w = (r, w1) ->
  (p' = Returned (Some err) \/ exists u e, p' = LogoutDetachEmit u e err) ->
  stepFacts n w (LogoutDetach gen err) w1 p' [].
Proof.
  intros C O H Hp'. unfold detachCanceledSessionForLogout in H.
  assert (owns p' = None /\ loggingIn p' = false /\ takes p' = false /\ watches p' = None /\ holds p' = None /\
          ended_run p' = None /\ finalizes p' = false /\ finalOk w p') as (K1 & K2 & K3 & K4 & K5 & K6 & K7 & K8).
  { by destruct Hp' as [->|(? & ? & ->)]. }
  destruct (_ || _ || _ || _) eqn:Eg.
  - injection H as <- <-. apply quiet_move; try done; try congruence; [apply quiet_refl|].
    intros Hr. exfalso. apply resp_detach in Hr as (Es & Ex & Hz & Hgen).
    apply Z.eqb_neq in Hz. by rewrite Es, Ex, Hgen, Z.eqb_refl, Hz, bool_decide_true in Eg.
  - apply orb_false_iff in Eg as [[[_ _]%orb_false_iff Ex]%orb_false_iff Es].
    apply negb_false_iff, bool_decide_eq_true in Es as Hs. destruct (cl_sessionCtx (w_client w)) eqn:Ex'; [done|]. injection H as _ <-.
    apply cleared_step; try done; try congruence;
      [by apply cleared_detached with n|left; by rewrite callback_closed, closed_cancelWarning|].
    intros r0 (cn & Hl & Hd) Hr. exfalso. pose proof (co_state _ _ C) as Hst. unfold stateOk in Hst. rewrite Hs in Hst.
    destruct Hst as (_ & r' & Hr' & (cn' & Hl' & Hd')). congruence.
Qed.

Lemma take_step n w d :
  client_ok n w -> ok w (LogoutTake d) -> w_closed w = false ->
  let w1 := callback cb OpBump (cancelTokenWarning (upd_client clearSession w)) in
  forall p', match cl_run (w_client w) with
    | None => exists a b c, p' = LogoutEmit d a b c None
    | Some r => exists a b c, p' = LogoutExchange d r a b c
    end -> stepFacts n w (LogoutTake d) w1 p' [].
Proof.
  intros C O Hc w1 p' Hp'. destruct (ok_takes _ _ O eq_refl) as [?|Ex]; [congruence|].
  pose proof (cleared_detached _ _ C Ex) as R.
  pose proof (co_state _ _ C) as Hst. unfold stateOk in Hst.
  assert (forall r, cl_run (w_client w) = Some r -> (r < length (w_runs w))%nat) as Hlen.
  { intros r Hr. destruct (cl_state (w_client w)).
    - destruct Hst as ((? & _) & _). congruence.
    - destruct Hst as ((? & _) & _). congruence.
    - destruct Hst as (_ & r' & ? & ?). congruence.
    - destruct Hst as (_ & r' & ? & (cn & Hl & _)). apply lookup_lt_Some in Hl. congruence. }
  destruct (cl_run (w_client w)) as [r|] eqn:Er; destruct Hp' as (a & b & c & ->);
    apply cleared_step; try done; eauto; try congruence;
    try (left; subst w1; by rewrite callback_closed, closed_cancelWarning).
  intros r0 _ Hr. left. simpl. congruence.
Qed.

Lemma logoutStep_facts n ch w p w' p' sp :
  client_ok n w -> ok w p -> logoutStep cb ch w p = Some (w', p', sp) -> stepFacts n w p w' p' sp.
Proof.
  intros C O H. destruct p; try done; unfold logoutStep, to in H; destruct ch; try done.
  - unfold beginLogout in H. destruct (w_closed w) eqn:Hc; [injection H as <- <- <-; quiet_pc|].
    destruct (cl_connectDone (w_client w)) as [d|] eqn:Hd.
    + destruct (_ && _) eqn:E; [|injection H as <- <- <-; quiet_pc].
      apply andb_true_iff in E as [Es%bool_decide_eq_true Ex]. injection H as <- <- <-.
      apply beginLogout_busy; try done. by destruct (cl_sessionCtx (w_client w)).
    + destruct (cl_sessionCtx (w_client w)) as [x|] eqn:Hx; simpl in H; injection H as <- <- <-.
      * apply (beginLogout_acquire n w _ C Hc Hd); try done; unfold cancelSessionLocked; rewrite ?Hx; by eauto.
      * apply acquire_step; try done. unfold resp. simpl. rewrite Hx. destruct (cl_state (w_client w)); try done. auto.
  - destruct canceled; injection H as <- <- <-; quiet_pc.
  - case_bool; [|done]. injection H as <- <- <-. quiet_pc.
  - destruct canceled; injection H as <- <- <-; quiet_pc.
  - destruct (detachCanceledSessionForLogout _ _ _) as [[[u e]|] w1] eqn:E; injection H as <- <- <-;
      (eapply detach_step; [exact C|exact O|exact E|]); eauto.
  - injection H as <- <- <-. quiet_pc.
  - destruct (w_closed w) eqn:Hc; [injection H as <- <- <-; quiet_pc|].
    injection H as <- <- <-. apply take_step; try done. destruct (cl_run (w_client w)); eauto.
  - injection H as <- <- <-. quiet_pc.
  - injection H as <- <- <-. quiet_shutdown.
  - injection H as <- <- <-. quiet_pc.
  - destruct (endConnect done w) as [w1|] eqn:E; [|done]. apply endConnect_inv in E as ->. injection H as <- <- <-.
    by apply end_step with done.
Qed.

(** ** Close *)

Lemma close_cleared n w :
  client_ok n w -> cleared w (snd (closeClient cb w)) /\ w_closed (snd (closeClient cb w)) = true /\
  fst (closeClient cb w) = cl_run (w_client w).
Proof.
  intros [_ [A1 A2 A3] _ _ _ _ _]. unfold closeClient, cancelSessionLocked, cancelTokenWarning. simpl.
  destruct (cl_sessionCtx (w_client w)) as [x|] eqn:Ex; simpl;
    (destruct (cl_tokenWarningCancel (w_client w)) as [y|] eqn:Ey; simpl);
    (split; [split; simpl; try done; try (by unfold stateOk, noSession; simpl; rewrite ?Ex, ?Ey)|done]);
    intros z Hz; repeat (apply elem_of_union in Hz as [Hz|Hz]); try (apply elem_of_singleton in Hz as ->);
    first [by apply A1 | by destruct (A2 _ eq_refl) | by destruct (A3 _ eq_refl)].
Qed.

Lemma run_known n w r : client_ok n w -> cl_run (w_client w) = Some r -> (r < length (w_runs w))%nat.
Proof.
  intros C Hr. pose proof (co_state _ _ C) as Hst. unfold stateOk, noSession in Hst.
  destruct (cl_state (w_client w)); [naive_solver..|].
  destruct Hst as (_ & r' & ? & (cn & Hl & _)). apply lookup_lt_Some in Hl. congruence.
Qed.

Lemma drain_step n w :
  client_ok n w -> ok w FinalizeDrain -> stepFacts n w FinalizeDrain (set_codecClosed true w) FinalizeDone [].
Proof.
  intros C O. destruct (ok_final _ _ O) as ((Hc & Hf) & Hd).
  split; simpl; try done; auto.
  - destruct C as [C1 C2 C3 C4 C5 C6 C7]. split; simpl; try done; first [lia | by apply ctxsOk_same with w].
  - split; simpl; eauto.
  - by apply transition_same.
  - intros r Hl. destruct (decide (cl_run (w_client w) = Some r)); [by left|right; right; right; done].
  - right; right. split; [done|]. intros Hr. left. revert Hr. by apply resp_pc.
Qed.

Lemma finalized_step n w :
  client_ok n w -> ok w FinalizeDone -> stepFacts n w FinalizeDone (set_closeDone true w) (Returned None) [].
Proof.
  intros C O. pose proof (ok_final _ _ O) as Hf. simpl in Hf.
  split; simpl; try done; auto.
  - destruct C as [C1 C2 C3 C4 C5 C6 C7]. split; simpl; try done; first [lia | by apply ctxsOk_same with w].
  - split; simpl; eauto.
  - by apply transition_same.
  - intros r Hl. destruct (decide (cl_run (w_client w) = Some r)); [by left|right; right; right; done].
  - right; right. split; [done|]. intros Hr. left. revert Hr. by apply resp_pc.
Qed.

Lemma closeStep_facts n ch w p w' p' sp :
  client_ok n w -> ok w p -> closeStep cb ch w p = Some (w', p', sp) -> stepFacts n w p w' p' sp.
Proof.
  intros C O H. pose proof (ok_final _ _ O) as Hf. destruct p; try done; unfold closeStep, to in H; destruct ch; try done; try by destruct done.
  - destruct (w_closed w) eqn:Hc; [injection H as <- <- <-; quiet_pc|].
    destruct (close_cleared _ _ C) as (R & Hcl & Hr). destruct (closeClient cb w) as [r w1]. simpl in R, Hcl, Hr.
    injection H as <- <- <-. apply cleared_step; try done; auto.
    + repeat constructor; try done; simpl.
      * intros r' Hr'. assert (r = Some r') as -> by (by destruct r). rewrite (cr_runs _ _ R). by eapply run_known.
      * rewrite (cr_codec _ _ R). destruct (w_codecClosed w) eqn:E; [|done]. destruct (co_codec _ _ C E). congruence.
    + intros r' _ Hr'. right. left. simpl. rewrite Hr, Hr'. done.
  - destruct (w_closeDone w); [|done]. injection H as <- <- <-. quiet_pc.
  - injection H as <- <- <-. quiet_pc.
  - injection H as <- <- <-. simpl in Hf. destruct Hf. destruct r as [r|]; [|quiet_pc].
    pose proof (quiet_failRun r (newError ErrClientClosed "close" "") w) as [Q1 Q2 _ _ _ _ _ _ _ _]. quiet_shutdown.
  - injection H as <- <- <-. simpl in Hf. destruct Hf. destruct (cl_connectDone (w_client w)) eqn:E; quiet_pc.
  - destruct done as [d|]; simpl in Hf; destruct Hf as [[? ?] Hd].
    + destruct (ended w d) eqn:E; [|done]. apply negb_true_iff, bool_decide_eq_false in E.
      destruct Hd as [?|Hd]; [done|]. injection H as <- <- <-. quiet_pc.
    + simplify_eq. quiet_pc.
  - injection H as <- <- <-. by apply drain_step.
  - injection H as <- <- <-. by apply finalized_step.
Qed.

(** ** monitor *)

Lemma done_not_live w r : isDone w r -> isLive w r -> False.
Proof. intros (cn & Hl & Hd) (cn' & Hl' & Hd'). congruence. Qed.

(** Who watches a run that is not current, or drives a session that is not, has
    nothing to do. *)
Lemma watch_inert w p r :
  watches p = Some r -> loggingIn p = false -> takes p = false -> drives p = None -> detaches p = None ->
  resp (w_client w) p -> cl_state (w_client w) = LoginStateLoggedIn /\ cl_run (w_client w) = Some r /\
    is_Some (cl_sessionCtx (w_client w)).
Proof.
  intros E1 E2 E3 E4 E5. unfold resp. rewrite E1, E2, E3, E4, E5.
  destruct (cl_state (w_client w)), (cl_sessionCtx (w_client w)); try done; naive_solver.
Qed.

Lemma drive_current n w p l :
  client_ok n w -> drives p = Some l -> loggingIn p = false -> takes p = false -> watches p = None -> detaches p = None ->
  resp (w_client w) p -> isCurrent w l = true /\ ctxDone w (rl_sessionCtx l) = false.
Proof.
  intros C E1 E2 E3 E4 E5. unfold resp. rewrite E1, E2, E3, E4, E5.
  destruct (cl_state (w_client w)) eqn:Es, (cl_sessionCtx (w_client w)) eqn:Ex; try done.
  - intros [[r Hr] Hw]. congruence.
  - intros (l' & [= <-] & Hr & <- & Hg). destruct (active_session _ _ _ C Ex) as [Hc _].
    destruct (cx_session _ (co_ctxs _ _ C) _ Ex) as [_ Hn].
    unfold isCurrent, ctxDone, sessionIsCurrentLocked. rewrite Hc, Hr, Es, Ex, Hg, Z.eqb_refl.
    rewrite !bool_decide_true by done. rewrite bool_decide_false by done. done.
  - intros [?|[_ ?]]; done.
Qed.

Lemma monitorStep_facts n ch w p w' p' sp :
  client_ok n w -> ok w p -> monitorStep cb disableReconnect ch w p = Some (w', p', sp) -> stepFacts n w p w' p' sp.
Proof.
  intros C O H. destruct p; try done; unfold monitorStep, to in H; destruct ch; try done.
  - unfold runDone in H. pose proof (ok_watches _ _ O _ eq_refl) as Hlen.
    destruct (lookup_lt_is_Some_2 _ _ Hlen) as [cn Hcn]. rewrite Hcn in H. destruct (cn_done cn) eqn:Hd; [|done].
    injection H as <- <- <-. assert (isDone w r) by (exists cn; done). quiet_pc.
  - destruct (_ || _) eqn:E.
    + injection H as <- <- <-. apply quiet_move; try done; [apply quiet_refl|].
      intros Hr. destruct (watch_inert w (MonitorCheck r) r eq_refl eq_refl eq_refl eq_refl eq_refl Hr) as (Hs & Hrun & [x Hx]).
      destruct (active_session _ _ _ C Hx) as [Hc _]. by rewrite Hrun, Hc, bool_decide_true in E.
    + destruct (_ || _) in H; injection H as <- <- <-; quiet_pc.
  - destruct (recordTerminalForRunSession _ _ _ _ _) as [pub w1] eqn:E. injection H as <- <- <-.
    eapply recordTerminal_step; try exact E; try done; try (by destruct pub).
    + intros r' Hl _ [= <-]. eapply done_not_live; [|exact Hl]. by apply (ok_ended _ _ O).
    + intros r' [= <-] Hne Hr.
      by destruct (watch_inert w (MonitorTerminal r err) r eq_refl eq_refl eq_refl eq_refl eq_refl Hr) as (_ & Hrun & _).
  - injection H as <- <- <-. quiet_pc.
Qed.

(** ** reconnect *)

Lemma reconnectStart_step n w old x l changed epoch plan :
  client_ok n w -> ok w (ReconnectStart old) -> cl_sessionCtx (w_client w) = Some x -> w_closed w = false ->
  cl_run (w_client w) = Some old -> cl_state (w_client w) <> LoginStateLogout ->
  rl_old l = old -> rl_sessionCtx l = x -> rl_generation l = cl_sessionGeneration (w_client w) ->
  stepFacts n w (ReconnectStart old)
    (upd_client (fun c => set_state LoginStateReconnecting (set_connState ConnStateReconnecting c)) w)
    (ReconnectEmit l changed epoch plan) [].
Proof.
  intros C O Hx Hc Hr Hs E1 E2 E3. pose proof (ok_ended _ _ O _ eq_refl) as Hd.
  assert (guar (ReconnectStart old) w
    (upd_client (fun c => set_state LoginStateReconnecting (set_connState ConnStateReconnecting c)) w)) as G.
  { split; simpl; eauto. intros Hl. destruct (noSession_of_logging _ _ C Hl). congruence. }
  split; try done; simpl; auto.
  - pose proof C as [C1 C2 C3 C4 C5 C6 C7]. split; simpl; try done; [|by apply ctxsOk_same with w| |lia].
    + unfold stateOk. simpl. eauto.
    + unfold w_closed in *. simpl. congruence.
  - split; simpl; try done. intros r [= <-]. rewrite E1. eapply guar_isDone; [exact G|done].
  - destruct (cl_state (w_client w)) eqn:Es; try done. destruct (noSession_of_logging _ _ C Es). congruence.
  - intros r Hl. destruct (decide (cl_run (w_client w) = Some r)); [by left|right; right; right; done].
  - right; left. left. unfold resp. simpl. rewrite Hx. exists l. by rewrite E1.
Qed.

(** The driver of a session goes on only while the session is current. *)
Lemma driver_quits n w w' p p' l :
  client_ok n w -> quiet w w' -> (forall r, isLive w' r -> isLive w r) -> ok w p -> drives p = Some l -> loggingIn p = false -> takes p = false -> watches p = None ->
  detaches p = None -> isCurrent w l = false \/ ctxDone w (rl_sessionCtx l) = true ->
  owns p' = owns p -> holds p' = holds p -> loggingIn p' = false -> takes p' = false -> watches p' = None ->
  ended_run p' = None -> finalizes p' = false ->
  stepFacts n w p w' p' [].
Proof.
  intros C Q Hl O E1 E2 E3 E4 E5 Hq F1 F2 F3 F4 F5 F6 F7.
  apply quiet_move; try done; try congruence; [by destruct p'|].
  intros Hr. destruct (drive_current _ _ _ _ C E1 E2 E3 E4 E5 Hr) as [H1 H2].
  destruct Hq; congruence.
Qed.

Lemma commit_step n w l d r now cn :
  client_ok n w -> ok w (ReconnectCommit l d r) -> isCurrent w l = true -> w_runs w !! r = Some cn ->
  forall cursor expiresAt epoch,
  stepFacts n w (ReconnectCommit l d r)
    (upd_client (fun c =>
       set_run (Some r) (set_state LoginStateLoggedIn (set_connState ConnStateConnected (set_msyncHost (cn_endpoint cn)
       (installCandidates (rc_hosts (rl_state l)) cursor (rc_dnsGeneration (rl_state l)) (set_lastStableConnect now c))))))
       (applyProvisionLocked (cn_provision cn) w))
    (ReconnectSchedule l d r expiresAt epoch) [].
Proof.
  intros C O Hcur Hcn cursor expiresAt epoch.
  pose proof (applyProvision_facts (cn_provision cn) w) as (P1 & P2 & P3 & P4 & P5 & (P6 & P7 & P8 & P9) & P10 & P11).
  set (w1 := applyProvisionLocked (cn_provision cn) w) in *.
  unfold isCurrent, sessionIsCurrentLocked in Hcur. rewrite !andb_true_iff, !bool_decide_eq_true in Hcur.
  destruct Hcur as [[[Hc%negb_true_iff Hrun] Hst] [Hx Hgen]].
  destruct (cl_sessionCtx (w_client w)) as [x|] eqn:Ex; [|done].
  pose proof (co_gen _ _ C) as Hg. pose proof (co_gen_pos _ _ C) as Hg'. rewrite Ex in Hg'. specialize (Hg' (mk_is_Some _ _ eq_refl)).
  apply established_step with r; simpl; try done; try congruence; eauto.
  - apply ctxsOk_same with w1; [done..|]. apply P11, C.
  - change (0 < cl_sessionGeneration (w_client w1) <= Z.of_nat (S n)). rewrite P9. lia.
  - by rewrite Hst.
  - intros r0 Hr0. apply (ok_ended _ _ O). simpl. congruence.
Qed.

(** The driver leaves because its session's context is done. *)
Ltac quits :=
  match goal with
  | H : (if ?b then _ else _) = Some _ |- _ =>
      destruct b eqn:?; [|done]; injection H as <- <- <-; eapply driver_quits; try done; [apply quiet_refl|auto]
  end.

(** The steps before the driver owns the lifecycle. *)
Lemma reconnectStep_waiting n ch w p w' p' sp :
  client_ok n w -> ok w p -> reconnectStep cb url_Parse url_String ch w p = Some (w', p', sp) ->
  match p with
  | ReconnectStart _ | ReconnectEmit _ _ _ _ | ReconnectBackoff _ | ReconnectCheck _ | ReconnectTimer _
  | ReconnectRecheck _ | ReconnectBegin _ | ReconnectWait _ _ => stepFacts n w p w' p' sp
  | _ => True
  end.
Proof.
  intros C O H. destruct p; try done; unfold reconnectStep, to in H; destruct ch; try done; try by destruct resolved.
  - destruct (cl_sessionCtx (w_client w)) as [x|] eqn:Hx; [destruct (_ || _) eqn:E|].
    + injection H as <- <- <-. apply quiet_move; try done; [apply quiet_refl|]. intros Hr.
      destruct (watch_inert w (ReconnectStart old) old eq_refl eq_refl eq_refl eq_refl eq_refl Hr) as (Hs & Hrun & _).
      destruct (active_session _ _ _ C Hx) as [Hc _]. by rewrite Hrun, Hc, Hs, bool_decide_true in E.
    + rewrite !orb_false_iff in E. destruct E as [[Hc Hr%negb_false_iff%bool_decide_eq_true] Hs%bool_decide_eq_false].
      injection H as <- <- <-. by apply reconnectStart_step with x.
    + injection H as <- <- <-. apply quiet_move; try done; [apply quiet_refl|]. intros Hr.
      destruct (watch_inert w (ReconnectStart old) old eq_refl eq_refl eq_refl eq_refl eq_refl Hr) as (_ & _ & [x Hx']). congruence.
  - injection H as <- <- <-. destruct plan; quiet_pc.
  - injection H as <- <- <-. destruct (_ || _); quiet_pc.
  - injection H as <- <- <-. destruct (isCurrent _ l) eqn:E; [quiet_pc|].
    eapply driver_quits; try done; [apply quiet_backoff|auto].
  - injection H as <- <- <-. quiet_pc.
  - quits.
  - injection H as <- <- <-. destruct (isCurrent w l) eqn:E; [quiet_pc|]. eapply driver_quits; try done; [apply quiet_refl|auto].
  - pose proof (beginConnect_spec "reconnect" w) as Hb. destruct (beginConnect _ _).
    + destruct Hb as (Hc & Hd & -> & ->). injection H as <- <- <-. by apply acquire_step.
    + injection H as <- <- <-. quiet_pc.
    + injection H as <- <- <-. quiet_pc.
  - quits.
  - destruct (ended w done); [|done]. injection H as <- <- <-. quiet_pc.
  - quits.
Qed.

Lemma reconnectStep_facts n ch w p w' p' sp :
  client_ok n w -> ok w p -> reconnectStep cb url_Parse url_String ch w p = Some (w', p', sp) -> stepFacts n w p w' p' sp.
Proof.
  intros C O H. pose proof (reconnectStep_waiting _ _ _ _ _ _ _ C O H) as Hq.
  destruct p; try exact Hq; try done; clear Hq; unfold reconnectStep, to in H; destruct ch; try done; try by destruct resolved.
  - injection H as <- <- <-. destruct (isCurrent w l) eqn:E; simpl; [|eapply driver_quits; try done; [apply quiet_refl|auto]].
    destruct (rc_needRefresh _); quiet_pc.
  - injection H as <- <- <-. destruct answer; quiet_pc.
  - destruct resolved as [answer|err]; injection H as <- <- <-.
    + case_bool_decide; [|quiet_pc]. case_bool_decide as Hs; simpl; quiet_pc.
    + destruct (isTerminal _); quiet_pc.
  - destruct resolved; [done|]. quits.
  - injection H as <- <- <-. by apply (connected_step n w _ _ endpoint p); try pcs.
  - injection H as <- <- <-. quiet_pc.
  - injection H as <- <- <-. quiet_pc.
  - injection H as <- <- <-.
    unfold attemptEndpoint. destruct (isTerminal _); [quiet_pc|].
    destruct (shouldRotateEndpoint _); [|quiet_pc]. destruct (nextEndpoint _) as [[[e i]|] round]; quiet_pc.
  - quits.
  - destruct (recordTerminalForRunSession _ _ _ _ _) as [pub w1] eqn:E. injection H as <- <- <-.
    eapply recordTerminal_step; try exact E; try done; try (by destruct pub, done).
    + intros r' Hl _ [= <-]. eapply done_not_live; [|exact Hl]. by apply (ok_ended _ _ O).
    + intros r' [= <-] Hne Hr.
      destruct (drive_current n w (ReconnectTerminal l done err) l C eq_refl eq_refl eq_refl eq_refl eq_refl Hr) as [Hcur _].
      unfold isCurrent in Hcur. by rewrite (bool_decide_false _ Hne), andb_false_r in Hcur.
    + intros g [= <-] Hne Hr.
      destruct (drive_current n w (ReconnectTerminal l done err) l C eq_refl eq_refl eq_refl eq_refl eq_refl Hr) as [Hcur _].
      unfold isCurrent in Hcur. by rewrite Hne, andb_false_r in Hcur.
  - injection H as <- <- <-. destruct done; quiet_pc.
  - destruct (_ || _) eqn:E.
    + injection H as <- <- <-. eapply driver_quits; try done; [apply quiet_refl|].
      apply orb_true_iff in E as [E%negb_true_iff|E]; auto.
    + apply orb_false_iff in E as [E%negb_false_iff _]. destruct (w_runs w !! r) as [cn|] eqn:Er; [|done].
      injection H as <- <- <-. by apply commit_step.
  - injection H as <- <- <-. quiet_shutdown.
  - destruct (scheduleTokenExpiryWarning _ _ _ _ _) as [t w1] eqn:E. injection H as <- <- <-.
    eapply schedule_step; try exact E; try done; eauto.
  - injection H as <- <- <-. quiet_spawn.
  - destruct (endConnect done w) as [w1|] eqn:E; [|done]. apply endConnect_inv in E as ->. injection H as <- <- <-.
    destruct again; by apply end_step with done.
Qed.

(** ** Every step *)

Lemma warningStep_facts n ch w p w' p' sp :
  client_ok n w -> ok w p -> warningStep cb ch w p = Some (w', p', sp) -> stepFacts n w p w' p' sp.
Proof.
  intros C O H. destruct p; try done; unfold warningStep, to in H; destruct ch; try done.
  - injection H as <- <- <-. quiet_pc.
  - destruct (_ || _); [|done]. injection H as <- <- <-. quiet_pc.
  - injection H as <- <- <-. quiet_pc.
  - injection H as <- <- <-. quiet_pc.
Qed.

Lemma threadStep_facts n ch w p w' p' sp :
  Z.of_nat (S n) < 2 ^ 64 -> client_ok n w -> ok w p ->
  threadStep cb disableReconnect url_Parse url_String ch w p = Some (w', p', sp) -> stepFacts n w p w' p' sp.
Proof.
  intros Hn C O. unfold threadStep.
  destruct (loginStep _ _ _ _) as [o|] eqn:E1; [intros [= ->]; by eapply loginStep_facts|].
  destruct (logoutStep _ _ _ _) as [o|] eqn:E2; [intros [= ->]; by eapply logoutStep_facts|].
  destruct (closeStep _ _ _ _) as [o|] eqn:E3; [intros [= ->]; by eapply closeStep_facts|].
  destruct (monitorStep _ _ _ _ _) as [o|] eqn:E4; [intros [= ->]; by eapply monitorStep_facts|].
  destruct (reconnectStep _ _ _ _ _ _) as [o|] eqn:E5; [intros [= ->]; by eapply reconnectStep_facts|].
  apply warningStep_facts; done.
Qed.
End Steps.
