(* ===== verification/LifecycleToken.v ===== *)
(** * The token of a Client that is logged out, and what a closed Client refuses

    Two facts about single steps of Lifecycle.v: a step that leaves the Client
    logged out leaves it without a token, or with the one it had; and once
    [Close] was called no Login, Logout or reconnect begins. *)
From Stdlib Require Import String.
From S2P Require Import Prelude Protocol Errors GoStrings Config Callbacks Endpoints Identifiers Provisioning Lifecycle LifecycleInvariant LifecycleSteps.
Local Open Scope string_scope.
Local Open Scope Z_scope.

Section Token.
Context (cb : callbacks) (disableReconnect : bool)
        (url_Parse : string -> result urlParts) (url_String : urlParts -> string).

(** ** The token *)

(** What the steps below keep. *)
Definition auth (w : world) : LoginState * string := (cl_state (w_client w), cl_token (w_client w)).

(** A step leaves the Client logged in, without a token, or as it was. *)
Definition forgets (w w' : world) : Prop :=
  cl_state (w_client w') <> LoginStateLogout \/ cl_token (w_client w') = "" \/ auth w' = auth w.

Lemma auth_failRun r e w : auth (failRun r e w) = auth w.
Proof. unfold failRun. by destruct (w_runs w !! r) as [[ep p []]|]. Qed.
Lemma auth_newRun ep p w : auth (snd (newRun ep p w)) = auth w.
Proof. done. Qed.
Lemma auth_discardedRun ep e w : auth (discardedRun ep e w) = auth w.
Proof. unfold discardedRun, newRun. by rewrite auth_failRun. Qed.
Lemma auth_cancelTokenWarning w : auth (cancelTokenWarning w) = auth w.
Proof. unfold cancelTokenWarning. by destruct (cl_tokenWarningCancel _). Qed.
Lemma auth_cancelSession w : auth (cancelSessionLocked w) = auth w.
Proof. unfold cancelSessionLocked. by destruct (cl_sessionCtx _). Qed.
Lemma auth_emitState b ep u st w : auth (emitState cb b ep u st w) = auth w.
Proof. unfold emitState. by destruct (_ && _). Qed.
Lemma auth_schedule ctx gen e w : auth (snd (scheduleTokenExpiryWarning cb ctx gen e w)) = auth w.
Proof.
  unfold scheduleTokenExpiryWarning. destruct (_ || _); [done|]. destruct (negb _); [done|]. simpl.
  by destruct (cl_tokenWarningCancel _).
Qed.
Lemma auth_beginConnect op w : match beginConnect op w with Acquired _ w' => auth w' = auth w | _ => True end.
Proof. unfold beginConnect. destruct (w_closed w); [done|]. by destruct (cl_connectDone _). Qed.
Lemma auth_beginLogout c w :
  match beginLogout c w with (Acquired _ w', _, w'') => auth w' = auth w /\ auth w'' = auth w | (_, _, w'') => auth w'' = auth w end.
Proof.
  unfold beginLogout. destruct (w_closed w); [done|]. destruct (cl_connectDone _).
  - destruct (_ && _); [apply auth_cancelSession|done].
  - destruct (is_some _); [|done]. split; exact (auth_cancelSession w).
Qed.

Lemma auth_clear w : auth (upd_client clearSession w) = (LoginStateLogout, "").
Proof. unfold auth. simpl. by destruct (w_client w). Qed.

(** A world that kept the state and the token of a cleared one has no token. *)
Lemma token_gone w w' : auth w' = auth (upd_client clearSession w) -> cl_token (w_client w') = "".
Proof. rewrite auth_clear. intros H. exact (f_equal snd H). Qed.

Lemma token_cleared w : cl_token (w_client (cancelTokenWarning (cancelSessionLocked (upd_client clearSession w)))) = "".
Proof. apply (token_gone w). by rewrite auth_cancelTokenWarning, auth_cancelSession. Qed.

Lemma token_callback op w : cl_token (w_client (callback cb op w)) = cl_token (w_client w).
Proof. done. Qed.

Lemma forgets_recordTerminal e s err w : forgets w (snd (recordTerminalForRunSession cb e s err w)).
Proof.
  unfold recordTerminalForRunSession. destruct (_ || _ || _); [by do 2 right|]. right; left. cbn [snd].
  rewrite token_callback. exact (token_cleared (upd_client (set_lastErr err) w)).
Qed.
Lemma forgets_close w : forgets w (snd (closeClient cb w)).
Proof. right; left. unfold closeClient. cbn [snd]. by apply (token_gone (cancelTokenWarning (cancelSessionLocked (callback cb OpClose w)))). Qed.
Lemma forgets_ended w : forgets w (callback cb OpBump (cancelTokenWarning (upd_client clearSession w))).
Proof. right; left. rewrite token_callback. apply (token_gone w), auth_cancelTokenWarning. Qed.
Lemma forgets_detach g w : forgets w (snd (detachCanceledSessionForLogout cb g w)).
Proof.
  unfold detachCanceledSessionForLogout. destruct (_ || _ || _ || _); [by do 2 right|]. cbn [snd]. apply forgets_ended.
Qed.

(** The calls of a step that return a world and more. *)
Ltac token_call H :=
  match type of H with
  | context [recordTerminalForRunSession cb ?e ?s ?err ?w] =>
      pose proof (forgets_recordTerminal e s err w); destruct (recordTerminalForRunSession cb e s err w) as [[] ?]
  | context [closeClient cb ?w] => pose proof (forgets_close w); destruct (closeClient cb w)
  | context [detachCanceledSessionForLogout cb ?g ?w] =>
      pose proof (forgets_detach g w); destruct (detachCanceledSessionForLogout cb g w) as [[[]|] ?]
  | context [beginLogout ?c ?w] => pose proof (auth_beginLogout c w); destruct (beginLogout c w) as [[[]?] ?]
  | context [beginConnect ?op ?w] => pose proof (auth_beginConnect op w); destruct (beginConnect op w)
  | context [scheduleTokenExpiryWarning cb ?a ?b ?c ?w] =>
      pose proof (auth_schedule a b c w); destruct (scheduleTokenExpiryWarning cb a b c w) as [[] ?]
  | context [newRun ?a ?b ?w] => pose proof (auth_newRun a b w); destruct (newRun a b w) as [? ?]
  | context [startSessionLocked ?w] => destruct (startSessionLocked w) as [[] ?]
  | context [endConnect ?d ?w] =>
      let E := fresh in destruct (endConnect d w) eqn:E; [apply endConnect_inv in E as ->|done]
  end.

Ltac token_kept H :=
  repeat first [token_call H | progress cbv beta iota in H | case_match; try done];
  unfold to in H; injection H as <- <- <-;
  first [ assumption
        | by left
        | right; right; rewrite ?auth_failRun, ?auth_discardedRun, ?auth_emitState, ?auth_cancelTokenWarning;
          first [reflexivity | assumption | simpl in *; match goal with E : _ /\ _ |- _ => by destruct E end]
        | right; left; reflexivity ].

Lemma login_token ch w p w' p' sp : loginStep cb ch w p = Some (w', p', sp) -> forgets w w'.
Proof. intros H. destruct p, ch; try done; unfold loginStep in H; token_kept H. Qed.

Lemma logout_token ch w p w' p' sp : logoutStep cb ch w p = Some (w', p', sp) -> forgets w w'.
Proof.
  intros H. destruct p, ch; try done; unfold logoutStep in H; try (token_kept H; fail).
  destruct (w_closed w); [injection H as <- <- <-; by do 2 right|]. unfold to in H. injection H as <- <- <-. apply forgets_ended.
Qed.

Lemma close_token ch w p w' p' sp : closeStep cb ch w p = Some (w', p', sp) -> forgets w w'.
Proof. intros H. destruct p, ch; try done; unfold closeStep in H; token_kept H. Qed.

Lemma monitor_token ch w p w' p' sp : monitorStep cb disableReconnect ch w p = Some (w', p', sp) -> forgets w w'.
Proof. intros H. destruct p, ch; try done; unfold monitorStep in H; token_kept H. Qed.

Lemma reconnect_token ch w p w' p' sp :
  reconnectStep cb url_Parse url_String ch w p = Some (w', p', sp) -> forgets w w'.
Proof. intros H. destruct p, ch; try done; unfold reconnectStep in H; token_kept H. Qed.

Lemma warning_token ch w p w' p' sp : warningStep cb ch w p = Some (w', p', sp) -> forgets w w'.
Proof. intros H. destruct p, ch; try done; unfold warningStep in H; token_kept H. Qed.

Lemma step_token ch w p w' p' sp :
  threadStep cb disableReconnect url_Parse url_String ch w p = Some (w', p', sp) -> forgets w w'.
Proof.
  unfold threadStep.
  destruct (loginStep _ _ _ _) as [o|] eqn:E1; [intros [= ->]; by eapply login_token|].
  destruct (logoutStep _ _ _ _) as [o|] eqn:E2; [intros [= ->]; by eapply logout_token|].
  destruct (closeStep _ _ _ _) as [o|] eqn:E3; [intros [= ->]; by eapply close_token|].
  destruct (monitorStep _ _ _ _ _) as [o|] eqn:E4; [intros [= ->]; by eapply monitor_token|].
  destruct (reconnectStep _ _ _ _ _ _) as [o|] eqn:E5; [intros [= ->]; by eapply reconnect_token|].
  apply warning_token.
Qed.

(** Only [UpdateToken] gives a Client that stays logged out a token. *)
Lemma lifeStep_token s op s' :
  lifeStep cb disableReconnect url_Parse url_String s op = Some s' ->
  forgets (ls_world s) (ls_world s') \/ exists token, op = LifeUpdateToken token.
Proof.
  destruct op as [p|t ch|r err|token|ch]; unfold lifeStep; intros H; [left..|right; eauto|left].
  - destruct (isCall p); [|done]. injection H as <-. by do 2 right.
  - destruct (ls_threads s !! t) as [p|]; [|done]. simpl in H.
    destruct (threadStep _ _ _ _ _ _ _) as [[[w' p'] sp]|] eqn:E; [|done]. injection H as <-. by eapply step_token.
  - injection H as <-. do 2 right. apply auth_failRun.
  - destruct (callbackStep _ _ _) as [c|]; [|done]. injection H as <-. by do 2 right.
Qed.

(** ** A closed Client *)

(** Nothing opens a closed Client again. *)
Lemma callbackStep_closed st op st' :
  callbackStep cb st op = Some st' -> cs_closed (sy_state st) = true -> cs_closed (sy_state st') = true.
Proof.
  intros H Hc. assert (op = OpClose \/ op <> OpClose) as [->|Ho] by (destruct op; auto; by right).
  - simpl in H. by injection H as <-.
  - pose proof (callback_closed cb op (set_cb st newWorld) Ho) as E. unfold callback, w_closed in E. simpl in E. rewrite H in E.
    simpl in E. congruence.
Qed.

(** What the first step of an operation does in a closed Client: it is refused. *)
Definition refuses (w : world) : Prop :=
  (forall ch userID token o, threadStep cb disableReconnect url_Parse url_String ch w (LoginBegin userID token) = Some o ->
     exists err, o = (w, Returned (Some err), []) /\ (ch = Go -> err = newError ErrClientClosed "login" "")) /\
  (forall ch o, threadStep cb disableReconnect url_Parse url_String ch w (LogoutBegin None) = Some o ->
     exists err, o = (w, Returned (Some err), []) /\ (ch = Go -> err = newError ErrClientClosed "logout" "")) /\
  (forall done userID token, threadStep cb disableReconnect url_Parse url_String Go w (LoginInstall done userID token) =
     Some (w, LoginEnd done (Some (newError ErrClientClosed "login" "")), [])) /\
  (forall done, threadStep cb disableReconnect url_Parse url_String Go w (LogoutTake done) =
     Some (w, LogoutEnd done (Some (newError ErrClientClosed "logout" "")), [])) /\
  (forall ch l o, threadStep cb disableReconnect url_Parse url_String ch w (ReconnectBegin l) = Some o ->
     o = (w, Returned None, [])) /\
  threadStep cb disableReconnect url_Parse url_String Go w CloseStart = Some (w, CloseWait, []).

Lemma closed_refuses w : w_closed w = true -> refuses w.
Proof.
  intros Hc. unfold refuses, threadStep. split_and!.
  - intros ch u t o. destruct ch; simpl; try done; unfold beginConnect; rewrite ?Hc; intros [= <-]; by eexists.
  - intros ch o. destruct ch; simpl; try done; unfold beginLogout; rewrite ?Hc; intros [= <-]; by eexists.
  - intros d u t. simpl. by rewrite Hc.
  - intros d. simpl. by rewrite Hc.
  - intros ch l o. destruct ch; simpl; try done; unfold beginConnect, ctxDone; rewrite ?Hc; by intros [= <-].
  - simpl. by rewrite Hc.
Qed.
End Token.
