(* ===== verification/LifecycleTheory.v ===== *)
(** * The lifecycle, in every interleaving

    The invariant of the system of Lifecycle.v ([sysOk]), that every step keeps
    it, and what it says: the lifecycle has one owner and never panics, the
    Client is consistent, no connection is lost, every session has somebody who
    will end it, and Close comes to its end and leaves nothing behind. *)
From Stdlib Require Import String Sorting.Sorted.
From S2P Require Import Prelude Protocol Errors GoStrings Config Callbacks Endpoints Identifiers Provisioning Lifecycle LifecycleInvariant LifecycleSteps LifecycleToken.
Local Open Scope string_scope.
Local Open Scope Z_scope.

(** After [n] steps. *)
Record sysOk (n : nat) (s : lifeSys) : Prop := {
  sy_client : client_ok n (ls_world s);
  sy_threads : forall t p, ls_threads s !! t = Some p -> ok (ls_world s) p;
  sy_owner : forall t u p q, ls_threads s !! t = Some p -> ls_threads s !! u = Some q ->
    is_Some (owns p) -> is_Some (owns q) -> t = u;
  sy_owned : forall d, cl_connectDone (w_client (ls_world s)) = Some d ->
    exists t p, ls_threads s !! t = Some p /\ owns p = Some d;
  sy_final : forall t u p q, ls_threads s !! t = Some p -> ls_threads s !! u = Some q ->
    finalizes p = true -> finalizes q = true -> t = u;
  sy_closing : w_closed (ls_world s) = true ->
    w_closeDone (ls_world s) = true \/ exists t p, ls_threads s !! t = Some p /\ finalizes p = true;
  sy_held : forall r, isLive (ls_world s) r ->
    cl_run (w_client (ls_world s)) = Some r \/ exists t p, ls_threads s !! t = Some p /\ holds p = Some r;
  sy_resp : cl_state (w_client (ls_world s)) <> LoginStateLogout ->
    exists t p, ls_threads s !! t = Some p /\ resp (w_client (ls_world s)) p }.

Lemma sysOk_start n : sysOk n startLife.
Proof.
  split; simpl; try done.
  - split; simpl; try done. lia.
  - by intros r (cn & ? & _).
Qed.

(** A thread that finalizes does so in a closed Client. *)
Lemma final_closed n w p : client_ok n w -> ok w p -> finalizes p = true -> w_closed w = true.
Proof.
  intros C O Hf. pose proof (ok_final _ _ O) as H. destruct p; try done; simpl in H.
  - apply H.
  - apply H.
  - destruct done; apply H.
  - apply H.
  - by apply (co_codec _ _ C).
Qed.

(** ** Steps from outside *)

Lemma sys_quiet n w w' ts :
  quiet w w' -> (forall r, isLive w' r -> isLive w r) -> sysOk n (mkLife w ts) -> sysOk (S n) (mkLife w' ts).
Proof.
  intros Q Hl [H1 H2 H3 H4 H5 H6 H7 H8]. simpl in *. pose proof (quiet_guar (LoginBegin "" "") _ _ Q) as G.
  pose proof Q as [Q1 Q2 Q3 Q4 Q5 (K1 & K2 & K3 & K4) Q7 Q8 Q9 Q10].
  split; simpl; rewrite ?Q1, ?Q3, ?Q5, ?K1; auto.
  - by eapply quiet_client.
  - intros t p Ht. eapply ok_stable; [by eapply H2|exact G|by intros []|done].
  - intros r Hr. rewrite K2. auto.
  - intros Hs. destruct (H8 Hs) as (t & p & Ht & Hr). exists t, p. split; [done|]. eapply resp_same; [|exact Hr]. done.
Qed.

Lemma sys_call n w ts p : isCall p = true -> sysOk n (mkLife w ts) -> sysOk (S n) (mkLife w (ts ++ [p])).
Proof.
  intros Hp [H1 H2 H3 H4 H5 H6 H7 H8]. simpl in *.
  assert (ok w p /\ owns p = None /\ finalizes p = false) as (Ho & E1 & E2).
  { destruct p; try done; by destruct canceled. }
  assert (forall t q, (ts ++ [p])%list !! t = Some q -> ts !! t = Some q \/ q = p) as Hlk.
  { intros t q [Ht|[_ Ht]]%lookup_app_Some; [auto|]. apply list_lookup_singleton_Some in Ht as [_ ->]. auto. }
  assert (forall t q, ts !! t = Some q -> (ts ++ [p])%list !! t = Some q) as Hin by (intros; by apply lookup_app_l_Some).
  split; simpl; auto.
  - by apply co_weaken.
  - intros t q Ht. destruct (Hlk _ _ Ht) as [|E]; [eauto|by rewrite E].
  - intros t u q q' Ht Hu Hq Hq'. destruct (Hlk _ _ Ht) as [|E]; [|rewrite E, E1 in Hq; by destruct Hq].
    destruct (Hlk _ _ Hu) as [|E]; [|rewrite E, E1 in Hq'; by destruct Hq']. eauto.
  - intros d Hd. destruct (H4 d Hd) as (t & q & ? & ?). exists t, q. auto.
  - intros t u q q' Ht Hu Hq Hq'. destruct (Hlk _ _ Ht) as [|E]; [|congruence].
    destruct (Hlk _ _ Hu) as [|E]; [|congruence]. eauto.
  - intros Hc. destruct (H6 Hc) as [|(t & q & ? & ?)]; [by left|right]. exists t, q. auto.
  - intros r Hr. destruct (H7 r Hr) as [|(t & q & ? & ?)]; [by left|right]. exists t, q. auto.
  - intros Hs. destruct (H8 Hs) as (t & q & ? & ?). exists t, q. auto.
Qed.

(** ** Steps of a thread *)

Section Theory.
Context (cb : callbacks) (disableReconnect : bool)
        (url_Parse : string -> result urlParts) (url_String : urlParts -> string).

Ltac one_spawn H :=
  repeat case_match; try done; try (unfold to in H; injection H as <- <- <-; simpl; lia);
  try match type of H with context [endConnect ?d ?w] => destruct (endConnect d w); [|done] end;
  unfold to in H; injection H as <- <- <-; repeat case_match; simpl; lia.

Lemma login_spawns ch w p w' p' sp : loginStep cb ch w p = Some (w', p', sp) -> (length sp <= 1)%nat.
Proof. intros H. destruct p, ch; try done; unfold loginStep in H; one_spawn H. Qed.

Lemma logout_spawns ch w p w' p' sp : logoutStep cb ch w p = Some (w', p', sp) -> (length sp <= 1)%nat.
Proof. intros H. destruct p, ch; try done; unfold logoutStep in H; one_spawn H. Qed.

Lemma close_spawns ch w p w' p' sp : closeStep cb ch w p = Some (w', p', sp) -> (length sp <= 1)%nat.
Proof. intros H. destruct p, ch; try done; unfold closeStep in H; one_spawn H. Qed.

Lemma monitor_spawns ch w p w' p' sp : monitorStep cb disableReconnect ch w p = Some (w', p', sp) -> (length sp <= 1)%nat.
Proof. intros H. destruct p, ch; try done; unfold monitorStep in H; one_spawn H. Qed.

Lemma reconnect_spawns ch w p w' p' sp :
  reconnectStep cb url_Parse url_String ch w p = Some (w', p', sp) -> (length sp <= 1)%nat.
Proof. intros H. destruct p, ch; try done; unfold reconnectStep in H; one_spawn H. Qed.

Lemma warning_spawns ch w p w' p' sp : warningStep cb ch w p = Some (w', p', sp) -> (length sp <= 1)%nat.
Proof. intros H. destruct p, ch; try done; unfold warningStep in H; one_spawn H. Qed.

Lemma spawns_one ch w p w' p' sp :
  threadStep cb disableReconnect url_Parse url_String ch w p = Some (w', p', sp) -> (length sp <= 1)%nat.
Proof.
  unfold threadStep.
  destruct (loginStep _ _ _ _) as [o|] eqn:E1; [intros [= ->]; by eapply login_spawns|].
  destruct (logoutStep _ _ _ _) as [o|] eqn:E2; [intros [= ->]; by eapply logout_spawns|].
  destruct (closeStep _ _ _ _) as [o|] eqn:E3; [intros [= ->]; by eapply close_spawns|].
  destruct (monitorStep _ _ _ _ _) as [o|] eqn:E4; [intros [= ->]; by eapply monitor_spawns|].
  destruct (reconnectStep _ _ _ _ _ _) as [o|] eqn:E5; [intros [= ->]; by eapply reconnect_spawns|].
  apply warning_spawns.
Qed.

(** Whoever finalizes goes on until Close is done. *)
Lemma finalizer_goes_on ch w p w' p' sp :
  threadStep cb disableReconnect url_Parse url_String ch w p = Some (w', p', sp) -> finalizes p = true ->
  finalizes p' = true \/ w_closeDone w' = true.
Proof.
  intros H Hf. destruct p; try done; destruct ch; try done; unfold threadStep in H; simpl in H; unfold to in H;
    try destruct done; simpl in H; repeat case_match; simplify_eq; auto.
Qed.

Section Thread.
Context (n : nat) (w : world) (ts : list pc) (t : nat) (p : pc) (w' : world) (p' : pc) (sp : list pc).
Hypothesis (Hs : sysOk n (mkLife w ts)) (Ht : ts !! t = Some p) (F : stepFacts n w p w' p' sp) (Hsp : (length sp <= 1)%nat)
  (Hfin : finalizes p = true -> finalizes p' = true \/ w_closeDone w' = true).

(** Where a thread was before the step. *)
Lemma thread_before u q :
  (<[t := p']> ts ++ sp)%list !! u = Some q ->
  (u = t /\ q = p') \/ (u <> t /\ ts !! u = Some q) \/ (u = length ts /\ sp = [q]).
Proof.
  intros [H|[Hl H]]%lookup_app_Some.
  - apply list_lookup_insert_Some in H as [(<- & <- & _)|[? ?]]; auto.
  - right; right. rewrite length_insert in *. destruct sp as [|q' [|]]; simpl in *; [done| |lia].
    apply list_lookup_singleton_Some in H as [H <-]. split; [lia|done].
Qed.

Lemma thread_self : (<[t := p']> ts ++ sp)%list !! t = Some p'.
Proof.
  apply lookup_app_l_Some, list_lookup_insert_eq. by eapply lookup_lt_Some.
Qed.

Lemma thread_other u q : u <> t -> ts !! u = Some q -> (<[t := p']> ts ++ sp)%list !! u = Some q.
Proof. intros Hn Hu. apply lookup_app_l_Some. by rewrite list_lookup_insert_ne. Qed.

Lemma thread_spawned q : q ∈ sp -> exists u, (<[t := p']> ts ++ sp)%list !! u = Some q.
Proof.
  intros [i Hi]%list_elem_of_lookup. exists (length (<[t := p']> ts) + i)%nat.
  by rewrite lookup_app_r, Nat.add_sub_swap, Nat.sub_diag by lia.
Qed.

Lemma thread_exists (P : pc -> Prop) : Exists P (p' :: sp) -> exists u q, (<[t := p']> ts ++ sp)%list !! u = Some q /\ P q.
Proof.
  intros [Hp|Hp]%Exists_cons; [exists t, p'; split; [apply thread_self|done]|].
  apply Exists_exists in Hp as (q & Hq & HP). destruct (thread_spawned q Hq) as [u Hu]. eauto.
Qed.

Lemma others_ok u q : u <> t -> ts !! u = Some q -> ok w' q.
Proof.
  intros Hn Hu. eapply ok_stable; [by apply (sy_threads _ _ Hs u)|apply F| |].
  - intros Ho. destruct (owns q) eqn:E; [|done]. destruct Hn. eapply (sy_owner _ _ Hs u t); eauto.
  - intros Hf. destruct (finalizes q) eqn:E; [|done]. destruct Hn. by eapply (sy_final _ _ Hs u t).
Qed.

(** An owner, or a thread that finalizes, did so before, or there was none. *)
Lemma owner_before u q : (<[t := p']> ts ++ sp)%list !! u = Some q -> is_Some (owns q) ->
  (ts !! u = Some q /\ u <> t) \/ (u = t /\ (is_Some (owns p) \/ cl_connectDone (w_client w) = None)).
Proof.
  intros [[-> ->]|[[Hn Hu]|[_ E]]]%thread_before Ho; [right|auto|].
  - split; [done|]. by apply (sf_acquire _ _ _ _ _ _ F).
  - exfalso. pose proof (sf_spawn _ _ _ _ _ _ F) as H. rewrite E, Forall_singleton in H.
    destruct H as (_ & H & _). rewrite H in Ho. by destruct Ho.
Qed.

Lemma final_before u q : (<[t := p']> ts ++ sp)%list !! u = Some q -> finalizes q = true ->
  (ts !! u = Some q /\ u <> t) \/ (u = t /\ finalizes p = true) \/ (u = length ts /\ w_closed w = false).
Proof.
  intros [[-> ->]|[[Hn Hu]|[-> E]]]%thread_before Ho; [|auto|].
  - right; left. split; [done|]. by apply (sf_final _ _ _ _ _ _ F).
  - right; right. split; [done|]. pose proof (sf_spawn _ _ _ _ _ _ F) as H. rewrite E, Forall_singleton in H.
    by apply H.
Qed.

Lemma step_owner u v q r :
  (<[t := p']> ts ++ sp)%list !! u = Some q -> (<[t := p']> ts ++ sp)%list !! v = Some r ->
  is_Some (owns q) -> is_Some (owns r) -> u = v.
Proof.
  intros Hu Hv Hq Hr.
  assert (forall i x, ts !! i = Some x -> is_Some (owns x) -> cl_connectDone (w_client w) = None -> False) as Hno.
  { intros i x Hi [d Hd] Hn. pose proof (ok_owns _ _ (sy_threads _ _ Hs i x Hi) d Hd). simpl in *. congruence. }
  destruct (owner_before u q Hu Hq) as [[Hu' Hnu]|[-> Hu']], (owner_before v r Hv Hr) as [[Hv' Hnv]|[-> Hv']]; auto.
  - by eapply (sy_owner _ _ Hs).
  - destruct Hv' as [Hv'|Hv']; [by eapply (sy_owner _ _ Hs)|by destruct (Hno _ _ Hu' Hq)].
  - destruct Hu' as [Hu'|Hu']; [by eapply (sy_owner _ _ Hs)|by destruct (Hno _ _ Hv' Hr)].
Qed.

Lemma step_final u v q r :
  (<[t := p']> ts ++ sp)%list !! u = Some q -> (<[t := p']> ts ++ sp)%list !! v = Some r ->
  finalizes q = true -> finalizes r = true -> u = v.
Proof.
  intros Hu Hv Hq Hr.
  assert (forall i x, ts !! i = Some x -> finalizes x = true -> w_closed w = false -> False) as Hno.
  { intros i x Hi Hx Hc. pose proof (final_closed _ _ _ (sy_client _ _ Hs) (sy_threads _ _ Hs i x Hi) Hx). simpl in *. congruence. }
  destruct (final_before u q Hu Hq) as [[Hu' _]|[[-> Hu']|[-> Hu']]],
    (final_before v r Hv Hr) as [[Hv' _]|[[-> Hv']|[-> Hv']]]; auto;
    try (exfalso; eauto; fail); by eapply (sy_final _ _ Hs).
Qed.

Lemma thread_step : sysOk (S n) (mkLife w' (<[t := p']> ts ++ sp)).
Proof.
  destruct F as [F1 F2 F3 F4 F5 _ F6 F7 F8 F9 F10 F11].
  split; simpl; [done| |apply step_owner| |apply step_final|..].
  - intros u q Hu. destruct (thread_before u q Hu) as [[-> ->]|[[Hn Hu']|[_ E]]]; [done|by eapply others_ok|].
    rewrite E, Forall_singleton in F4. apply F4.
  - intros d Hd. destruct (F8 d Hd) as [Ho|[Ho Hne]]; [exists t, p'; split; [apply thread_self|done]|].
    destruct (sy_owned _ _ Hs d Ho) as (u & q & Hu & Hq). exists u, q. split; [|done].
    apply thread_other; [|done]. intros ->. simpl in Hu. congruence.
  - intros Hc. destruct F6 as [E|He]; [|right; apply (thread_exists (fun q => finalizes q = true)); by right].
    rewrite E in Hc. destruct (sy_closing _ _ Hs Hc) as [Hd|(u & q & Hu & Hq)]; [left; by apply (gu_closeDone _ _ _ F2)|].
    simpl in Hu. destruct (decide (u = t)) as [->|Hn].
    + destruct Hfin as [?|?]; [congruence| |by left]. right. exists t, p'. split; [apply thread_self|done].
    + right. exists u, q. split; [by apply thread_other|done].
  - intros r Hr. destruct (F10 r Hr) as [?|[?|[He|(Hl & Hc & Hh)]]]; [auto|..].
    + right. exists t, p'. split; [apply thread_self|done].
    + right. apply (thread_exists (fun q => holds q = Some r)). by right.
    + destruct (sy_held _ _ Hs r Hl) as [?|(u & q & Hu & Hq)]; [done|]. right. exists u, q. split; [|done].
      apply thread_other; [|done]. intros ->. simpl in Hu. congruence.
  - intros Hst. destruct F11 as [?|[He|[Hsame He]]]; [done|by apply (thread_exists (resp _))|].
    destruct (sy_resp _ _ Hs) as (u & q & Hu & Hq); [simpl; destruct Hsame as (E & _); congruence|]. simpl in Hu, Hq.
    destruct (decide (u = t)) as [->|Hn].
    + apply (thread_exists (resp _)). apply He. congruence.
    + exists u, q. split; [by apply thread_other|]. by eapply resp_same.
Qed.
End Thread.

Lemma ls_eta (s : lifeSys) : s = mkLife (ls_world s) (ls_threads s).
Proof. by destruct s. Qed.

(** A step is one from outside, a call, or a step of a thread. *)
Lemma lifeStep_split s op s' :
  lifeStep cb disableReconnect url_Parse url_String s op = Some s' ->
  (quiet (ls_world s) (ls_world s') /\ (forall r, isLive (ls_world s') r -> isLive (ls_world s) r) /\
     (ls_threads s' = ls_threads s \/
      ls_world s' = ls_world s /\ exists p, isCall p = true /\ ls_threads s' = (ls_threads s ++ [p])%list)) \/
  (exists t ch p w' p' sp, op = LifeThread t ch /\ ls_threads s !! t = Some p /\
     threadStep cb disableReconnect url_Parse url_String ch (ls_world s) p = Some (w', p', sp) /\
     s' = mkLife w' (<[t := p']> (ls_threads s) ++ sp)).
Proof.
  destruct op as [p|t ch|r err|token|ch]; unfold lifeStep; intros H.
  - destruct (isCall p) eqn:Hp; [|done]. injection H as <-. left. simpl. split_and!; [apply quiet_refl|done|eauto].
  - destruct (ls_threads s !! t) as [p|] eqn:Ht; [|done]. simpl in H.
    destruct (threadStep _ _ _ _ _ _ _) as [[[w' p'] sp]|] eqn:E; [|done]. injection H as <-. right.
    exists t, ch, p, w', p', sp. done.
  - injection H as <-. left. simpl. split_and!; [apply quiet_failRun| |by left].
    intros i Hi. by apply isLive_failRun in Hi as [? _].
  - injection H as <-. left. unfold UpdateToken. destruct (String.eqb _ _); simpl; (split_and!; [| |by left]).
    + apply quiet_refl.
    + done.
    + eapply quiet_trans; [apply quiet_setToken|apply quiet_cancelTokenWarning].
    + intros i. unfold cancelTokenWarning. by destruct (cl_tokenWarningCancel _).
  - destruct (callbackStep _ _ _) as [c|] eqn:E; [|done]. injection H as <-. left.
    assert (set_cb c (ls_world s) = callback cb (OpDispatch (dispatchChoice (ls_world s) ch)) (ls_world s)) as Ec.
    { unfold callback. by rewrite E. }
    simpl. rewrite Ec. split_and!; [by apply quiet_callback|done|by left].
Qed.

Lemma lifeStep_ok n s op s' :
  Z.of_nat (S n) < 2 ^ 64 -> sysOk n s -> lifeStep cb disableReconnect url_Parse url_String s op = Some s' -> sysOk (S n) s'.
Proof.
  intros Hn Hs H. destruct (lifeStep_split _ _ _ H) as [(Q & Hl & Hts)|(t & ch & p & w' & p' & sp & _ & Ht & Hst & ->)].
  - destruct s as [w ts], s' as [w' ts']. simpl in *. destruct Hts as [->|(-> & p & Hp & ->)].
    + by eapply sys_quiet.
    + by apply sys_call.
  - destruct s as [w ts]. simpl in *.
    eapply thread_step; [exact Hs|exact Ht| |by eapply spawns_one|by eapply finalizer_goes_on].
    eapply threadStep_facts; [exact Hn|apply Hs| |exact Hst]. by apply (sy_threads _ _ Hs t).
Qed.

Lemma lifeRun_ok ops n s s' :
  Z.of_nat (n + length ops) < 2 ^ 64 -> sysOk n s ->
  lifeRun cb disableReconnect url_Parse url_String s ops = Some s' -> sysOk (n + length ops) s'.
Proof.
  revert n s. induction ops as [|op ops IH]; intros n s Hn Hs H; simpl in *.
  - injection H as <-. by rewrite Nat.add_0_r.
  - destruct (lifeStep _ _ _ _ _ _) as [s1|] eqn:E; [|done].
    rewrite <- Nat.add_succ_comm in *. apply (IH (S n) s1); [done| |done].
    eapply lifeStep_ok; [|exact Hs|exact E]. lia.
Qed.

(** What every execution of fewer than 2^64 steps reaches. *)
Lemma reachable_ok ops s :
  Z.of_nat (length ops) < 2 ^ 64 ->
  lifeRun cb disableReconnect url_Parse url_String startLife ops = Some s -> sysOk (length ops) s.
Proof. intros Hn H. apply (lifeRun_ok ops 0 startLife s); [done|apply sysOk_start|done]. Qed.

(** ** The callbacks of the lifecycle *)

(** The callbacks make at most one step of Callbacks.v. *)
Definition oneCallback (w w' : world) : Prop :=
  w_cb w' = w_cb w \/ exists op, callbackStep cb (w_cb w) op = Some (w_cb w').

Lemma oneCallback_callback op w w' : w_cb w' = w_cb w -> oneCallback w (callback cb op w').
Proof.
  intros E. unfold oneCallback, callback. simpl. rewrite E.
  destruct (callbackStep cb (w_cb w) op) eqn:Eq; simpl; [right; by exists op|by left].
Qed.

Lemma oneCallback_emit b ep u st w w' : w_cb w' = w_cb w -> oneCallback w (emitState cb b ep u st w').
Proof. intros E. unfold emitState. destruct (_ && _); [by apply oneCallback_callback|by left]. Qed.

Lemma cb_upd f w : w_cb (upd_client f w) = w_cb w.
Proof. done. Qed.
Lemma cb_failRun r e w : w_cb (failRun r e w) = w_cb w.
Proof. unfold failRun. by destruct (w_runs w !! r) as [[ep p []]|]. Qed.
Lemma cb_newRun ep p w : w_cb (snd (newRun ep p w)) = w_cb w.
Proof. done. Qed.
Lemma cb_discardedRun ep e w : w_cb (discardedRun ep e w) = w_cb w.
Proof. unfold discardedRun, newRun. by rewrite cb_failRun. Qed.
Lemma cb_cancelTokenWarning w : w_cb (cancelTokenWarning w) = w_cb w.
Proof. unfold cancelTokenWarning. by destruct (cl_tokenWarningCancel _). Qed.
Lemma cb_cancelSession w : w_cb (cancelSessionLocked w) = w_cb w.
Proof. unfold cancelSessionLocked. by destruct (cl_sessionCtx _). Qed.
Lemma cb_startSession w : w_cb (snd (startSessionLocked w)) = w_cb w.
Proof. unfold startSessionLocked. by destruct (cl_sessionCtx _). Qed.
Lemma cb_applyProvision p w : w_cb (applyProvisionLocked p w) = w_cb w.
Proof. unfold applyProvisionLocked. destruct (String.eqb _ _); [done|]. simpl. by rewrite cb_cancelTokenWarning. Qed.
Lemma cb_schedule ctx gen e w : w_cb (snd (scheduleTokenExpiryWarning cb ctx gen e w)) = w_cb w.
Proof.
  unfold scheduleTokenExpiryWarning. destruct (_ || _); [done|]. destruct (negb _); [done|]. simpl.
  by destruct (cl_tokenWarningCancel _).
Qed.

Lemma one_recordTerminal e s err w : oneCallback w (snd (recordTerminalForRunSession cb e s err w)).
Proof.
  unfold recordTerminalForRunSession. destruct (_ || _ || _); [by left|]. apply oneCallback_callback.
  by rewrite cb_cancelTokenWarning, cb_cancelSession.
Qed.
Lemma one_close w : oneCallback w (snd (closeClient cb w)).
Proof.
  pose proof (oneCallback_callback OpClose w w eq_refl) as H. unfold oneCallback, closeClient in *. simpl.
  by rewrite cb_cancelTokenWarning, cb_cancelSession.
Qed.
Lemma one_detach g w : oneCallback w (snd (detachCanceledSessionForLogout cb g w)).
Proof.
  unfold detachCanceledSessionForLogout. destruct (_ || _ || _ || _); [by left|]. apply oneCallback_callback.
  by rewrite cb_cancelTokenWarning.
Qed.
Lemma cb_beginLogout c w :
  match beginLogout c w with (Acquired _ w', _, w'') => w_cb w' = w_cb w /\ w_cb w'' = w_cb w | (_, _, w'') => w_cb w'' = w_cb w end.
Proof.
  unfold beginLogout. destruct (w_closed w); [done|]. destruct (cl_connectDone _).
  - destruct (_ && _); [apply cb_cancelSession|done].
  - destruct (is_some _); [|done]. split; exact (cb_cancelSession w).
Qed.
Lemma cb_beginConnect op w : match beginConnect op w with Acquired _ w' => w_cb w' = w_cb w | _ => True end.
Proof. unfold beginConnect. destruct (w_closed w); [done|]. by destruct (cl_connectDone _). Qed.

(** The calls of a step that return a world and more. *)
Ltac one_call H :=
  match type of H with
  | context [recordTerminalForRunSession cb ?e ?s ?err ?w] =>
      pose proof (one_recordTerminal e s err w); destruct (recordTerminalForRunSession cb e s err w) as [[] ?]
  | context [closeClient cb ?w] => pose proof (one_close w); destruct (closeClient cb w)
  | context [detachCanceledSessionForLogout cb ?g ?w] =>
      pose proof (one_detach g w); destruct (detachCanceledSessionForLogout cb g w) as [[[]|] ?]
  | context [beginLogout ?c ?w] => pose proof (cb_beginLogout c w); destruct (beginLogout c w) as [[[]?] ?]
  | context [beginConnect ?op ?w] => pose proof (cb_beginConnect op w); destruct (beginConnect op w)
  | context [scheduleTokenExpiryWarning cb ?a ?b ?c ?w] =>
      pose proof (cb_schedule a b c w); destruct (scheduleTokenExpiryWarning cb a b c w) as [[] ?]
  | context [newRun ?a ?b ?w] => pose proof (cb_newRun a b w); destruct (newRun a b w) as [? ?]
  | context [startSessionLocked ?w] => pose proof (cb_startSession w); destruct (startSessionLocked w) as [[] ?]
  | context [endConnect ?d ?w] =>
      let E := fresh in destruct (endConnect d w) eqn:E; [apply endConnect_inv in E as ->|done]
  end.

Ltac one_callback H :=
  repeat first [one_call H | progress cbv beta iota in H | case_match; try done];
  unfold to in H; injection H as <- <- <-;
  first
  [ assumption
  | lazymatch goal with
    | |- oneCallback _ (emitState _ _ _ _ _ _) => apply oneCallback_emit; done
    | |- oneCallback _ (callback _ _ _) => apply oneCallback_callback; rewrite ?cb_cancelTokenWarning, ?cb_upd; done
    | |- _ => left; rewrite ?cb_upd, ?cb_failRun, ?cb_discardedRun, ?cb_applyProvision;
        first [reflexivity | simpl in *; first [congruence | match goal with
          | E : _ /\ _ |- _ => destruct E; congruence
          | E : w_cb _ = w_cb _ |- _ => rewrite E; apply cb_applyProvision
          end]]
    end ].

Lemma login_callback ch w p w' p' sp : loginStep cb ch w p = Some (w', p', sp) -> oneCallback w w'.
Proof. intros H. destruct p, ch; try done; unfold loginStep in H; one_callback H. Qed.

Lemma logout_callback ch w p w' p' sp : logoutStep cb ch w p = Some (w', p', sp) -> oneCallback w w'.
Proof. intros H. destruct p, ch; try done; unfold logoutStep in H; one_callback H. Qed.

Lemma close_callback ch w p w' p' sp : closeStep cb ch w p = Some (w', p', sp) -> oneCallback w w'.
Proof. intros H. destruct p, ch; try done; unfold closeStep in H; one_callback H. Qed.

Lemma monitor_callback ch w p w' p' sp : monitorStep cb disableReconnect ch w p = Some (w', p', sp) -> oneCallback w w'.
Proof. intros H. destruct p, ch; try done; unfold monitorStep in H; one_callback H. Qed.

Lemma reconnect_callback ch w p w' p' sp :
  reconnectStep cb url_Parse url_String ch w p = Some (w', p', sp) -> oneCallback w w'.
Proof. intros H. destruct p, ch; try done; unfold reconnectStep in H; one_callback H. Qed.

Lemma warning_callback ch w p w' p' sp : warningStep cb ch w p = Some (w', p', sp) -> oneCallback w w'.
Proof. intros H. destruct p, ch; try done; unfold warningStep in H; one_callback H. Qed.

Lemma step_callback ch w p w' p' sp :
  threadStep cb disableReconnect url_Parse url_String ch w p = Some (w', p', sp) -> oneCallback w w'.
Proof.
  unfold threadStep.
  destruct (loginStep _ _ _ _) as [o|] eqn:E1; [intros [= ->]; by eapply login_callback|].
  destruct (logoutStep _ _ _ _) as [o|] eqn:E2; [intros [= ->]; by eapply logout_callback|].
  destruct (closeStep _ _ _ _) as [o|] eqn:E3; [intros [= ->]; by eapply close_callback|].
  destruct (monitorStep _ _ _ _ _) as [o|] eqn:E4; [intros [= ->]; by eapply monitor_callback|].
  destruct (reconnectStep _ _ _ _ _ _) as [o|] eqn:E5; [intros [= ->]; by eapply reconnect_callback|].
  apply warning_callback.
Qed.

Lemma lifeStep_callback s op s' :
  lifeStep cb disableReconnect url_Parse url_String s op = Some s' -> oneCallback (ls_world s) (ls_world s').
Proof.
  destruct op as [p|t ch|r err|token|ch]; unfold lifeStep; intros H.
  - destruct (isCall p); [|done]. injection H as <-. by left.
  - destruct (ls_threads s !! t) as [p|]; [|done]. simpl in H.
    destruct (threadStep _ _ _ _ _ _ _) as [[[w' p'] sp]|] eqn:E; [|done]. injection H as <-. by eapply step_callback.
  - injection H as <-. left. apply cb_failRun.
  - injection H as <-. left. unfold UpdateToken. destruct (String.eqb _ _); [done|]. simpl. by rewrite cb_cancelTokenWarning.
  - destruct (callbackStep _ _ _) as [c|] eqn:E; [|done]. injection H as <-. right. eauto.
Qed.

(** The callbacks of an execution of the lifecycle are an execution of
    Callbacks.v. *)
Lemma life_callbacks ops s s' cops :
  lifeRun cb disableReconnect url_Parse url_String s ops = Some s' ->
  callbackRun cb startCallbacks cops = Some (w_cb (ls_world s)) ->
  exists cops', (length cops' <= length cops + length ops)%nat /\
    callbackRun cb startCallbacks cops' = Some (w_cb (ls_world s')).
Proof.
  revert s cops. induction ops as [|op ops IH]; intros s cops H Hc; simpl in H.
  - injection H as <-. exists cops. split; [lia|done].
  - destruct (lifeStep _ _ _ _ _ _) as [s1|] eqn:E; [|done]. simpl in H.
    destruct (lifeStep_callback _ _ _ E) as [Eq|[cop Hcop]].
    + rewrite <- Eq in Hc. destruct (IH s1 cops H Hc) as (cops' & ? & ?). exists cops'. simpl. split; [lia|done].
    + destruct (IH s1 (cops ++ [cop])%list H) as (cops' & Hl & ?).
      { rewrite callbackRun_app, Hc. simpl. by rewrite Hcop. }
      exists cops'. rewrite length_app in Hl. simpl in *. split; [lia|done].
Qed.

(** ** Where a session comes from *)

Definition logs (p' : pc) (sp : list pc) : bool := existsb loggingIn (p' :: sp).

Ltac no_login H Hl :=
  repeat case_match; try done; try (unfold to in H; injection H as <- <- <-; discriminate Hl);
  try match type of H with context [endConnect ?d ?w] => destruct (endConnect d w); [|done] end;
  unfold to in H; injection H as <- <- <-; repeat case_match; discriminate Hl.

Lemma login_logs ch w p w' p' sp :
  loginStep cb ch w p = Some (w', p', sp) -> logs p' sp = true ->
  loggingIn p = true \/ exists d userID token, p = LoginInstall d userID token /\ ch = Go.
Proof.
  intros H Hl. destruct p, ch; try done; try (by left); try (by right; eauto);
    exfalso; unfold loginStep in H; no_login H Hl.
Qed.

Lemma logout_logs ch w p w' p' sp : logoutStep cb ch w p = Some (w', p', sp) -> logs p' sp = true -> False.
Proof. intros H Hl. destruct p, ch; try done; unfold logoutStep in H; no_login H Hl. Qed.

Lemma close_logs ch w p w' p' sp : closeStep cb ch w p = Some (w', p', sp) -> logs p' sp = true -> False.
Proof. intros H Hl. destruct p, ch; try done; unfold closeStep in H; no_login H Hl. Qed.

Lemma monitor_logs ch w p w' p' sp : monitorStep cb disableReconnect ch w p = Some (w', p', sp) -> logs p' sp = true -> False.
Proof. intros H Hl. destruct p, ch; try done; unfold monitorStep in H; no_login H Hl. Qed.

Lemma reconnect_logs ch w p w' p' sp :
  reconnectStep cb url_Parse url_String ch w p = Some (w', p', sp) -> logs p' sp = true -> False.
Proof. intros H Hl. destruct p, ch; try done; unfold reconnectStep in H; no_login H Hl. Qed.

Lemma warning_logs ch w p w' p' sp : warningStep cb ch w p = Some (w', p', sp) -> logs p' sp = true -> False.
Proof. intros H Hl. destruct p, ch; try done; unfold warningStep in H; no_login H Hl. Qed.

Lemma step_logs ch w p w' p' sp :
  threadStep cb disableReconnect url_Parse url_String ch w p = Some (w', p', sp) -> logs p' sp = true ->
  loggingIn p = true \/ exists d userID token, p = LoginInstall d userID token /\ ch = Go.
Proof.
  unfold threadStep.
  destruct (loginStep _ _ _ _) as [o|] eqn:E1; [intros [= ->]; by eapply login_logs|].
  destruct (logoutStep _ _ _ _) as [o|] eqn:E2; [intros [= ->] Hl; by destruct (logout_logs _ _ _ _ _ _ E2 Hl)|].
  destruct (closeStep _ _ _ _) as [o|] eqn:E3; [intros [= ->] Hl; by destruct (close_logs _ _ _ _ _ _ E3 Hl)|].
  destruct (monitorStep _ _ _ _ _) as [o|] eqn:E4; [intros [= ->] Hl; by destruct (monitor_logs _ _ _ _ _ _ E4 Hl)|].
  destruct (reconnectStep _ _ _ _ _ _) as [o|] eqn:E5; [intros [= ->] Hl; by destruct (reconnect_logs _ _ _ _ _ _ E5 Hl)|].
  intros H Hl. by destruct (warning_logs _ _ _ _ _ _ H Hl).
Qed.

(** Only a Login leaves the logged out state. *)
Lemma leaves_logout n ch w p w' p' sp :
  client_ok n w -> ok w p -> stepFacts n w p w' p' sp ->
  threadStep cb disableReconnect url_Parse url_String ch w p = Some (w', p', sp) ->
  cl_state (w_client w) = LoginStateLogout -> cl_state (w_client w') <> LoginStateLogout ->
  exists d userID token, p = LoginInstall d userID token /\ ch = Go.
Proof.
  intros C O F H Hs Hs'. pose proof (sf_state _ _ _ _ _ _ F) as Htr. rewrite Hs in Htr.
  assert (cl_state (w_client w') = LoginStateLoggingIn) as Hl by (by destruct (cl_state (w_client w'))).
  assert (logs p' sp = true) as Hlogs.
  { destruct (sf_resp _ _ _ _ _ _ F) as [?|[He|[(E & _) _]]]; [done| |congruence].
    unfold logs. apply existsb_exists. apply Exists_exists in He as (q & Hq & Hr).
    exists q. split; [by apply list_elem_of_In|]. unfold resp in Hr. by rewrite Hl in Hr. }
  destruct (step_logs _ _ _ _ _ _ H Hlogs) as [Hp|?]; [|done].
  destruct (ok_login _ _ O Hp) as [Hc|?]; [|congruence].
  pose proof (co_closed _ _ (sf_client _ _ _ _ _ _ F) (gu_closed _ _ _ (sf_guar _ _ _ _ _ _ F) Hc)). congruence.
Qed.

(** ** What every interleaving keeps *)

(** C21. Login, Logout and the reconnects exclude each other: at every instant at most
    one of them owns the lifecycle, the channel of the owner is the one the
    others wait for, and no operation ends a lifecycle that it does not own, which
    would be the panic of [endConnect]. *)
Theorem lifecycle_exclusive ops s :
  Z.of_nat (length ops) < 2 ^ 64 ->
  lifeRun cb disableReconnect url_Parse url_String startLife ops = Some s ->
  (forall t u p q, ls_threads s !! t = Some p -> ls_threads s !! u = Some q ->
     is_Some (owns p) -> is_Some (owns q) -> t = u) /\
  (forall d, cl_connectDone (w_client (ls_world s)) = Some d <-> exists t p, ls_threads s !! t = Some p /\ owns p = Some d) /\
  (forall t p d, ls_threads s !! t = Some p ->
     (exists res, p = LoginEnd d res \/ p = LogoutEnd d res) \/ (exists again, p = ReconnectEnd d again) ->
     is_Some (endConnect d (ls_world s)) /\ is_Some (lifeStep cb disableReconnect url_Parse url_String s (LifeThread t Go))).
Proof.
  intros Hn Hr. pose proof (reachable_ok _ _ Hn Hr) as S. split_and!; [apply S| |].
  - intros d. split; [apply S|]. intros (t & p & Ht & Ho). by apply (sy_threads _ _ S t p Ht).
  - intros t p d Ht Hp.
    assert (owns p = Some d) as Ho by (by destruct Hp as [(? & [-> | ->])|(? & ->)]).
    pose proof (ok_owns _ _ (sy_threads _ _ S t p Ht) d Ho) as Hd.
    assert (is_Some (endConnect d (ls_world s))) as [w1 Hw] by (unfold endConnect; rewrite bool_decide_true by done; eauto).
    split; [by exists w1|]. unfold lifeStep. rewrite Ht. simpl.
    destruct Hp as [(res & [-> | ->])|(again & ->)]; unfold threadStep; simpl; rewrite Hw; simpl; by eauto.
Qed.

(** C22. The Client is consistent with its login state.  Logged out it has no session,
    no run, no token timer and none of the fields of a session (user, session id,
    hosts, cursor, DNS generation, REST base); logged in or reconnecting it has a
    run, connected or failed; the context of the current session is not cancelled;
    a closed Client is logged out for good.  A step that leaves it logged out leaves
    it without a token, or with the one it had while logged out: only a call of
    [UpdateToken], which does not look at the state, gives a logged out Client
    one. *)
Theorem client_consistent ops s :
  Z.of_nat (length ops) < 2 ^ 64 ->
  lifeRun cb disableReconnect url_Parse url_String startLife ops = Some s ->
  stateOk (ls_world s) /\
  (forall x, cl_sessionCtx (w_client (ls_world s)) = Some x ->
     ctxDone (ls_world s) x = false /\ cl_sessionGeneration (w_client (ls_world s)) <> 0) /\
  (w_closed (ls_world s) = true -> cl_state (w_client (ls_world s)) = LoginStateLogout) /\
  (forall op s', lifeStep cb disableReconnect url_Parse url_String s op = Some s' ->
     let c := w_client (ls_world s) in let c' := w_client (ls_world s') in
     cl_state c' = LoginStateLogout -> (forall token, op <> LifeUpdateToken token) ->
     cl_token c' = "" \/ (cl_state c = LoginStateLogout /\ cl_token c' = cl_token c)).
Proof.
  intros Hn Hr. pose proof (sy_client _ _ (reachable_ok _ _ Hn Hr)) as C. split_and!; try apply C.
  - intros x Hx. split; [|apply (co_gen_pos _ _ C); eauto].
    destruct (active_session _ _ _ C Hx) as [Hc _]. destruct (cx_session _ (co_ctxs _ _ C) _ Hx) as [_ Hne].
    unfold ctxDone. by rewrite Hc, bool_decide_false.
  - intros op s' Hs c c' Hst Hop.
    destruct (lifeStep_token _ _ _ _ _ _ _ Hs) as [[?|[?|E]]|(token & ->)]; [done|by left| |by destruct (Hop token)].
    right. pose proof (f_equal fst E) as E1. pose proof (f_equal snd E) as E2. cbn [auth fst snd] in E1, E2.
    split; [|exact E2]. unfold c. rewrite <- E1. exact Hst.
Qed.

(** [LoginState] moves only along the transitions of the lifecycle: in
    particular a logged out Client never becomes logged in or reconnecting
    without a Login, whatever reconnects are still under way. *)
Theorem login_state_machine ops s op s' :
  Z.of_nat (S (length ops)) < 2 ^ 64 ->
  lifeRun cb disableReconnect url_Parse url_String startLife ops = Some s ->
  lifeStep cb disableReconnect url_Parse url_String s op = Some s' ->
  transition (cl_state (w_client (ls_world s))) (cl_state (w_client (ls_world s'))) = true /\
  (cl_state (w_client (ls_world s)) = LoginStateLogout -> cl_state (w_client (ls_world s')) <> LoginStateLogout ->
     exists t d userID token, op = LifeThread t Go /\ ls_threads s !! t = Some (LoginInstall d userID token)).
Proof.
  intros Hn Hr Hs. assert (Z.of_nat (length ops) < 2 ^ 64) as Hn' by lia. pose proof (reachable_ok _ _ Hn' Hr) as S.
  destruct (lifeStep_split _ _ _ Hs) as [[Q _]|(t & ch & p & w' & p' & sp & -> & Ht & Hst & ->)].
  - destruct (qu_core _ _ Q) as (E & _). split; [by apply transition_same|congruence].
  - pose proof (sy_threads _ _ S t p Ht) as O.
    pose proof (threadStep_facts _ _ _ _ _ _ _ _ _ _ _ Hn (sy_client _ _ S) O Hst) as F. simpl.
    split; [apply F|]. intros H1 H2.
    destruct (leaves_logout _ _ _ _ _ _ _ (sy_client _ _ S) O F Hst H1 H2) as (d & u & tok & -> & ->).
    by exists t, d, u, tok.
Qed.

(** C24. Every connection that is not shut down is the one of the Client or is in the
    hands of an operation that will install it or shut it down; when no operation
    is under way, a logged out Client has no open connection. *)
Theorem no_connection_leak ops s :
  Z.of_nat (length ops) < 2 ^ 64 ->
  lifeRun cb disableReconnect url_Parse url_String startLife ops = Some s ->
  (forall r, isLive (ls_world s) r ->
     cl_run (w_client (ls_world s)) = Some r \/ exists t p, ls_threads s !! t = Some p /\ holds p = Some r) /\
  ((forall t p, ls_threads s !! t = Some p -> exists res, p = Returned res) ->
   cl_state (w_client (ls_world s)) = LoginStateLogout -> forall r, ~ isLive (ls_world s) r).
Proof.
  intros Hn Hr. pose proof (reachable_ok _ _ Hn Hr) as S. split; [apply S|].
  intros Hall Hst r Hl. pose proof (co_state _ _ (sy_client _ _ S)) as C. unfold stateOk, noSession in C. rewrite Hst in C.
  destruct (sy_held _ _ S r Hl) as [Hrun|(t & p & Ht & Hp)]; [naive_solver|].
  destruct (Hall t p Ht) as [res ->]. done.
Qed.

(** C28. While a Client is not logged out somebody is responsible for its session: the
    Login that opens it, the monitor of its run, the reconnect that drives it, or
    the Logout that has cancelled it. *)
Theorem session_supervised ops s :
  Z.of_nat (length ops) < 2 ^ 64 ->
  lifeRun cb disableReconnect url_Parse url_String startLife ops = Some s ->
  cl_state (w_client (ls_world s)) <> LoginStateLogout ->
  exists t p, ls_threads s !! t = Some p /\ resp (w_client (ls_world s)) p /\ ok (ls_world s) p.
Proof.
  intros Hn Hr Hst. pose proof (reachable_ok _ _ Hn Hr) as S.
  destruct (sy_resp _ _ S Hst) as (t & p & Ht & Hp). exists t, p. split_and!; [done|done|]. by apply (sy_threads _ _ S t).
Qed.

(** C23. When [Close] has returned without an error (its context did not end before
    it was done), the Client is logged out, no operation owns the
    lifecycle, and every connection that was ever made is shut down. *)
Theorem close_complete ops s :
  Z.of_nat (length ops) < 2 ^ 64 ->
  lifeRun cb disableReconnect url_Parse url_String startLife ops = Some s ->
  w_closeDone (ls_world s) = true ->
  w_closed (ls_world s) = true /\ w_codecClosed (ls_world s) = true /\
  cl_state (w_client (ls_world s)) = LoginStateLogout /\ cl_connectDone (w_client (ls_world s)) = None /\
  (forall t p, ls_threads s !! t = Some p -> owns p = None) /\
  (forall r cn, w_runs (ls_world s) !! r = Some cn -> cn_done cn = true).
Proof.
  intros Hn Hr Hd. pose proof (reachable_ok _ _ Hn Hr) as S. pose proof (sy_client _ _ S) as C.
  pose proof (co_closeDone _ _ C Hd) as Hco. destruct (co_codec _ _ C Hco) as [Hc Hn'].
  pose proof (co_closed _ _ C Hc) as Hst.
  assert (forall t p, ls_threads s !! t = Some p -> owns p = None) as Hno.
  { intros t p Ht. destruct (owns p) as [d|] eqn:E; [|done].
    pose proof (ok_owns _ _ (sy_threads _ _ S t p Ht) d E). congruence. }
  split_and!; try done. intros r cn Hcn. destruct (cn_done cn) eqn:E; [done|exfalso].
  destruct (sy_held _ _ S r) as [Hrun|(t & p & Ht & Hp)]; [by exists cn| |].
  - pose proof (co_state _ _ C) as Hok. unfold stateOk, noSession in Hok. rewrite Hst in Hok. naive_solver.
  - pose proof (Hno t p Ht) as Ho. pose proof (ok_final _ _ (sy_threads _ _ S t p Ht)) as Hf.
    destruct p; try done. simpl in Hf. destruct Hf. congruence.
Qed.

(** ** Close comes to its end *)

(** The steps a finalizer has left once nobody owns the lifecycle. *)
Definition finalLeft (p : pc) : nat :=
  match p with
  | FinalizeShutdown _ => 5
  | FinalizeRead => 4
  | FinalizeWait _ => 3
  | FinalizeDrain => 2
  | FinalizeDone => 1
  | _ => 0
  end.

Lemma final_step w p :
  cl_connectDone (w_client w) = None -> finalizes p = true ->
  exists w' p', threadStep cb disableReconnect url_Parse url_String Go w p = Some (w', p', []) /\
    cl_connectDone (w_client w') = None /\ finalLeft p = S (finalLeft p') /\
    (finalizes p' = true \/ (p' = Returned None /\ w_closeDone w' = true)).
Proof.
  intros Hn Hf. destruct p; try done; unfold threadStep; simpl; unfold to.
  - eexists _, _. split_and!; [done| |done|by left].
    destruct r as [r|]; [|done]. by rewrite (qu_done _ _ (quiet_failRun _ _ _)).
  - rewrite Hn. eexists _, _. split_and!; [done|done|done|by left].
  - destruct done as [d|].
    + unfold ended. rewrite Hn, bool_decide_false by done. eexists _, _. split_and!; [done|done|done|by left].
    + eexists _, _. split_and!; [done|done|done|by left].
  - eexists _, _. split_and!; [done|done|done|by left].
  - eexists _, _. split_and!; [done|done|done|by right].
Qed.

Lemma final_run k s t p :
  cl_connectDone (w_client (ls_world s)) = None -> ls_threads s !! t = Some p -> finalizes p = true -> finalLeft p = k ->
  exists s', lifeRun cb disableReconnect url_Parse url_String s (repeat (LifeThread t Go) k) = Some s' /\
    ls_threads s' !! t = Some (Returned None) /\ w_closeDone (ls_world s') = true.
Proof.
  revert s p. induction k as [|k IH]; intros s p Hn Ht Hf Hk; [by destruct p|].
  destruct (final_step _ _ Hn Hf) as (w' & p' & Hst & Hn' & Hk' & Hp').
  simpl. rewrite Ht. simpl. rewrite Hst. simpl. set (s1 := mkLife _ _).
  assert (ls_threads s1 !! t = Some p') as Ht'.
  { simpl. rewrite app_nil_r. apply list_lookup_insert_eq. by eapply lookup_lt_Some. }
  destruct Hp' as [Hp'|[-> Hd]].
  - apply (IH s1 p'); [done|done|done|lia].
  - assert (k = 0%nat) as -> by (simpl in *; lia). exists s1. done.
Qed.

(** A closed Client stays closed. *)
Lemma lifeRun_closed ops s s' :
  lifeRun cb disableReconnect url_Parse url_String s ops = Some s' ->
  w_closed (ls_world s) = true -> w_closed (ls_world s') = true.
Proof.
  revert s. induction ops as [|op ops IH]; intros s H Hc; simpl in H; [by injection H as <-|].
  destruct (lifeStep _ _ _ _ _ _) as [s1|] eqn:E; [|done]. apply (IH s1 H). unfold w_closed in *.
  destruct (lifeStep_callback _ _ _ E) as [->|[cop Hcop]]; [done|by eapply callbackStep_closed].
Qed.


(** ** The callbacks of the lifecycle *)

(** C31. Whatever the interleaving of Logins, Logouts, the Close, failures, reconnects
    and the dispatcher: the application sees the events of the Client in the order
    of their epochs, and the terminal bundle of a session after every event of
    that session and before those of later ones. *)
Theorem lifecycle_callbacks_ordered ops s :
  Z.of_nat (length ops) <= max_uint64 ->
  lifeRun cb disableReconnect url_Parse url_String startLife ops = Some s ->
  StronglySorted before (map entryMark (dp_log (sy_disp (w_cb (ls_world s))))).
Proof.
  intros Hn Hr. destruct (life_callbacks ops startLife s [] Hr eq_refl) as (cops & Hl & Hc).
  eapply ordered_log; [|exact Hc]. simpl in Hl. lia.
Qed.
End Theory.

(** ** Executions *)

(** A Login, a run that fails, the reconnect, a Logout and the Close. *)
Definition noURL (s : string) : result urlParts := Err (EPlain s).
Definition sampleAnswer : dnsAnswer := mkDnsAnswer ["wss://a.example/ws"; "wss://b.example/ws"] "https://rest.example" 1.
Definition sampleProvision (n : Z) : provisionState := mkProvisionState "sid" "token2" n.

Definition loginOps : list lifeOp :=
  [LifeCall (LoginStart "alice" "token")] ++ repeat (LifeThread 0 Go) 4 ++
  [LifeThread 0 (Resolved (Ok sampleAnswer)); LifeThread 0 (Connected "wss://a.example/ws" (sampleProvision 5000) 0)].
Definition commitOps : list lifeOp := [LifeThread 0 (At 1000)] ++ repeat (LifeThread 0 Go) 3.
Definition reconnectOps : list lifeOp :=
  [LifeRunFails 0 (newError ErrStreamClosed "read" "eof")] ++ repeat (LifeThread 2 Go) 4 ++ [LifeThread 2 (At 2000)] ++ repeat (LifeThread 2 Go) 5.

(** A Close while the reconnect dials; the dial then fails. *)
Definition closeOps : list lifeOp := [LifeCall CloseStart; LifeThread 3 Go].
Definition dialFails : list lifeOp :=
  [LifeThread 2 (ConnectFailed (newError ErrClientClosed "dial" "")); LifeThread 2 (CtxDone (newError ErrClientClosed "dial" "")); LifeThread 2 Go].

Definition reconnectingOps : list lifeOp := loginOps ++ commitOps ++ reconnectOps.
Definition closingOps : list lifeOp := reconnectingOps ++ closeOps ++ dialFails.
Definition closedOps : list lifeOp := closingOps ++ repeat (LifeThread 4 Go) 5 ++ [LifeThread 3 Go].
Definition dispatchedOps : list lifeOp :=
  reconnectingOps ++ map LifeDispatch (concat (repeat [NoChoice true; ChooseEvent; NoChoice true; NoChoice true] 3)).

Definition after (ops : list lifeOp) : lifeSys :=
  default startLife (lifeRun allCallbacks false noURL (fun _ => "") startLife ops).
Definition reaches (ops : list lifeOp) : bool := is_some (lifeRun allCallbacks false noURL (fun _ => "") startLife ops).

Lemma after_reached ops :
  reaches ops = true -> lifeRun allCallbacks false noURL (fun _ => "") startLife ops = Some (after ops).
Proof. unfold reaches, after. by destruct (lifeRun _ _ _ _ _ _). Qed.

Lemma lifecycle_exclusive_witness :
  let owner := default CloseStart (ls_threads (after reconnectingOps) !! 2%nat) in
  owns owner = Some 3%nat /\
  forall t p, ls_threads (after reconnectingOps) !! t = Some p -> is_Some (owns p) -> t = 2%nat.
Proof.
  intros owner. assert (owns owner = Some 3%nat) as Ho by (by vm_compute).
  split; [exact Ho|]. intros t p Ht Hp.
  destruct (lifecycle_exclusive allCallbacks false noURL (fun _ => "") reconnectingOps (after reconnectingOps)) as (H & _).
  - by vm_compute.
  - apply after_reached. by vm_compute.
  - apply (H t 2%nat p owner Ht); [by vm_compute|exact Hp|]. rewrite Ho. by eexists.
Defined.

Lemma client_consistent_witness :
  cl_state (w_client (ls_world (after reconnectingOps))) = LoginStateReconnecting /\ stateOk (ls_world (after reconnectingOps)).
Proof.
  split; [by vm_compute|].
  apply (client_consistent allCallbacks false noURL (fun _ => "") reconnectingOps); [by vm_compute|].
  apply after_reached. by vm_compute.
Defined.

Lemma login_state_machine_witness :
  let s := after (take 3 loginOps) in let s' := after (take 4 loginOps) in
  cl_state (w_client (ls_world s)) = LoginStateLogout /\ cl_state (w_client (ls_world s')) = LoginStateLoggingIn /\
  transition (cl_state (w_client (ls_world s))) (cl_state (w_client (ls_world s'))) = true.
Proof.
  split_and!; [by vm_compute..|].
  apply (login_state_machine allCallbacks false noURL (fun _ => "") (take 3 loginOps) _ (LifeThread 0 Go)).
  - by vm_compute.
  - apply after_reached. by vm_compute.
  - by vm_compute.
Defined.

Lemma no_connection_leak_witness :
  isLive (ls_world (after loginOps)) 0 /\
  (cl_run (w_client (ls_world (after loginOps))) = Some 0%nat \/
   exists t p, ls_threads (after loginOps) !! t = Some p /\ holds p = Some 0%nat).
Proof.
  assert (isLive (ls_world (after loginOps)) 0) as Hl by (vm_compute; eexists; split; reflexivity).
  split; [exact Hl|].
  apply (no_connection_leak allCallbacks false noURL (fun _ => "") loginOps); [by vm_compute| |exact Hl].
  apply after_reached. by vm_compute.
Defined.

Lemma session_supervised_witness :
  exists t p, ls_threads (after reconnectingOps) !! t = Some p /\ resp (w_client (ls_world (after reconnectingOps))) p.
Proof.
  destruct (session_supervised allCallbacks false noURL (fun _ => "") reconnectingOps (after reconnectingOps)) as (t & p & Ht & Hp & _).
  - by vm_compute.
  - apply after_reached. by vm_compute.
  - by vm_compute.
  - exists t, p. exact (conj Ht Hp).
Defined.

Lemma close_complete_witness :
  length (w_runs (ls_world (after closedOps))) = 1%nat /\
  forall r cn, w_runs (ls_world (after closedOps)) !! r = Some cn -> cn_done cn = true.
Proof.
  split; [by vm_compute|].
  apply (close_complete allCallbacks false noURL (fun _ => "") closedOps); [by vm_compute| |by vm_compute].
  apply after_reached. by vm_compute.
Defined.


Lemma lifecycle_callbacks_ordered_witness :
  dp_log (sy_disp (w_cb (ls_world (after dispatchedOps)))) =
    [LogEvent 0 (CallConnection "alice" ConnStateConnecting); LogEvent 0 (CallConnection "alice" ConnStateConnected);
     LogEvent 0 (CallConnection "alice" ConnStateReconnecting)] /\
  StronglySorted before (map entryMark (dp_log (sy_disp (w_cb (ls_world (after dispatchedOps)))))).
Proof.
  split; [by vm_compute|].
  apply (lifecycle_callbacks_ordered allCallbacks false noURL (fun _ => "") dispatchedOps); [by vm_compute|].
  apply after_reached. by vm_compute.
Defined.
