(* ===== verification/Rest.v ===== *)
(** * REST requests

    sdk/rest.go: one request per operation, sent with the token of the session;
    the response is read up to a limit, failures become an [APIError], the error
    handler and the telemetry are told. *)
From Stdlib Require Import String Ascii SpecFloat.
From S2P Require Import Prelude Protocol Errors GoStrings Config Identifiers Wire DnsSelect.
Local Open Scope string_scope.
Local Open Scope Z_scope.

Definition defaultRESTBodyMaxBytes : Z := Z.shiftl 4 20.

(** ** net/http and net/url *)

(** [CanonicalMIMEHeaderKey] of a token. *)
Definition upperChar (c : ascii) : ascii :=
  let a := byte_of_ascii c in if (97 <=? a) && (a <=? 122) then ascii_of_N (Z.to_N (a - 32)) else c.
Definition lowerChar (c : ascii) : ascii :=
  let a := byte_of_ascii c in if (65 <=? a) && (a <=? 90) then ascii_of_N (Z.to_N (a + 32)) else c.

Fixpoint canonicalChars (upper : bool) (l : list ascii) : list ascii :=
  match l with
  | [] => []
  | c :: l => (if upper then upperChar c else lowerChar c) :: canonicalChars (Ascii.eqb c "-"%char) l
  end.

(** An [http.Header], by the first value of each canonical key. *)
Definition header := gmap string string.
Definition header_Get (h : header) (name : string) : string := default "" (h !! implode (canonicalChars true (explode name))).

(** The bytes [url.PathEscape] and [url.QueryEscape] leave as they are. *)
Definition alphanumeric (c : ascii) : bool :=
  let a := byte_of_ascii c in
  ((97 <=? a) && (a <=? 122)) || ((65 <=? a) && (a <=? 90)) || ((48 <=? a) && (a <=? 57)).
Definition segmentSafe (c : ascii) : bool := alphanumeric c || mem_char c "-_.~$&+=:@".
Definition querySafe (c : ascii) : bool := alphanumeric c || mem_char c "-_.~".

Definition percent (c : ascii) : list ascii :=
  ["%"%char; hexUpper (byte_of_ascii c / 16); hexUpper (byte_of_ascii c mod 16)].

Definition PathEscape (s : string) : string :=
  implode (concat (map (fun c => if segmentSafe c then [c] else percent c) (explode s))).

Definition QueryEscape (s : string) : string :=
  implode (concat (map (fun c => if querySafe c then [c] else if Ascii.eqb c " "%char then ["+"%char] else percent c) (explode s))).

(** [url.Values.Encode], every key with one value: sorted by key. *)
Fixpoint insertKey (k : string) (l : list string) : list string :=
  match l with
  | [] => [k]
  | k' :: l' => if String.leb k k' then k :: l else k' :: insertKey k l'
  end.
Definition sortKeys (l : list string) : list string := fold_right insertKey [] l.

Definition values_Encode (v : gmap string string) : string :=
  String.concat "&" (map (fun k => QueryEscape k ++ "=" ++ QueryEscape (default "" (v !! k)))
    (sortKeys (elements (dom v)))).

(** ** Responses and errors *)

Record Response := mkResponse { rp_StatusCode : Z; rp_Header : header; rp_Body : bytes }.

Record APIError := mkAPIError {
  ae_Response : option Response; ae_ServiceCode : string; ae_RequestID : string; ae_RetryAfter : Z; ae_Cause : option goerror }.

(** An error of an operation: an [*APIError] or another one. *)
Inductive restError := RestAPI (e : APIError) | RestOther (e : goerror).

Definition APIError_Error (e : option APIError) : string :=
  match e with
  | None => "<nil>"
  | Some e =>
      let status := match ae_Response e with Some r => ["status=" ++ strconv_FormatInt (rp_StatusCode r)] | None => [] end in
      let code := if String.eqb (ae_ServiceCode e) "" then [] else ["service_code=" ++ ae_ServiceCode e] in
      let request := if String.eqb (ae_RequestID e) "" then [] else ["request_id=" ++ ae_RequestID e] in
      let cause := match ae_Cause e with Some c => ["cause=" ++ Error c] | None => [] end in
      String.concat " " ("REST API request failed" :: concat [status; code; request; cause])
  end.

Definition APIError_Unwrap (e : option APIError) : option goerror := e ← e; ae_Cause e.

(** [errorString]. *)
Definition errorString (err : option restError) : string :=
  match err with None => "" | Some (RestAPI e) => APIError_Error (Some e) | Some (RestOther e) => Error e end.

Definition responseErrorFields (response : option Response) (err : option restError) : Z * string :=
  (match response with Some r => rp_StatusCode r | None => 0 end,
   match err with Some (RestAPI e) => ae_ServiceCode e | _ => "" end).

(** [requestID]: the names differ in their case only where they are the same key. *)
Definition requestID (h : header) : string :=
  default "" (List.find (fun v => negb (String.eqb v "")) (map (header_Get h) ["X-Request-Id"; "X-Request-ID"; "Request-Id"; "Request-ID"])).

(** The body of a response: its bytes, the error met after them, and whether a reader
    gives that error together with the last bytes, as [io.Reader] allows. *)
Record restBody := mkRestBody { rb_bytes : bytes; rb_err : option goerror; rb_together : bool }.

(** [io.ReadAll(io.LimitReader(reader, n))]. *)
Definition readAllBody (n : Z) (reader : restBody) : bytes * option goerror :=
  let len := zlen (rb_bytes reader) in
  (take (Z.to_nat n) (rb_bytes reader),
   if (len <? n) || ((len =? n) && rb_together reader) then rb_err reader else None).

(** The body, possibly cut, and an error. *)
Definition readBoundedResponse (reader : restBody) (limit : Z) : bytes * option goerror :=
  let '(body, err) := readAllBody (limit + 1) reader in
  match err with
  | Some err => (body, Some (EWrap ("read REST response: " ++ Error err) err))
  | None =>
      if zlen body >? limit
      then (take (Z.to_nat limit) body, Some (EPlain ("REST response body exceeds " ++ pretty limit ++ " bytes")))
      else (body, None)
  end.

(** ** Service codes *)

Definition statusCodes := list (Z * string).
Definition mapStatus (m : statusCodes) (status : Z) : string :=
  default "" (snd <$> List.find (fun p => fst p =? status) m).

Definition userInfoServiceCode (status : Z) : string :=
  mapStatus [(404, "USER_NOT_FOUND"); (401, "AUTH_FAILED"); (403, "DATALENGTH_EXCEED"); (429, "EXCEED_SERVICE_LIMIT")] status.
Definition fetchUserInfoServiceCode (status : Z) : string :=
  mapStatus [(404, "USER_NOT_FOUND"); (401, "AUTH_FAILED"); (400, "USERCOUNT_EXCEED"); (429, "EXCEED_SERVICE_LIMIT")] status.
Definition genericServiceCode (status : Z) : string := "".

(** A member of a decoded [map[string]any]. *)
Inductive jsonMember := MemberString (s : string) | MemberFloat (f : spec_float) | MemberOther.

(** ** Requests *)

Record restRequest := mkRestRequest {
  hr_method : string; hr_url : string; hr_header : list (string * string); hr_body : option bytes }.

(** What [Do] gives: an error, or a status, headers and a body that is read. *)
Inductive exchange := DoError (err : goerror) | DoResponse (status : Z) (h : header) (body : restBody).

Record RESTErrorInfo := mkRESTErrorInfo {
  ri_Operation : string; ri_Method : string; ri_URL : string; ri_Status : Z; ri_RequestID : string;
  ri_ServiceCode : string; ri_Err : restError }.

Record TelemetryEvent := mkTelemetryEvent {
  te_Operation : string; te_Attempt : Z; te_StatusCode : Z; te_ServiceCode : string; te_Error : string }.

(** What an operation does, in order. *)
Inductive restEvent :=
| RESTSent (req : restRequest)
| RESTNotified (info : RESTErrorInfo)          (* the application's RESTErrorHandler *)
| RESTRecorded (ev : TelemetryEvent).          (* the application's Telemetry *)

(** The part of the Client an operation reads. *)
Record restClient := mkRestClient {
  rc_restBase : string; rc_state : LoginState; rc_token : string; rc_userID : string; rc_Resource : string;
  rc_Telemetry : bool; rc_RESTErrorHandler : bool }.

Record restOutcome := mkOutcome { ro_response : option Response; ro_err : option restError; ro_events : list restEvent }.

Definition is_success (status : Z) : bool := (200 <=? status) && (status <? 300).

Section Operations.
(** url.Parse followed by String; the checks of http.NewRequestWithContext; the
    HTTP client; encoding/json into a [map[string]any]; strconv's 'f' format of a
    float64; http.ParseTime. *)
Context (url_Parse_String : string -> result string) (newRequest : string -> string -> option goerror)
  (Do : restRequest -> exchange) (json_Unmarshal_map : bytes -> option (gmap string jsonMember))
  (formatFloat : spec_float -> string) (http_ParseTime : string -> option Z).

Definition serviceCodeFromResponse (body : bytes) : string :=
  match json_Unmarshal_map body with
  | None => ""
  | Some payload =>
      default "" (head (omap (fun key =>
        match payload !! key with
        | Some (MemberString s) => Some s
        | Some (MemberFloat f) => Some (formatFloat f)
        | _ => None
        end) ["error_code"; "code"; "error"]))
  end.

Definition record (c : restClient) (operation : string) (status : Z) (serviceCode : string) (err : option restError) : list restEvent :=
  if rc_Telemetry c then [RESTRecorded (mkTelemetryEvent operation 1 status serviceCode (errorString err))] else [].

Definition notify (c : restClient) (info : RESTErrorInfo) : list restEvent :=
  if rc_RESTErrorHandler c then [RESTNotified info] else [].

Definition requestOf (c : restClient) (method endpoint contentType : string) (body : option bytes) : restRequest :=
  let authorization := "Bearer " ++ rc_token c in
  let content := if String.eqb contentType "" then [] else [("Content-Type", contentType)] in
  mkRestRequest method endpoint
    ([("Authorization", authorization); ("Accept", "application/json"); ("User-Agent", userAgent)] ++ content)%list body.

(** The URL, or why there is none. *)
Definition restEndpoint (c : restClient) (operation path rawQuery : string) : result string :=
  if bool_decide (rc_state c = LoginStateLogout) || bool_decide (rc_state c = LoginStateLoggingIn) || String.eqb (rc_restBase c) ""
  then Err (newError ErrNotLoggedIn operation "REST requires a successful login")
  else
    match url_Parse_String (rc_restBase c) with
    | Err err => Err (EWrap ("parse REST base URL: " ++ Error err) err)
    | Ok base =>
        let endpoint := strings_TrimRight base "/" ++ path in
        Ok (if String.eqb rawQuery "" then endpoint else endpoint ++ "?" ++ rawQuery)
    end.

(** The end of [doREST], on the response of [Do]: what is returned, and the service
    code and the failure to report. *)
Definition restResult (mapCode : Z -> string) (status : Z) (h : header) (reader : restBody) (now : Z)
  : Response * option (string * APIError) :=
  let '(bodyBytes, err) := readBoundedResponse reader defaultRESTBodyMaxBytes in
  let response := mkResponse status h bodyBytes in
  match err with
  | Some err => (response, Some ("", mkAPIError (Some response) "" (requestID h) 0 (Some err)))
  | None =>
      if is_success status then (response, None) else
      let serviceCode := mapCode status in
      let serviceCode := if String.eqb serviceCode "" then serviceCodeFromResponse bodyBytes else serviceCode in
      (response, Some (serviceCode, mkAPIError (Some response) serviceCode (requestID h)
                                      (parseRetryAfter http_ParseTime (header_Get h "Retry-After") now) None))
  end.

Definition doREST (c : restClient) (operation method path rawQuery : string) (body : option bytes) (contentType : string)
    (mapCode : Z -> string) (now : Z) : restOutcome :=
  let fails events err status := mkOutcome None (Some err) (events ++ record c operation status "" (Some err))%list in
  match restEndpoint c operation path rawQuery with
  | Err err => fails [] (RestOther err) 0
  | Ok endpoint =>
      match newRequest method endpoint with
      | Some err => fails [] (RestOther (EWrap ("create REST request: " ++ Error err) err)) 0
      | None =>
          let req := requestOf c method endpoint contentType body in
          match Do req with
          | DoError err =>
              let resultErr := RestOther (EWrap ("execute REST request: " ++ Error err) err) in
              fails (RESTSent req :: notify c (mkRESTErrorInfo operation method endpoint 0 "" "" resultErr)) resultErr 0
          | DoResponse status h reader =>
              match restResult mapCode status h reader now with
              | (response, None) => mkOutcome (Some response) None (RESTSent req :: record c operation status "" None)
              | (response, Some (serviceCode, err)) =>
                  let info := mkRESTErrorInfo operation method endpoint status (requestID h) serviceCode (RestAPI err) in
                  mkOutcome (Some response) (Some (RestAPI err))
                    (RESTSent req :: (notify c info ++ record c operation status serviceCode (Some (RestAPI err))))%list
              end
          end
      end
  end.

(** ** Operations *)

Definition UpdateOwnUserInfo (c : restClient) (attrs : gmap string string) (now : Z) : restOutcome :=
  doREST c "update_own_user_info" "PUT" ("/metadata/user/" ++ PathEscape (rc_userID c)) ""
    (Some (bytes_of_string (values_Encode attrs))) "application/x-www-form-urlencoded" userInfoServiceCode now.

Definition userInfoFields : list string := ["nickname"; "avatarurl"; "phone"; "mail"; "gender"; "sign"; "birth"; "ext"].
Definition UserInfoField_valid (f : string) : bool := existsb (String.eqb f) userInfoFields.

Definition UpdateOwnUserInfoField (quoted : string -> string) (c : restClient) (field value : string) (now : Z) : restOutcome :=
  if UserInfoField_valid field then UpdateOwnUserInfo c {[field := value]} now
  else mkOutcome None (Some (RestOther (EPlain ("unsupported user info field " ++ quoted field)))) [].

(** [marshal] is json.Marshal of the document. *)
Definition FetchUserInfo (marshal : list string -> list string -> result bytes) (c : restClient)
    (users properties : list string) (now : Z) : restOutcome :=
  match marshal users properties with
  | Err err => mkOutcome None (Some (RestOther (EWrap ("encode fetch user info request: " ++ Error err) err))) []
  | Ok body => doREST c "fetch_user_info" "POST" "/metadata/user/get" "" (Some body) "application/json" fetchUserInfoServiceCode now
  end.

Record CreatePublicGroupOptions := mkGroupOptions {
  go_AllowInvites : option bool; go_InviteNeedConfirm : option bool; go_MaxUsers : Z;
  go_Description : string; go_Welcome : string; go_Members : list string }.

(** The document of a new group. *)
Record groupDocument := mkGroupDocument {
  gd_Name : string; gd_Description : string; gd_Owner : string; gd_Public : bool; gd_MemberOnly : bool;
  gd_AllowInvites : bool; gd_InviteNeedConfirm : bool; gd_MaxUsers : Z; gd_Welcome : string; gd_Members : list string }.

Definition resourceQuery (c : restClient) : string := values_Encode {["version" := "v3"; "resource" := rc_Resource c]}.

Definition groupDocumentOf (c : restClient) (name : string) (opt : CreatePublicGroupOptions) : groupDocument :=
  mkGroupDocument name (go_Description opt) (rc_userID c) true false (default true (go_AllowInvites opt))
    (default false (go_InviteNeedConfirm opt)) (if go_MaxUsers opt <=? 0 then 200 else go_MaxUsers opt) (go_Welcome opt) (go_Members opt).

Definition CreatePublicGroup (marshal : groupDocument -> result bytes) (c : restClient) (name : string)
    (opt : CreatePublicGroupOptions) (now : Z) : restOutcome :=
  match marshal (groupDocumentOf c name opt) with
  | Err err => mkOutcome None (Some (RestOther (EWrap ("encode create public group request: " ++ Error err) err))) []
  | Ok body => doREST c "create_public_group" "POST" "/chatgroups" (resourceQuery c) (Some body) "application/json" genericServiceCode now
  end.

Definition JoinPublicGroup (c : restClient) (groupID : string) (now : Z) : restOutcome :=
  let out := doREST c "join_public_group_request" "POST" ("/chatgroups/" ++ PathEscape groupID ++ "/apply") (resourceQuery c)
               None "" genericServiceCode now in
  let '(statusCode, serviceCode) := responseErrorFields (ro_response out) (ro_err out) in
  mkOutcome (ro_response out) (ro_err out) (ro_events out ++ record c "join_public_group" statusCode serviceCode (ro_err out))%list.

Definition LeaveGroup (c : restClient) (groupID : string) (now : Z) : restOutcome :=
  doREST c "leave_group" "DELETE" ("/chatgroups/" ++ PathEscape groupID ++ "/quit") (resourceQuery c) None "" genericServiceCode now.
End Operations.
