(* ===== verification/RestTheory.v ===== *)
(** * Properties of the REST client

    What [doREST] sends, returns and reports; that a group id and a form keep their
    content in the request. *)
From Stdlib Require Import String Ascii SpecFloat.
From S2P Require Import Prelude Protocol Errors GoStrings Config Identifiers Wire DnsSelect Rest.
Local Open Scope string_scope.
Local Open Scope Z_scope.

Lemma string_app_nil_r s : s ++ "" = s.
Proof. induction s as [|c s IH]; [done|]. exact (f_equal (String c) IH). Qed.
Lemma string_app_assoc s t u : (s ++ t) ++ u = s ++ t ++ u.
Proof. induction s as [|c s IH]; [done|]. exact (f_equal (String c) IH). Qed.

(** ** Percent encoding *)

Definition hexVal (c : ascii) : option Z :=
  let a := byte_of_ascii c in
  if (48 <=? a) && (a <=? 57) then Some (a - 48)
  else if (65 <=? a) && (a <=? 70) then Some (a - 55)
  else if (97 <=? a) && (a <=? 102) then Some (a - 87) else None.

(** The decoding a server does: of a path segment, or ([plus]) of a form. *)
Fixpoint unescape (plus : bool) (l : chars) : option chars :=
  match l with
  | [] => Some []
  | c :: l =>
      if Ascii.eqb c "%" then
        match l with
        | h :: h' :: l =>
            a ← hexVal h; b ← hexVal h';
            rest ← unescape plus l; Some (ascii_of_N (Z.to_N (16 * a + b)) :: rest)
        | _ => None
        end
      else rest ← unescape plus l; Some ((if plus && Ascii.eqb c "+" then " "%char else c) :: rest)
  end.

Definition escapeSegmentChar (c : ascii) : chars := if segmentSafe c then [c] else percent c.
Definition escapeQueryChar (c : ascii) : chars :=
  if querySafe c then [c] else if Ascii.eqb c " "%char then ["+"%char] else percent c.

(** The digits of a byte: all 256 of them. *)
Lemma percent_digits c : exists h h' a b, percent c = ["%"%char; h; h'] /\
  hexVal h = Some a /\ hexVal h' = Some b /\ ascii_of_N (Z.to_N (16 * a + b)) = c.
Proof.
  exists (hexUpper (byte_of_ascii c / 16)), (hexUpper (byte_of_ascii c mod 16)), (byte_of_ascii c / 16), (byte_of_ascii c mod 16).
  by destruct c as [[] [] [] [] [] [] [] []]; vm_compute.
Qed.

Lemma safe_not_special c :
  (segmentSafe c = true -> Ascii.eqb c "%" = false) /\ (querySafe c = true -> Ascii.eqb c "%" = false /\ Ascii.eqb c "+" = false).
Proof. by destruct c as [[] [] [] [] [] [] [] []]; vm_compute. Qed.

Lemma unescape_percent plus c l : unescape plus (percent c ++ l)%list = cons c <$> unescape plus l.
Proof.
  destruct (percent_digits c) as (h & h' & a & b & -> & Ha & Hb & Hc). simpl. rewrite Ha, Hb. simpl. rewrite Hc.
  by destruct (unescape plus l).
Qed.

Lemma unescape_segment c l : unescape false (escapeSegmentChar c ++ l)%list = cons c <$> unescape false l.
Proof.
  unfold escapeSegmentChar. destruct (segmentSafe c) eqn:E; [|apply unescape_percent].
  apply safe_not_special in E. simpl. rewrite E. by destruct (unescape false l).
Qed.

Lemma unescape_query c l : unescape true (escapeQueryChar c ++ l)%list = cons c <$> unescape true l.
Proof.
  unfold escapeQueryChar. destruct (querySafe c) eqn:E.
  - apply safe_not_special in E as [E1 E2]. simpl. rewrite E1, E2. by destruct (unescape true l).
  - destruct (Ascii.eqb_spec c " ") as [->|]; [simpl; by destruct (unescape true l)|apply unescape_percent].
Qed.

Lemma escapeSegment_chars c : forallb (fun d => negb (mem_char d "/?#")) (escapeSegmentChar c) = true.
Proof. by destruct c as [[] [] [] [] [] [] [] []]. Qed.

Lemma escapeQuery_chars c : forallb (fun d => negb (mem_char d "&=#")) (escapeQueryChar c) = true.
Proof. by destruct c as [[] [] [] [] [] [] [] []]. Qed.

Lemma unescape_concat plus (f : ascii -> chars) :
  (forall c l, unescape plus (f c ++ l)%list = cons c <$> unescape plus l) ->
  forall l, unescape plus (concat (map f l)) = Some l.
Proof. intros Hf. induction l as [|c l IH]; [done|]. simpl. by rewrite Hf, IH. Qed.

Lemma forallb_concat_map {A} (P : A -> bool) (f : ascii -> list A) l :
  (forall c, forallb P (f c) = true) -> forallb P (concat (map f l)) = true.
Proof. intros H. induction l as [|c l IH]; [done|]. simpl. by rewrite forallb_app, H, IH. Qed.

Lemma PathEscape_decodes s : unescape false (explode (PathEscape s)) = Some (explode s).
Proof. unfold PathEscape. rewrite explode_implode. apply (unescape_concat _ escapeSegmentChar), unescape_segment. Qed.

Lemma QueryEscape_decodes s : unescape true (explode (QueryEscape s)) = Some (explode s).
Proof. unfold QueryEscape. rewrite explode_implode. apply (unescape_concat _ escapeQueryChar), unescape_query. Qed.

Lemma PathEscape_chars s : forallb (fun d => negb (mem_char d "/?#")) (explode (PathEscape s)) = true.
Proof. unfold PathEscape. rewrite explode_implode. by apply forallb_concat_map, escapeSegment_chars. Qed.

Lemma QueryEscape_chars s : forallb (fun d => negb (mem_char d "&=#")) (explode (QueryEscape s)) = true.
Proof. unfold QueryEscape. rewrite explode_implode. by apply forallb_concat_map, escapeQuery_chars. Qed.

(** ** Splitting *)

Lemma without_of c set l : mem_char c set = true -> forallb (fun d => negb (mem_char d set)) l = true -> without c l = true.
Proof.
  intros Hc. unfold without. rewrite !forallb_forall. intros H d Hd. specialize (H d Hd).
  destruct (Ascii.eqb_spec d c) as [->|]; [by rewrite Hc in H|done].
Qed.

Lemma split_concat c w ws :
  Forall (fun s => without c (explode s) = true) (w :: ws) ->
  splitChars c (explode (String.concat (String c "") (w :: ws))) = map explode (w :: ws).
Proof.
  revert w. induction ws as [|w' ws IH]; intros w; intros [Hw Hws]%Forall_cons; [by apply splitChars_without|].
  change (String.concat (String c "") (w :: w' :: ws)) with (w ++ String c "" ++ String.concat (String c "") (w' :: ws)).
  rewrite !explode_app. cbn [explode list_ascii_of_string app]. rewrite splitChars_cons by done. by rewrite IH.
Qed.

(** ** Forms *)

(** What a server reads of a form: the pairs, each decoded. *)
Definition parsePair (w : chars) : option (string * string) :=
  '(k, v) ← cutChars "=" w; k ← unescape true k; v ← unescape true v; Some (implode k, implode v).

Definition parseForm (s : string) : option (gmap string string) :=
  if String.eqb s "" then Some ∅ else list_to_map <$> mapM parsePair (splitChars "&" (explode s)).

Definition encodePair (v : gmap string string) (k : string) : string :=
  QueryEscape k ++ "=" ++ QueryEscape (default "" (v !! k)).

Lemma sortKeys_perm l : sortKeys l ≡ₚ l.
Proof.
  assert (forall k l, insertKey k l ≡ₚ k :: l) as H.
  { intros k l'. induction l' as [|k' l' IH]; [done|]. simpl. destruct (String.leb k k'); [done|].
    rewrite IH. apply perm_swap. }
  induction l as [|k l IH]; [done|]. unfold sortKeys in *. simpl. by rewrite H, IH.
Qed.

Lemma encodePair_chars v k : explode (encodePair v k) =
  (explode (QueryEscape k) ++ "="%char :: explode (QueryEscape (default "" (v !! k))))%list.
Proof. unfold encodePair. by rewrite !explode_app. Qed.

Lemma parsePair_encodePair v k : parsePair (explode (encodePair v k)) = Some (k, default "" (v !! k)).
Proof.
  unfold parsePair. rewrite encodePair_chars, cutChars_without by (eapply without_of, QueryEscape_chars; done).
  cbn -[unescape]. rewrite QueryEscape_decodes. cbn -[unescape]. rewrite QueryEscape_decodes. cbn -[unescape].
  by rewrite !implode_explode.
Qed.

Lemma encodePair_without v k : without "&" (explode (encodePair v k)) = true.
Proof.
  assert (forall s, without "&" (explode (QueryEscape s)) = true) as H by (intros s; eapply without_of, QueryEscape_chars; done).
  rewrite encodePair_chars. unfold without in *. rewrite forallb_app. simpl. by rewrite !H.
Qed.

Lemma encodePair_all v ks : Forall (fun s => without "&" (explode s) = true) (map (encodePair v) ks).
Proof. apply Forall_fmap, Forall_true, encodePair_without. Qed.

Lemma mapM_encoded v ks : mapM parsePair (map explode (map (encodePair v) ks)) = Some (map (fun k => (k, default "" (v !! k))) ks).
Proof. induction ks as [|k ks IH]; [done|]. simpl. rewrite parsePair_encodePair. simpl. by rewrite IH. Qed.

Lemma list_to_map_values (v : gmap string string) ks :
  ks ≡ₚ elements (dom v) -> list_to_map (map (fun k => (k, default "" (v !! k))) ks) = v.
Proof.
  intros Hks. apply map_eq. intros k. destruct (v !! k) as [x|] eqn:E.
  - apply elem_of_list_to_map_1'.
    + intros y (k' & [= <- ->] & _)%list_elem_of_fmap. by rewrite E.
    + apply list_elem_of_fmap. exists k. rewrite E. split; [done|]. rewrite Hks, elem_of_elements. by apply elem_of_dom_2 in E.
  - apply not_elem_of_list_to_map_1. rewrite <-list_fmap_compose. intros (k' & -> & Hk)%list_elem_of_fmap.
    rewrite Hks, elem_of_elements in Hk. by apply not_elem_of_dom in E.
Qed.

Lemma parseForm_encode v : parseForm (values_Encode v) = Some v.
Proof.
  unfold values_Encode. change (map _ (sortKeys (elements (dom v)))) with (map (encodePair v) (sortKeys (elements (dom v)))).
  pose proof (sortKeys_perm (elements (dom v))) as Hp. destruct (sortKeys (elements (dom v))) as [|k ks] eqn:E.
  - apply Permutation_nil_l, eq_sym, elements_empty_inv in Hp. unfold parseForm. simpl. f_equal. symmetry.
    by apply dom_empty_inv.
  - unfold parseForm. destruct (String.eqb_spec (String.concat "&" (map (encodePair v) (k :: ks))) "") as [He|_].
    { exfalso. apply (f_equal explode) in He. simpl map in He. destruct (map (encodePair v) ks); simpl String.concat in He.
      - rewrite encodePair_chars in He. by destruct (explode (QueryEscape k)).
      - rewrite explode_app, encodePair_chars in He. by destruct (explode (QueryEscape k)). }
    change (map (encodePair v) (k :: ks)) with (encodePair v k :: map (encodePair v) ks).
    rewrite split_concat by (apply (encodePair_all v (k :: ks))).
    change (encodePair v k :: map (encodePair v) ks) with (map (encodePair v) (k :: ks)).
    rewrite mapM_encoded. cbn [fmap option_fmap option_map]. f_equal. by apply (list_to_map_values v (k :: ks)).
Qed.

(** ** Reading a response *)

Lemma readBounded_bound reader limit : 0 <= limit ->
  zlen (fst (readBoundedResponse reader limit)) <= limit + 1 /\
  (rb_together reader = false \/ rb_err reader = None -> zlen (fst (readBoundedResponse reader limit)) <= limit).
Proof.
  intros Hl. unfold readBoundedResponse, readAllBody. set (bs := rb_bytes reader).
  assert (forall n (l : bytes), 0 <= n -> zlen (take (Z.to_nat n) l) = Z.min n (zlen l)) as Ht
    by (intros n l Hn; unfold zlen; rewrite length_take; lia).
  destruct ((zlen bs <? limit + 1) || _) eqn:E; simpl.
  - destruct (rb_err reader) eqn:Ee; simpl.
    + rewrite Ht by lia. split; [lia|]. intros [H|H]; [|done]. rewrite H, andb_false_r, orb_false_r in E. apply Z.ltb_lt in E. lia.
    + rewrite Ht by lia. destruct (Z.gtb_spec (Z.min (limit + 1) (zlen bs)) limit); simpl; rewrite ?Ht by lia; (split; [|intros _]; lia).
  - rewrite Ht by lia. destruct (Z.gtb_spec (Z.min (limit + 1) (zlen bs)) limit); simpl; rewrite ?Ht by lia; (split; [|intros _]; lia).
Qed.

(** The whole body is returned exactly when there was no error and it fits. *)
Lemma readBounded_ok reader limit : 0 <= limit ->
  snd (readBoundedResponse reader limit) = None <-> rb_err reader = None /\ zlen (rb_bytes reader) <= limit.
Proof.
  intros Hl. unfold readBoundedResponse, readAllBody. set (bs := rb_bytes reader).
  assert (zlen (take (Z.to_nat (limit + 1)) bs) = Z.min (limit + 1) (zlen bs)) as Ht by (unfold zlen; rewrite length_take; lia).
  destruct ((zlen bs <? limit + 1) || _) eqn:E; simpl.
  - destruct (rb_err reader) eqn:Ee; simpl; [by split; [|intros []]|].
    rewrite Ht. destruct (Z.gtb_spec (Z.min (limit + 1) (zlen bs)) limit); simpl; [split; [done|lia]|split; [intros _; split; [done|lia]|done]].
  - apply orb_false_iff in E as [E%Z.ltb_ge _]. rewrite Ht. destruct (Z.gtb_spec (Z.min (limit + 1) (zlen bs)) limit); simpl; [split; [done|lia]|lia].
Qed.

Lemma readBounded_whole reader limit : 0 <= limit -> zlen (rb_bytes reader) <= limit ->
  fst (readBoundedResponse reader limit) = rb_bytes reader.
Proof.
  intros Hl Hle. unfold readBoundedResponse, readAllBody. rewrite take_ge by (unfold zlen in Hle; lia).
  destruct (_ || _); [destruct (rb_err reader)|]; simpl; try done; destruct (Z.gtb_spec (zlen (rb_bytes reader)) limit); try done; lia.
Qed.

(** A reader that gives its error together with the byte past the limit makes the
    returned body one byte longer than the limit. *)
Lemma readBounded_over reader limit e : 0 <= limit -> zlen (rb_bytes reader) = limit + 1 ->
  rb_together reader = true -> rb_err reader = Some e ->
  zlen (fst (readBoundedResponse reader limit)) = limit + 1 /\ snd (readBoundedResponse reader limit) <> None.
Proof.
  intros Hl Hz Ht He. unfold readBoundedResponse, readAllBody. rewrite take_ge by (unfold zlen in Hz; lia).
  by rewrite Hz, Z.eqb_refl, Ht, orb_true_r, He.
Qed.

(** ** Operations *)

Lemma omap_map_some {A B} (f : B -> option A) (g : A -> B) l : (forall a, f (g a) = Some a) -> omap f (map g l) = l.
Proof. intros H. induction l as [|a l IH]; [done|]. simpl. rewrite H. by f_equal. Qed.
Lemma omap_map_none {A B C} (f : B -> option C) (g : A -> B) l : (forall a, f (g a) = None) -> omap f (map g l) = [].
Proof. intros H. induction l as [|a l IH]; [done|]. simpl. by rewrite H. Qed.

Definition sent (evs : list restEvent) : list restRequest := omap (fun e => match e with RESTSent r => Some r | _ => None end) evs.
Definition notified (evs : list restEvent) : list RESTErrorInfo := omap (fun e => match e with RESTNotified i => Some i | _ => None end) evs.
Definition recorded (evs : list restEvent) : list TelemetryEvent := omap (fun e => match e with RESTRecorded t => Some t | _ => None end) evs.

(** The telemetry of an operation that ended. *)
Definition telemetryOf (c : restClient) (operation : string) (out : restOutcome) : list TelemetryEvent :=
  let '(status, code) := responseErrorFields (ro_response out) (ro_err out) in
  if rc_Telemetry c then [mkTelemetryEvent operation 1 status code (errorString (ro_err out))] else [].

Definition loggedIn (c : restClient) : bool :=
  negb (bool_decide (rc_state c = LoginStateLogout) || bool_decide (rc_state c = LoginStateLoggingIn)).

Section Theory.
Context (url_Parse_String : string -> result string) (newRequest : string -> string -> option goerror)
  (Do : restRequest -> exchange) (json_Unmarshal_map : bytes -> option (gmap string jsonMember))
  (formatFloat : spec_float -> string) (http_ParseTime : string -> option Z).

Notation doREST := (doREST url_Parse_String newRequest Do json_Unmarshal_map formatFloat http_ParseTime).
Notation restResult := (restResult json_Unmarshal_map formatFloat http_ParseTime).

(** How an operation can go. *)
Inductive restCase (c : restClient) (operation method path rawQuery : string) (body : option bytes) (contentType : string)
    (mapCode : Z -> string) (now : Z) : restOutcome -> Prop :=
| CaseRefused err :
    restCase c operation method path rawQuery body contentType mapCode now
      (mkOutcome None (Some (RestOther err)) (record c operation 0 "" (Some (RestOther err))))
| CaseFailed endpoint err :
    restEndpoint url_Parse_String c operation path rawQuery = Ok endpoint ->
    Do (requestOf c method endpoint contentType body) = DoError err ->
    let resultErr := RestOther (EWrap ("execute REST request: " ++ Error err) err) in
    restCase c operation method path rawQuery body contentType mapCode now
      (mkOutcome None (Some resultErr)
        ((RESTSent (requestOf c method endpoint contentType body) ::
          notify c (mkRESTErrorInfo operation method endpoint 0 "" "" resultErr)) ++ record c operation 0 "" (Some resultErr))%list)
| CaseAnswered endpoint status h reader response err :
    restEndpoint url_Parse_String c operation path rawQuery = Ok endpoint ->
    Do (requestOf c method endpoint contentType body) = DoResponse status h reader ->
    restResult mapCode status h reader now = (response, err) ->
    let resultErr := (fun e => RestAPI (snd e)) <$> err in
    let code := match err with Some e => fst e | None => "" end in
    restCase c operation method path rawQuery body contentType mapCode now
      (mkOutcome (Some response) resultErr
        (RESTSent (requestOf c method endpoint contentType body) ::
         match resultErr with Some e => notify c (mkRESTErrorInfo operation method endpoint status (requestID h) code e) | None => [] end ++
         record c operation status code resultErr)%list).

Lemma doREST_case c operation method path rawQuery body contentType mapCode now :
  restCase c operation method path rawQuery body contentType mapCode now
    (doREST c operation method path rawQuery body contentType mapCode now).
Proof.
  unfold Rest.doREST. destruct (restEndpoint _ c operation path rawQuery) as [endpoint|err] eqn:He; [|constructor].
  destruct (newRequest method endpoint); [constructor|].
  destruct (Do _) as [err|status h reader] eqn:Hd; [by apply CaseFailed|].
  destruct (restResult mapCode status h reader now) as [response [[code err]|]] eqn:Hr;
    exact (CaseAnswered _ _ _ _ _ _ _ _ _ endpoint _ _ _ _ _ He Hd Hr).
Qed.

Lemma restEndpoint_ok c operation path rawQuery endpoint :
  restEndpoint url_Parse_String c operation path rawQuery = Ok endpoint ->
  loggedIn c = true /\ rc_restBase c <> "" /\ exists base, url_Parse_String (rc_restBase c) = Ok base /\
  endpoint = strings_TrimRight base "/" ++ path ++ (if String.eqb rawQuery "" then "" else "?" ++ rawQuery).
Proof.
  unfold restEndpoint, loggedIn. destruct (bool_decide _ || bool_decide _); [done|]. simpl.
  destruct (String.eqb_spec (rc_restBase c) ""); [done|]. destruct (url_Parse_String _) as [base|]; [|done].
  intros [= <-]. split_and!; [done..|]. exists base. split; [done|].
  destruct (String.eqb rawQuery ""); [by rewrite string_app_nil_r|]. by rewrite string_app_assoc.
Qed.

Lemma restResult_spec mapCode status h reader now response err :
  restResult mapCode status h reader now = (response, err) ->
  response = mkResponse status h (fst (readBoundedResponse reader defaultRESTBodyMaxBytes)) /\
  (err = None <-> is_success status = true /\ rb_err reader = None /\ zlen (rb_bytes reader) <= defaultRESTBodyMaxBytes) /\
  (forall code e, err = Some (code, e) -> ae_Response e = Some response /\ ae_ServiceCode e = code /\ ae_RequestID e = requestID h).
Proof.
  assert (0 <= defaultRESTBodyMaxBytes) as Hl by done.
  unfold Rest.restResult. pose proof (readBounded_ok reader _ Hl) as Hok.
  destruct (readBoundedResponse reader defaultRESTBodyMaxBytes) as [bs [e|]]; simpl in Hok |- *.
  - intros [= <- <-]. split_and!; [done| |by intros ?? [= <- <-]]. split; [done|]. intros (_ & H). by apply Hok in H.
  - destruct (is_success status).
    + intros [= <- <-]. split_and!; [done| |done]. split; [|done]. intros _. split; [done|]. by apply Hok.
    + intros [= <- <-]. split_and!; [done| |by intros ?? [= <- <-]]. split; [done|]. by intros [].
Qed.

Lemma record_telemetry c operation out status code :
  responseErrorFields (ro_response out) (ro_err out) = (status, code) ->
  record c operation status code (ro_err out) = map RESTRecorded (telemetryOf c operation out).
Proof. intros E. unfold record, telemetryOf. rewrite E. by destruct (rc_Telemetry c). Qed.

(** The events of an operation: what it sent, then the failure it told, then the
    telemetry of its outcome. *)
Lemma restCase_events c operation method path rawQuery body contentType mapCode now out :
  restCase c operation method path rawQuery body contentType mapCode now out ->
  exists reqs infos,
    ro_events out = (map RESTSent reqs ++ map RESTNotified infos ++ map RESTRecorded (telemetryOf c operation out))%list /\
    (reqs = [] \/ exists endpoint, restEndpoint url_Parse_String c operation path rawQuery = Ok endpoint /\
                     reqs = [requestOf c method endpoint contentType body]) /\
    infos = match reqs, ro_err out with
            | req :: _, Some err =>
                let '(status, code) := responseErrorFields (ro_response out) (ro_err out) in
                let id := match ro_response out with Some r => requestID (rp_Header r) | None => "" end in
                if rc_RESTErrorHandler c then [mkRESTErrorInfo operation method (hr_url req) status id code err] else []
            | _, _ => []
            end.
Proof.
  intros [err|endpoint err He Hd resultErr|endpoint status h reader response err He Hd Hr resultErr code].
  - exists [], []. split_and!; [|by left|done]. by apply (record_telemetry c operation (mkOutcome None (Some (RestOther err)) [])).
  - exists [requestOf c method endpoint contentType body]. eexists. split_and!; [|right; eauto|done]. simpl. f_equal.
    rewrite (record_telemetry c operation (mkOutcome None (Some resultErr) [])) by done.
    unfold notify. by destruct (rc_RESTErrorHandler c).
  - exists [requestOf c method endpoint contentType body]. eexists. split_and!; [|right; eauto|done]. simpl. f_equal.
    apply restResult_spec in Hr as (-> & _ & Hae).
    assert (responseErrorFields (Some (mkResponse status h (fst (readBoundedResponse reader defaultRESTBodyMaxBytes)))) resultErr = (status, code)) as Hf.
    { unfold resultErr, code. destruct err as [[k e]|]; [|done]. destruct (Hae k e eq_refl) as (_ & Hk & _). rewrite <-Hk. done. }
    rewrite (record_telemetry c operation (mkOutcome (Some _) resultErr [])) by exact Hf. simpl in Hf |- *.
    destruct resultErr as [e|]; [|done]. injection Hf as Hf. rewrite Hf. unfold notify. by destruct (rc_RESTErrorHandler c).
Qed.

Lemma sent_requests reqs infos evs : sent (map RESTSent reqs ++ map RESTNotified infos ++ map RESTRecorded evs)%list = reqs.
Proof.
  unfold sent. rewrite !omap_app, (omap_map_some _ RESTSent) by done.
  rewrite (omap_map_none _ RESTNotified), (omap_map_none _ RESTRecorded) by done. apply app_nil_r.
Qed.

Lemma recorded_events reqs infos evs : recorded (map RESTSent reqs ++ map RESTNotified infos ++ map RESTRecorded evs)%list = evs.
Proof.
  unfold recorded. rewrite !omap_app, (omap_map_some _ RESTRecorded) by done.
  by rewrite (omap_map_none _ RESTSent), (omap_map_none _ RESTNotified).
Qed.

(** C37. A REST operation hands the HTTP client at most one request (which that
    client may follow redirects of), only in a session that is logged in: to the
    session's base URL with the path and the query of the operation, with its
    method and body, and with exactly these headers: the session's token as a
    bearer token, the media type it accepts, the SDK's user agent and the type of
    the body, if any.  It succeeds exactly when the answer is 2xx with a body that
    was read without error and within 4 MiB, and then returns that status and that
    whole body; a response comes with at most one byte above the limit, and an
    [APIError] always with the response. *)
Theorem doREST_correct c operation method path rawQuery body contentType mapCode now :
  let out := doREST c operation method path rawQuery body contentType mapCode now in
  (sent (ro_events out) = [] \/
   exists base req, loggedIn c = true /\ rc_restBase c <> "" /\ url_Parse_String (rc_restBase c) = Ok base /\
     sent (ro_events out) = [req] /\ hr_method req = method /\
     hr_url req = strings_TrimRight base "/" ++ path ++ (if String.eqb rawQuery "" then "" else "?" ++ rawQuery) /\
     hr_body req = body /\
     hr_header req =
       ([("Authorization", ("Bearer " ++ rc_token c)%string); ("Accept", "application/json"); ("User-Agent", "goIMSDK/5.0")] ++
        (if String.eqb contentType "" then [] else [("Content-Type", contentType)]))%list) /\
  (ro_err out = None <->
   exists req status h reader, sent (ro_events out) = [req] /\ Do req = DoResponse status h reader /\
     is_success status = true /\ rb_err reader = None /\ zlen (rb_bytes reader) <= defaultRESTBodyMaxBytes /\
     ro_response out = Some (mkResponse status h (rb_bytes reader))) /\
  (forall r, ro_response out = Some r -> zlen (rp_Body r) <= defaultRESTBodyMaxBytes + 1) /\
  (forall e, ro_err out = Some (RestAPI e) -> ae_Response e = ro_response out /\ ro_response out <> None).
Proof.
  intros out. pose proof (doREST_case c operation method path rawQuery body contentType mapCode now) as Hc. fold out in Hc.
  destruct (restCase_events _ _ _ _ _ _ _ _ _ _ Hc) as (reqs & infos & Hev & Hreqs & _).
  rewrite Hev, sent_requests. split.
  { destruct Hreqs as [->|(endpoint & He & ->)]; [by left|right].
    apply restEndpoint_ok in He as (Hl & Hb & base & Hp & ->). by eexists base, _. }
  destruct Hc as [err|endpoint err He Hd resultErr|endpoint status h reader response err He Hd Hr resultErr code]; simpl in Hev |- *.
  - split_and!; [|done|done]. split; [done|]. by intros (?&?&?&?&?&?&?&?&?&?).
  - split_and!; [|done|done]. split; [done|]. by intros (?&?&?&?&?&?&?&?&?&?).
  - apply restResult_spec in Hr as (-> & Hn & Hae). split_and!.
    + assert (reqs = [requestOf c method endpoint contentType body]) as ->.
      { apply (f_equal sent) in Hev. rewrite sent_requests in Hev. destruct Hreqs as [->|(e' & He' & ->)]; [done|congruence]. }
      split.
      * intros E. assert (err = None) as Hn' by (unfold resultErr in E; by destruct err). apply Hn in Hn' as (Hs & Hb & Hz).
        eexists _, status, h, reader. split_and!; [done..|]. by rewrite readBounded_whole by done.
      * intros (req & st & h' & reader' & [= <-] & Hd' & Hs & Hb & Hz & _). rewrite Hd in Hd'. injection Hd' as -> -> ->.
        unfold resultErr. by rewrite (proj2 Hn).
    + intros r [= <-]. simpl. by apply readBounded_bound.
    + intros e E. unfold resultErr in E. destruct err as [[k e']|]; [|done]. injection E as <-.
      by destruct (Hae k e' eq_refl) as [-> _].
Qed.

(** What an operation does is, in this order: its request, at most one failure
    report, its telemetry. The error handler hears of a failure exactly when a
    request was sent and failed, once, with the error the caller gets and the
    status and service code of it; the telemetry, when configured, has exactly
    one event per operation with the same fields, refusals included; joining a
    group adds a second event of the same outcome. *)
Theorem doREST_reports c operation method path rawQuery body contentType mapCode now :
  let out := doREST c operation method path rawQuery body contentType mapCode now in
  (exists infos, ro_events out =
     (map RESTSent (sent (ro_events out)) ++ map RESTNotified infos ++ map RESTRecorded (telemetryOf c operation out))%list /\
     infos = match sent (ro_events out), ro_err out with
             | req :: _, Some err =>
                 let '(status, code) := responseErrorFields (ro_response out) (ro_err out) in
                 let id := match ro_response out with Some r => requestID (rp_Header r) | None => "" end in
                 if rc_RESTErrorHandler c then [mkRESTErrorInfo operation method (hr_url req) status id code err] else []
             | _, _ => []
             end) /\
  (forall groupID,
     let join := JoinPublicGroup url_Parse_String newRequest Do json_Unmarshal_map formatFloat http_ParseTime c groupID now in
     recorded (ro_events join) = (telemetryOf c "join_public_group_request" join ++ telemetryOf c "join_public_group" join)%list).
Proof.
  intros out. split.
  - pose proof (doREST_case c operation method path rawQuery body contentType mapCode now) as Hc. fold out in Hc.
    destruct (restCase_events _ _ _ _ _ _ _ _ _ _ Hc) as (reqs & infos & Hev & _ & Hi). exists infos.
    assert (sent (ro_events out) = reqs) as -> by (by rewrite Hev, sent_requests). done.
  - intros groupID. unfold JoinPublicGroup. set (o := Rest.doREST _ _ _ _ _ _ _ _ _ _ _ _ _ _ _).
    pose proof (doREST_case c "join_public_group_request" "POST" ("/chatgroups/" ++ PathEscape groupID ++ "/apply") (resourceQuery c)
      None "" genericServiceCode now) as Hc. fold o in Hc.
    destruct (restCase_events _ _ _ _ _ _ _ _ _ _ Hc) as (reqs & infos & Hev & _ & _).
    destruct (responseErrorFields (ro_response o) (ro_err o)) as [status code] eqn:E. simpl.
    rewrite (record_telemetry c _ o status code E), Hev, <-!app_assoc, <-map_app. apply recorded_events.
Qed.

Lemma segment_split action groupID : without "/" (explode action) = true ->
  strings_Split ("/chatgroups/" ++ PathEscape groupID ++ String "/" action) "/" = [""; "chatgroups"; PathEscape groupID; action].
Proof.
  intros Ha. assert (without "/" (explode (PathEscape groupID)) = true) as Hg by (eapply without_of, PathEscape_chars; done).
  unfold strings_Split. rewrite !explode_app.
  change (explode "/chatgroups/") with ("/"%char :: (explode "chatgroups" ++ ["/"%char]))%list.
  change (explode (String "/" action)) with ("/"%char :: explode action).
  change (("/"%char :: ?l)%list ++ ?k)%list with ([] ++ "/"%char :: (l ++ k))%list. rewrite splitChars_cons by done.
  rewrite <-app_assoc. change (["/"%char] ++ ?l)%list with ("/"%char :: l). rewrite splitChars_cons by done.
  rewrite splitChars_cons by done. rewrite splitChars_without by done. simpl. by rewrite !implode_explode.
Qed.

Lemma sent_url c operation method path rawQuery body contentType mapCode now req :
  req ∈ sent (ro_events (doREST c operation method path rawQuery body contentType mapCode now)) ->
  exists base, hr_url req = base ++ path ++ (if String.eqb rawQuery "" then "" else "?" ++ rawQuery) /\ hr_body req = body.
Proof.
  intros Hin. destruct (restCase_events _ _ _ _ _ _ _ _ _ _ (doREST_case c operation method path rawQuery body contentType mapCode now))
    as (reqs & infos & Hev & Hreqs & _).
  rewrite Hev, sent_requests in Hin. destruct Hreqs as [->|(endpoint & He & ->)]; [by apply elem_of_nil in Hin|].
  apply list_elem_of_singleton in Hin as ->. apply restEndpoint_ok in He as (_ & _ & base & _ & ->). by eexists.
Qed.

Lemma resourceQuery_nonempty c : String.eqb (resourceQuery c) "" = false.
Proof.
  destruct (String.eqb_spec (resourceQuery c) "") as [E|]; [|done].
  pose proof (parseForm_encode {["version" := "v3"; "resource" := rc_Resource c]}) as H. fold (resourceQuery c) in H. rewrite E in H.
  apply (f_equal (fun m => m ≫= (.!! "version"))) in H. simpl in H. by rewrite lookup_empty, lookup_insert_eq in H.
Qed.

Lemma JoinPublicGroup_sent c groupID now :
  sent (ro_events (JoinPublicGroup url_Parse_String newRequest Do json_Unmarshal_map formatFloat http_ParseTime c groupID now)) =
  sent (ro_events (doREST c "join_public_group_request" "POST" ("/chatgroups/" ++ PathEscape groupID ++ "/apply") (resourceQuery c)
    None "" genericServiceCode now)).
Proof.
  unfold JoinPublicGroup. destruct (responseErrorFields _ _) as [status code]. simpl. unfold sent at 1. rewrite omap_app.
  unfold record. destruct (rc_Telemetry c); simpl; apply app_nil_r.
Qed.

(** C38. What the operations send decodes to what they were given: the group id of a
    join or a leave is exactly one segment of the path, whatever bytes it has,
    and the query carries the API version and the configured resource; the path
    of a profile update ends in the user's id and its form has exactly the
    attributes. *)
Theorem rest_requests_decode c now groupID (attrs : gmap string string) :
  let ops := [("apply", JoinPublicGroup url_Parse_String newRequest Do json_Unmarshal_map formatFloat http_ParseTime c groupID now);
              ("quit", LeaveGroup url_Parse_String newRequest Do json_Unmarshal_map formatFloat http_ParseTime c groupID now)] in
  (forall action out req, (action, out) ∈ ops -> req ∈ sent (ro_events out) ->
     exists base path query segment, hr_url req = base ++ path ++ "?" ++ query /\
       strings_Split path "/" = [""; "chatgroups"; segment; action] /\
       unescape false (explode segment) = Some (explode groupID) /\
       parseForm query = Some {["version" := "v3"; "resource" := rc_Resource c]}) /\
  (forall req, req ∈ sent (ro_events (UpdateOwnUserInfo url_Parse_String newRequest Do json_Unmarshal_map formatFloat http_ParseTime c attrs now)) ->
     exists base segment form, hr_url req = base ++ "/metadata/user/" ++ segment /\ mem_char "/" segment = false /\
       unescape false (explode segment) = Some (explode (rc_userID c)) /\
       hr_body req = Some (bytes_of_string form) /\ parseForm form = Some attrs).
Proof.
  intros ops. split.
  - assert (forall action out req, without "/" (explode action) = true ->
      (exists op method path, path = "/chatgroups/" ++ PathEscape groupID ++ String "/" action /\
         sent (ro_events out) = sent (ro_events (doREST c op method path (resourceQuery c) None "" genericServiceCode now))) ->
      req ∈ sent (ro_events out) -> exists base path query segment, hr_url req = base ++ path ++ "?" ++ query /\
       strings_Split path "/" = [""; "chatgroups"; segment; action] /\
       unescape false (explode segment) = Some (explode groupID) /\
       parseForm query = Some {["version" := "v3"; "resource" := rc_Resource c]}) as Hg.
    { intros action out req Ha (op & method & path & Hp & Ho) Hin. rewrite Ho in Hin. apply sent_url in Hin as (base & Hu & _).
      exists base, path, (resourceQuery c), (PathEscape groupID). split_and!.
      - rewrite Hu. by rewrite resourceQuery_nonempty.
      - subst path. by apply segment_split.
      - apply PathEscape_decodes.
      - apply parseForm_encode. }
    intros action out req Hin. apply elem_of_cons in Hin as [[= -> ->]|Hin]; [|apply list_elem_of_singleton in Hin as [= -> ->]].
    + apply Hg; [done|]. eexists _, _, _. split; [reflexivity|]. apply JoinPublicGroup_sent.
    + apply Hg; [done|]. eexists _, _, _. split; [reflexivity|]. reflexivity.
  - intros req Hin. apply sent_url in Hin as (base & Hu & Hb). exists base, (PathEscape (rc_userID c)), (values_Encode attrs).
    split_and!; [by rewrite Hu, string_app_nil_r| |apply PathEscape_decodes|done|apply parseForm_encode].
    pose proof (PathEscape_chars (rc_userID c)) as H. apply (without_of "/") in H; [|done]. unfold mem_char.
    apply not_true_iff_false. rewrite existsb_exists. intros (d & Hd & He%Ascii.eqb_eq). subst d.
    unfold without in H. rewrite forallb_forall in H. by specialize (H _ Hd).
Qed.
End Theory.


(** ** Witnesses *)

(** A client that is logged in, and a server that answers by the method. *)
Definition restClient_w : restClient := mkRestClient "https://a1.example.com/org/app/" LoginStateLoggedIn "T" "u 1" "linux" true true.
Definition restServer_w (req : restRequest) : exchange :=
  if String.eqb (hr_method req) "DELETE" then DoError (EPlain "connection refused")
  else if String.eqb (hr_method req) "PUT" then DoResponse 403 {["X-Request-Id" := "r1"]} (mkRestBody [123; 125] None false)
  else DoResponse 200 ∅ (mkRestBody [123; 125] None true).

Lemma doREST_correct_witness :
  let out := doREST Ok (fun _ _ => None) restServer_w (fun _ => None) (fun _ => "") (fun _ => None)
               restClient_w "op" "POST" "/chatgroups" "" None "" genericServiceCode 0 in
  ro_err out = None /\ length (sent (ro_events out)) = 1%nat.
Proof.
  pose proof (doREST_correct Ok (fun _ _ => None) restServer_w (fun _ => None) (fun _ => "") (fun _ => None)
    restClient_w "op" "POST" "/chatgroups" "" None "" genericServiceCode 0) as (_ & H & _).
  split; [|by vm_compute]. apply H. eexists _, 200, ∅, (mkRestBody [123; 125] None true).
  split_and!; [by vm_compute| |by vm_compute..]. by vm_compute.
Defined.

Lemma doREST_reports_witness :
  let out := LeaveGroup Ok (fun _ _ => None) restServer_w (fun _ => None) (fun _ => "") (fun _ => None) restClient_w "g/1" 0 in
  exists req info ev, ro_events out = [RESTSent req; RESTNotified info; RESTRecorded ev] /\
    hr_url req = "https://a1.example.com/org/app/chatgroups/g%2F1/quit?resource=linux&version=v3" /\ Some (ri_Err info) = ro_err out.
Proof.
  destruct (doREST_reports Ok (fun _ _ => None) restServer_w (fun _ => None) (fun _ => "") (fun _ => None)
    restClient_w "leave_group" "DELETE" "/chatgroups/g%2F1/quit" (resourceQuery restClient_w) None "" genericServiceCode 0) as [(infos & H & Hi) _].
  change (LeaveGroup _ _ _ _ _ _ _ _ _) with (doREST Ok (fun _ _ => None) restServer_w (fun _ => None) (fun _ => "") (fun _ => None)
    restClient_w "leave_group" "DELETE" "/chatgroups/g%2F1/quit" (resourceQuery restClient_w) None "" genericServiceCode 0).
  cbv zeta. rewrite H, Hi. vm_compute. eexists _, _, _. split; [reflexivity|]. by split.
Defined.

Lemma rest_requests_decode_witness :
  let out := UpdateOwnUserInfo Ok (fun _ _ => None) restServer_w (fun _ => None) (fun _ => "") (fun _ => None) restClient_w
               {["nickname" := "a&b"; "sign" := "100% ok"]} 0 in
  exists req form, sent (ro_events out) = [req] /\ hr_body req = Some (bytes_of_string form) /\
    parseForm form = Some {["nickname" := "a&b"; "sign" := "100% ok"]}.
Proof.
  intros out.
  destruct (rest_requests_decode Ok (fun _ _ => None) restServer_w (fun _ => None) (fun _ => "") (fun _ => None) restClient_w 0 "g"
    {["nickname" := "a&b"; "sign" := "100% ok"]}) as [_ H]. fold out in H.
  destruct (sent (ro_events out)) as [|req [|]] eqn:E; [by vm_compute in E| |by vm_compute in E].
  destruct (H req) as (base & segment & form & _ & _ & _ & Hb & Hf); [by left|]. eauto.
Defined.
