(* ===== verification/ServerConfig.v ===== *)
(** * The configuration of cmd/server

    cmd/server/main.go: the flat YAML parser, the policy for secrets and the order
    of the calls of [main].  Files and the environment are parameters. *)
From Stdlib Require Import String Ascii.
From S2P Require Import Prelude Protocol Errors GoStrings Config.
Local Open Scope string_scope.
Local Open Scope Z_scope.

Definition dquote : ascii := ascii_of_nat 34.
Definition squote : ascii := ascii_of_nat 39.
Definition backslash : ascii := ascii_of_nat 92.
Definition newline : ascii := ascii_of_nat 10.
Definition tab : ascii := ascii_of_nat 9.

(** ** stripComment

    The code ranges over runes; the bytes of a rune that is not ASCII are none of
    the characters it looks for, so the bytes can be taken one at a time. *)
Fixpoint stripLoop (prev quote : option ascii) (escaped : bool) (l : chars) : chars :=
  match l with
  | [] => []
  | r :: rest =>
      if escaped then r :: stripLoop (Some r) quote false rest
      else if bool_decide (quote = Some dquote) && Ascii.eqb r backslash then r :: stripLoop (Some r) quote true rest
      else if Ascii.eqb r squote || Ascii.eqb r dquote then
        r :: stripLoop (Some r) match quote with
                                | None => Some r
                                | Some q => if Ascii.eqb q r then None else quote end false rest
      else if Ascii.eqb r "#" && bool_decide (quote = None) &&
              match prev with None => true | Some p => Ascii.eqb p " " || Ascii.eqb p tab end then []
      else r :: stripLoop (Some r) quote false rest
  end.

Definition stripComment (line : string) : string := implode (stripLoop None None false (explode line)).

(** ** strconv.Unquote of a double-quoted string *)

Definition hexValue (c : ascii) : option Z :=
  let a := byte_of_ascii c in
  if (48 <=? a) && (a <=? 57) then Some (a - 48)
  else if (97 <=? a) && (a <=? 102) then Some (a - 87)
  else if (65 <=? a) && (a <=? 70) then Some (a - 55) else None.

(** The value of the first [n] digits, in base 16 or 8, and the rest. *)
Fixpoint digits (base : Z) (n : nat) (v : Z) (l : chars) : option (Z * chars) :=
  match n, l with
  | O, _ => Some (v, l)
  | S n, c :: l => d ← hexValue c; if d <? base then digits base n (base * v + d) l else None
  | S _, [] => None
  end.

Definition byteChar (v : Z) : ascii := ascii_of_N (Z.to_N (v mod 256)).

(** [utf8.AppendRune] of a valid rune. *)
Definition encodeRune (r : Z) : chars :=
  if r <? 128 then [byteChar r]
  else if r <? 2048 then [byteChar (192 + r / 64); byteChar (128 + r mod 64)]
  else if r <? 65536 then [byteChar (224 + r / 4096); byteChar (128 + (r / 64) mod 64); byteChar (128 + r mod 64)]
  else [byteChar (240 + r / 262144); byteChar (128 + (r / 4096) mod 64); byteChar (128 + (r / 64) mod 64); byteChar (128 + r mod 64)].

Definition validRune (r : Z) : bool := (0 <=? r) && (r <=? 1114111) && negb ((55296 <=? r) && (r <=? 57343)).

(** The length of the well-formed sequence at the start, 0 when there is none. *)
Definition runeLength (l : chars) : nat :=
  let between c lo hi := (lo <=? byte_of_ascii c) && (byte_of_ascii c <=? hi) in
  match l with
  | [] => O
  | a :: l1 =>
      if between a 0 127 then 1%nat else
      match l1 with
      | [] => O
      | b :: l2 =>
          if between a 194 223 && between b 128 191 then 2%nat else
          match l2 with
          | [] => O
          | c :: l3 =>
              if ((between a 224 224 && between b 160 191) || (between a 237 237 && between b 128 159) ||
                  (between a 225 239 && negb (between a 237 237) && between b 128 191)) && between c 128 191 then 3%nat else
              match l3 with
              | [] => O
              | d :: _ =>
                  if ((between a 240 240 && between b 144 191) || (between a 241 243 && between b 128 191) ||
                      (between a 244 244 && between b 128 143)) && between c 128 191 && between d 128 191 then 4%nat else O
              end
          end
      end
  end.

Definition simpleEscape (c : ascii) : option Z :=
  if Ascii.eqb c "a" then Some 7 else if Ascii.eqb c "b" then Some 8 else if Ascii.eqb c "f" then Some 12
  else if Ascii.eqb c "n" then Some 10 else if Ascii.eqb c "r" then Some 13 else if Ascii.eqb c "t" then Some 9
  else if Ascii.eqb c "v" then Some 11 else if Ascii.eqb c backslash then Some 92 else if Ascii.eqb c dquote then Some 34 else None.

(** [strconv.UnquoteChar] in double quotes: the bytes appended and the rest. *)
Definition unquoteChar (l : chars) : option (chars * chars) :=
  match l with
  | [] => None
  | c :: s =>
      if 128 <=? byte_of_ascii c then
        match runeLength l with
        | O => Some (encodeRune 65533, s)
        | n => Some (take n l, drop n l)
        end
      else if negb (Ascii.eqb c backslash) then Some ([c], s)
      else
        match s with
        | [] => None
        | c :: s =>
            if Ascii.eqb c "x" then '(v, s) ← digits 16 2 0 s; Some ([byteChar v], s)
            else if Ascii.eqb c "u" || Ascii.eqb c "U" then
              '(v, s) ← digits 16 (if Ascii.eqb c "u" then 4 else 8) 0 s;
              if validRune v then Some (encodeRune v, s) else None
            else if (48 <=? byte_of_ascii c) && (byte_of_ascii c <=? 55) then
              '(v, s) ← digits 8 2 (byte_of_ascii c - 48) s;
              if v >? 255 then None else Some ([byteChar v], s)
            else v ← simpleEscape c; Some ([byteChar v], s)
        end
  end.

(** Up to the closing quote, which has to be the last byte. *)
Fixpoint unquoteLoop (fuel : nat) (l : chars) : option chars :=
  match fuel, l with
  | O, _ | _, [] => None
  | S fuel, c :: s =>
      if Ascii.eqb c dquote then match s with [] => Some [] | _ => None end
      else if Ascii.eqb c newline then None
      else '(buf, rest) ← unquoteChar l; out ← unquoteLoop fuel rest; Some (buf ++ out)%list
  end.

Definition strconv_Unquote (s : string) : option string :=
  match explode s with
  | c :: l => if Ascii.eqb c dquote then implode <$> unquoteLoop (S (length l)) l else None
  | [] => None
  end.

(** ** parseScalar *)

(** [strings.ReplaceAll] of two single quotes by one. *)
Fixpoint undouble (l : chars) : chars :=
  match l with
  | c :: ((d :: rest) as l') =>
      if Ascii.eqb c squote && Ascii.eqb d squote then squote :: undouble rest else c :: undouble l'
  | _ => l
  end.

Definition invalidQuoted : goerror := EPlain "invalid quoted string".

Definition parseScalar (raw : string) : result string :=
  match explode raw with
  | [] => Ok ""
  | c :: l =>
      if Ascii.eqb c dquote then match strconv_Unquote raw with Some value => Ok value | None => Err invalidQuoted end
      else if Ascii.eqb c squote then
        match rev l with
        | d :: inner => if Ascii.eqb d squote then Ok (implode (undouble (rev inner))) else Err invalidQuoted
        | [] => Err invalidQuoted
        end
      else if strings_ContainsAny raw "[]{}" then Err (EPlain "only scalar values are supported")
      else Ok (strings_TrimSpace raw)
  end.

(** ** readFlatYAML *)

(** The lines a [bufio.Scanner] gives, and whether it stopped at one too long. *)
Definition maxScanTokenSize : Z := 65536.
Definition dropCR (l : chars) : chars := explode (strings_TrimSuffix (implode l) (ascii_of_nat 13)).

Fixpoint scanLines (pieces : list chars) : list chars * bool :=
  match pieces with
  | [] => ([], false)
  | w :: ws =>
      if maxScanTokenSize <=? zlen w then ([], true) else
      match ws, w with
      | [], [] => ([], false)
      | _, _ => let '(lines, tooLong) := scanLines ws in (dropCR w :: lines, tooLong)
      end
  end.

Section Config.
(** fmt's [%q]. *)
Context (quoted : string -> string).

Definition lineError (lineNo : Z) (what : string) : goerror := EPlain ("config line " ++ strconv_FormatInt lineNo ++ ": " ++ what).

(** One line of the loop: the pair it adds, if any. *)
Definition readLine (lineNo : Z) (text : string) (values : gmap string string) : result (option (string * string)) :=
  let line := strings_TrimSpace (stripComment text) in
  if String.eqb line "" then Ok None else
  let '(key, raw, ok) := strings_Cut line ":" in
  let key := strings_TrimSpace key in
  if negb ok || String.eqb key "" || strings_ContainsAny key (String " " (String tab "[]{}"))
  then Err (lineError lineNo "expected a flat key: value pair") else
  match values !! key with
  | Some _ => Err (lineError lineNo ("duplicate key " ++ quoted key))
  | None =>
      match parseScalar (strings_TrimSpace raw) with
      | Err err => Err (EWrap ("config line " ++ strconv_FormatInt lineNo ++ ": " ++ Error err) err)
      | Ok value => Ok (Some (key, value))
      end
  end.

Fixpoint readLines (lineNo : Z) (lines : list string) (values : gmap string string) : result (gmap string string) :=
  match lines with
  | [] => Ok values
  | text :: lines =>
      pair ← readLine lineNo text values;
      readLines (lineNo + 1) lines match pair with Some (key, value) => <[key := value]> values | None => values end
  end.

(** A file, from [os.Open], [os.ReadFile] and [os.Stat]: its content, with the error
    met while reading it, and its permissions. *)
Record fileSystem := mkFileSystem {
  fs_Open : string -> result (string * option goerror);
  fs_Perm : string -> result Z }.

Definition tooLongError : goerror := EPlain "bufio.Scanner: token too long".

Definition readFlatYAML (fs : fileSystem) (path : string) : result (gmap string string) :=
  match fs_Open fs path with
  | Err err => Err (EWrap ("open config: " ++ Error err) err)
  | Ok (content, readErr) =>
      let '(lines, tooLong) := scanLines (splitChars newline (explode content)) in
      values ← readLines 1 (map implode lines) ∅;
      match (if tooLong then Some tooLongError else readErr) with
      | Some err => Err (EWrap ("read config: " ++ Error err) err)
      | None => Ok values
      end
  end.

(** ** Secrets *)

(** [%04o] of permissions. *)
Definition octal4 (p : Z) : string :=
  implode (map digitChar [p / 512 mod 8; p / 64 mod 8; p / 8 mod 8; p mod 8]).

Definition requirePrivateFile (fs : fileSystem) (path : string) : option goerror :=
  match fs_Perm fs path with
  | Err err => Some err
  | Ok perm =>
      if negb (Z.land perm 63 =? 0)
      then Some (EPlain (path ++ " permissions are " ++ octal4 perm ++ "; require 0600 or stricter")) else None
  end.

(** [os.ReadFile]. *)
Definition ReadFile (fs : fileSystem) (path : string) : result string :=
  match fs_Open fs path with
  | Ok (content, None) => Ok content
  | Ok (_, Some err) | Err err => Err err
  end.

Definition readSecret (fs : fileSystem) (path : string) : result string :=
  match requirePrivateFile fs path with
  | Some err => Err (EWrap ("token secret file: " ++ Error err) err)
  | None =>
      match ReadFile fs path with
      | Err err => Err (EWrap ("read token secret file: " ++ Error err) err)
      | Ok b =>
          let token := strings_TrimSpace b in
          if String.eqb token "" then Err (EPlain ("token secret file " ++ path ++ " is empty")) else Ok token
      end
  end.

(** ** loadConfig *)

Definition tokenEnv : string := "GO_IM_SDK_TOKEN".
Definition tokenFileEnv : string := "GO_IM_SDK_TOKEN_FILE".

Record fileConfig := mkFileConfig {
  fc_AppKey : string; fc_UserID : string; fc_Token : string; fc_TokenFile : string; fc_Domain : string;
  fc_Resource : string; fc_DisableReconnect : bool }.

Definition knownKeys : list string := ["app_key"; "user_id"; "token"; "token_file"; "domain"; "resource"; "disable_reconnect"].

Definition strconv_ParseBool (s : string) : option bool :=
  if existsb (String.eqb s) ["1"; "t"; "T"; "true"; "TRUE"; "True"] then Some true
  else if existsb (String.eqb s) ["0"; "f"; "F"; "false"; "FALSE"; "False"] then Some false else None.

(** The token of the configuration: from the environment, a secret file, or the
    configuration itself. *)
Definition loadToken (fs : fileSystem) (env : string -> string) (path token tokenFile : string) : result string :=
  let envToken := strings_TrimSpace (env tokenEnv) in
  if negb (String.eqb envToken "") then Ok envToken else
  let secretPath := strings_TrimSpace (env tokenFileEnv) in
  let secretPath := if String.eqb secretPath "" then tokenFile else secretPath in
  if negb (String.eqb secretPath "") then readSecret fs secretPath else
  if String.eqb token "" then Ok token else
  match requirePrivateFile fs path with
  | Some err => Err (EWrap ("token in YAML: " ++ Error err) err)
  | None => Ok token
  end.

(** [order] is the order in which the loop over the map visits the keys. *)
Definition loadConfig (order : gmap string string -> list string) (fs : fileSystem) (env : string -> string) (path : string)
  : result fileConfig :=
  values ← readFlatYAML fs path;
  match List.find (fun key => negb (existsb (String.eqb key) knownKeys)) (order values) with
  | Some key => Err (EPlain ("unknown configuration key " ++ quoted key))
  | None =>
      let value key := default "" (values !! key) in
      token ← loadToken fs env path (value "token") (value "token_file");
      if String.eqb token ""
      then Err (EPlain ("token is required: set " ++ tokenEnv ++ ", " ++ tokenFileEnv ++ ", token_file, or token")) else
      let config := mkFileConfig (value "app_key") (value "user_id") token (value "token_file") (value "domain") (value "resource") in
      let raw := value "disable_reconnect" in
      if String.eqb raw "" then Ok (config false) else
      match strconv_ParseBool raw with
      | None => Err (EPlain "disable_reconnect must be true or false")
      | Some b => Ok (config b)
      end
  end.
End Config.

(** ** main *)

(** The calls of [main], and the status it exits with; [os.Exit] runs no deferred
    call.  [main] returns when a signal came. *)
Inductive serverCall :=
| ServerNew (appKey domain resource : string) (disableReconnect : bool)
| ServerLogin (userID token : string)
| ServerLogout
| ServerClose.

(** What the SDK answers; [isCancelled] is errors.Is with [context.Canceled]. *)
Record serverAnswers := mkAnswers {
  sa_New : option goerror; sa_Login : option goerror; sa_Close : option goerror }.

Definition serverMain (configPath : string) (config : result fileConfig) (isCancelled : goerror -> bool) (sa : serverAnswers)
  : list serverCall * Z :=
  if String.eqb configPath "" then ([], 2) else
  match config with
  | Err _ => ([], 2)
  | Ok fc =>
      let new := ServerNew (fc_AppKey fc) (fc_Domain fc) (fc_Resource fc) (fc_DisableReconnect fc) in
      let login := ServerLogin (fc_UserID fc) (fc_Token fc) in
      if sa_New sa then ([new], 2) else
      if sa_Login sa then ([new; login], 1) else
      ([new; login; ServerLogout; ServerClose],
       match sa_Close sa with Some err => if isCancelled err then 0 else 1 | None => 0 end)
  end.
