(* ===== verification/ServerTheory.v ===== *)
(** * Properties of the configuration of cmd/server

    A secret comes only from where the policy allows; a configuration written with
    quoted values is read back as it was written. *)
From Stdlib Require Import String Ascii.
From S2P Require Import Prelude Protocol Errors GoStrings Config ServerConfig.
Local Open Scope string_scope.
Local Open Scope Z_scope.

(** ** The policy for secrets *)

(** No permission for the group or for others. *)
Definition private (fs : fileSystem) (path : string) : Prop :=
  exists perm, fs_Perm fs path = Ok perm /\ Z.land perm 63 = 0.

Lemma requirePrivateFile_private fs path : requirePrivateFile fs path = None <-> private fs path.
Proof.
  unfold requirePrivateFile, private. destruct (fs_Perm fs path) as [perm|e].
  - destruct (Z.eqb_spec (Z.land perm 63) 0) as [E|E]; simpl; [|split; [done|by intros (? & [= <-] & ?)]].
    split; [eauto|done].
  - split; [done|by intros (? & ? & ?)].
Qed.

Lemma readSecret_ok fs path token : readSecret fs path = Ok token ->
  private fs path /\ exists content, ReadFile fs path = Ok content /\ token = strings_TrimSpace content /\ token <> "".
Proof.
  unfold readSecret. destruct (requirePrivateFile fs path) eqn:Hp; [done|]. destruct (ReadFile fs path) as [b|]; [|done].
  destruct (String.eqb_spec (strings_TrimSpace b) ""); [done|]. intros [= <-].
  split; [by apply requirePrivateFile_private|by exists b].
Qed.

(** Where a token may come from, in order. *)
Inductive tokenSource (fs : fileSystem) (env : string -> string) (path token tokenFile : string) : string -> Prop :=
| FromEnv : strings_TrimSpace (env tokenEnv) <> "" ->
    tokenSource fs env path token tokenFile (strings_TrimSpace (env tokenEnv))
| FromFile secretPath content :
    strings_TrimSpace (env tokenEnv) = "" ->
    secretPath = (if String.eqb (strings_TrimSpace (env tokenFileEnv)) "" then tokenFile else strings_TrimSpace (env tokenFileEnv)) ->
    secretPath <> "" -> private fs secretPath -> ReadFile fs secretPath = Ok content -> strings_TrimSpace content <> "" ->
    tokenSource fs env path token tokenFile (strings_TrimSpace content)
| FromConfig :
    strings_TrimSpace (env tokenEnv) = "" -> strings_TrimSpace (env tokenFileEnv) = "" -> tokenFile = "" ->
    token <> "" -> private fs path -> tokenSource fs env path token tokenFile token.

Lemma loadToken_source fs env path token tokenFile t : t <> "" ->
  loadToken fs env path token tokenFile = Ok t <-> tokenSource fs env path token tokenFile t.
Proof.
  intros Ht. unfold loadToken. destruct (String.eqb_spec (strings_TrimSpace (env tokenEnv)) "") as [E|E]; simpl.
  - set (sp := if String.eqb (strings_TrimSpace (env tokenFileEnv)) "" then tokenFile else strings_TrimSpace (env tokenFileEnv)).
    destruct (String.eqb_spec sp "") as [Es|Es]; simpl.
    + assert (strings_TrimSpace (env tokenFileEnv) = "" /\ tokenFile = "") as [E1 E2].
      { unfold sp in Es. by destruct (String.eqb_spec (strings_TrimSpace (env tokenFileEnv)) ""). }
      destruct (String.eqb_spec token "") as [Ek|Ek].
      * split; [by intros [= <-]|]. intros [H| ?? _ Hp Hne|_ _ _ H _]; try done. by fold sp in Hp; subst.
      * destruct (requirePrivateFile fs path) as [e|] eqn:Hp.
        { split; [done|]. intros [H|? ? _ Hp' Hne|_ _ _ _ H]; [done|by fold sp in Hp'; subst|].
          by apply requirePrivateFile_private in H; rewrite Hp in H. }
        apply requirePrivateFile_private in Hp. split; [intros [= <-]; by constructor|].
        intros [H|? ? _ Hp' Hne|]; [done|by fold sp in Hp'; subst|done].
    + split.
      * intros (Hpr & content & Hr & -> & Hne)%readSecret_ok. by eapply FromFile.
      * intros [H|? content _ -> _ Hpr Hr Hne|_ E1 E2 _ _]; [done| |].
        -- fold sp in Hpr, Hr. unfold readSecret. rewrite (proj2 (requirePrivateFile_private fs sp) Hpr), Hr.
           by destruct (String.eqb_spec (strings_TrimSpace content) "").
        -- exfalso. apply Es. unfold sp. by rewrite E1.
  - split; [intros [= <-]; by constructor|]. by intros [|? ? H|H].
Qed.

Section Policy.
Context (quoted : string -> string) (order : gmap string string -> list string).

(** C40. A configuration is loaded only with a token, and the token obeys the policy:
    it is the one of the environment, else the content of the secret file the
    environment or the configuration names, which neither group nor others may
    access, else the one written in the configuration, and then the configuration
    is such a file; and the map has no key but the known ones, whatever the order
    the loop visits them in. *)
Theorem loadConfig_secret_policy fs env path fc :
  (forall m, order m ≡ₚ elements (dom m)) ->
  loadConfig quoted order fs env path = Ok fc ->
  exists values, readFlatYAML quoted fs path = Ok values /\ dom values ⊆ list_to_set knownKeys /\
    fc_Token fc <> "" /\
    tokenSource fs env path (default "" (values !! "token")) (fc_TokenFile fc) (fc_Token fc).
Proof.
  intros Ho. unfold loadConfig. destruct (readFlatYAML quoted fs path) as [values|] eqn:Hr; [|done]. cbn [mbind result_bind].
  destruct (List.find _ (order values)) as [k|] eqn:Hf; [done|].
  destruct (loadToken _ _ _ _ _) as [t|] eqn:Ht; [|done]. cbn [mbind result_bind].
  destruct (String.eqb_spec t "") as [|Hne]; [done|]. intros H. exists values. split; [done|].
  split.
  - intros k Hk. apply elem_of_list_to_set. rewrite <-elem_of_elements, <-Ho in Hk.
    apply list_elem_of_In, (List.find_none _ _ Hf), negb_false_iff, existsb_exists in Hk as (k' & Hk' & ->%String.eqb_eq).
    by apply list_elem_of_In.
  - assert (fc_Token fc = t /\ fc_TokenFile fc = default "" (values !! "token_file")) as [-> ->].
    { destruct (String.eqb _ ""); [by injection H as <-|]. destruct (strconv_ParseBool _); [by injection H as <-|done]. }
    split; [done|]. by apply loadToken_source.
Qed.
End Policy.

(** ** Round trip *)

(** A value as a double-quoted scalar. *)
Definition escapeChar (c : ascii) : chars := if Ascii.eqb c dquote || Ascii.eqb c backslash then [backslash; c] else [c].
Definition quote (v : string) : chars := dquote :: concat (map escapeChar (explode v)) ++ [dquote].

Definition printable (c : ascii) : bool := (32 <=? byte_of_ascii c) && (byte_of_ascii c <=? 126).

(** The characters of a key: not a blank and none of those with a meaning. *)
Definition keyChar (c : ascii) : bool :=
  printable c && negb (mem_char c (String " " (String dquote (String squote (String backslash "#:[]{}"))))).

Definition plainKey (k : string) : Prop := k <> "" /\ forallb keyChar (explode k) = true.
Definition plainValue (v : string) : Prop := forallb printable (explode v) = true.

(** A line of a configuration, with or without a comment after the value. *)
Definition renderLine (k v : string) (comment : option string) : chars :=
  (explode k ++ [":"%char; " "%char] ++ quote v ++ match comment with Some c => explode (" #" ++ c) | None => [] end)%list.

Lemma keyChar_facts c : keyChar c = true ->
  solid c = true /\ Ascii.eqb c dquote = false /\ Ascii.eqb c squote = false /\ Ascii.eqb c "#" = false /\
  Ascii.eqb c ":" = false /\ mem_char c (String " " (String tab "[]{}")) = false /\ Ascii.eqb c newline = false.
Proof. by destruct c as [[] [] [] [] [] [] [] []]; vm_compute. Qed.

Lemma printable_facts c : printable c = true -> 128 <=? byte_of_ascii c = false /\ Ascii.eqb c newline = false.
Proof. by destruct c as [[] [] [] [] [] [] [] []]; vm_compute. Qed.

(** Outside quotes, text without quotes and [#] is kept. *)
Lemma strip_plain l k prev :
  forallb (fun c => negb (Ascii.eqb c dquote) && negb (Ascii.eqb c squote) && negb (Ascii.eqb c "#")) l = true ->
  stripLoop prev None false (l ++ k)%list = (l ++ stripLoop (match last l with Some c => Some c | None => prev end) None false k)%list.
Proof.
  revert prev. induction l as [|c l IH]; intros prev; [done|].
  cbn [forallb]. intros [[[H1%negb_true_iff H2%negb_true_iff]%andb_true_iff H3%negb_true_iff]%andb_true_iff Hl]%andb_true_iff.
  cbn [app stripLoop]. rewrite H1, H2, H3. cbn. f_equal. rewrite IH by done. f_equal. f_equal. rewrite last_cons. by destruct (last l).
Qed.

(** Inside double quotes an escaped value is kept, whatever it holds. *)
Lemma strip_quoted l k prev : exists prev',
  stripLoop prev (Some dquote) false (concat (map escapeChar l) ++ k)%list =
  (concat (map escapeChar l) ++ stripLoop prev' (Some dquote) false k)%list.
Proof.
  revert prev. induction l as [|c l IH]; intros prev; [by exists prev|].
  cbn [map concat]. unfold escapeChar at 1 3. destruct (Ascii.eqb_spec c dquote) as [->|Hd]; cbn [orb].
  { destruct (IH (Some dquote)) as [p E]. exists p. rewrite <-!app_assoc. cbn [app stripLoop]. by rewrite E. }
  destruct (Ascii.eqb_spec c backslash) as [->|Hb].
  { destruct (IH (Some backslash)) as [p E]. exists p. rewrite <-!app_assoc. cbn [app stripLoop]. by rewrite E. }
  destruct (IH (Some c)) as [p E]. exists p. cbn [app stripLoop].
  rewrite (proj2 (Ascii.eqb_neq c dquote) Hd), (proj2 (Ascii.eqb_neq c backslash) Hb), andb_false_r, orb_false_r.
  rewrite bool_decide_false by done. rewrite andb_false_r. cbn [andb].
  destruct (Ascii.eqb_spec c squote) as [->|_]; [change (Ascii.eqb dquote squote) with false; cbv beta iota|]; by rewrite E.
Qed.

Lemma stripComment_renderLine k v comment : plainKey k ->
  stripComment (implode (renderLine k v comment)) =
  implode (explode k ++ [":"%char; " "%char] ++ quote v ++ match comment with Some _ => [" "%char] | None => [] end)%list.
Proof.
  intros [_ Hk]. unfold stripComment. rewrite explode_implode. f_equal. unfold renderLine.
  rewrite strip_plain.
  2:{ rewrite forallb_forall in Hk |- *. intros c Hc. apply Hk, keyChar_facts in Hc as (_ & -> & -> & -> & _). done. }
  f_equal. cbn [app stripLoop quote]. f_equal. f_equal. f_equal. rewrite <-app_assoc.
  destruct (strip_quoted (explode v) ([dquote] ++ match comment with Some c => explode (" #" ++ c) | None => [] end)%list (Some dquote)) as [p ->].
  rewrite <-app_assoc. f_equal. cbn. f_equal. by destruct comment.
Qed.

(** Reading the escaped value, a character at a time. *)
Lemma unquoteChar_escaped c s : printable c = true -> unquoteChar (escapeChar c ++ s)%list = Some ([c], s).
Proof.
  intros [H _]%printable_facts. unfold escapeChar. destruct (Ascii.eqb_spec c dquote) as [->|Hd]; [reflexivity|].
  destruct (Ascii.eqb_spec c backslash) as [->|Hb]; [reflexivity|]. cbn [orb app unquoteChar]. rewrite H.
  by rewrite (proj2 (Ascii.eqb_neq c backslash) Hb).
Qed.

Lemma escapeChar_head c : printable c = true -> exists d l, escapeChar c = d :: l /\ Ascii.eqb d dquote = false /\ Ascii.eqb d newline = false.
Proof.
  intros [_ H]%printable_facts. unfold escapeChar. destruct (Ascii.eqb c dquote || Ascii.eqb c backslash) eqn:E; [by eexists _, _|].
  apply orb_false_iff in E as [E _]. by eexists _, _.
Qed.

Lemma unquote_quoted l fuel : forallb printable l = true -> (length (concat (map escapeChar l)) < fuel)%nat ->
  unquoteLoop fuel (concat (map escapeChar l) ++ [dquote]) = Some l.
Proof.
  revert fuel. induction l as [|c l IH]; intros fuel Hp Hf; (destruct fuel as [|fuel]; [simpl in Hf; lia|]); [done|].
  cbn [forallb] in Hp. apply andb_true_iff in Hp as [Hc Hp].
  cbn [map concat] in Hf |- *. rewrite length_app in Hf. rewrite <-app_assoc.
  pose proof (unquoteChar_escaped c (concat (map escapeChar l) ++ [dquote])%list Hc) as Hu.
  destruct (escapeChar_head c Hc) as (d & k & E & H1 & H2). rewrite E in Hu, Hf |- *.
  cbn [app unquoteLoop] in Hu |- *. rewrite H1, H2, Hu. cbn [mbind option_bind]. rewrite IH by (done || simpl in Hf; lia). done.
Qed.

Lemma parseScalar_quote v : plainValue v -> parseScalar (implode (quote v)) = Ok v.
Proof.
  intros Hv. unfold parseScalar. rewrite explode_implode. cbn [quote]. cbn [Ascii.eqb].
  change (Ascii.eqb dquote dquote) with true. cbv beta iota. unfold strconv_Unquote. rewrite explode_implode. cbn [quote].
  change (Ascii.eqb dquote dquote) with true. cbv beta iota. rewrite unquote_quoted; [|done|rewrite length_app; simpl; lia].
  simpl. by rewrite implode_explode.
Qed.

Lemma solid_key k : plainKey k -> exists a l b, explode k = (a :: l)%list /\ solid a = true /\
  solid b = true /\ exists l', (a :: l)%list = (l' ++ [b])%list.
Proof.
  intros [Hne Hk]. destruct (explode k) as [|a l] eqn:E; [by destruct k|].
  destruct (exists_last (l := (a :: l)%list)) as (l' & b & Hl); [done|]. exists a, l, b. split_and!; [done| | |by exists l'].
  - cbn [forallb] in Hk. apply andb_true_iff in Hk as [Ha _]. by apply keyChar_facts in Ha as [? _].
  - rewrite Hl, forallb_app in Hk. cbn [forallb] in Hk. apply andb_true_iff in Hk as [_ [Hb _]%andb_true_iff].
    by apply keyChar_facts in Hb as [? _].
Qed.

Lemma TrimSpace_key k : plainKey k -> strings_TrimSpace k = k.
Proof.
  intros (a & l & b & E & Ha & Hb & l' & Hl)%solid_key. rewrite <-(implode_explode k), E.
  destruct l as [|c l].
  - destruct l' as [|x l']; [|by destruct l']. injection Hl as <-. unfold strings_TrimSpace. rewrite explode_implode.
    rewrite trimLeftSpace_solid by done. cbn [rev app]. rewrite trimRightSpace_solid by done. reflexivity.
  - destruct (exists_last (l := (c :: l)%list)) as (m & d & Hm); [done|].
    assert (b = d) as <-. { rewrite Hm in Hl. change (a :: m ++ [d])%list with ((a :: m) ++ [d])%list in Hl. by apply app_inj_tail in Hl as [_ ?]. }
    rewrite Hm. pose proof (TrimSpace_solid 0 0 a m b Ha Hb) as H. cbn [repeat app] in H. by rewrite app_nil_r in H.
Qed.

Lemma TrimSpace_quote v : strings_TrimSpace (implode (" "%char :: quote v)) = implode (quote v).
Proof.
  pose proof (TrimSpace_solid 1 0 dquote (concat (map escapeChar (explode v))) dquote eq_refl eq_refl) as H.
  cbn [repeat app] in H. by rewrite app_nil_r in H.
Qed.

Lemma key_not_special k : plainKey k -> strings_ContainsAny k (String " " (String tab "[]{}")) = false /\ without ":" (explode k) = true.
Proof.
  intros [_ Hk]. rewrite forallb_forall in Hk. split.
  - unfold strings_ContainsAny. apply not_true_iff_false. rewrite existsb_exists. intros (c & Hc & H).
    apply Hk, keyChar_facts in Hc as (_ & _ & _ & _ & _ & E & _). by rewrite E in H.
  - unfold without. rewrite forallb_forall. intros c Hc. by apply Hk, keyChar_facts in Hc as (_ & _ & _ & _ & -> & _).
Qed.

(** A key, its value and the comment after it. *)
Definition entry : Type := string * string * option string.
Definition entryLine (e : entry) : chars := let '(k, v, comment) := e in renderLine k v comment.
Definition render (entries : list entry) : string := implode (concat (map (fun e => entryLine e ++ [newline])%list entries)).

Definition entryOk (e : entry) : Prop :=
  let '(k, v, comment) := e in
  plainKey k /\ plainValue v /\ match comment with Some c => plainValue c | None => True end /\ zlen (entryLine e) < maxScanTokenSize.

Lemma entryLine_printable e : entryOk e -> forallb printable (entryLine e) = true.
Proof.
  destruct e as [[k v] comment]. intros ([_ Hk] & Hv & Hc & _). cbn [entryLine]. unfold renderLine, quote.
  assert (forallb printable (concat (map escapeChar (explode v))) = true) as He.
  { unfold plainValue in Hv. induction (explode v) as [|c l IH]; [done|]. cbn [forallb] in Hv. apply andb_true_iff in Hv as [H1 H2].
    cbn [map concat]. rewrite forallb_app, IH by done. unfold escapeChar. destruct (_ || _); cbn [forallb]; by rewrite H1. }
  cbn [app]. rewrite forallb_app. apply andb_true_iff. split.
  - rewrite forallb_forall in Hk |- *. intros c Hin. apply Hk in Hin. unfold keyChar in Hin. by apply andb_true_iff in Hin as [? _].
  - cbn [forallb]. rewrite !forallb_app, He. destruct comment as [c|]; [|done]. cbn. exact Hc.
Qed.

Lemma printable_without e : entryOk e -> without newline (entryLine e) = true.
Proof.
  intros H%entryLine_printable. unfold without. rewrite forallb_forall in H |- *. intros c Hc.
  by apply H, printable_facts in Hc as [_ ->].
Qed.

Lemma dropCR_printable e : entryOk e -> dropCR (entryLine e) = entryLine e.
Proof.
  intros H%entryLine_printable. unfold dropCR, strings_TrimSuffix. rewrite explode_implode.
  destruct (rev (entryLine e)) as [|d l] eqn:E; [by rewrite explode_implode|].
  destruct (Ascii.eqb_spec d (ascii_of_nat 13)) as [->|_]; [|by rewrite explode_implode].
  exfalso. rewrite forallb_forall in H. assert (In (ascii_of_nat 13) (entryLine e)) as Hi by (apply in_rev; rewrite E; by left).
  by apply H in Hi.
Qed.

Lemma split_render entries : Forall entryOk entries ->
  splitChars newline (explode (render entries)) = (map entryLine entries ++ [[]])%list.
Proof.
  unfold render. rewrite explode_implode. induction 1 as [|e es He Hes IH]; [done|]. cbn [map concat].
  rewrite <-app_assoc. cbn [app]. rewrite splitChars_cons by (by apply printable_without). by rewrite IH.
Qed.

Lemma scan_render entries : Forall entryOk entries -> scanLines (map entryLine entries ++ [[]])%list = (map entryLine entries, false).
Proof.
  induction 1 as [|e es He Hes IH]; [done|]. cbn [map app scanLines].
  assert (maxScanTokenSize <=? zlen (entryLine e) = false) as ->.
  { destruct e as [[k v] c]. destruct He as (_ & _ & _ & H). apply Z.leb_gt. exact H. }
  destruct (map entryLine es ++ [[]])%list as [|w ws] eqn:E; [by destruct es|].
  rewrite IH, dropCR_printable by done. done.
Qed.

Section RoundTrip.
Context (quoted : string -> string).

(** A rendered line gives its pair. *)
Lemma readLine_render n k v comment values : plainKey k -> plainValue v -> values !! k = None ->
  readLine quoted n (implode (renderLine k v comment)) values = Ok (Some (k, v)).
Proof.
  intros Hk Hv Hn. unfold readLine. rewrite stripComment_renderLine by done.
  set (body := (explode k ++ [":"%char; " "%char] ++ quote v)%list).
  assert (strings_TrimSpace (implode (explode k ++ [":"%char; " "%char] ++ quote v ++
    match comment with Some _ => [" "%char] | None => [] end)%list) = implode body) as ->.
  { destruct (solid_key k Hk) as (a & l & b & E & Ha & _).
    set (m := (l ++ [":"%char; " "%char] ++ dquote :: concat (map escapeChar (explode v)))%list).
    assert (body = a :: m ++ [dquote])%list as Hb by (unfold body, m, quote; rewrite E; cbn [app]; by rewrite <-!app_assoc).
    rewrite Hb. rewrite <-(TrimSpace_solid 0 (if comment then 1 else 0) a m dquote Ha eq_refl). f_equal. f_equal. cbn [repeat app].
    change (a :: (m ++ [dquote]) ++ ?r)%list with ((a :: m ++ [dquote]) ++ r)%list. rewrite <-Hb. unfold body.
    rewrite <-!app_assoc. by destruct comment. }
  destruct (String.eqb_spec (implode body) "") as [He|_].
  { apply (f_equal explode) in He. rewrite explode_implode in He. unfold body in He. by destruct (explode k). }
  destruct (key_not_special k Hk) as [H1 H2]. unfold strings_Cut. rewrite explode_implode. unfold body. cbn [app].
  rewrite cutChars_without by done. rewrite implode_explode, TrimSpace_key by done.
  destruct (String.eqb_spec k "") as [->|_]; [by destruct Hk|]. rewrite H1. cbn [negb orb]. rewrite Hn, TrimSpace_quote.
  by rewrite parseScalar_quote.
Qed.

Lemma readLines_render entries : Forall entryOk entries -> forall n values,
  NoDup (map (fun e => e.1.1) entries) -> Forall (fun e => values !! e.1.1 = None) entries ->
  readLines quoted n (map implode (map entryLine entries)) values = Ok (list_to_map (map fst entries) ∪ values).
Proof.
  induction 1 as [|[[k v] c] es (Hk & Hv & _) Hes IH]; intros n values Hnd Hn.
  { cbn. by rewrite (left_id_L ∅ (∪)). }
  apply NoDup_cons in Hnd as [Hnk Hnd]. apply Forall_cons in Hn as [Hn Hns]. cbn [map entryLine readLines].
  rewrite readLine_render by done. cbn [mbind result_bind]. rewrite IH; [|done|].
  - f_equal. cbn [map fst list_to_map foldr uncurry]. rewrite <-insert_union_r; [by rewrite insert_union_l|].
    apply not_elem_of_list_to_map_1. intros ([k' v'] & Ek & Hin)%list_elem_of_fmap. apply Hnk.
    apply list_elem_of_fmap in Hin as (e & E & He). apply list_elem_of_fmap. exists e. split; [|done].
    rewrite <-E. exact Ek.
  - rewrite Forall_forall in Hns |- *. intros e He. rewrite lookup_insert_ne; [by apply Hns|].
    intros ->. apply Hnk. apply list_elem_of_fmap. by exists e.
Qed.

(** A configuration written with quoted values is read back as it was written:
    values of any printable characters ([#], [:], quotes, backslashes and
    brackets included), each on a line of less than 64 KiB and possibly followed
    by a comment, with distinct keys. *)
Theorem config_roundtrip fs path entries :
  Forall entryOk entries -> NoDup (map (fun e => e.1.1) entries) ->
  fs_Open fs path = Ok (render entries, None) ->
  readFlatYAML quoted fs path = Ok (list_to_map (map fst entries)).
Proof.
  intros He Hnd Ho. unfold readFlatYAML. rewrite Ho, split_render, scan_render by done.
  rewrite readLines_render; [|done|done|by apply Forall_true].
  cbn [mbind result_bind]. by rewrite (right_id_L ∅ (∪)).
Qed.
End RoundTrip.

(** ** Witnesses *)

Definition entries_w : list entry :=
  [("app_key", "org#app", Some "the app"); ("user_id", "a: b [c]", None); ("token", "q'" ++ String dquote (String backslash "x"), None)].
Definition files_w : fileSystem := mkFileSystem (fun _ => Ok (render entries_w, None)) (fun _ => Ok 384).

Lemma config_roundtrip_witness :
  readFlatYAML (fun s => s) files_w "config.yaml" = Ok (list_to_map (map fst entries_w)).
Proof.
  apply config_roundtrip; [|by apply (bool_decide_unpack _); vm_compute|reflexivity].
  repeat constructor; try done; by vm_compute.
Defined.

Lemma loadConfig_secret_policy_witness : exists fc,
  loadConfig (fun s => s) (fun m => elements (dom m)) files_w (fun _ => "") "config.yaml" = Ok fc /\
  private files_w "config.yaml" /\ fc_AppKey fc = "org#app".
Proof.
  set (fc := mkFileConfig "org#app" "a: b [c]" ("q'" ++ String dquote (String backslash "x")) "" "" "" false). exists fc.
  assert (loadConfig (fun s => s) (fun m => elements (dom m)) files_w (fun _ => "") "config.yaml" = Ok fc) as E
    by (vm_compute; reflexivity).
  split; [exact E|]. split; [|reflexivity].
  destruct (loadConfig_secret_policy (fun s => s) (fun m => elements (dom m)) files_w (fun _ => "") "config.yaml" fc
    (fun m => Permutation_refl _) E) as (values & _ & _ & _ & H).
  remember (fc_Token fc) as t eqn:Et. remember (fc_TokenFile fc) as tf eqn:Ef. clear E.
  destruct H as [H|? ? _ Hs Hne _ _ _|_ _ _ _ Hp]; [exfalso; by apply H| |exact Hp].
  exfalso. apply Hne. rewrite Hs, Ef. reflexivity.
Defined.
