(* ===== verification/IntegrationDemo.v ===== *)
(** * cmd/integration-demo

    cmd/integration-demo/main.go: the parsers of the flags and of the configuration,
    the body of the test message, and what is logged of a received message. *)
From Stdlib Require Import String Ascii SpecFloat.
From S2P Require Import Prelude Protocol Errors GoStrings RetainedWeight Message MessageJSON ServerConfig.
Local Open Scope string_scope.
Local Open Scope Z_scope.

(** ** Flags *)

Definition splitCSV (value : string) : list string :=
  List.filter (fun item => negb (String.eqb item "")) (map strings_TrimSpace (strings_Split value ",")).

(** [strings.SplitN(item, sep, 2)] when it has two parts. *)
Definition splitPair (item : string) (sep : ascii) : option (string * string) :=
  let '(a, b, ok) := strings_Cut item sep in if ok then Some (a, b) else None.

Definition strings_HasPrefix (s : string) (c : ascii) : bool := match explode s with d :: _ => Ascii.eqb c d | [] => false end.
Definition strings_HasSuffix (s : string) (c : ascii) : bool := match rev (explode s) with d :: _ => Ascii.eqb c d | [] => false end.

Section Flags.
(** fmt's [%q]; json.Valid. *)
Context (quoted : string -> string) (json_Valid : string -> bool).

(** A trimmed key and value, when there is a key. *)
Definition keyValue (item : string) : option (string * string) :=
  '(key, value) ← splitPair item "=";
  if String.eqb (strings_TrimSpace key) "" then None else Some (strings_TrimSpace key, strings_TrimSpace value).

(** The loop over the items, storing [f value] at each key. *)
Fixpoint parseItems {A} (what : string) (f : string -> A) (items : list string) (out : gmap string A) : result (gmap string A) :=
  match items with
  | [] => Ok out
  | item :: items =>
      match keyValue item with
      | None => Err (EPlain (what ++ " must use key=value: " ++ quoted item))
      | Some (key, value) => parseItems what f items (<[key := f value]> out)
      end
  end.

Definition parseProperties (value : string) : result (gmap string string) := parseItems "property" id (splitCSV value) ∅.

(** The nil map of an empty flag reads as an empty one. *)
Definition extValue (val : string) : Sdk.KeyValue :=
  if ((strings_HasPrefix val "{" && strings_HasSuffix val "}") || (strings_HasPrefix val "[" && strings_HasSuffix val "]")) && json_Valid val
  then Sdk.mkKeyValue KeyValueJSONString (AnyString val) else Sdk.mkKeyValue Message.KeyValueString (AnyString val).

Definition parseKeyValues (value : string) : result (gmap string Sdk.KeyValue) :=
  if String.eqb (strings_TrimSpace value) "" then Ok ∅ else parseItems "key value" extValue (splitCSV value) ∅.

Definition buildSendBody (bodyType text action event params : string) : result Body :=
  if String.eqb bodyType "text" then Ok (mkBody MessageBodyText text "" "" ∅ 0 [])
  else if String.eqb bodyType "command" then Ok (mkBody MessageBodyCommand "" action "" ∅ 0 [])
  else if String.eqb bodyType "custom" then
    match parseKeyValues params with
    | Err err => Err (EWrap ("custom extensions: " ++ Error err) err)
    | Ok kv => Ok (mkBody MessageBodyCustom "" "" event kv 0 [])
    end
  else Err (EPlain ("unknown send type " ++ quoted bodyType ++ " (want text, command or custom)")).
End Flags.

(** ** What is logged of a message *)

Definition messageBodyBytes (body : option Body) : Z :=
  match body with
  | None => 0
  | Some b => slen (bd_Text b) + slen (bd_Action b) + slen (bd_Event b) + zlen (bd_RawPayload b)
  end.

(** The document [marshalSafeMessage] encodes. *)
Record safeBody := mkSafeBody { sb_Type : MessageBodyType; sb_Action : string; sb_Event : string }.
Record safeMessage := mkSafeMessage {
  sm_From : string; sm_To : string; sm_IsGroup : bool; sm_MetaID : Z; sm_Timestamp : Z; sm_Body : option safeBody;
  sm_Ext : gmap string Sdk.KeyValue; sm_OnlineState : MessageOnlineState }.

Definition safeView (msg : Message) : safeMessage :=
  mkSafeMessage (ms_From msg) (ms_To msg) (ms_IsGroup msg) (ms_MetaID msg) (ms_Timestamp msg)
    ((fun b => mkSafeBody (bd_Type b) (bd_Action b) (bd_Event b)) <$> ms_Body msg) (ms_Ext msg) (ms_OnlineState msg).

(** ** The configuration *)

(** The code is that of cmd/server. *)
Definition stripYAMLComment (line : string) : string := stripComment line.

Record demoConfig := mkDemoConfig {
  dc_AppKey : string; dc_UserID : string; dc_Token : string; dc_Domain : string; dc_Resource : string; dc_DisableReconnect : bool }.

Definition set_demo (c : demoConfig) (key value : string) : demoConfig :=
  let 'mkDemoConfig a u t d r x := c in
  if String.eqb key "app_key" then mkDemoConfig value u t d r x
  else if String.eqb key "user_id" then mkDemoConfig a value t d r x
  else if String.eqb key "token" then mkDemoConfig a u value d r x
  else if String.eqb key "domain" then mkDemoConfig a u t value r x
  else if String.eqb key "resource" then mkDemoConfig a u t d value x
  else if String.eqb key "disable_reconnect" then mkDemoConfig a u t d r (String.eqb value "true")
  else c.

(** One line: the configuration and the token file. *)
Definition demoLine (text : string) (st : demoConfig * string) : demoConfig * string :=
  let line := strings_TrimSpace (stripYAMLComment text) in
  if String.eqb line "" then st else
  match splitPair line ":" with
  | None => st
  | Some (key, raw) =>
      let key := strings_TrimSpace key in
      let value := strings_Trim (strings_TrimSpace raw) (String dquote "") in
      if String.eqb key "token_file" then (fst st, value) else (set_demo (fst st) key value, snd st)
  end.

Definition set_token (c : demoConfig) (token : string) : demoConfig :=
  let 'mkDemoConfig a u _ d r x := c in mkDemoConfig a u token d r x.

Definition demoToken (fs : fileSystem) (env : string -> string) (c : demoConfig) (tokenFile : string) : result demoConfig :=
  let read path :=
    match ReadFile fs path with
    | Err err => Err (EWrap ("read token file: " ++ Error err) err)
    | Ok data => Ok (set_token c (strings_TrimSpace data))
    end in
  let token := strings_TrimSpace (env tokenEnv) in
  if negb (String.eqb token "") then Ok (set_token c token) else
  let path := strings_TrimSpace (env tokenFileEnv) in
  if negb (String.eqb path "") then read path
  else if negb (String.eqb tokenFile "") then read tokenFile else Ok c.

Definition parseConfig (fs : fileSystem) (env : string -> string) (path : string) : result demoConfig :=
  content ← ReadFile fs path;
  let '(c, tokenFile) := foldl (fun st line => demoLine line st) (mkDemoConfig "" "" "" "" "" false, "")
                           (strings_Split content newline) in
  c ← demoToken fs env c tokenFile;
  if String.eqb (dc_Token c) "" then Err (EPlain "token is required") else Ok c.

(** ** How far the two parsers agree

    The demo ignores what cmd/server refuses: a key it does not know, a line that
    is not a pair, a duplicate, and a secret that others may read. *)
Definition openFile (content : string) : fileSystem := mkFileSystem (fun _ => Ok (content, None)) (fun _ => Ok 420).

Lemma demo_accepts_what_the_server_refuses :
  is_ok (parseConfig (openFile ("tokens: x" ++ String newline "token: t")) (fun _ => "") "c") = true /\
  is_ok (loadConfig id (fun m => elements (dom m)) (openFile ("tokens: x" ++ String newline "token: t")) (fun _ => "") "c") = false /\
  is_ok (parseConfig (openFile "token: t") (fun _ => "") "c") = true /\
  is_ok (loadConfig id (fun m => elements (dom m)) (openFile "token: t") (fun _ => "") "c") = false.
Proof. by vm_compute. Qed.

(** ** The tests of the repository *)

Lemma parseConfig_keeps_hash :
  parseConfig (openFile ("app_key: " ++ String dquote ("easemob#easeim" ++ String dquote " # comment") ++ String newline "user_id: user"))
    (fun k => if String.eqb k tokenEnv then "test-token" else "") "prod.yaml" =
  Ok (mkDemoConfig "easemob#easeim" "user" "test-token" "" "" false).
Proof. by vm_compute. Qed.

(** The extensions a flag gives can all be sent: each is a string or a JSON string. *)
Lemma parseKeyValues_sendable quoted json_Valid value kv k x :
  parseKeyValues quoted json_Valid value = Ok kv -> kv !! k = Some x ->
  exists s, x = Sdk.mkKeyValue Message.KeyValueString (AnyString s) \/ (x = Sdk.mkKeyValue KeyValueJSONString (AnyString s) /\ json_Valid s = true).
Proof.
  set (P := fun x => exists s, x = Sdk.mkKeyValue Message.KeyValueString (AnyString s) \/
                       (x = Sdk.mkKeyValue KeyValueJSONString (AnyString s) /\ json_Valid s = true)).
  assert (forall items out kv, map_Forall (fun _ x => P x) out -> parseItems quoted "key value" (extValue json_Valid) items out = Ok kv ->
            map_Forall (fun _ x => P x) kv) as H.
  { intros items. induction items as [|item items IH]; intros out m Ho; cbn [parseItems]; [by intros [= <-]|].
    destruct (keyValue item) as [[key val]|]; [|done]. apply IH. apply map_Forall_insert_2; [|done].
    unfold extValue. destruct (_ && json_Valid val) eqn:E; exists val; [right|by left].
    by apply andb_true_iff in E as [_ ?]. }
  unfold parseKeyValues. destruct (String.eqb _ ""); [by intros [= <-]|]. intros Hp Hk. by eapply (H _ ∅ kv (map_Forall_empty _) Hp).
Qed.
