(* ===== verification/DemoMain.v ===== *)
(** * The main function of cmd/integration-demo

    cmd/integration-demo/main.go, [main], [sendTestMessage], [logRESTError]: a
    script of calls of the SDK and of log records.  A call is an action with an
    answer of the environment; a script is a tree of actions, so every run of it is
    finite once its calls return. *)
From Stdlib Require Import String Ascii SpecFloat.
From S2P Require Import Prelude Protocol Errors GoStrings Config RetainedWeight Identifiers Message MessageJSON Rest ServerConfig IntegrationDemo.
Local Open Scope string_scope.
Local Open Scope Z_scope.

(** ** Flags *)

Record demoFlags := mkFlags {
  df_config : string; df_sendTo : string; df_sendType : string; df_sendText : string; df_sendAction : string;
  df_sendEvent : string; df_sendParams : string; df_sendExt : string; df_group : bool; df_directedUsers : string;
  df_probeREST : bool; df_setUser : string; df_fetchUsers : string; df_fetchProperties : string;
  df_createGroup : string; df_groupMembers : string; df_joinGroup : string; df_leaveGroup : string; df_debug : bool }.

Definition defaultFlags : demoFlags :=
  mkFlags "" "" "text" "integration-demo test" "" "" "" "" false "" false "" "" "" "" "" "" "" false.

(** ** Calls *)

Inductive logLevel := LevelInfo | LevelWarn | LevelError.
Inductive logValue := LogString (s : string) | LogInt (n : Z) | LogBool (b : bool) | LogError (text : string)
| LogBytes (b : bytes) | LogBodyType (t : MessageBodyType) | LogOnlineState (st : MessageOnlineState).
Record logEntry := mkLog { lg_level : logLevel; lg_msg : string; lg_attrs : list (string * logValue) }.

Inductive restCall :=
| RESTFetchUserInfo (timeout : Z) (users properties : list string)
| RESTUpdateOwnUserInfo (timeout : Z) (attrs : gmap string string)
| RESTCreatePublicGroup (timeout : Z) (name : string) (members : list string)
| RESTJoinPublicGroup (timeout : Z) (group : string)
| RESTLeaveGroup (timeout : Z) (group : string).

Inductive demoCall :=
| CallUsage
| CallLog (entry : logEntry)
| CallNew (appKey domain resource : string) (disableReconnect debug : bool)
| CallLogin (timeout : Z) (userID token : string)
| CallHealth
| CallUnixNano
| CallSend (timeout : Z) (req : SendRequest)
| CallREST (c : restCall)
| CallSignal
| CallLogout (timeout : Z)
| CallClose.

(** What a call returns.  A REST operation without an error returns a response. *)
Definition answer (c : demoCall) : Type :=
  match c with
  | CallUsage | CallLog _ | CallClose => unit
  | CallNew _ _ _ _ _ | CallLogin _ _ _ | CallLogout _ => option goerror
  | CallHealth => string * Z
  | CallUnixNano => Z
  | CallSend _ _ => result (option SendResult)
  | CallREST _ => Response + restError
  | CallSignal => string
  end.

Inductive script (A : Type) := Return (a : A) | Call (c : demoCall) (k : answer c -> script A).
Arguments Return {A} _.
Arguments Call {A} _ _.

#[export] Instance script_ret : MRet script := @Return.
#[export] Instance script_bind : MBind script := fun A B f =>
  fix bind m := match m with Return a => f a | Call c k => Call c (fun x => bind (k x)) end.

Definition call (c : demoCall) : script (answer c) := Call c Return.
Definition log (level : logLevel) (msg : string) (attrs : list (string * logValue)) : script unit := call (CallLog (mkLog level msg attrs)).
Definition when (b : bool) (m : script unit) : script unit := if b then m else mret tt.
Definition nonEmpty (s : string) : bool := negb (String.eqb s "").
Definition seconds (n : Z) : Z := n * time_Second.

(** ** The parts of main *)

Definition sendTestMessage (req : SendRequest) : script (result SendResult) :=
  req ← (if rq_ClientMessageID req =? 0 then
           now ← call CallUnixNano;
           mret (mkSendRequest (u64 now) (rq_To req) (rq_IsGroup req) (rq_DirectedUsers req) (rq_Ext req) (rq_Body req))
         else mret req);
  res ← call (CallSend (seconds 15) req);
  mret match res with
       | Err err => Err err
       | Ok None => Err (EPlain "send returned nil result")
       | Ok (Some result) => Ok result
       end.

(** The attributes of a failed REST call. *)
Definition restErrorAttrs (err : restError) : list (string * logValue) :=
  match err with
  | RestAPI e =>
      [("status", LogInt match ae_Response e with Some r => rp_StatusCode r | None => 0 end);
       ("request_id", LogString (ae_RequestID e)); ("service_code", LogString (ae_ServiceCode e));
       ("error", LogError (errorString (Some err)))]
  | RestOther e => [("error", LogError (Error e))]
  end.

Definition logRESTError (msg : string) (err : restError) : script unit := log LevelError msg (restErrorAttrs err).

(** A REST call and the record of its outcome. *)
Definition reported (name : string) (c : restCall) : script unit :=
  res ← call (CallREST c);
  match res with
  | inr err => logRESTError ("rest." ++ name ++ "_failed") err
  | inl response =>
      log LevelInfo ("rest." ++ name ++ "_succeeded")
        [("status", LogInt (rp_StatusCode response)); ("body", LogBytes (rp_Body response))]
  end.

Section Main.
Context (quoted : string -> string) (json_Valid : string -> bool).
Context (flags : demoFlags) (fc : demoConfig).

Definition sendPart : script unit :=
  let body := buildSendBody quoted json_Valid (df_sendType flags) (df_sendText flags) (df_sendAction flags) (df_sendEvent flags)
                (df_sendParams flags) in
  let ext := parseKeyValues quoted json_Valid (df_sendExt flags) in
  let failed (count : Z) (err : goerror) :=
    log LevelError "message.send_failed" [("from", LogString (dc_UserID fc)); ("to", LogString (df_sendTo flags));
      ("ext_count", LogInt count); ("error", LogError (Error err))] in
  let count := match ext with Ok m => Z.of_nat (size m) | Err _ => 0 end in
  match body, ext with
  | Err err, _ => failed count err
  | Ok _, Err err => failed count (EWrap ("message ext: " ++ Error err) err)
  | Ok body, Ok ext =>
      res ← sendTestMessage (mkSendRequest 0 (df_sendTo flags) (df_group flags) (splitCSV (df_directedUsers flags)) ext body);
      match res with
      | Err err => failed count err
      | Ok r => log LevelInfo "message.send_succeeded" [("to", LogString (df_sendTo flags)); ("message_id", LogInt (rs_MessageID r));
                  ("client_message_id", LogInt (rs_ClientMessageID r)); ("server_timestamp", LogInt (rs_ServerTimestamp r));
                  ("ext_count", LogInt count)]
      end
  end.

Definition probePart : script unit :=
  res ← call (CallREST (RESTFetchUserInfo (seconds 15) [dc_UserID fc] []));
  match res with
  | inr err => log LevelError "rest.probe_failed" (restErrorAttrs err)
  | inl response =>
      log LevelInfo "rest.probe_succeeded" [("status", LogInt (rp_StatusCode response));
        ("request_id", LogString (header_Get (rp_Header response) "X-Request-ID"))]
  end.

Definition setUserPart : script unit :=
  match parseProperties quoted (df_setUser flags) with
  | Err err => log LevelError "rest.set_user_failed" [("error", LogError (Error err))]
  | Ok attrs => reported "set_user" (RESTUpdateOwnUserInfo (seconds 30) attrs)
  end.

(** What is done in a session, up to the signal; the REST calls share a timeout. *)
Definition workPart : script unit :=
  _ ← when (nonEmpty (df_sendTo flags)) sendPart;
  _ ← when (df_probeREST flags) probePart;
  _ ← when (nonEmpty (df_setUser flags)) setUserPart;
  _ ← when (nonEmpty (df_fetchUsers flags))
        (reported "fetch_users" (RESTFetchUserInfo (seconds 30) (splitCSV (df_fetchUsers flags)) (splitCSV (df_fetchProperties flags))));
  _ ← when (nonEmpty (df_createGroup flags))
        (reported "create_group" (RESTCreatePublicGroup (seconds 30) (df_createGroup flags) (splitCSV (df_groupMembers flags))));
  _ ← when (nonEmpty (df_joinGroup flags)) (reported "join_group" (RESTJoinPublicGroup (seconds 30) (df_joinGroup flags)));
  when (nonEmpty (df_leaveGroup flags)) (reported "leave_group" (RESTLeaveGroup (seconds 30) (df_leaveGroup flags))).

Definition shutdownPart : script unit :=
  sig ← call CallSignal;
  _ ← log LevelInfo "shutdown.requested" [("signal", LogString sig)];
  err ← call (CallLogout (seconds 5));
  _ ← match err with Some err => log LevelWarn "logout.failed" [("error", LogError (Error err))] | None => mret tt end;
  log LevelInfo "shutdown.complete" [].

Definition sessionPart : script unit :=
  err ← call (CallLogin (seconds 15) (dc_UserID fc) (dc_Token fc));
  match err with
  | Some err => log LevelError "connection.failed" [("error", LogError (Error err))]
  | None =>
      h ← call CallHealth;
      _ ← log LevelInfo "connection.ready" [("session_id", LogString (fst h)); ("generation", LogInt (snd h))];
      _ ← workPart;
      shutdownPart
  end.
End Main.

(** The status main exits with; the deferred [Close] runs unless [os.Exit] ended the
    process before. *)
Definition demoMain (fs : fileSystem) (env : string -> string) (quoted : string -> string) (json_Valid : string -> bool)
    (flags : demoFlags) : script Z :=
  if String.eqb (df_config flags) "" then _ ← call CallUsage; mret 2 else
  match parseConfig fs env (df_config flags) with
  | Err err => _ ← log LevelError "integration configuration rejected" [("error", LogError (Error err))]; mret 2
  | Ok fc =>
      err ← call (CallNew (dc_AppKey fc) (dc_Domain fc) (dc_Resource fc) (dc_DisableReconnect fc) (df_debug flags));
      match err with
      | Some err => _ ← log LevelError "integration SDK initialization failed" [("error", LogError (Error err))]; mret 1
      | None => _ ← sessionPart quoted json_Valid flags fc; _ ← call CallClose; mret 0
      end
  end.

(** ** The callbacks of the configuration *)

Section Callbacks.
(** [marshalSafeMessage] and [ToJSON] up to the encoding of their documents. *)
Context (marshal : safeMessage -> result string) (marshalProtocol : option messageProtocol -> result string).

Definition jsonAttr (json : result string) : list (string * logValue) :=
  match json with Ok full => [("message_json", LogString full)] | Err _ => [] end.

Definition onWillSend (toJSON : Message -> option messageProtocol) (msg : Message) : logEntry :=
  mkLog LevelInfo "message.will_send"
    ([("meta_id", LogInt (ms_MetaID msg)); ("from", LogString (ms_From msg)); ("to", LogString (ms_To msg));
      ("is_group", LogBool (ms_IsGroup msg))] ++
     match marshalProtocol (toJSON msg) with
     | Ok full => [("message_json", LogString full)]
     | Err err => [("to_json_error", LogError (Error err))]
     end)%list.

Definition messageHandler (msg : Message) : logEntry :=
  mkLog LevelInfo "message.received"
    ([("meta_id", LogInt (ms_MetaID msg)); ("from", LogString (ms_From msg)); ("to", LogString (ms_To msg));
      ("is_group", LogBool (ms_IsGroup msg)); ("body_bytes", LogInt (messageBodyBytes (ms_Body msg)));
      ("ext_count", LogInt (Z.of_nat (size (ms_Ext msg)))); ("online_state", LogOnlineState (ms_OnlineState msg))] ++
     match ms_Body msg with
     | Some b => [("body_type", LogBodyType (bd_Type b)); ("body_text_bytes", LogInt (slen (bd_Text b)));
                  ("body_action", LogString (bd_Action b)); ("body_event", LogString (bd_Event b))]
     | None => []
     end ++ jsonAttr (marshal (safeView msg)))%list.

Definition restErrorHandler (info : RESTErrorInfo) : logEntry :=
  mkLog LevelError "rest.error" [("operation", LogString (ri_Operation info)); ("method", LogString (ri_Method info));
    ("url", LogString (ri_URL info)); ("status", LogInt (ri_Status info)); ("request_id", LogString (ri_RequestID info));
    ("service_code", LogString (ri_ServiceCode info)); ("error", LogError (errorString (Some (ri_Err info))))].
End Callbacks.

(** ** Runs

    The calls of a run, whatever they return, and its status. *)
Fixpoint behaves {A} (m : script A) (tr : list demoCall) (a : A) : Prop :=
  match m with
  | Return b => tr = [] /\ a = b
  | Call c k => match tr with [] => False | c' :: tr => c' = c /\ exists x, behaves (k x) tr a end
  end.

Lemma behaves_bind {A B} (m : script A) (f : A -> script B) tr b :
  behaves (m ≫= f) tr b <-> exists t1 t2 a, tr = (t1 ++ t2)%list /\ behaves m t1 a /\ behaves (f a) t2 b.
Proof.
  split.
  - revert tr. induction m as [a|c k IH]; intros tr H; [by exists [], tr, a|]. destruct tr as [|c' tr]; [done|].
    destruct H as (-> & x & H). destruct (IH x tr H) as (t1 & t2 & a & -> & H1 & H2). exists (c :: t1), t2, a. split_and!; [done| |done].
    split; [done|]. by exists x.
  - intros (t1 & t2 & a & -> & H1 & H2). revert t1 H1. induction m as [a'|c k IH]; intros t1 H1.
    + by destruct H1 as [-> ->].
    + destruct t1 as [|c' t1]; [done|]. destruct H1 as (-> & x & H1). split; [done|]. exists x. by apply IH.
Qed.

(** Every script runs to its end, whatever its calls answer. *)
Lemma behaves_total {A} (m : script A) (oracle : forall c, answer c) : exists tr a, behaves m tr a.
Proof.
  induction m as [a|c k IH]; [by exists [], a|]. destruct (IH (oracle c)) as (tr & a & H). exists (c :: tr), a. split; [done|]. by eexists.
Qed.

(** ** Calls of the SDK *)

Definition isWork (c : demoCall) : bool := match c with CallREST _ | CallSend _ _ => true | _ => false end.
Definition isSend (c : demoCall) : bool := match c with CallSend _ _ => true | _ => false end.
Definition isLocal (c : demoCall) : bool := match c with CallLog _ | CallUsage | CallUnixNano | CallHealth | CallSignal => true | _ => false end.
Definition sdkCalls (tr : list demoCall) : list demoCall := List.filter (fun c => negb (isLocal c)) tr.

Lemma sdkCalls_app a b : sdkCalls (a ++ b) = (sdkCalls a ++ sdkCalls b)%list.
Proof. apply List.filter_app. Qed.

(** [m] only works in the session, with at most [n] sends. *)
Definition works (m : script unit) (n : nat) : Prop :=
  forall tr a, behaves m tr a ->
    Forall (fun c => isWork c = true) (sdkCalls tr) /\ (length (List.filter isSend (sdkCalls tr)) <= n)%nat.

Lemma works_log level msg attrs : works (log level msg attrs) 0.
Proof. intros [|c tr] a H; [done|]. destruct H as (-> & x & [-> _]). by split; [constructor|]. Qed.

Lemma works_bind (m : script unit) (f : unit -> script unit) n k :
  works m n -> (forall x, works (f x) k) -> works (m ≫= f) (n + k).
Proof.
  intros Hm Hf tr b (t1 & t2 & a & -> & H1 & H2)%behaves_bind. apply Hm in H1 as [F1 L1]. apply Hf in H2 as [F2 L2].
  rewrite sdkCalls_app, List.filter_app, length_app. split; [by apply Forall_app|lia].
Qed.

Lemma works_call c (f : answer c -> script unit) n :
  isWork c = true -> (forall x, works (f x) n) -> works (Call c f) ((if isSend c then 1 else 0) + n).
Proof.
  intros Hc Hf [|c' tr] a H; [done|]. destruct H as (-> & x & H). apply Hf in H as [F L].
  assert (sdkCalls (c :: tr) = c :: sdkCalls tr) as -> by (by destruct c). split; [by constructor|].
  cbn [List.filter]. destruct (isSend c); simpl; lia.
Qed.

Lemma works_mono m n k : works m n -> (n <= k)%nat -> works m k.
Proof. intros H Hn tr a Hb. apply H in Hb as [? ?]. split; [done|lia]. Qed.

Lemma works_when b m n : works m n -> works (when b m) n.
Proof. intros H. destruct b; [done|]. intros tr a [-> _]. split; [constructor|simpl; lia]. Qed.

#[local] Hint Resolve works_log works_when : demo.

Lemma works_reported name c : works (reported name c) 0.
Proof. apply (works_call (CallREST c) _ 0); [done|]. intros [r|e]; [apply works_log|]. unfold logRESTError. apply works_log. Qed.

Lemma works_send quoted json_Valid flags fc : works (sendPart quoted json_Valid flags fc) 1.
Proof.
  unfold sendPart. destruct (buildSendBody _ _ _ _ _ _ _) as [body|]; [|by eapply works_mono; [apply works_log|lia]].
  destruct (parseKeyValues _ _ _) as [ext|]; [|by eapply works_mono; [apply works_log|lia]].
  unfold sendTestMessage. cbn [rq_ClientMessageID Z.eqb]. intros [|c tr] a H; [done|]. destruct H as (-> & now & H).
  change (sdkCalls (CallUnixNano :: tr)) with (sdkCalls tr). revert H. apply (works_call (CallSend _ _) _ 0); [done|].
  intros [[r|]|e]; apply works_log.
Qed.

Lemma works_work quoted json_Valid flags fc : works (workPart quoted json_Valid flags fc) 1.
Proof.
  unfold workPart. apply (works_bind _ _ 1 0); [apply works_when, works_send|]. intros _.
  apply (works_bind _ _ 0 0); [apply works_when|intros _].
  { apply (works_call (CallREST _) _ 0); [done|]. intros [r|e]; apply works_log. }
  apply (works_bind _ _ 0 0); [apply works_when|intros _].
  { unfold setUserPart. destruct (parseProperties _ _); [apply works_reported|apply works_log]. }
  do 3 (apply (works_bind _ _ 0 0); [apply works_when, works_reported|intros _]). apply works_when, works_reported.
Qed.

Lemma log_runs level msg attrs tr a : behaves (log level msg attrs) tr a -> sdkCalls tr = [].
Proof. intros H. destruct tr as [|c tr]; [done|]. by destruct H as (-> & x & [-> _]). Qed.

Lemma shutdown_runs tr a : behaves shutdownPart tr a -> sdkCalls tr = [CallLogout (seconds 5)].
Proof.
  unfold shutdownPart. destruct tr as [|c1 tr]; [done|]. intros (-> & sig & H). destruct tr as [|c2 tr]; [done|].
  destruct H as (-> & x2 & H). destruct tr as [|c3 tr]; [done|]. destruct H as (-> & err & H).
  change (sdkCalls (CallLogout (seconds 5) :: tr) = [CallLogout (seconds 5)]).
  apply (behaves_bind (match err with Some err => _ | None => _ end) (fun _ => log LevelInfo "shutdown.complete" [])) in H
    as (t1 & t2 & [] & -> & H1 & H2).
  assert (sdkCalls t1 = []) as H1'.
  { destruct err; [by eapply log_runs|]. by destruct H1 as [-> _]. }
  cbn [sdkCalls List.filter isLocal negb]. fold (sdkCalls (t1 ++ t2)). by rewrite sdkCalls_app, H1', (log_runs _ _ _ _ _ H2).
Qed.

(** The demo uses the SDK in the order of its life cycle, whatever the calls return.
    Without a usable configuration it exits with 2 and never touches the SDK; when
    [New] fails it exits with 1 after that call alone; else it exits with 0 and its
    last call is [Close], exactly once; between the two there is one [Login], with
    the token of the configuration, and, only when that succeeds, the requested
    work, with one [Send] at most, and then one [Logout]. *)
Theorem demo_lifecycle fs env quoted json_Valid flags tr code :
  behaves (demoMain fs env quoted json_Valid flags) tr code ->
  match parseConfig fs env (df_config flags) with
  | Ok fc =>
      if String.eqb (df_config flags) "" then code = 2 /\ sdkCalls tr = [] else
      let new := CallNew (dc_AppKey fc) (dc_Domain fc) (dc_Resource fc) (dc_DisableReconnect fc) (df_debug flags) in
      let login := CallLogin (seconds 15) (dc_UserID fc) (dc_Token fc) in
      code = 1 /\ sdkCalls tr = [new] \/
      code = 0 /\ sdkCalls tr = [new; login; CallClose] \/
      code = 0 /\ exists work, sdkCalls tr = (new :: login :: work ++ [CallLogout (seconds 5); CallClose])%list /\
        Forall (fun c => isWork c = true) work /\ (length (List.filter isSend work) <= 1)%nat
  | Err _ => code = 2 /\ sdkCalls tr = []
  end.
Proof.
  unfold demoMain. destruct (String.eqb (df_config flags) "").
  { intros H. destruct tr as [|c tr]; [done|]. destruct H as (-> & [] & [-> ->]). by destruct (parseConfig _ _ _). }
  destruct (parseConfig _ _ _) as [fc|err].
  2: { intros H. destruct tr as [|c tr]; [done|]. by destruct H as (-> & [] & [-> ->]). }
  intros H. destruct tr as [|c tr]; [done|]. destruct H as (-> & err & H). destruct err as [err|].
  { left. destruct tr as [|c tr]; [done|]. by destruct H as (-> & [] & [-> ->]). }
  right. apply (behaves_bind (sessionPart quoted json_Valid flags fc) (fun _ => _ ← call CallClose; mret 0)) in H
    as (t1 & t2 & [] & -> & H1 & H2).
  destruct t2 as [|c t2]; [done|]. destruct H2 as (-> & [] & [-> ->]).
  cbn [sdkCalls List.filter isLocal negb]. fold (sdkCalls (t1 ++ [CallClose])). rewrite sdkCalls_app.
  destruct t1 as [|c t1]; [done|]. destruct H1 as (-> & err & H1). cbn [sdkCalls List.filter isLocal negb]. fold (sdkCalls t1).
  destruct err as [err|]; [left; split; [done|]; by rewrite (log_runs _ _ _ _ _ H1)|right]. split; [done|].
  destruct t1 as [|c t1]; [done|]. destruct H1 as (-> & h & H1). destruct t1 as [|c t1]; [done|]. destruct H1 as (-> & [] & H1).
  apply (behaves_bind (workPart quoted json_Valid flags fc) (fun _ => shutdownPart)) in H1 as (w & t & [] & -> & Hw & Ht).
  apply works_work in Hw as [Hw Hn]. exists (sdkCalls w). split; [|done].
  cbn [sdkCalls List.filter isLocal negb]. fold (sdkCalls (w ++ t)). rewrite sdkCalls_app, (shutdown_runs _ _ Ht). cbn [app]. by rewrite <- app_assoc.
Qed.

(** A run of the demo: it logs in, sends one message, and shuts down. *)
Definition runFlags : demoFlags :=
  mkFlags "c" "bob" "text" "hi" "" "" "" "" false "" false "" "" "" "" "" "" "" false.
Definition runFiles : fileSystem := openFile ("token: secret" ++ String newline "user_id: alice").
Definition quiet (c : demoCall) : answer c :=
  match c with
  | CallUsage | CallLog _ | CallClose => tt
  | CallNew _ _ _ _ _ | CallLogin _ _ _ | CallLogout _ => None
  | CallHealth => ("session", 1)
  | CallUnixNano => 7
  | CallSend _ _ => Ok (Some (mkSendResult 1 7 1 0))
  | CallREST _ => inr (RestOther (EPlain "no network"))
  | CallSignal => "terminated"
  end.

Fixpoint demoRun {A} (oracle : forall c, answer c) (m : script A) : list demoCall * A :=
  match m with
  | Return a => ([], a)
  | Call c k => let '(tr, a) := demoRun oracle (k (oracle c)) in (c :: tr, a)
  end.

Lemma demoRun_behaves {A} oracle (m : script A) : behaves m (fst (demoRun oracle m)) (snd (demoRun oracle m)).
Proof.
  induction m as [a|c k IH]; [done|]. cbn [demoRun]. specialize (IH (oracle c)). destruct (demoRun oracle (k (oracle c))) as [tr a].
  split; [done|]. by exists (oracle c).
Qed.

Definition sampleRun : list demoCall * Z := demoRun quiet (demoMain runFiles (fun _ => "") id (fun _ => true) runFlags).

Lemma demo_lifecycle_witness :
  snd sampleRun = 0 /\ exists work, length work = 1%nat /\
    sdkCalls (fst sampleRun) = (CallNew "" "" "" false false :: CallLogin (seconds 15) "alice" "secret" :: work ++
      [CallLogout (seconds 5); CallClose])%list.
Proof.
  pose proof (demo_lifecycle runFiles (fun _ => "") id (fun _ => true) runFlags (fst sampleRun) (snd sampleRun)
    (demoRun_behaves quiet (demoMain runFiles (fun _ => "") id (fun _ => true) runFlags))) as H.
  assert (parseConfig runFiles (fun _ => "") (df_config runFlags) = Ok (mkDemoConfig "" "alice" "secret" "" "" false)) as Hc
    by (vm_compute; reflexivity).
  assert (snd sampleRun = 0) as H0 by (vm_compute; reflexivity).
  assert (length (sdkCalls (fst sampleRun)) = 5%nat) as H5 by (vm_compute; reflexivity).
  rewrite Hc in H. destruct H as [[H _]|[[_ H]|[_ (work & H & _)]]].
  - rewrite H0 in H. discriminate H.
  - rewrite H in H5. discriminate H5.
  - split; [exact H0|]. exists work. split; [|exact H]. rewrite H in H5. cbn [length] in H5. rewrite length_app in H5. simpl in H5. lia.
Defined.

(** ** What is not logged *)

(** [msg] with another text of the same length. *)
Definition withText (text : string) (msg : Message) : Message :=
  mkMessage (ms_From msg) (ms_To msg) (ms_IsGroup msg) (ms_MetaID msg) (ms_Timestamp msg)
    ((fun b => mkBody (bd_Type b) text (bd_Action b) (bd_Event b) (bd_CustomExts b) (bd_RawType b) (bd_RawPayload b)) <$> ms_Body msg)
    (ms_Ext msg) (ms_OnlineState msg) (ms_protocol msg).

(** The record of a received message tells nothing of its text but the length. *)
Lemma received_text_private marshal msg text :
  (forall b, ms_Body msg = Some b -> slen text = slen (bd_Text b)) ->
  messageHandler marshal (withText text msg) = messageHandler marshal msg.
Proof.
  intros H. unfold messageHandler, withText, safeView. destruct msg as [from to g id ts [b|] ext st p]; [|done]. cbn in *.
  by rewrite (H b eq_refl).
Qed.

(** The token goes to [Login] and nowhere else: with another one, the same answers
    lead to the same calls and records. *)
Lemma session_token_private quoted json_Valid flags fc token tr a :
  behaves (sessionPart quoted json_Valid flags fc) tr a ->
  exists tr', tr = CallLogin (seconds 15) (dc_UserID fc) (dc_Token fc) :: tr' /\
    behaves (sessionPart quoted json_Valid flags (set_token fc token)) (CallLogin (seconds 15) (dc_UserID fc) token :: tr') a.
Proof.
  destruct fc as [k u t d r x]. cbn. destruct tr as [|c tr]; [done|]. intros (-> & err & H). exists tr. split; [done|].
  split; [done|]. exists err. exact H.
Qed.
