(* ===== verification/Health.v ===== *)
(** * The health of a client

    sdk/client.go: [Health], [Connected], [LoginState], [TokenExpiresAt]: a snapshot
    under the lock of the Client (Lifecycle), of the queues of its run (Queue), of
    the budgets (ByteBudget) and of counters. *)
From Stdlib Require Import String.
From S2P Require Import Prelude Protocol Errors Config ByteBudget Queue QueueInvariant QueueTheory Callbacks Endpoints Identifiers Lifecycle LifecycleInvariant LifecycleTheory.
Local Open Scope string_scope.
Local Open Scope Z_scope.

Record HealthStatus := mkHealth {
  hs_Connected : bool; hs_SessionID : string; hs_LoginState : LoginState; hs_ConnectionGeneration : Z;
  hs_LastInbound : option Z; hs_WriteBacklog : Z;
  hs_QueueBacklog : Z; hs_KnownQueues : Z; hs_DeferredQueues : Z; hs_OutstandingPulls : Z;
  hs_QueueTrackedBytes : Z; hs_QueueCapacityRejects : Z;
  hs_ClientBatchBacklogBytes : Z; hs_ProcessBatchBacklogBytes : Z; hs_ProcessDecodeInFlightBytes : Z;
  hs_ClientBatchBudgetRejects : Z; hs_ProcessBatchBudgetRejects : Z; hs_DecodeAdmissionTimeouts : Z;
  hs_DNSGeneration : Z; hs_MSyncCandidateCount : Z; hs_MSyncNextCandidate : Z;
  hs_CallbackEventsDropped : Z; hs_TerminalCallbackPending : bool; hs_LastError : string;
  hs_TokenExpiresAt : Z; hs_StuckHandlers : Z }.

(** What the snapshot reads besides the state of the lifecycle: the atomics of the
    Client and of the process, and of each run the length of its write queue and
    its queues. *)
Record gauges := mkGauges {
  ga_generation : Z; ga_lastInbound : Z; ga_writes : nat -> Z; ga_queues : nat -> Queue.connectionRun;
  ga_batchBudget : option byteBudget; ga_processBatch : byteBudget; ga_processDecode : byteBudget;
  ga_clientBatchRejects : Z; ga_processBatchRejects : Z; ga_decodeTimeouts : Z; ga_stuckHandlers : Z }.

Definition Health (w : world) (g : gauges) : HealthStatus :=
  let c := w_client w in
  let cs := sy_state (w_cb w) in
  let '(backlog, known, deferred, pulls, tracked, rejects) :=
    match cl_run c with Some r => queueHealth (ga_queues g r) | None => (0, 0, 0, 0, 0, 0) end in
  mkHealth (bool_decide (cl_connState c = ConnStateConnected)) (cl_sessionID c) (cl_state c) (ga_generation g)
    (if ga_lastInbound g >? 0 then Some (ga_lastInbound g) else None)
    (match cl_run c with Some r => ga_writes g r | None => 0 end)
    backlog known deferred pulls tracked rejects
    (match ga_batchBudget g with Some b => bb_used b | None => 0 end) (bb_used (ga_processBatch g)) (bb_used (ga_processDecode g))
    (ga_clientBatchRejects g) (ga_processBatchRejects g) (ga_decodeTimeouts g)
    (cl_dnsGeneration c) (zlen (cl_msyncHosts c)) (cl_msyncCursor c)
    (cs_callbackDrops cs) (is_some (cs_terminalCallback cs))
    (match cl_lastErr c with Some err => Error err | None => "" end)
    (cl_tokenExpiresAt c) (i64 (ga_stuckHandlers g)).

Definition Connected (w : world) : bool := bool_decide (cl_connState (w_client w) = ConnStateConnected).
Definition Client_LoginState (w : world) : LoginState := cl_state (w_client w).
Definition TokenExpiresAt (w : world) : Z * bool :=
  let t := cl_tokenExpiresAt (w_client w) in (t, negb (time_IsZero t)).

Definition isClosed (w : world) : bool := w_closed w.
Definition currentUserID (w : world) : string := cl_userID (w_client w).

(** [setStates], which nothing in the SDK calls any more: the callback, if the state of
    the connection changed. *)
Definition setStates (cb : callbacks) (login : LoginState) (conn : ConnState) (w : world) : world :=
  let changed := negb (bool_decide (cl_connState (w_client w) = conn)) in
  emitState cb changed (epochOf w) (cl_userID (w_client w)) conn (upd_client (fun c => set_connState conn (set_state login c)) w).

(** Every queue of the counts is one of the tracked ones. *)
Lemma queueHealth_pulls r : let '(_, known, _, pulls, _, _) := queueHealth r in 0 <= pulls <= known.
Proof.
  unfold queueHealth. cbn. split; [unfold zlen; lia|]. unfold zlen.
  rewrite <-length_map_to_list. pose proof (filter_length_le (fun kl => match r_heap r !! snd kl with
    | Some q => q_pullQueued q || q_pullInFlight q | None => false end) (map_to_list (queues_of r))). lia.
Qed.

Section Consistency.
Context (cb : callbacks) (disableReconnect : bool) (url_Parse : string -> result urlParts) (url_String : urlParts -> string).

(** The snapshot is consistent in every reachable state of the lifecycle, with the
    queues of the run in any state the scheduler reaches: it reports connected
    exactly when the login state is logged in; logged out it reports no session,
    no endpoint, no token and no backlog; the pulls are among the known queues,
    and these within the capacity of a connection. *)
Theorem health_consistent ops s g gen pb c qops qs :
  Z.of_nat (length ops) < 2 ^ 64 ->
  lifeRun cb disableReconnect url_Parse url_String startLife ops = Some s ->
  fresh_run gen pb c -> queueRun (startPullScheduler (Queue.newRun gen pb c)) qops = Some qs ->
  (forall r, cl_run (w_client (ls_world s)) = Some r -> ga_queues g r = qs_run qs) ->
  let h := Health (ls_world s) g in
  (hs_Connected h = true <-> hs_LoginState h = LoginStateLoggedIn) /\
  (hs_LoginState h = LoginStateLogout ->
     hs_SessionID h = "" /\ hs_MSyncCandidateCount h = 0 /\ hs_WriteBacklog h = 0 /\ hs_KnownQueues h = 0 /\
     hs_OutstandingPulls h = 0 /\ hs_QueueTrackedBytes h = 0 /\ TokenExpiresAt (ls_world s) = (zeroTime, false)) /\
  0 <= hs_OutstandingPulls h <= hs_KnownQueues h /\ hs_KnownQueues h <= 4096.
Proof.
  intros Hn Hr Hf Hq Hg h.
  pose proof (co_state _ _ (sy_client _ _ (reachable_ok _ _ _ _ _ _ Hn Hr))) as Hs. unfold stateOk in Hs.
  destruct (queueRun_inv _ _ _ Hq (newRun_inv _ _ _ Hf)) as [Ha _]. apply tracked_count in Ha.
  pose proof (queueHealth_pulls (qs_run qs)) as Hp. unfold h, Health. split_and!.
  - destruct (match cl_run _ with Some r => _ | None => _ end) as [[[[[? ?] ?] ?] ?] ?]. cbn.
    rewrite bool_decide_eq_true. clear - Hs.
    destruct (cl_state (w_client (ls_world s))); destruct_and? Hs; split; congruence.
  - destruct (match cl_run _ with Some r => _ | None => _ end) as [[[[[? ?] ?] ?] ?] ?] eqn:E. cbn. intros El. rewrite El in Hs.
    destruct Hs as ((H1 & _ & _ & H4) & _ & _ & H5 & _ & H6 & _). rewrite H1 in E. injection E as <- <- <- <- <- <-.
    rewrite H1, H5, H6. unfold TokenExpiresAt. by rewrite H4.
  - destruct (cl_run _) as [r|] eqn:E; cbn; [|lia]. rewrite (Hg r eq_refl). unfold queueHealth in *. cbn. lia.
  - destruct (cl_run _) as [r|] eqn:E; cbn; [|lia]. rewrite (Hg r eq_refl). unfold queueHealth in *. cbn in *. lia.
  - destruct (cl_run _) as [r|] eqn:E; cbn; [|lia]. rewrite (Hg r eq_refl). unfold queueHealth. cbn. assert (Z.of_nat maxTrackedQueues = 4096) by reflexivity. lia.
Qed.
End Consistency.

Definition gauges_w : gauges :=
  mkGauges 1 0 (fun _ => 0) (fun _ => qs_run demo_sys) None demo_pb demo_pb 0 0 0 0.

Lemma health_consistent_witness :
  let h := Health (ls_world (after (loginOps ++ commitOps)%list)) gauges_w in
  hs_LoginState h = LoginStateLoggedIn /\ hs_Connected h = true /\ hs_KnownQueues h = 1 /\ hs_OutstandingPulls h <= hs_KnownQueues h.
Proof.
  intros h. assert (hs_LoginState h = LoginStateLoggedIn) as El by (by vm_compute).
  destruct (health_consistent allCallbacks false noURL (fun _ => "") (loginOps ++ commitOps)%list (after (loginOps ++ commitOps)%list) gauges_w 1 demo_pb demo_client demo_ops demo_sys)
    as (H1 & _ & H2 & _); [by vm_compute|apply after_reached; by vm_compute|exact demo_fresh|exact demo_reached|done|].
  split_and!; [exact El|by apply H1|by vm_compute|apply H2].
Defined.
